(* ===== verification/_CoqProject ===== *)
-Q . S2P
Prelude.v
Words.v
Checksum.v
HashMap.v
HashMapFacts.v
HashMapSpec.v
HashMapTrace.v
HashMapGrowth.v
HashMapIter.v
LinkedList.v
LinkedListFacts.v
LinkedListSpec.v
LinkedListIter.v
Format.v
World.v
Wp.v
Tun.v
NetInterface.v
NetFacts.v
NetSpec.v
Arp.v
ArpFacts.v
ArpSpec.v
ArpThreads.v
ArpThreadsFacts.v
ArpThreadsSpec.v
ArpRaces.v
Ip.v
IpFacts.v
IpSpec.v
Icmp.v
Transport.v
TunSetup.v
Stack.v
StackFacts.v
StackSpec.v
TransportSpec.v
Shutdown.v
InitSpec.v
Threads.v
Races.v
Server.v
HashMapAccess.v
HashMapAccessFacts.v
HashMapAccessSpec.v
ArpAccess.v
ArpCost.v
