(* ===== verification/Prelude.v ===== *)
(** * tcp-ip-layer: a user-space TCP/IP stack on a TAP device

    This library models the C program under src/src/ (the stack) and proves what its
    parts do.  Definitions keep the names of the C functions.

    ** The program

    [main] opens ten queues of one TAP device (tun_device.c), sets the addresses of the
    interface (net_interface.c), creates the ARP translation table (protocols/arp.c, over
    collections/hashmap.c) and starts ten threads.  Each runs [process_io] (main.c): read a
    frame into its own buffer of 100 bytes, then dispatch on the ether type to
    [arp_receive] or [ip_receive] (protocols/ip.c), which dispatches on the protocol to
    [icmp_receive], [tcp_receive] or [udp_receive].  Answers go down through
    [ip_send_packet], [arp_resolve_ipv4] and [net_interface_send] to [tun_write].  On
    [exit] a handler prints and frees the table and frees the send buffers.

    ** Model

    - Memory is a map from blocks to bytes; a pointer is a block and an offset, every
      access is checked.  C structures are offsets into a block, as the packed structures
      of the program are laid over its packet buffers.  Integers are [Z] cut to their width
      with [u8], [u16], [u32], [u64], or converted to [int] with [i32]; the host is
      little-endian.
    - The static variables, the held mutexes, the traffic with the kernel and the output
      are fields of one [world] (World.v).  A function is [world -> outcome A]: it returns,
      ends the process ([exit], [abort] and failing [assert]), blocks, or is undefined,
      with the kind of fault.  Theorems that a call returns [Ok] therefore include that it
      stays in bounds, frees what it may, and terminates.
    - Pointer parameters that the program never passes as [NULL] have the type [ptr]; their
      [assert(p != NULL)] holds by the type.  Pointers that can be [NULL] have type [vptr].
    - [open], [ioctl], [system], [inet_pton] and the name of the interface are parameters;
      [read] answers from a list of events, [write] appends to a list of frames; with a
      negative count both fail at once.
      [linked_list_pop], called by linked_list.c and defined nowhere, is a parameter.
    - What a read of the element after the array of the hash map yields (hashmap.c:232, 256)
      is the parameter [past]: [None] makes it undefined, [Some b] is a used mark that is
      read.  The value of uninitialised memory is the field [w_junk] ([h_junk] for lists).

    ** Files

    - Prelude.v: the type [res], lemmas on lists, slices and bytes shared by all files.
      Words.v: machine words, [le_load] and [le_store], [htons] and the like.
    - Checksum.v: utils/protocols.c and utils/protocols.h.
    - HashMap.v: collections/hashmap.c, generic in keys with their [hash] and [equals]
      ([KeyOps], laws in [KeyLaws]); HashMapFacts.v its invariant [hm_inv] and the probing
      lemmas, HashMapSpec.v the contracts of the operations, HashMapTrace.v whole runs,
      HashMapGrowth.v the table between two rounds of [hashmap_expand], HashMapIter.v the
      iterator.
    - LinkedList.v, LinkedListFacts.v, LinkedListSpec.v, LinkedListIter.v:
      collections/linked_list.c, a component of its own that the stack does not use.
    - Format.v: utils/log.c and the conversions of [printf].
    - World.v: the state, the monad, memory, mutexes, output, and the macros of
      utils/log.h; Wp.v: weakest preconditions for it.
    - Tun.v: queues and input/output of tun_device.c; TunSetup.v: its set-up, with
      utils/runtime_utils.c.
    - NetInterface.v: protocols/ethernet.c and net_interface.c; NetFacts.v its invariant
      [net_inv]; NetSpec.v the theorems.
    - Arp.v: protocols/arp.c; ArpFacts.v the invariant [arp_inv] of the table and its cells;
      ArpSpec.v the algorithm [rfc826] and the refinement.
    - ArpThreads.v: threads that record senders and look up addresses on one table, cut at
      the sections of arp.c ([thread_step], [step]), and the runs in which an unlocked lookup
      may count as one section ([quiet_run]); ArpThreadsFacts.v their invariant,
      ArpThreadsSpec.v what holds in every such run, ArpRaces.v what goes wrong.
    - HashMapAccess.v: [hashmap_put] and [hashmap_get_or_default] cut at their single accesses
      to shared memory; HashMapAccessFacts.v the stores of the writer and what they guarantee
      to the readers, HashMapAccessSpec.v what a lookup without the lock may rely on.
      ArpAccess.v what such a lookup does to the translation table, ArpCost.v how long a
      lookup takes when all hosts are of one network.
    - Ip.v, IpFacts.v, IpSpec.v: protocols/ip.c but for [ip_receive].
    - Icmp.v: protocols/icmp.c.  Transport.v: protocols/tcp.c and protocols/udp.c;
      TransportSpec.v their theorems.
    - Stack.v: [ip_receive] and main.c; StackFacts.v and StackSpec.v: the specification
      [react] of one frame and the theorems on the whole stack.
    - Shutdown.v: the exit handler.  InitSpec.v: set-up and initialisation.
    - Threads.v: the interleavings of the threads on the queues.  Races.v: two sends on one
      queue.  Server.v: the whole program, ten threads cut at the sections of their rounds.

    ** What is proved

    - The stack: [process_frame] refines [react] on every frame and every well-formed state
      ([process_frame_follows]), [process_io] serves any harmless sequence of frames
      ([process_io_serves]), [main] establishes the state that this needs
      ([main_init_ready]), an echo request is answered ([ping_answered]), the exit handler
      frees everything ([exit_handler_frees_all]).  Together: from the start of [main] the
      ten threads serve what [react] composes, in every schedule of the sections of their
      rounds in which one thread at a time handles its frame ([main_serves]).
    - ARP: reception refines the algorithm of RFC 826 on a map from protocol addresses to
      hardware addresses, resolution returns the cached address or sends one request.
    - The table under threads: in every run in which no unlocked lookup overlaps a growth of the
      table (and no two threads copy into one cell at a time) it is well-formed whenever no
      thread enlarges it and holds announced addresses only ([learning_safe]), and nothing
      goes wrong or is stuck ([learning_progress]); with room in the table every run ends with
      every sender recorded ([few_hosts_are_learned]).  A lookup during a growth is reachable and
      ends the process ([growth_aborts_learning], with [growth_hides_entries] for the table
      alone), and so is a leak of cells ([double_learning_leaks]).
    - Single accesses: beside insertions for which the table has room, an unlocked lookup of a
      stored key is atomic and ends ([lookups_beside_puts]), which justifies the lookup
      sections of ArpThreads.v in the runs [quiet_run]; beside a growth it stays inside blocks of the table,
      but these may have been freed ([lookups_stay_in_blocks], [growth_frees_the_array]), and
      it may return the cell of another host ([growth_poisons_table]).
    - Cost: the hosts of one network collide, a lookup walks through all of them
      ([subnet_lookup_is_linear]).
    - Hash map: allocation, lookup, insertion, growth, [hashmap_clear] and (at the end of a
      probe chain) removal refine the operations of a finite map, one by one and in whole
      runs ([table_refinement]); the probing loop ends ([indexof_terminates]); the iterator delivers every entry once.
    - Linked list: both ends refine a double-ended queue, the iterator delivers the contents.
    - Network interface and IPv4: exactly one frame with the right bytes leaves, buffers
      and locks are restored, other memory is kept; for frames below [2 ^ 31] bytes, beyond
      which the count of [tun_write] and [tun_read] is negative ([tun_long_count]).
    - Checksums: [sum16] is the sum of RFC 1071, filling verifies, single-word errors are
      detected; [tcp_header_check] is the test of RFC 793 when no carry is lost, and rejects
      every valid segment otherwise ([tcp_check_correct]).
    - Limits and defects, each a theorem about the same definitions: 16-bit and 32-bit
      wrap-arounds, missing length checks, the read after the arrays of the hash map and of
      the queues, the races on the queues (mixed frames, a read of a freed buffer) and on the
      translation table, the error paths of [tun_alloc] and of [read], removal in the middle of a probe chain,
      [linked_list_concat] and [linked_list_it_remove].

    ** Bounds and fuel

    - [probe] has [capacity] rounds: the index is the only state of the loop, and
      [probe_fuel_exact] shows that it returns exactly when the C loop ends.
    - [scan] has [capacity + 2] rounds and reaches its exit at [capacity]; [destroy_loop]
      and [it_collect] have one more than there are slots.
    - [put_depth] allows one nested call: the table just doubled is below the load factor.
    - [alone], the sections of one thread in a row, has as many rounds as there are slots and
      five more ([set_sections], [add_sections]); [step] needs no fuel.
    - [put_writes 1] allows one nested call like [put_depth 1]; [lookup_alone] is cut after a
      number of accesses, of which [4 * capacity + 4] suffice ([lookup_alone_correct]).
    - [fold_carry] has 3 rounds ([fold_carry_terminates]); [busy_scan] has 11, one more than
      there are queues, which leaves the array.
    - [process_io] is the infinite loop cut after a number of rounds, for every number.

    ** Not modelled

    - Failing allocation: [malloc] and [calloc] return a fresh block.  The sizes and
      capacities of hash tables do not reach the width of [long], since the elements
      occupy 24 bytes each.
    - Weak memory: in Threads.v, Races.v, ArpThreads.v and Server.v the sections of the threads
      are steps, in HashMapAccess.v the single accesses to a sequentially consistent memory.
      The steps that are not atomic in the program are named in the hypotheses: [handle_frame]
      in Server.v ([plan]), the unlocked lookup and the copy of an address in ArpThreads.v
      ([quiet_run]).
      In the memory model of C the unlocked [hashmap_get] of arp.c is a data race with
      [hashmap_put], undefined as such.  The readers of HashMapAccess.v call the hash and
      [equals] in one step: keys do not change while they are in the table.
    - Frames of several threads handled at the same time, in full: two sends on one queue can
      read freed memory already (Races.v), so no more than Server.v holds.
    - The idle loop of [main] and [pthread_create] itself; [struct
      icmp_v4_dst_unreachable], which no function uses.
    - src/tests/ (a test harness and tests of the hash map, with random keys), src/testing/
      (scripts), the Makefile and the README: no code of the program. *)

From Stdlib Require Export ZArith Lia Bool.
From stdpp Require Export gmap list strings fin_maps option.
#[global] Open Scope Z_scope.

(** ** Results of C operations

    A C operation either delivers a value or goes wrong.  [fault] names the
    ways it goes wrong: the first group is undefined behaviour of C, [Diverges]
    is a loop that does not terminate. *)
Inductive fault :=
| OutOfBounds
| NullDeref
| Dangling
| BadFree
| SignedOverflow
| Diverges.

Inductive res (A : Type) :=
| Val (a : A)
| Fault (f : fault).
Arguments Val {A} a.
Arguments Fault {A} f.

#[global] Instance fault_eq_dec : EqDecision fault.
Proof. solve_decision. Defined.
#[global] Instance res_eq_dec `{EqDecision A} : EqDecision (res A).
Proof. solve_decision. Defined.

#[global] Instance res_ret : MRet res := fun A a => Val a.
#[global] Instance res_bind : MBind res := fun A B k m =>
  match m with Val a => k a | Fault f => Fault f end.

Definition is_val {A} (r : res A) : Prop := exists a, r = Val a.

(** ** Tactics *)

(** Split a conjunction or an existential in the context, once each. *)
Ltac destr_all :=
  repeat match goal with
         | H : _ /\ _ |- _ => destruct H
         | H : exists _, _ |- _ => destruct H
         end.

(** Case analysis on a boolean comparison of [Z] or [nat] in the goal. *)
Ltac cases_Z :=
  repeat match goal with
         | |- context [Z.eqb ?a ?b] => destruct (Z.eqb_spec a b)
         | |- context [Z.leb ?a ?b] => destruct (Z.leb_spec a b)
         | |- context [Z.ltb ?a ?b] => destruct (Z.ltb_spec a b)
         end.

(** Turn boolean hypotheses on [Z] into propositions and call [lia]. *)
Ltac blia :=
  repeat match goal with
         | H : Is_true _ |- _ => apply Is_true_true in H
         | H : (_ && _) = true |- _ => apply andb_true_iff in H; destruct H
         | H : (_ =? _)%Z = true |- _ => apply Z.eqb_eq in H
         | H : (_ =? _)%Z = false |- _ => apply Z.eqb_neq in H
         | H : (_ <=? _)%Z = true |- _ => apply Z.leb_le in H
         | H : (_ <=? _)%Z = false |- _ => apply Z.leb_gt in H
         | H : (_ <? _)%Z = true |- _ => apply Z.ltb_lt in H
         | H : (_ <? _)%Z = false |- _ => apply Z.ltb_ge in H
         end; lia.

(** Name the elements of a list of known length. *)
Ltac explode l :=
  repeat match goal with
         | H : length l = O |- _ => apply nil_length_inv in H; subst l
         | H : length l = S _ |- _ =>
             let x := fresh "b" in
             let l' := fresh "l" in
             destruct l as [|x l']; [discriminate H|];
             cbn [length] in H; injection H as H; explode l'
         end.

(** ** Arithmetic on powers of two *)

Lemma land_mask (a n : Z) : 0 <= n -> Z.land a (2 ^ n - 1) = a mod 2 ^ n.
Proof.
  intros Hn. replace (2 ^ n - 1) with (Z.ones n) by (rewrite Z.ones_equiv; lia).
  by apply Z.land_ones.
Qed.

Lemma mod_of_eq (a b n q : Z) : 0 <= b < n -> a = n * q + b -> a mod n = b.
Proof. intros Hb ->. symmetry. apply (Z.mod_unique_pos _ _ q); lia. Qed.

Lemma div_of_eq (a b n q : Z) : 0 <= b < n -> a = n * q + b -> a / n = q.
Proof. intros Hb ->. symmetry. apply (Z.div_unique_pos _ _ _ b); lia. Qed.

(** ** Pieces of lists

    [slice off n l] is the [n] elements of [l] from index [off]; [splice off bs
    l] is [l] with the elements from [off] overwritten by [bs]. *)
Section Slices.
Context {A : Type}.
Implicit Types (l bs : list A) (off n : nat).

Definition slice off n l : list A := take n (drop off l).

Definition splice off bs l : list A :=
  take off l ++ bs ++ drop (off + length bs) l.

Lemma length_slice off n l : (off + n <= length l)%nat -> length (slice off n l) = n.
Proof. intros H. unfold slice. rewrite length_take, length_drop. lia. Qed.

Lemma length_splice off bs l :
  (off + length bs <= length l)%nat -> length (splice off bs l) = length l.
Proof.
  intros H. unfold splice. rewrite !length_app, length_take, length_drop. lia.
Qed.

Lemma slice_splice_same off n bs l :
  length bs = n -> (off + n <= length l)%nat -> slice off n (splice off bs l) = bs.
Proof.
  intros <- H. unfold slice, splice.
  rewrite drop_app_ge by (rewrite length_take; lia).
  replace (off - length (take off l))%nat with O by (rewrite length_take; lia).
  rewrite drop_0. by rewrite take_app_length.
Qed.

Lemma lookup_splice off bs l i :
  (off + length bs <= length l)%nat ->
  splice off bs l !! i =
    if decide (off <= i < off + length bs)%nat then bs !! (i - off)%nat else l !! i.
Proof.
  intros H. unfold splice. case_decide as Hi.
  - rewrite lookup_app_r by (rewrite length_take; lia).
    rewrite length_take. replace (i - off `min` length l)%nat with (i - off)%nat by lia.
    apply lookup_app_l. lia.
  - destruct (decide (i < off)%nat) as [Hlt|Hge].
    + rewrite lookup_app_l by (rewrite length_take; lia). by apply lookup_take_lt.
    + rewrite lookup_app_r by (rewrite length_take; lia).
      rewrite lookup_app_r by (rewrite length_take; lia).
      rewrite lookup_drop. f_equal. rewrite length_take. lia.
Qed.

Lemma lookup_slice off n l i :
  slice off n l !! i = if decide (i < n)%nat then l !! (off + i)%nat else None.
Proof.
  unfold slice. case_decide.
  - rewrite lookup_take_lt by done. apply lookup_drop.
  - apply lookup_take_ge. lia.
Qed.

Lemma slice_splice_disjoint off n off' bs l :
  (off' + length bs <= length l)%nat ->
  (off + n <= off' \/ off' + length bs <= off)%nat ->
  slice off n (splice off' bs l) = slice off n l.
Proof.
  intros Hl Hd. apply list_eq. intros i. rewrite !lookup_slice. case_decide; [|done].
  rewrite lookup_splice by done. case_decide; [lia|done].
Qed.

Lemma Forall_splice (P : A -> Prop) off bs l :
  Forall P bs -> Forall P l -> Forall P (splice off bs l).
Proof.
  intros Hb Hl. unfold splice. rewrite !Forall_app.
  eauto using Forall_take, Forall_drop.
Qed.

Lemma Forall_slice (P : A -> Prop) off n l : Forall P l -> Forall P (slice off n l).
Proof. intros Hl. by apply Forall_take, Forall_drop. Qed.

Lemma take_splice n off bs l :
  (off + length bs <= n)%nat -> (off + length bs <= length l)%nat ->
  take n (splice off bs l) = splice off bs (take n l).
Proof.
  intros Hn Hl. apply list_eq. intros i. destruct (decide (i < n)%nat) as [Hi|Hi].
  - rewrite lookup_take_lt, !lookup_splice by (rewrite ?length_take; lia).
    case_decide; [done|]. by rewrite lookup_take_lt.
  - rewrite !lookup_ge_None_2; [done| |rewrite length_take; lia].
    rewrite length_splice; rewrite length_take; lia.
Qed.

Lemma splice_all bs l : length bs = length l -> splice 0 bs l = bs.
Proof.
  intros H. unfold splice. rewrite take_0, drop_ge by lia. by rewrite app_nil_r.
Qed.
End Slices.

(** The sum over a list when one element changes. *)
Lemma sum_insert {A} (f : A -> nat) l t x y :
  l !! t = Some x ->
  (sum_list_with f (<[t := y]> l) + f x = sum_list_with f l + f y)%nat.
Proof.
  revert t. induction l as [|z l IH]; intros [|t] Ht; simplify_eq/=; [lia|].
  specialize (IH t Ht). lia.
Qed.

#[global] Arguments slice : simpl never.
#[global] Arguments splice : simpl never.

(** Arithmetic on the lengths of slices and splices. *)
Ltac slen :=
  rewrite ?length_app, ?length_replicate;
  repeat match goal with
         | |- context [length (splice ?o ?b ?l)] => rewrite (length_splice o b l) by slen
         | |- context [length (slice ?o ?n ?l)] => rewrite (length_slice o n l) by slen
         end; lia.

Create HintDb slices.
#[export] Hint Resolve Forall_splice Forall_slice : slices.
Create Rewrite HintDb slice_norm.
#[export] Hint Rewrite @length_slice @length_splice using lia : slice_norm.
