(* ===== verification/Words.v ===== *)
(** * Machine words, bytes and network byte order

    The integers of the program are [Z] kept in range by an explicit wrap:
    [u16], [u32], [u64] are the conversions of C to the unsigned types, [i32] is the one
    to [int].  A byte is
    a [Z] between 0 and 255.  The host is the little-endian machine of the
    Makefile (x86-64 Linux): [le_load] and [le_store] are what a C access to a
    [uintN_t] in a packed structure does, and [htons], [htonl], [ntohs], [ntohl]
    are the functions of [arpa/inet.h] on such a host. *)

From S2P Require Import Prelude.

Definition u8 (z : Z) : Z := z mod 2 ^ 8.
Definition u16 (z : Z) : Z := z mod 2 ^ 16.
Definition u32 (z : Z) : Z := z mod 2 ^ 32.
Definition u64 (z : Z) : Z := z mod 2 ^ 64.

(** The conversion of a [uint32_t] to [int]: the upper half of the range is negative. *)
Definition i32 (z : Z) : Z :=
  let u := u32 z in if u <? 2 ^ 31 then u else u - 2 ^ 32.

Lemma i32_small z : 0 <= z < 2 ^ 31 -> i32 z = z.
Proof.
  intros Hz. unfold i32, u32. rewrite Z.mod_small by lia. by rewrite (proj2 (Z.ltb_lt _ _)) by lia.
Qed.

Lemma i32_large z : 2 ^ 31 <= z < 2 ^ 32 -> i32 z = z - 2 ^ 32.
Proof.
  intros Hz. unfold i32, u32. rewrite Z.mod_small by lia. by rewrite (proj2 (Z.ltb_ge _ _)) by lia.
Qed.

Definition is_byte (b : Z) : Prop := 0 <= b < 256.
Abbreviation bytes_ok := (Forall is_byte).

(** Prove [bytes_ok] of an explicit list. *)
Ltac bytes :=
  repeat first [apply List.Forall_nil | apply List.Forall_cons];
  unfold is_byte in *; try lia.

(** ** Loads and stores *)

Fixpoint le_load (bs : list Z) : Z :=
  match bs with
  | [] => 0
  | b :: bs => b + 256 * le_load bs
  end.

Fixpoint le_store (n : nat) (v : Z) : list Z :=
  match n with
  | O => []
  | S n => v mod 256 :: le_store n (v / 256)
  end.

(** Network order: most significant byte first. *)
Definition be_load (bs : list Z) : Z := le_load (reverse bs).
Definition be_store (n : nat) (v : Z) : list Z := reverse (le_store n v).

(** Swapping the byte order of a word of [n] bytes: reread its bytes in the other
    order. *)
Definition bswap (n : nat) (v : Z) : Z := le_load (be_store n v).

Definition htons (v : Z) : Z := bswap 2 v.
Definition ntohs (v : Z) : Z := bswap 2 v.
Definition htonl (v : Z) : Z := bswap 4 v.
Definition ntohl (v : Z) : Z := bswap 4 v.

(** ** Lemmas *)

Lemma length_le_store n v : length (le_store n v) = n.
Proof. revert v. induction n; intros v; cbn; auto. Qed.

Lemma length_be_store n v : length (be_store n v) = n.
Proof. unfold be_store. rewrite length_reverse. apply length_le_store. Qed.

Lemma le_store_bytes n v : bytes_ok (le_store n v).
Proof.
  revert v. induction n; intros v; cbn; constructor; auto.
  unfold is_byte. apply Z.mod_pos_bound. lia.
Qed.

Lemma be_store_bytes n v : bytes_ok (be_store n v).
Proof. apply Forall_reverse, le_store_bytes. Qed.

Lemma le_load_bounds bs : bytes_ok bs -> 0 <= le_load bs < 256 ^ Z.of_nat (length bs).
Proof.
  induction 1 as [|b bs Hb Hbs IH]; [cbn; lia|]. unfold is_byte in Hb.
  cbn [length le_load]. rewrite Nat2Z.inj_succ, Z.pow_succ_r by lia. nia.
Qed.

Lemma le_load_store n v : le_load (le_store n v) = v mod 256 ^ Z.of_nat n.
Proof.
  revert v. induction n as [|n IH]; intros v; [cbn; by rewrite Z.mod_1_r|].
  cbn [le_load le_store]. rewrite IH, Nat2Z.inj_succ, Z.pow_succ_r by lia.
  rewrite Z.rem_mul_r by lia. lia.
Qed.

Lemma le_store_load bs : bytes_ok bs -> le_store (length bs) (le_load bs) = bs.
Proof.
  induction 1 as [|b bs Hb Hbs IH]; [done|]. unfold is_byte in Hb.
  cbn [length le_load le_store].
  rewrite (mod_of_eq _ b _ (le_load bs)) by lia.
  rewrite (div_of_eq _ b _ (le_load bs)) by lia. by rewrite IH.
Qed.

Lemma le_store_load_n n bs : bytes_ok bs -> length bs = n -> le_store n (le_load bs) = bs.
Proof. intros H <-. by apply le_store_load. Qed.

Lemma be_load_bounds bs : bytes_ok bs -> 0 <= be_load bs < 256 ^ Z.of_nat (length bs).
Proof.
  intros H. unfold be_load. rewrite <- length_reverse.
  by apply le_load_bounds, Forall_reverse.
Qed.

Lemma be_load_store n v : be_load (be_store n v) = v mod 256 ^ Z.of_nat n.
Proof. unfold be_load, be_store. rewrite reverse_involutive. apply le_load_store. Qed.

Lemma be_store_load n bs : bytes_ok bs -> length bs = n -> be_store n (be_load bs) = bs.
Proof.
  intros Hb Hl. unfold be_load, be_store.
  rewrite le_store_load_n; [apply reverse_involutive|by apply Forall_reverse|].
  by rewrite length_reverse.
Qed.

Lemma bswap_bounds n v : 0 <= bswap n v < 256 ^ Z.of_nat n.
Proof.
  pose proof (le_load_bounds _ (be_store_bytes n v)) as H.
  by rewrite length_be_store in H.
Qed.

Lemma le_store_bswap n v : le_store n (bswap n v) = be_store n v.
Proof. apply le_store_load_n; [apply be_store_bytes|apply length_be_store]. Qed.

Lemma be_store_bswap n v : be_store n (bswap n v) = le_store n v.
Proof.
  unfold be_store. rewrite le_store_bswap. unfold be_store. apply reverse_involutive.
Qed.

Lemma le_store_le_load n v : le_store n (le_load (le_store n v)) = le_store n v.
Proof. apply le_store_load_n; [apply le_store_bytes|apply length_le_store]. Qed.

Lemma be_store_le_load n v : be_store n (le_load (le_store n v)) = be_store n v.
Proof. unfold be_store. by rewrite le_store_le_load. Qed.

Lemma bswap_bswap n v : bswap n (bswap n v) = v mod 256 ^ Z.of_nat n.
Proof. unfold bswap at 1. rewrite be_store_bswap. apply le_load_store. Qed.

Lemma bswap_le_load n bs : bytes_ok bs -> length bs = n -> bswap n (le_load bs) = be_load bs.
Proof.
  intros Hb Hl. unfold bswap, be_store, be_load. by rewrite le_store_load_n.
Qed.

Lemma bswap_be_load n bs : bytes_ok bs -> length bs = n -> bswap n (be_load bs) = le_load bs.
Proof. intros Hb Hl. unfold bswap. by rewrite be_store_load. Qed.

Lemma htons_bounds v : 0 <= htons v < 65536.
Proof. apply (bswap_bounds 2). Qed.

Lemma htonl_bounds v : 0 <= htonl v < 4294967296.
Proof. apply (bswap_bounds 4). Qed.

Lemma htons_ntohs v : 0 <= v < 65536 -> htons (ntohs v) = v.
Proof. intros H. unfold htons, ntohs. rewrite bswap_bswap. by apply Z.mod_small. Qed.

Lemma htonl_ntohl v : 0 <= v < 4294967296 -> htonl (ntohl v) = v.
Proof. intros H. unfold htonl, ntohl. rewrite bswap_bswap. by apply Z.mod_small. Qed.

(** A 16-bit word is its two bytes. *)
Lemma htons_bytes a b : is_byte a -> is_byte b -> htons (a + 256 * b) = b + 256 * a.
Proof.
  intros Ha Hb. unfold htons.
  replace (a + 256 * b) with (le_load [a; b]) by (cbn; ring).
  rewrite bswap_le_load by auto. unfold be_load. cbn. ring.
Qed.

Create Rewrite HintDb word_norm.
#[export] Hint Rewrite length_le_store length_be_store le_store_bswap be_store_bswap : word_norm.
Create HintDb words.
#[export] Hint Resolve le_store_bytes be_store_bytes le_load_bounds be_load_bounds : words.

#[global] Arguments le_store : simpl never.
#[global] Arguments be_store : simpl never.
#[global] Arguments bswap : simpl never.
