(* ===== verification/Checksum.v ===== *)
(** * The Internet checksum (src/src/utils/protocols.c and protocols.h)

    [sum16] is the loop of [sum16], [internet_checksum] the macro of
    protocols.h.  [ones_sum] is the reference definition of RFC 1071 (add 16-bit
    words with an end-around carry after every addition), [ones_norm] its closed
    form: the representative of the total modulo 65535, with zero only for
    zero. *)

From S2P Require Import Prelude Words.

Module Checksum.

(** ** The code *)

(** [while (count > 1) { sum += *ptr++; count -= 2; }] and the left-over byte. *)
Fixpoint sum_words (bs : list Z) (sum : Z) : Z :=
  match bs with
  | b0 :: b1 :: bs => sum_words bs (u32 (sum + le_load [b0; b1]))
  | [b0] => u32 (sum + b0)
  | [] => sum
  end.

(** [while (sum >> 16) sum = (sum & 0xffff) + (sum >> 16);] with fuel. *)
Fixpoint fold_carry (fuel : nat) (sum : Z) : Z :=
  match fuel with
  | O => sum
  | S fuel =>
      if Z.shiftr sum 16 =? 0 then sum
      else fold_carry fuel (u32 (Z.land sum 0xffff + Z.shiftr sum 16))
  end.

(** Two rounds fold any 32-bit sum, the third finds the loop's exit. *)
Definition fold_fuel : nat := 3.

Definition sum16 (bs : list Z) : Z := u16 (fold_carry fold_fuel (sum_words bs 0)).

(** [((uint16_t)~sum16(addr, count))] *)
Definition internet_checksum (bs : list Z) : Z := u16 (Z.lnot (sum16 bs)).

(** The folding loop as a relation, without fuel: [carry_loop s r] when the loop
    started with [sum = s] ends with [sum = r]. *)
Inductive carry_loop : Z -> Z -> Prop :=
| carry_exit s : Z.shiftr s 16 = 0 -> carry_loop s s
| carry_round s r :
    Z.shiftr s 16 <> 0 ->
    carry_loop (u32 (Z.land s 0xffff + Z.shiftr s 16)) r -> carry_loop s r.

(** ** The specification *)

(** Total of the 16-bit words, without bound. *)
Fixpoint total (bs : list Z) : Z :=
  match bs with
  | b0 :: b1 :: bs => le_load [b0; b1] + total bs
  | [b0] => b0
  | [] => 0
  end.

(** One's complement addition of RFC 1071. *)
Definition ones_add (a b : Z) : Z := (a + b) mod 65536 + (a + b) / 65536.

Fixpoint ones_sum (bs : list Z) (acc : Z) : Z :=
  match bs with
  | b0 :: b1 :: bs => ones_sum bs (ones_add acc (le_load [b0; b1]))
  | [b0] => ones_add acc b0
  | [] => acc
  end.

Definition ones_norm (t : Z) : Z := if t =? 0 then 0 else (t - 1) mod 65535 + 1.

(** The bytes of each word exchanged: what a host of the other byte order
    reads. *)
Fixpoint swap_words (bs : list Z) : list Z :=
  match bs with
  | b0 :: b1 :: bs => b1 :: b0 :: swap_words bs
  | bs => bs
  end.

(** Induction two bytes at a time. *)
Lemma pair_ind (P : list Z -> Prop) :
  P [] -> (forall a, P [a]) -> (forall a b l, P l -> P (a :: b :: l)) -> forall l, P l.
Proof.
  intros H0 H1 H2 l. enough (P l /\ forall a, P (a :: l)) by tauto.
  induction l as [|b l [IH1 IH2]]; split; auto.
Qed.

(** ** Totals *)

Lemma le_load2 a b : le_load [a; b] = a + 256 * b.
Proof. cbn. lia. Qed.

Lemma total_nonneg bs : bytes_ok bs -> 0 <= total bs.
Proof.
  induction bs as [|a|a b l IH] using pair_ind; intros H; cbn [total]; [lia| |].
  - rewrite Forall_singleton in H. apply H.
  - rewrite !Forall_cons_iff in H. unfold is_byte in H. rewrite le_load2.
    destruct H as (?&?&?%IH). lia.
Qed.

Lemma total_bound bs : bytes_ok bs -> 2 * total bs <= 65535 * (Z.of_nat (length bs) + 1).
Proof.
  induction bs as [|a|a b l IH] using pair_ind; intros H; cbn [total length]; [lia| |].
  - rewrite Forall_singleton in H. unfold is_byte in H. lia.
  - rewrite !Forall_cons_iff in H. unfold is_byte in H. rewrite le_load2.
    destruct H as (?&?&?%IH). lia.
Qed.

Lemma total_bound_even bs :
  bytes_ok bs -> Nat.Even (length bs) -> 2 * total bs <= 65535 * Z.of_nat (length bs).
Proof.
  induction bs as [|a|a b l IH] using pair_ind; intros H He; cbn [total length]; [lia| |].
  - destruct He; cbn [length] in *; lia.
  - rewrite !Forall_cons_iff in H. unfold is_byte in H. rewrite le_load2.
    destruct H as (?&?&H). cbn in He. rewrite Nat.Even_succ_succ in He.
    specialize (IH H He). lia.
Qed.

Lemma total_app a b : Nat.Even (length a) -> total (a ++ b) = total a + total b.
Proof.
  induction a as [|x|x y l IH] using pair_ind; intros He; cbn [total app]; [lia| |].
  - destruct He; cbn [length] in *; lia.
  - cbn in He. rewrite Nat.Even_succ_succ in He. rewrite IH by done. lia.
Qed.

Lemma total_zero bs : bytes_ok bs -> total bs = 0 -> Forall (eq 0) bs.
Proof.
  induction bs as [|a|a b l IH] using pair_ind; intros H Ht; cbn [total] in Ht.
  - done.
  - by rewrite <- Ht, Forall_singleton.
  - rewrite !Forall_cons_iff in H. unfold is_byte in H. rewrite le_load2 in Ht.
    destruct H as (?&?&H). pose proof (total_nonneg _ H).
    rewrite !Forall_cons_iff. split_and!; [lia|lia|]. apply IH; [done|lia].
Qed.

Lemma total_swap bs :
  bytes_ok bs -> Nat.Even (length bs) ->
  exists a b, 0 <= a /\ 0 <= b /\
    total bs = a + 256 * b /\ total (swap_words bs) = b + 256 * a.
Proof.
  induction bs as [|a|a b l IH] using pair_ind; intros Hb He.
  - by exists 0, 0.
  - destruct He; cbn [length] in *; lia.
  - cbn in He. rewrite Nat.Even_succ_succ in He. rewrite !Forall_cons_iff in Hb.
    unfold is_byte in Hb. destruct Hb as (?&?&Hb).
    destruct (IH Hb He) as (x&y&Hx0&Hy0&Hx&Hy).
    exists (a + x), (b + y). cbn [total swap_words]. rewrite Hx, Hy, !le_load2. lia.
Qed.

(** ** One's complement normal forms *)

Lemma ones_norm_bounds t : 0 <= ones_norm t <= 65535.
Proof.
  unfold ones_norm. case_match; [lia|]. pose proof (Z.mod_pos_bound (t - 1) 65535). lia.
Qed.

Lemma ones_norm_small t : 0 <= t < 65536 -> ones_norm t = t.
Proof.
  intros H. unfold ones_norm. case_match; [blia|].
  rewrite Z.mod_small; blia.
Qed.

Lemma ones_norm_zero t : 0 <= t -> ones_norm t = 0 <-> t = 0.
Proof.
  intros H. unfold ones_norm. case_match; [blia|].
  pose proof (Z.mod_pos_bound (t - 1) 65535). blia.
Qed.

(** Equal normal forms: equal residues, and both zero or both non-zero. *)
Lemma ones_norm_eq s t q :
  0 < s -> 0 < t -> s = t + 65535 * q -> ones_norm s = ones_norm t.
Proof.
  intros Hs Ht ->. unfold ones_norm. case_match; [blia|]. case_match; [blia|].
  f_equal. replace (t + 65535 * q - 1) with ((t - 1) + q * 65535) by ring.
  apply Z.mod_add. lia.
Qed.

Lemma ones_norm_witness t : 0 < t -> exists q, t = ones_norm t + 65535 * q /\ 0 < ones_norm t.
Proof.
  intros H. unfold ones_norm. case_match; [blia|]. exists ((t - 1) / 65535).
  pose proof (Z.mod_pos_bound (t - 1) 65535). pose proof (Z.div_mod (t - 1) 65535). lia.
Qed.

Lemma ones_norm_full t : 0 < t -> ones_norm t = 65535 <-> t mod 65535 = 0.
Proof.
  intros H. destruct (ones_norm_witness t H) as (q&Hq&Hpos).
  pose proof (ones_norm_bounds t). split; intros Heq.
  - apply (mod_of_eq _ _ _ (q + 1)); lia.
  - pose proof (Z.div_mod t 65535). lia.
Qed.

Lemma ones_norm_fold s :
  0 <= s -> ones_norm (s mod 65536 + s / 65536) = ones_norm s.
Proof.
  intros H. pose proof (Z.div_mod s 65536). pose proof (Z.mod_pos_bound s 65536).
  pose proof (Z.div_pos s 65536).
  destruct (decide (s = 0)) as [->|]; [done|].
  apply (ones_norm_eq _ _ (- (s / 65536))); lia.
Qed.

(** ** The loops *)

Lemma sum_words_total bs s : sum_words bs (u32 s) = u32 (s + total bs).
Proof.
  revert s. induction bs as [|a|a b l IH] using pair_ind; intros s; cbn [sum_words total].
  - f_equal. lia.
  - unfold u32. apply Zplus_mod_idemp_l.
  - replace (u32 (u32 s + le_load [a; b])) with (u32 (s + le_load [a; b]))
      by (unfold u32; by rewrite Zplus_mod_idemp_l).
    rewrite IH. f_equal. lia.
Qed.

Lemma fold_round s :
  0 <= s < 2 ^ 32 ->
  u32 (Z.land s 0xffff + Z.shiftr s 16) = s mod 65536 + s / 65536.
Proof.
  intros H. change 0xffff with (2 ^ 16 - 1). rewrite land_mask by lia.
  rewrite Z.shiftr_div_pow2 by lia. apply Z.mod_small.
  change (2 ^ 16) with 65536. pose proof (Z.mod_pos_bound s 65536).
  assert (0 <= s / 65536 < 65536); [|lia].
  split; [apply Z.div_pos; lia|apply Z.div_lt_upper_bound; lia].
Qed.

Lemma shiftr16_small s : 0 <= s -> Z.shiftr s 16 = 0 <-> s < 65536.
Proof.
  intros H. rewrite Z.shiftr_div_pow2 by lia. change (2 ^ 16) with 65536.
  rewrite Z.div_small_iff by lia. lia.
Qed.

(** A round lowers the sum: below 2^32 to below 2^17, and from there to below
    2^16. *)
Lemma fold_round_bound s :
  0 <= s < 2 ^ 32 ->
  0 <= s mod 65536 + s / 65536 < 131071 /\ (s < 131071 -> s mod 65536 + s / 65536 < 65536).
Proof.
  intros H. pose proof (Z.div_mod s 65536). pose proof (Z.mod_pos_bound s 65536).
  assert (0 <= s / 65536 < 65536) by
    (split; [apply Z.div_pos; lia|apply Z.div_lt_upper_bound; lia]).
  lia.
Qed.

Lemma fold_carry_small s fuel : 0 <= s < 65536 -> fold_carry fuel s = s.
Proof.
  intros H. destruct fuel as [|fuel]; [done|]. cbn [fold_carry].
  rewrite (proj2 (shiftr16_small s ltac:(lia))) by lia. done.
Qed.

Lemma fold_carry_step s fuel :
  0 <= s < 2 ^ 32 -> fold_carry (S fuel) s =
    if s <? 65536 then s else fold_carry fuel (s mod 65536 + s / 65536).
Proof.
  intros H. cbn [fold_carry]. rewrite fold_round by done.
  destruct (Z.eqb_spec (Z.shiftr s 16) 0) as [E|E]; rewrite shiftr16_small in E by lia;
    destruct (Z.ltb_spec s 65536); done || lia.
Qed.

(** Closed form of the folding loop, under the fuel of [sum16]. *)
Lemma fold_carry_norm s : 0 <= s < 2 ^ 32 -> fold_carry fold_fuel s = ones_norm s.
Proof.
  intros H. unfold fold_fuel. rewrite fold_carry_step by done.
  destruct (Z.ltb_spec s 65536); [by rewrite ones_norm_small by lia|].
  rewrite <- (ones_norm_fold s) by lia.
  destruct (fold_round_bound s H) as [Hb _]. revert Hb.
  generalize (s mod 65536 + s / 65536) as t. intros t Hb.
  rewrite fold_carry_step by lia.
  destruct (Z.ltb_spec t 65536); [by rewrite ones_norm_small by lia|].
  rewrite <- (ones_norm_fold t) by lia.
  destruct (fold_round_bound t ltac:(lia)) as [Hb1 Hb2].
  rewrite fold_carry_small by (split; [lia|apply Hb2; lia]).
  by rewrite ones_norm_small by (split; [lia|apply Hb2; lia]).
Qed.

Lemma sum16_norm bs : bytes_ok bs -> total bs < 2 ^ 32 -> sum16 bs = ones_norm (total bs).
Proof.
  intros Hb Ht. unfold sum16. change 0 with (u32 0). rewrite sum_words_total.
  pose proof (total_nonneg bs Hb). pose proof (ones_norm_bounds (total bs)).
  replace (u32 (0 + total bs)) with (total bs) by (unfold u32; rewrite Z.mod_small; lia).
  rewrite fold_carry_norm by lia. apply Z.mod_small. lia.
Qed.

(** The largest count for which no carry of the 32-bit sum can be lost. *)
Definition max_count : Z := 131074.

Lemma total_fits bs :
  bytes_ok bs -> Z.of_nat (length bs) <= max_count -> total bs < 2 ^ 32.
Proof.
  unfold max_count. intros Hb Hl. destruct (Nat.Even_or_Odd (length bs)) as [He|[k Ho]].
  - pose proof (total_bound_even bs Hb He). lia.
  - pose proof (total_bound bs Hb). lia.
Qed.

Lemma sum16_closed bs :
  bytes_ok bs -> Z.of_nat (length bs) <= max_count -> sum16 bs = ones_norm (total bs).
Proof. intros. apply sum16_norm; [done|]. by apply total_fits. Qed.

Lemma sum16_bounds bs : 0 <= sum16 bs < 65536.
Proof. unfold sum16, u16. apply Z.mod_pos_bound. lia. Qed.

Lemma internet_checksum_compl bs : internet_checksum bs = 65535 - sum16 bs.
Proof.
  pose proof (sum16_bounds bs). unfold internet_checksum, u16, Z.lnot.
  apply (mod_of_eq _ _ _ (-1)); lia.
Qed.

Lemma internet_checksum_bounds bs : 0 <= internet_checksum bs < 65536.
Proof. rewrite internet_checksum_compl. pose proof (sum16_bounds bs). lia. Qed.

(** The receivers' test [0 == internet_checksum(...)]. *)
Lemma checksum_test bs :
  bytes_ok bs -> Z.of_nat (length bs) <= max_count ->
  internet_checksum bs = 0 <-> 0 < total bs /\ total bs mod 65535 = 0.
Proof.
  intros Hb Hl. rewrite internet_checksum_compl, sum16_closed by done.
  pose proof (total_nonneg bs Hb). destruct (decide (total bs = 0)) as [->|].
  - cbn. lia.
  - pose proof (ones_norm_full (total bs)). lia.
Qed.

Lemma ones_add_norm a b :
  0 <= a < 65536 -> 0 <= b < 65536 -> ones_add a b = ones_norm (a + b).
Proof.
  intros Ha Hb. unfold ones_add. rewrite <- (ones_norm_fold (a + b)) by lia.
  destruct (fold_round_bound (a + b)) as [Hb1 Hb2]; [lia|].
  rewrite ones_norm_small; [done|]. split; [lia|apply Hb2; lia].
Qed.

Lemma ones_norm_absorb a b : 0 <= a -> 0 <= b -> ones_norm (ones_norm a + b) = ones_norm (a + b).
Proof.
  intros Ha Hb. destruct (decide (a = 0)) as [->|]; [done|].
  destruct (ones_norm_witness a) as (q&Hq&Hp); [lia|].
  apply (ones_norm_eq _ _ (- q)); lia.
Qed.

Lemma ones_sum_norm bs a :
  bytes_ok bs -> 0 <= a -> ones_sum bs (ones_norm a) = ones_norm (a + total bs).
Proof.
  revert a. induction bs as [|x|x y l IH] using pair_ind; intros a Hb Ha;
    cbn [ones_sum total].
  - f_equal. lia.
  - rewrite Forall_singleton in Hb. unfold is_byte in Hb. pose proof (ones_norm_bounds a).
    rewrite ones_add_norm by lia. apply ones_norm_absorb; lia.
  - rewrite !Forall_cons_iff in Hb. destruct Hb as (Hx&Hy&Hl). unfold is_byte in *.
    pose proof (ones_norm_bounds a). rewrite le_load2.
    rewrite ones_add_norm, ones_norm_absorb, IH by (done || lia). f_equal. lia.
Qed.

(** ** Theorems *)

(** C20 The loop of [sum16] computes the one's complement sum of RFC 1071, which
    its comment cites, for every buffer of at most [max_count] bytes: deferring
    the carries to the end loses none of them. *)
Theorem sum16_is_rfc1071_sum bs :
  bytes_ok bs -> Z.of_nat (length bs) <= max_count -> sum16 bs = ones_sum bs 0.
Proof.
  intros Hb Hl. rewrite sum16_closed by done.
  change 0 with (ones_norm 0). by rewrite ones_sum_norm.
Qed.

Lemma sum16_is_rfc1071_sum_witness :
  sum16 [1; 2; 255; 255; 255; 7] = ones_sum [1; 2; 255; 255; 255; 7] 0.
Proof.
  apply (sum16_is_rfc1071_sum [1; 2; 255; 255; 255; 7]);
    [bytes|unfold max_count; cbn; lia].
Defined.

(** The bound is exact: on two bytes more, all 0xff, the 32-bit accumulator of
    [sum16] overflows, the carry is lost and the result is no longer the RFC 1071
    sum. *)
Theorem sum16_overflow_bound_sharp :
  let bs := replicate (Z.to_nat (max_count + 2)) 255 in
  sum16 bs = 65534 /\ ones_sum bs 0 = 65535.
Proof. vm_compute. done. Qed.

(** The folding loop [while (sum >> 16) ...] terminates on every 32-bit sum,
    and the three rounds of fuel of the model reach its exit. *)
Theorem fold_carry_terminates s :
  0 <= s < 2 ^ 32 -> carry_loop s (fold_carry fold_fuel s).
Proof.
  intros Hs. assert (Hrun : forall fuel s, 0 <= s < 2 ^ 32 ->
    0 <= fold_carry fuel s < 65536 -> carry_loop s (fold_carry fuel s)).
  { clear. induction fuel as [|fuel IH]; intros s Hs; cbn [fold_carry].
    - intros H. apply carry_exit. apply shiftr16_small; lia.
    - destruct (Z.eqb_spec (Z.shiftr s 16) 0) as [E|E]; intros H; [by apply carry_exit|].
      apply carry_round; [done|]. apply IH; [|done]. rewrite fold_round by done.
      pose proof (proj1 (fold_round_bound s Hs)). lia. }
  apply Hrun; [done|]. rewrite fold_carry_norm by done.
  pose proof (ones_norm_bounds s). lia.
Qed.

Lemma fold_carry_terminates_witness : carry_loop 0xffff0001 (fold_carry fold_fuel 0xffff0001).
Proof. apply (fold_carry_terminates 0xffff0001). lia. Defined.

(** Storing a 16-bit word at an even offset changes the total by its difference
    with the word that was there. *)
Lemma total_splice off w bs :
  Nat.Even off -> 0 <= w < 65536 -> (off + 2 <= length bs)%nat ->
  total (splice off (le_store 2 w) bs) = total bs - le_load (slice off 2 bs) + w.
Proof.
  intros He Hw Hl. unfold splice, slice. rewrite length_le_store.
  rewrite <- (take_drop off bs) at 3.
  rewrite !total_app by (rewrite ?length_take, ?length_le_store; try (by exists 1%nat);
    by replace (off `min` length bs)%nat with off by lia).
  rewrite <- drop_drop. set (r := drop off bs).
  assert (Hr : (2 <= length r)%nat) by (unfold r; rewrite length_drop; lia).
  destruct r as [|x [|y r]]; cbn [length] in Hr; [lia|lia|].
  cbn [drop take]. rewrite drop_0, take_0. cbn [total].
  assert (total (le_store 2 w) = w) as ->; [|lia].
  transitivity (le_load (le_store 2 w)); [unfold le_store; cbn; lia|].
  rewrite le_load_store. apply Z.mod_small. cbn. lia.
Qed.

Lemma splice_word_bytes off w bs : bytes_ok bs -> bytes_ok (splice off (le_store 2 w) bs).
Proof. auto using Forall_splice, le_store_bytes. Qed.

Lemma checksum_fill off bs :
  bytes_ok bs -> Z.of_nat (length bs) <= max_count ->
  Nat.Even off -> (off + 2 <= length bs)%nat ->
  let zeroed := splice off (le_store 2 0) bs in
  internet_checksum (splice off (le_store 2 (internet_checksum zeroed)) zeroed) = 0.
Proof.
  intros Hb Hl He Ho zeroed.
  assert (Hz : bytes_ok zeroed) by by apply splice_word_bytes.
  assert (Hlen : length zeroed = length bs) by by apply length_splice.
  pose proof (internet_checksum_bounds zeroed) as Hc.
  assert (Hs : slice off 2 zeroed = [0; 0]) by by apply slice_splice_same.
  apply checksum_test.
  - by apply splice_word_bytes.
  - rewrite length_splice; [by rewrite Hlen|rewrite Hlen, length_le_store; lia].
  - rewrite total_splice by (done || lia). rewrite Hs.
    rewrite internet_checksum_compl, sum16_closed by (done || lia).
    pose proof (total_nonneg _ Hz). cbn [le_load].
    destruct (decide (total zeroed = 0)) as [->|]; [by vm_compute|].
    destruct (ones_norm_witness (total zeroed)) as (q&Hq&Hp); [lia|].
    pose proof (ones_norm_bounds (total zeroed)).
    split; [lia|]. apply (mod_of_eq _ _ _ (q + 1)); lia.
Qed.

(** C21 Filling in a checksum: zero the 16-bit field at an even offset, store
    [internet_checksum] of the buffer there, and the receiver's test on the
    buffer succeeds.  This is what [ip_header_update_checksum] and the ICMP echo
    reply rely on. *)
Theorem checksum_fill_verifies off bs :
  bytes_ok bs -> Z.of_nat (length bs) <= max_count ->
  Nat.Even off -> (off + 2 <= length bs)%nat ->
  let zeroed := splice off (le_store 2 0) bs in
  internet_checksum (splice off (le_store 2 (internet_checksum zeroed)) zeroed) = 0.
Proof. apply checksum_fill. Qed.

Lemma checksum_fill_verifies_witness :
  let zeroed := splice 2 (le_store 2 0) [8; 0; 17; 34; 1; 2; 3] in
  internet_checksum (splice 2 (le_store 2 (internet_checksum zeroed)) zeroed) = 0.
Proof.
  apply (checksum_fill_verifies 2 [8; 0; 17; 34; 1; 2; 3]);
    [bytes|unfold max_count; cbn; lia|by exists 1%nat|cbn; lia].
Defined.

(** C27 Error detection: when a buffer passes the receiver's test, changing one of
    its 16-bit words makes the test fail, except for the change between 0x0000
    and 0xffff, which one's complement arithmetic cannot see. *)
Theorem checksum_detects_word off w bs :
  bytes_ok bs -> Z.of_nat (length bs) <= max_count ->
  Nat.Even off -> (off + 2 <= length bs)%nat -> 0 <= w < 65536 ->
  let w0 := le_load (slice off 2 bs) in
  w <> w0 -> (w, w0) <> (0, 65535) -> (w, w0) <> (65535, 0) ->
  internet_checksum bs = 0 -> internet_checksum (splice off (le_store 2 w) bs) <> 0.
Proof.
  intros Hb Hl He Ho Hw w0 Hne H1 H2 Hck Hck'.
  apply checksum_test in Hck; [|done|done]. apply checksum_test in Hck'.
  - rewrite total_splice in Hck' by done. destruct Hck as [_ Hck]. destruct Hck' as [_ Hck'].
    assert (Hw0 : 0 <= w0 < 65536).
    { pose proof (le_load_bounds (slice off 2 bs) (Forall_slice _ off 2 bs Hb)) as Hw0.
      by rewrite length_slice in Hw0 by lia. }
    fold w0 in Hck'. pose proof (Z.div_mod (total bs) 65535).
    pose proof (Z.div_mod (total bs - w0 + w) 65535).
    assert (w - w0 = 0 \/ w - w0 = 65535 \/ w - w0 = -65535) as [|[|]] by lia.
    + lia.
    + apply H2. f_equal; lia.
    + apply H1. f_equal; lia.
  - by apply splice_word_bytes.
  - rewrite length_splice; [done|rewrite length_le_store; lia].
Qed.

Lemma checksum_detects_word_witness :
  internet_checksum (splice 2 (le_store 2 77) [1; 2; 254; 253]) <> 0.
Proof.
  apply (checksum_detects_word 2 77 [1; 2; 254; 253]);
    [bytes|unfold max_count; cbn; lia|by exists 1%nat
    |cbn; lia|lia|by vm_compute|by vm_compute|by vm_compute|by vm_compute].
Defined.

(** Byte order independence (RFC 1071, section 2(B)): a host of the other byte
    order reads every word swapped and gets the swapped sum, so the bytes that it
    stores in the packet are the same. *)
Theorem sum16_byte_order bs :
  bytes_ok bs -> Z.of_nat (length bs) <= max_count -> Nat.Even (length bs) ->
  sum16 (swap_words bs) = htons (sum16 bs).
Proof.
  intros Hb Hl He. pose proof (total_nonneg bs Hb).
  assert (Hsw : bytes_ok (swap_words bs) /\ length (swap_words bs) = length bs).
  { clear -Hb. induction bs as [|a|a b l IH] using pair_ind; cbn; [done|done|].
    rewrite !Forall_cons_iff in Hb |- *. destruct Hb as (Ha&Hb&Hl).
    destruct (IH Hl) as [IHb IHl]. split; [done|]. by rewrite IHl. }
  destruct Hsw as [Hsb Hsl]. rewrite !sum16_closed by (rewrite ?Hsl; done).
  destruct (total_swap bs Hb He) as (x&y&Hx0&Hy0&Hx&Hy).
  pose proof (total_nonneg _ Hsb). pose proof (ones_norm_bounds (total bs)).
  assert (Hsplit : forall v, 0 <= v < 65536 -> htons v = v / 256 + 256 * (v mod 256)).
  { intros v Hv. pose proof (Z.mod_pos_bound v 256). pose proof (Z.div_mod v 256).
    assert (0 <= v / 256 < 256) by lia.
    replace (htons v) with (htons (v mod 256 + 256 * (v / 256))) by (f_equal; lia).
    by rewrite htons_bytes by (unfold is_byte; lia). }
  rewrite Hsplit by lia.
  destruct (decide (total bs = 0)) as [E|].
  { assert (total (swap_words bs) = 0) as -> by lia. rewrite E. done. }
  destruct (ones_norm_witness (total bs)) as (q&Hq&Hp); [lia|].
  remember (ones_norm (total bs)) as v. pose proof (Z.div_mod v 256).
  pose proof (Z.mod_pos_bound v 256).
  rewrite <- (ones_norm_small (v / 256 + 256 * (v mod 256))) by lia.
  apply (ones_norm_eq _ _ (256 * q - y + v / 256)).
  - lia.
  - lia.
  - lia.
Qed.

Lemma sum16_byte_order_witness :
  sum16 (swap_words [0x45; 0; 0; 0x54; 0xff; 0xfe]) = htons (sum16 [0x45; 0; 0; 0x54; 0xff; 0xfe]).
Proof.
  apply (sum16_byte_order [0x45; 0; 0; 0x54; 0xff; 0xfe]);
    [bytes|unfold max_count; cbn; lia|by exists 3%nat].
Defined.

End Checksum.
