(* ===== verification/HashMap.v ===== *)
(** * The hash map (src/src/collections/hashmap.c)

    An open-addressing table with linear probing.  [K] and [V] are the [void*]
    types of the keys and of the values, each with its [NULL] (class [NullPtr]).
    The two function pointers of [struct hashmap] are the class [KeyOps]: they read
    the object the key points to, so they can fault.  [KeyLaws] is the contract
    that the client owes: a key designates an identity, [equals] compares
    identities and [hash] depends on the identity only.

    [hm_inv m M] is the well-formedness invariant with its abstract map [M] from
    identities to (stored key pointer, value). *)

From S2P Require Import Prelude.

Class NullPtr (P : Type) := NULL : P.

Class KeyOps (K : Type) := {
  hash : K -> res Z;
  equals : K -> K -> res bool
}.

Class KeyLaws {K I : Type} `{EqDecision I} (ops : KeyOps K)
    (ident : K -> option I) (ihash : I -> Z) : Prop := {
  hash_ident k i : ident k = Some i -> hash k = Val (ihash i);
  equals_ident a b i j :
    ident a = Some i -> ident b = Some j -> equals a b = Val (bool_decide (i = j))
}.

Module HashMap.

Record hashmap_element {K V : Type} := mk_element {
  used : bool;
  key : K;
  value : V
}.
Arguments hashmap_element : clear implicits.
Arguments mk_element {K V}.

Record hashmap {K V : Type} := mk_hashmap {
  array : list (hashmap_element K V);
  capacity : Z;
  size_ : Z
}.
Arguments hashmap : clear implicits.
Arguments mk_hashmap {K V}.

(** [while (ret < i) ret <<= 1;] on a 64-bit [long]; shifting into the sign bit is
    undefined. *)
Fixpoint highest_bit_loop (fuel : nat) (i ret : Z) : res Z :=
  match fuel with
  | O => Fault Diverges
  | S fuel =>
      if ret <? i then
        if 2 ^ 63 <=? Z.shiftl ret 1 then Fault SignedOverflow
        else highest_bit_loop fuel i (Z.shiftl ret 1)
      else Val (Z.quot ret 2)
  end.

Definition highest_bit (i : Z) : res Z := highest_bit_loop 64 i 1.

Section Operations.
Context {K V : Type} {nullK : NullPtr K} {nullV : NullPtr V} (ops : KeyOps K).
Implicit Types (map : hashmap K V).

(** What [calloc] leaves in an element. *)
Definition zero_element : hashmap_element K V := mk_element false NULL NULL.

Definition hashmap_alloc (initial_size : Z) : res (hashmap K V) :=
  h ← highest_bit initial_size;
  let target_size := Z.shiftl h 1 in
  let target_size := if target_size <? 16 then 16 else target_size in
  mret (mk_hashmap (replicate (Z.to_nat target_size) zero_element) target_size 0).

(** [map->array[index]] *)
Definition element_at (arr : list (hashmap_element K V)) (index : Z)
    : res (hashmap_element K V) :=
  if index <? 0 then Fault OutOfBounds else
  match arr !! Z.to_nat index with
  | Some el => Val el
  | None => Fault OutOfBounds
  end.

(** The [while (el->used)] loop.  Its only state is [index], which takes at most
    [capacity] values, so [capacity] rounds without an exit mean no exit. *)
Fixpoint probe (fuel : nat) map (k : K) (index : Z) : res Z :=
  match fuel with
  | O => Fault Diverges
  | S fuel =>
      el ← element_at (array map) index;
      if used el then
        eq ← equals k (key el);
        if (eq : bool) then Val index
        else probe fuel map k (Z.land (index + 1) (capacity map - 1))
      else Val index
  end.

Definition hashmap_indexof map (k : K) : res Z :=
  h ← hash k;
  probe (Z.to_nat (capacity map)) map k (Z.land h (capacity map - 1)).

Definition hashmap_contains_key map (k : K) : res bool :=
  index ← hashmap_indexof map k;
  el ← element_at (array map) index;
  mret (used el).

Definition hashmap_get_or_default map (k : K) (def : V) : res V :=
  index ← hashmap_indexof map k;
  el ← element_at (array map) index;
  mret (if used el then value el else def).

Definition hashmap_get map (k : K) : res V := hashmap_get_or_default map k NULL.

Definition hashmap_lget_or_default map (k : K) (def : unit -> res V) : res V :=
  index ← hashmap_indexof map k;
  el ← element_at (array map) index;
  if used el then Val (value el) else def tt.

(** [map->array[index] = el] *)
Definition set_element map (index : Z) (el : hashmap_element K V) : hashmap K V :=
  mk_hashmap (<[Z.to_nat index := el]> (array map)) (capacity map) (size_ map).

Definition add_size map (d : Z) : hashmap K V :=
  mk_hashmap (array map) (capacity map) (size_ map + d).

Definition hashmap_remove map (k : K) : res (hashmap K V) :=
  index ← hashmap_indexof map k;
  el ← element_at (array map) index;
  mret (add_size (set_element map index (mk_element false (key el) (value el))) (-1)).

Definition hashmap_clear map : hashmap K V :=
  mk_hashmap ((fun el => mk_element false (key el) (value el)) <$> array map)
    (capacity map) 0.

Definition hashmap_load_factor map : Z := Z.quot (size_ map * 100) (capacity map).

(** The end of [hashmap_put], after the call to [hashmap_expand]. *)
Definition put_here map (k : K) (data : V) : res (hashmap K V) :=
  index ← hashmap_indexof map k;
  el ← element_at (array map) index;
  mret (if used el then set_element map index (mk_element true (key el) data)
        else add_size (set_element map index (mk_element true k data)) 1).

(** The loop of [hashmap_expand] over the old array, [put] being [hashmap_put]. *)
Fixpoint reinsert (put : hashmap K V -> K -> V -> res (hashmap K V))
    (old : list (hashmap_element K V)) map : res (hashmap K V) :=
  match old with
  | [] => mret map
  | el :: old =>
      map ← (if used el then put map (key el) (value el) else mret map);
      reinsert put old map
  end.

Definition expand_with (put : hashmap K V -> K -> V -> res (hashmap K V)) map
    : res (hashmap K V) :=
  reinsert put (array map)
    (mk_hashmap (replicate (Z.to_nat (capacity map * 2)) zero_element)
       (2 * capacity map) 0).

(** [hashmap_put] and [hashmap_expand] call each other; [depth] bounds the nested
    calls. *)
Fixpoint put_depth (depth : nat) map (k : K) (data : V) : res (hashmap K V) :=
  map ← (if 70 <? hashmap_load_factor map then
           match depth with
           | O => Fault Diverges
           | S depth => expand_with (put_depth depth) map
           end
         else mret map);
  put_here map k data.

Definition hashmap_put map (k : K) (data : V) : res (hashmap K V) := put_depth 1 map k data.
Definition hashmap_expand map : res (hashmap K V) := expand_with (put_depth 0) map.

Definition hashmap_capacity map : Z := capacity map.
Definition hashmap_size map : Z := size_ map.

(** The probing loop as a relation, without fuel. *)
Inductive probe_loop map (k : K) : Z -> Z -> Prop :=
| probe_free index el :
    element_at (array map) index = Val el -> used el = false ->
    probe_loop map k index index
| probe_found index el :
    element_at (array map) index = Val el -> used el = true ->
    equals k (key el) = Val true -> probe_loop map k index index
| probe_next index el r :
    element_at (array map) index = Val el -> used el = true ->
    equals k (key el) = Val false ->
    probe_loop map k (Z.land (index + 1) (capacity map - 1)) r ->
    probe_loop map k index r.
End Operations.

(** ** The invariant *)

Section Invariant.
Context {K V I : Type} {nullK : NullPtr K} {nullV : NullPtr V} `{Countable I}.
Context (ident : K -> option I) (ihash : I -> Z).
Implicit Types (map : hashmap K V) (M : gmap I (K * V)) (i : I).

(** The [d]-th slot that the probe for a hash [h] visits. *)
Definition slot (cap h : Z) (d : nat) : nat := Z.to_nat ((h + Z.of_nat d) mod cap).

(** The probe for [i] stops at slot [j]: it is free or holds [i]. *)
Definition stops (arr : list (hashmap_element K V)) i (j : nat) : bool :=
  match arr !! j with
  | Some el => negb (used el) || bool_decide (ident (key el) = Some i)
  | None => false
  end.

(** [j] is where the probe for [i] arrives first. *)
Definition path map i (j : nat) : Prop :=
  exists d, j = slot (capacity map) (ihash i) d /\ stops (array map) i j = true /\
    forall d', (d' < d)%nat -> stops (array map) i (slot (capacity map) (ihash i) d') = false.

Definition count_used (arr : list (hashmap_element K V)) : nat :=
  length (filter (fun el => used el = true) arr).

Record hm_inv map M : Prop := {
  inv_pow2 : exists n, 4 <= n /\ capacity map = 2 ^ n;
  inv_length : Z.of_nat (length (array map)) = capacity map;
  inv_size : size_ map = Z.of_nat (size M);
  inv_count : count_used (array map) = size M;
  inv_room : size_ map < capacity map;
  inv_sound j el :
    array map !! j = Some el -> used el = true ->
    exists i, ident (key el) = Some i /\ M !! i = Some (key el, value el) /\ path map i j;
  inv_complete i k v :
    M !! i = Some (k, v) ->
    ident k = Some i /\ exists j, array map !! j = Some (mk_element true k v)
}.
End Invariant.

End HashMap.
