(* ===== verification/HashMapFacts.v ===== *)
(** * Correctness of the hash map

    Lookup, insertion, growth and removal of HashMap.v against the abstract map
    of [hm_inv]; termination of the probing loop; the two ways in which
    [hashmap_remove] breaks the table. *)

From S2P Require Import Prelude HashMap.
Import HashMap.

Module HashMapFacts.

(** ** Slots *)

Section Slots.
Context (cap : Z) (Hcap : 0 < cap).

Lemma slot_lt h d : (slot cap h d < Z.to_nat cap)%nat.
Proof. unfold slot. pose proof (Z.mod_pos_bound (h + Z.of_nat d) cap). lia. Qed.

Lemma slot_of_nat h d : Z.of_nat (slot cap h d) = (h + Z.of_nat d) mod cap.
Proof. unfold slot. pose proof (Z.mod_pos_bound (h + Z.of_nat d) cap). lia. Qed.

Lemma slot_succ h d : Z.of_nat (slot cap h (S d)) = (Z.of_nat (slot cap h d) + 1) mod cap.
Proof.
  rewrite !slot_of_nat, Zplus_mod_idemp_l. f_equal. lia.
Qed.

(** Every slot is visited within [cap] rounds. *)
Lemma slot_surj h (j : nat) :
  (j < Z.to_nat cap)%nat -> exists d, (d < Z.to_nat cap)%nat /\ slot cap h d = j.
Proof.
  intros Hj. exists (Z.to_nat ((Z.of_nat j - h) mod cap)).
  pose proof (Z.mod_pos_bound (Z.of_nat j - h) cap). split; [lia|].
  unfold slot. rewrite Z2Nat.id, Zplus_mod_idemp_r by lia.
  replace (h + (Z.of_nat j - h)) with (Z.of_nat j) by lia.
  rewrite Z.mod_small; lia.
Qed.

(** The first slot with a property is met within [cap] rounds. *)
Lemma first_slot_lt h d (f : nat -> bool) :
  f (slot cap h d) = true -> (forall d', (d' < d)%nat -> f (slot cap h d') = false) ->
  (d < Z.to_nat cap)%nat.
Proof.
  intros Hd Hmin. destruct (slot_surj h (slot cap h d) (slot_lt h d)) as (d' & Hd' & Heq).
  destruct (decide (d' < d)%nat) as [Hlt|]; [|lia]. specialize (Hmin d' Hlt). congruence.
Qed.

Lemma slot_inj h d d' :
  (d < Z.to_nat cap)%nat -> (d' < Z.to_nat cap)%nat -> slot cap h d = slot cap h d' -> d = d'.
Proof.
  intros Hd Hd' Heq. assert (Hz : (h + Z.of_nat d) mod cap = (h + Z.of_nat d') mod cap)
    by (rewrite <- !slot_of_nat; by rewrite Heq).
  pose proof (Z.div_mod (h + Z.of_nat d) cap ltac:(lia)) as H1.
  pose proof (Z.div_mod (h + Z.of_nat d') cap ltac:(lia)) as H2. rewrite <- Hz in H2.
  destruct (Z.lt_trichotomy ((h + Z.of_nat d) / cap) ((h + Z.of_nat d') / cap)) as [?|[Hq|?]];
    [nia|rewrite <- Hq in H2; lia|nia].
Qed.
End Slots.

(** The least number with a decidable property, below a number that has it. *)
Lemma least_below (f : nat -> bool) n :
  f n = true -> exists m, (m <= n)%nat /\ f m = true /\ forall k, (k < m)%nat -> f k = false.
Proof.
  induction n as [n IH] using lt_wf_ind. intros Hn.
  destruct (decide (Exists (fun k => f k = true) (seq 0 n))) as [Hex|Hno].
  - apply Exists_exists in Hex as (k & Hk & Hfk). apply in_seq in Hk.
    destruct (IH k ltac:(lia) Hfk) as (m & ? & ? & ?). exists m. split_and!; [lia|done|done].
  - exists n. split_and!; [lia|done|]. intros k Hk. apply not_true_is_false. intros Hfk.
    apply Hno, Exists_exists. exists k. split; [apply in_seq; lia|done].
Qed.

(** ** The table under its invariant *)

Section Table.
Context {K V I : Type} {nullK : NullPtr K} {nullV : NullPtr V} `{Countable I}.
Context {ops : KeyOps K} {ident : K -> option I} {ihash : I -> Z}.
Context {laws : KeyLaws ops ident ihash}.
Implicit Types (map : hashmap K V) (M : gmap I (K * V)) (i : I) (k : K) (v : V).
Implicit Types (arr : list (hashmap_element K V)) (el : hashmap_element K V).

Abbreviation stops := (HashMap.stops ident).
Abbreviation path := (HashMap.path ident ihash).
Abbreviation hm_inv := (HashMap.hm_inv ident ihash).

Lemma element_at_lookup arr (j : nat) el :
  arr !! j = Some el -> element_at arr (Z.of_nat j) = Val el.
Proof.
  intros Hj. unfold element_at. destruct (Z.ltb_spec (Z.of_nat j) 0); [lia|].
  by rewrite Nat2Z.id, Hj.
Qed.

Lemma element_at_Val arr z el :
  element_at arr z = Val el -> 0 <= z /\ arr !! Z.to_nat z = Some el.
Proof.
  unfold element_at. case_match eqn:E; [done|]. intros Hz. case_match; [|done].
  simplify_eq. split; [blia|done].
Qed.

Lemma inv_cap_pos map M : hm_inv map M -> 16 <= capacity map.
Proof.
  intros Hinv. destruct (inv_pow2 _ _ _ _ Hinv) as (n & Hn & ->).
  change 16 with (2 ^ 4). by apply Z.pow_le_mono_r.
Qed.

Lemma inv_mask map M z : hm_inv map M -> Z.land z (capacity map - 1) = z mod capacity map.
Proof.
  intros Hinv. destruct (inv_pow2 _ _ _ _ Hinv) as (n & Hn & ->). apply land_mask. lia.
Qed.

(** A free slot exists. *)
Lemma count_used_free arr :
  (count_used arr < length arr)%nat -> exists j el, arr !! j = Some el /\ used el = false.
Proof.
  unfold count_used. induction arr as [|el arr IH]; cbn [length]; [lia|].
  rewrite filter_cons. case_decide as Hu.
  - cbn [length]. intros Hlt. destruct IH as (j & el' & Hj & Hel'); [lia|]. by exists (S j), el'.
  - intros _. exists O, el. by apply not_true_is_false in Hu.
Qed.

Lemma inv_free_slot map M :
  hm_inv map M -> exists j el, array map !! j = Some el /\ used el = false.
Proof.
  intros Hinv. apply count_used_free. rewrite (inv_count _ _ _ _ Hinv).
  pose proof (inv_length _ _ _ _ Hinv). pose proof (inv_room _ _ _ _ Hinv).
  pose proof (inv_size _ _ _ _ Hinv). lia.
Qed.

(** Where the probe for an identity stops first. *)
Lemma path_exists map M i : hm_inv map M -> exists j, path map i j.
Proof.
  intros Hinv. destruct (inv_free_slot _ _ Hinv) as (j & el & Hj & Hu).
  pose proof (inv_cap_pos _ _ Hinv). pose proof (inv_length _ _ _ _ Hinv).
  apply lookup_lt_Some in Hj as Hlt.
  destruct (slot_surj (capacity map) ltac:(lia) (ihash i) j) as (d & Hd & Hslot); [lia|].
  destruct (least_below (fun d => stops (array map) i (slot (capacity map) (ihash i) d)) d)
    as (m & Hm & Hst & Hmin).
  { unfold HashMap.stops. rewrite Hslot, Hj, Hu. done. }
  exists (slot (capacity map) (ihash i) m), m. done.
Qed.

Lemma path_unique map i j1 j2 : path map i j1 -> path map i j2 -> j1 = j2.
Proof.
  intros (d1 & -> & Hs1 & Hm1) (d2 & -> & Hs2 & Hm2).
  destruct (Nat.lt_trichotomy d1 d2) as [Hlt|[->|Hlt]]; [|done|].
  - by rewrite Hm2 in Hs1.
  - by rewrite Hm1 in Hs2.
Qed.

Lemma path_stops map i j : path map i j -> stops (array map) i j = true.
Proof. intros (d & -> & Hst & _). done. Qed.

(** On its way the probe only meets used slots that hold other identities. *)
Lemma probe_steps map M k i d0 :
  hm_inv map M -> ident k = Some i ->
  stops (array map) i (slot (capacity map) (ihash i) d0) = true ->
  (forall d, (d < d0)%nat -> stops (array map) i (slot (capacity map) (ihash i) d) = false) ->
  forall fuel d, (d <= d0)%nat -> (d0 - d < fuel)%nat ->
  probe ops fuel map k (Z.of_nat (slot (capacity map) (ihash i) d)) =
    Val (Z.of_nat (slot (capacity map) (ihash i) d0)).
Proof.
  intros Hinv Hk Hst Hmin. pose proof (inv_cap_pos _ _ Hinv).
  induction fuel as [|fuel IH]; intros d Hd Hf; [lia|]. cbn [probe].
  destruct (lookup_lt_is_Some_2 (array map) (slot (capacity map) (ihash i) d)) as [el Hel].
  { pose proof (slot_lt (capacity map) ltac:(lia) (ihash i) d).
    pose proof (inv_length _ _ _ _ Hinv). lia. }
  rewrite (element_at_lookup _ _ _ Hel). cbn [mbind res_bind].
  assert (Hs : stops (array map) i (slot (capacity map) (ihash i) d) =
    negb (used el) || bool_decide (ident (key el) = Some i))
    by (unfold HashMap.stops; by rewrite Hel).
  destruct (used el) eqn:Hu; cbn in Hs.
  - destruct (inv_sound _ _ _ _ Hinv _ _ Hel Hu) as (i' & Hi' & _).
    rewrite (equals_ident _ _ _ _ Hk Hi'). cbn. destruct (decide (d = d0)) as [->|Hne].
    + rewrite Hs in Hst. apply bool_decide_eq_true_1 in Hst.
      rewrite bool_decide_eq_true_2 by congruence. done.
    + rewrite Hmin in Hs by lia. symmetry in Hs. apply bool_decide_eq_false_1 in Hs.
      rewrite bool_decide_eq_false_2 by congruence.
      rewrite (inv_mask _ _ _ Hinv), <- slot_succ by lia. apply IH; lia.
  - destruct (decide (d = d0)) as [->|Hne]; [done|]. by rewrite Hmin in Hs by lia.
Qed.

Lemma indexof_path map M k i j :
  hm_inv map M -> ident k = Some i -> path map i j ->
  hashmap_indexof ops map k = Val (Z.of_nat j).
Proof.
  intros Hinv Hk (d0 & -> & Hst & Hmin). unfold hashmap_indexof.
  rewrite (hash_ident _ _ Hk). cbn [mbind res_bind].
  pose proof (inv_cap_pos _ _ Hinv). rewrite (inv_mask _ _ _ Hinv).
  replace (ihash i mod capacity map) with (Z.of_nat (slot (capacity map) (ihash i) 0))
    by (rewrite slot_of_nat by lia; f_equal; lia).
  apply (probe_steps _ M); try done; [lia|].
  pose proof (first_slot_lt (capacity map) ltac:(lia) _ _ _ Hst Hmin). lia.
Qed.

(** What the probe finds, in terms of the abstract map. *)
Lemma indexof_spec map M k i :
  hm_inv map M -> ident k = Some i ->
  exists j el, hashmap_indexof ops map k = Val (Z.of_nat j) /\
    array map !! j = Some el /\ path map i j /\
    match M !! i with
    | Some (k', v) => el = mk_element true k' v
    | None => used el = false
    end.
Proof.
  intros Hinv Hk. destruct (path_exists _ _ i Hinv) as (j & Hj).
  exists j. pose proof (path_stops _ _ _ Hj) as Hst. unfold HashMap.stops in Hst.
  destruct (array map !! j) as [el|] eqn:Hel; [|done].
  exists el. split_and!; [by eapply indexof_path|done|done|].
  destruct (M !! i) as [[k' v]|] eqn:HM.
  - destruct (inv_complete _ _ _ _ Hinv _ _ _ HM) as (Hk' & j' & Hj').
    destruct (inv_sound _ _ _ _ Hinv _ _ Hj' eq_refl) as (i' & Hi' & _ & Hp').
    cbn in Hi'. assert (i' = i) as -> by congruence.
    rewrite (path_unique _ _ _ _ Hj Hp') in Hel. congruence.
  - destruct (used el) eqn:Hu; [|done]. cbn in Hst. apply bool_decide_eq_true_1 in Hst.
    destruct (inv_sound _ _ _ _ Hinv _ _ Hel Hu) as (i' & Hi' & HM' & _). congruence.
Qed.

Lemma get_spec map M k i def :
  hm_inv map M -> ident k = Some i ->
  hashmap_get_or_default ops map k def =
    Val (match M !! i with Some (_, v) => v | None => def end) /\
  hashmap_contains_key ops map k = Val (bool_decide (is_Some (M !! i))).
Proof.
  intros Hinv Hk. unfold hashmap_get_or_default, hashmap_contains_key.
  destruct (indexof_spec _ _ _ _ Hinv Hk) as (j & el & -> & Hel & _ & Hc).
  cbn [mbind res_bind]. rewrite (element_at_lookup _ _ _ Hel). cbn [mbind res_bind].
  destruct (M !! i) as [[k' v]|]; [subst el|]; cbn [used value].
  - by rewrite bool_decide_eq_true_2.
  - rewrite Hc, bool_decide_eq_false_2; [done|]. by intros [].
Qed.

(** ** Updates *)

Lemma stops_insert arr (j x : nat) el i :
  (j < length arr)%nat ->
  stops (<[j := el]> arr) i x =
    if decide (x = j) then negb (used el) || bool_decide (ident (key el) = Some i)
    else stops arr i x.
Proof.
  intros Hj. unfold HashMap.stops. case_decide as Hx.
  - subst x. by rewrite list_lookup_insert_eq.
  - by rewrite list_lookup_insert_ne.
Qed.

(** A path survives any change of slots that does not change where it stops. *)
Lemma path_ext map map' i j :
  capacity map' = capacity map ->
  stops (array map') i j = stops (array map) i j ->
  (forall x, stops (array map) i x = false -> stops (array map') i x = false) ->
  path map i j -> path map' i j.
Proof.
  intros Hcap Hj Hx (d & -> & Hst & Hmin). exists d. rewrite Hcap.
  split_and!; [done|congruence|]. auto.
Qed.

Lemma count_used_insert arr j el el' :
  arr !! j = Some el ->
  (count_used (<[j := el']> arr) + (if used el then 1 else 0) =
   count_used arr + (if used el' then 1 else 0))%nat.
Proof.
  intros Hj. apply list_elem_of_split_length in Hj as (l1 & l2 & -> & ->).
  rewrite insert_app_r_alt, Nat.sub_diag by lia.
  change (<[O := el']> (el :: l2)) with (el' :: l2).
  unfold count_used. rewrite !list.filter_app, !length_app, !filter_cons.
  destruct (used el), (used el'); repeat case_decide; cbn [length]; congruence || lia.
Qed.

Lemma length_set_element map j el :
  length (array (set_element map (Z.of_nat j) el)) = length (array map).
Proof. cbn. apply length_insert. Qed.

(** Overwriting the value of a stored key. *)
Lemma inv_update map M i j k v v' :
  hm_inv map M -> array map !! j = Some (mk_element true k v) -> ident k = Some i ->
  hm_inv (set_element map (Z.of_nat j) (mk_element true k v')) (<[i := (k, v')]> M).
Proof.
  intros Hinv Hj Hk. destruct (inv_sound _ _ _ _ Hinv _ _ Hj eq_refl) as (i' & Hi' & HM & Hp).
  cbn in Hi', HM. assert (i' = i) as -> by congruence. clear Hi'.
  assert (Hlt : (j < length (array map))%nat) by by apply lookup_lt_Some in Hj.
  assert (Hst : forall i x, stops (array (set_element map (Z.of_nat j) (mk_element true k v'))) i x
    = stops (array map) i x).
  { intros i0 x. cbn. rewrite Nat2Z.id, stops_insert by done. case_decide; [|done].
    subst x. unfold HashMap.stops. by rewrite Hj. }
  assert (Hpe : forall i x, path map i x ->
    path (set_element map (Z.of_nat j) (mk_element true k v')) i x).
  { intros i0 x. apply path_ext; [done|apply Hst|]. intros y. by rewrite Hst. }
  assert (Hsz : size (<[i := (k, v')]> M) = size M)
    by (apply map_size_insert_Some; by rewrite HM).
  destruct Hinv as [Hpow Hlen Hsize Hcount Hroom Hsound Hcompl].
  split; rewrite ?length_set_element, ?Hsz; try done.
  - cbn [array set_element]. rewrite Nat2Z.id.
    pose proof (count_used_insert _ j _ (mk_element true k v') Hj) as Hc.
    cbn [used] in Hc. lia.
  - intros x el Hx Hu. cbn in Hx. rewrite Nat2Z.id in Hx.
    destruct (decide (x = j)) as [->|Hne].
    + rewrite list_lookup_insert_eq in Hx by done. simplify_eq. exists i. cbn.
      rewrite lookup_insert_eq. auto.
    + rewrite list_lookup_insert_ne in Hx by done.
      destruct (Hsound _ _ Hx Hu) as (i' & Hi' & HM' & Hp'). exists i'.
      split_and!; [done| |by apply Hpe].
      rewrite lookup_insert_ne; [done|]. intros <-.
      by pose proof (path_unique _ _ _ _ Hp Hp').
  - intros i' k' v'' HM'. cbn. rewrite Nat2Z.id. destruct (decide (i' = i)) as [->|Hne].
    + rewrite lookup_insert_eq in HM'. simplify_eq. split; [done|]. exists j.
      by apply list_lookup_insert_eq.
    + rewrite lookup_insert_ne in HM' by done.
      destruct (Hcompl _ _ _ HM') as (Hk' & x & Hx). split; [done|]. exists x.
      rewrite list_lookup_insert_ne; [done|]. intros <-. congruence.
Qed.
(** Filling the free slot where the probe stopped. *)
Definition fill map (j : nat) (k : K) (v : V) : hashmap K V :=
  add_size (set_element map (Z.of_nat j) (mk_element true k v)) 1.

Lemma array_fill map j k v : array (fill map j k v) = <[j := mk_element true k v]> (array map).
Proof. cbn. by rewrite Nat2Z.id. Qed.

Lemma path_fill map i i' j el k v x :
  array map !! j = Some el -> used el = false -> ident k = Some i ->
  path map i' x -> x <> j \/ i' = i -> path (fill map j k v) i' x.
Proof.
  intros Hj Hu Hk Hp Hx. assert (Hlt : (j < length (array map))%nat)
    by by apply lookup_lt_Some in Hj.
  pose proof (path_stops _ _ _ Hp) as Hpst.
  apply (path_ext map); [done| | |done].
  - rewrite array_fill, stops_insert by done. case_decide as Hxj; [|done]. subst x.
    destruct Hx as [| ->]; [done|]. rewrite Hpst. cbn. by rewrite bool_decide_eq_true_2.
  - intros y Hy. rewrite array_fill, stops_insert by done. case_decide as Hyj; [|done].
    subst y. unfold HashMap.stops in Hy. by rewrite Hj, Hu in Hy.
Qed.

Lemma inv_insert map M i j k v el :
  hm_inv map M -> array map !! j = Some el -> used el = false ->
  path map i j -> ident k = Some i -> M !! i = None -> size_ map + 1 < capacity map ->
  hm_inv (fill map j k v) (<[i := (k, v)]> M).
Proof.
  intros Hinv Hj Hu Hp Hk HM Hroom.
  assert (Hlt : (j < length (array map))%nat) by by apply lookup_lt_Some in Hj.
  assert (Hsz : size (<[i := (k, v)]> M) = S (size M)) by by apply map_size_insert_None.
  destruct Hinv as [Hpow Hlen Hsize Hcount _ Hsound Hcompl].
  split; rewrite ?array_fill, ?length_insert, ?Hsz; try done.
  - cbn. lia.
  - pose proof (count_used_insert _ j _ (mk_element true k v) Hj) as Hc.
    rewrite Hu in Hc. cbn [used] in Hc. lia.
  - intros x el' Hx Hu'. destruct (decide (x = j)) as [->|Hne].
    + rewrite list_lookup_insert_eq in Hx by done. simplify_eq. exists i. cbn [key value].
      rewrite lookup_insert_eq. split_and!; [done|done|]. eapply path_fill; eauto.
    + rewrite list_lookup_insert_ne in Hx by done.
      destruct (Hsound _ _ Hx Hu') as (i' & Hi' & HM' & Hp'). exists i'.
      split_and!; [done| |eapply path_fill; eauto].
      rewrite lookup_insert_ne; [done|]. intros <-. congruence.
  - intros i' k' v' HM'. destruct (decide (i' = i)) as [->|Hne].
    + rewrite lookup_insert_eq in HM'. simplify_eq. split; [done|]. exists j.
      by apply list_lookup_insert_eq.
    + rewrite lookup_insert_ne in HM' by done.
      destruct (Hcompl _ _ _ HM') as (Hk' & x & Hx). split; [done|]. exists x.
      rewrite list_lookup_insert_ne; [done|]. intros <-. rewrite Hx in Hj.
      by simplify_eq.
Qed.

(** ** Insertion *)

(** The abstract effect of [hashmap_put]: the pointer of a key that is already
    stored is kept. *)
Definition put_abs M i k v : gmap I (K * V) :=
  <[i := (match M !! i with Some (k0, _) => k0 | None => k end, v)]> M.

Lemma put_here_spec map M i k v :
  hm_inv map M -> ident k = Some i -> M !! i = None -> size_ map + 1 < capacity map ->
  exists map', put_here ops map k v = Val map' /\ hm_inv map' (put_abs M i k v) /\
    capacity map' = capacity map.
Proof.
  intros Hinv Hk HM Hroom. unfold put_here, put_abs.
  destruct (indexof_spec _ _ _ _ Hinv Hk) as (j & el & -> & Hel & Hp & Hcase).
  cbn [mbind res_bind]. rewrite (element_at_lookup _ _ _ Hel). cbn [mbind res_bind].
  rewrite HM in *. rewrite Hcase. exists (fill map j k v). split_and!; [done| |done].
  by eapply inv_insert.
Qed.

Lemma put_here_old_spec map M i k v k0 v0 :
  hm_inv map M -> ident k = Some i -> M !! i = Some (k0, v0) ->
  exists map', put_here ops map k v = Val map' /\ hm_inv map' (put_abs M i k v) /\
    capacity map' = capacity map.
Proof.
  intros Hinv Hk HM. unfold put_here, put_abs.
  destruct (indexof_spec _ _ _ _ Hinv Hk) as (j & el & -> & Hel & Hp & Hcase).
  cbn [mbind res_bind]. rewrite (element_at_lookup _ _ _ Hel). cbn [mbind res_bind].
  rewrite HM in *. subst el. cbn [used key].
  exists (set_element map (Z.of_nat j) (mk_element true k0 v)).
  split_and!; [done| |done]. eapply inv_update; [done|done|].
  by apply (inv_complete _ _ _ _ Hinv _ _ _ HM).
Qed.

Lemma put_here_any map M i k v :
  hm_inv map M -> ident k = Some i -> size_ map + 1 < capacity map ->
  exists map', put_here ops map k v = Val map' /\ hm_inv map' (put_abs M i k v) /\
    capacity map' = capacity map.
Proof.
  intros Hinv Hk Hroom. destruct (M !! i) as [[k0 v0]|] eqn:HM.
  - by eapply put_here_old_spec.
  - by apply put_here_spec.
Qed.

Lemma load_factor_div map M :
  hm_inv map M -> hashmap_load_factor map = size_ map * 100 / capacity map.
Proof.
  intros Hinv. unfold hashmap_load_factor. pose proof (inv_cap_pos _ _ Hinv).
  apply Z.quot_div_nonneg; [rewrite (inv_size _ _ _ _ Hinv)|]; lia.
Qed.

(** At most 70 per cent: a free slot remains after the insertion. *)
Lemma load_factor_room map M :
  hm_inv map M -> hashmap_load_factor map <= 70 -> size_ map + 1 < capacity map.
Proof.
  intros Hinv. rewrite (load_factor_div _ _ Hinv). pose proof (inv_cap_pos _ _ Hinv).
  intros Hle. assert (size_ map * 100 < 71 * capacity map); [|lia].
  
  pose proof (Z.mul_div_le (size_ map * 100) (capacity map)).
  pose proof (Z.mod_pos_bound (size_ map * 100) (capacity map)).
  pose proof (Z.div_mod (size_ map * 100) (capacity map)). nia.
Qed.

Lemma load_factor_half map M :
  hm_inv map M -> 2 * size_ map <= capacity map -> hashmap_load_factor map <= 70.
Proof.
  intros Hinv Hle. rewrite (load_factor_div _ _ Hinv). pose proof (inv_cap_pos _ _ Hinv).
  apply Z.div_le_upper_bound; lia.
Qed.

(** ** Growth *)

Lemma inv_empty n :
  4 <= n -> hm_inv (mk_hashmap (replicate (Z.to_nat (2 ^ n)) zero_element) (2 ^ n) 0) ∅.
Proof.
  intros Hn. assert (0 < 2 ^ n) by (apply Z.pow_pos_nonneg; lia).
  assert (Hfree : forall m j (el : hashmap_element K V),
    replicate m zero_element !! j = Some el -> used el = false).
  { intros m j el [-> _]%lookup_replicate. done. }
  split; cbn [array capacity size_]; rewrite ?map_size_empty; try done.
  - by exists n.
  - rewrite length_replicate. lia.
  - unfold count_used. induction (Z.to_nat (2 ^ n)) as [|m IH]; [done|].
    cbn [replicate]. by rewrite list.filter_cons, decide_False by done.
  - intros j el Hj Hu. by rewrite (Hfree _ _ _ Hj) in Hu.
Qed.

Lemma put_depth_light depth map M k v :
  hm_inv map M -> 2 * size_ map <= capacity map ->
  put_depth ops depth map k v = put_here ops map k v.
Proof.
  intros Hinv Hle. pose proof (load_factor_half _ _ Hinv Hle).
  destruct depth; cbn [put_depth]; by destruct (Z.ltb_spec 70 (hashmap_load_factor map)); [lia|].
Qed.

(** The used elements of a list are the entries of a map. *)
Definition entry_of (old : list (hashmap_element K V)) i (kv : K * V) : Prop :=
  exists el, el ∈ old /\ used el = true /\ ident (key el) = Some i /\ kv = (key el, value el).

Definition distinct_idents (old : list (hashmap_element K V)) : Prop :=
  forall j1 j2 e1 e2 i, old !! j1 = Some e1 -> old !! j2 = Some e2 ->
    used e1 = true -> used e2 = true ->
    ident (key e1) = Some i -> ident (key e2) = Some i -> j1 = j2.

Lemma distinct_idents_cons el old :
  distinct_idents (el :: old) -> distinct_idents old /\
  (used el = true -> forall e i, e ∈ old -> used e = true ->
    ident (key el) = Some i -> ident (key e) <> Some i).
Proof.
  intros Hd. split.
  - intros j1 j2 e1 e2 i Hj1 Hj2 Hu1 Hu2 Hi1 Hi2.
    specialize (Hd (S j1) (S j2) e1 e2 i). naive_solver.
  - intros Hu e i (j & Hj)%list_elem_of_lookup Hue Hi Hie.
    by specialize (Hd O (S j) el e i eq_refl Hj Hu Hue Hi Hie).
Qed.

Lemma entry_of_cons el old i kv :
  entry_of (el :: old) i kv <->
    (used el = true /\ ident (key el) = Some i /\ kv = (key el, value el)) \/ entry_of old i kv.
Proof.
  unfold entry_of. setoid_rewrite elem_of_cons. split.
  - intros (e & [-> | He] & Hu & Hi & Hkv); [by left|right; by exists e].
  - intros [(Hu & Hi & Hkv)|(e & He & Hu & Hi & Hkv)]; [exists el|exists e]; auto.
Qed.

Lemma reinsert_spec depth old map M :
  hm_inv map M -> distinct_idents old ->
  (forall el, el ∈ old -> used el = true -> exists i, ident (key el) = Some i /\ M !! i = None) ->
  2 * (size_ map + Z.of_nat (count_used old)) <= capacity map ->
  exists map' M', reinsert (put_depth ops depth) old map = Val map' /\
    hm_inv map' M' /\ capacity map' = capacity map /\
    forall i kv, M' !! i = Some kv <-> M !! i = Some kv \/ entry_of old i kv.
Proof.
  revert map M. induction old as [|el old IH]; intros map M Hinv Hd Hid Hroom.
  { exists map, M. split_and!; [done|done|done|]. intros i kv. split; [by left|].
    intros [|(el & Hel & _)]; [done|]. by apply elem_of_nil in Hel. }
  apply distinct_idents_cons in Hd as [Hd Hel].
  cbn [reinsert]. unfold count_used in Hroom. rewrite list.filter_cons in Hroom.
  case_decide as Hu.
  - rewrite Hu. destruct (Hid el ltac:(left) Hu) as (i & Hi & HM).
    cbn [length] in Hroom. rewrite (put_depth_light _ _ M) by (done || lia).
    pose proof (inv_cap_pos _ _ Hinv).
    destruct (put_here_spec map M i (key el) (value el)) as (map1 & -> & Hinv1 & Hcap1);
      [done|done|done|lia|].
    unfold put_abs in Hinv1. rewrite HM in Hinv1. cbn [mbind res_bind].
    destruct (IH map1 _ Hinv1) as (map' & M' & Hr & Hinv' & Hcap' & HM'); [done| | |].
    { intros e He Hue. destruct (Hid e ltac:(by right) Hue) as (i' & Hi' & HMi').
      exists i'. split; [done|]. rewrite lookup_insert_ne; [done|]. intros <-.
      by apply (Hel Hu e i He Hue Hi). }
    { rewrite (inv_size _ _ _ _ Hinv1), map_size_insert_None by done.
      rewrite (inv_size _ _ _ _ Hinv) in Hroom. unfold count_used. lia. }
    exists map', M'. split_and!; [done|done|congruence|]. intros i' kv.
    rewrite HM', entry_of_cons, Hu, Hi. destruct (decide (i' = i)) as [->|].
    + rewrite lookup_insert_eq, HM. intuition congruence.
    + rewrite lookup_insert_ne by done. intuition congruence.
  - apply not_true_is_false in Hu as Hu'. rewrite Hu'. cbn [mbind res_bind mret res_ret].
    destruct (IH map M Hinv) as (map' & M' & Hr & Hinv' & Hcap' & HM'); [done| |done|].
    { intros e He. apply Hid. by right. }
    exists map', M'. split_and!; [done|done|done|]. intros i' kv.
    rewrite HM', entry_of_cons, Hu'. intuition congruence.
Qed.

Lemma inv_distinct map M : hm_inv map M -> distinct_idents (array map).
Proof.
  intros Hinv j1 j2 e1 e2 i Hj1 Hj2 Hu1 Hu2 Hi1 Hi2.
  destruct (inv_sound _ _ _ _ Hinv _ _ Hj1 Hu1) as (i1 & Hi1' & _ & Hp1).
  destruct (inv_sound _ _ _ _ Hinv _ _ Hj2 Hu2) as (i2 & Hi2' & _ & Hp2).
  simplify_eq. by eapply path_unique.
Qed.

Lemma inv_entries map M i kv : hm_inv map M -> M !! i = Some kv <-> entry_of (array map) i kv.
Proof.
  intros Hinv. split.
  - destruct kv as [k v]. intros HM.
    destruct (inv_complete _ _ _ _ Hinv _ _ _ HM) as (Hk & j & Hj).
    exists (mk_element true k v). split_and!; [|done|done|done].
    apply list_elem_of_lookup. eauto.
  - intros (el & (j & Hj)%list_elem_of_lookup & Hu & Hi & ->).
    destruct (inv_sound _ _ _ _ Hinv _ _ Hj Hu) as (i' & Hi' & HM & _). congruence.
Qed.

Lemma expand_spec depth map M :
  hm_inv map M -> exists map', expand_with (put_depth ops depth) map = Val map' /\
    hm_inv map' M /\ capacity map' = 2 * capacity map.
Proof.
  intros Hinv. unfold expand_with. destruct (inv_pow2 _ _ _ _ Hinv) as (n & Hn & Hcap).
  replace (capacity map * 2) with (2 ^ (n + 1)) by (rewrite Hcap, Z.pow_add_r; lia).
  replace (2 * capacity map) with (2 ^ (n + 1)) by (rewrite Hcap, Z.pow_add_r; lia).
  edestruct (reinsert_spec depth (array map)) as (map' & M' & Hr & Hinv' & Hcap' & HM').
  - apply (inv_empty (n + 1)). lia.
  - by eapply inv_distinct.
  - intros el (j & Hj)%list_elem_of_lookup Hu.
    destruct (inv_sound _ _ _ _ Hinv _ _ Hj Hu) as (i & Hi & _). by exists i.
  - cbn [size_ capacity]. rewrite (inv_count _ _ _ _ Hinv), <- (inv_size _ _ _ _ Hinv).
    rewrite Z.pow_add_r by lia. pose proof (inv_room _ _ _ _ Hinv). lia.
  - exists map'. split_and!; [done| |done]. replace M with M'; [done|].
    apply map_eq. intros i. apply option_eq. intros kv.
    rewrite HM', (inv_entries _ _ _ _ Hinv), lookup_empty. intuition congruence.
Qed.

Lemma put_depth_S depth map k v :
  put_depth ops (S depth) map k v =
    (map ← (if 70 <? hashmap_load_factor map then expand_with (put_depth ops depth) map
            else mret map);
     put_here ops map k v).
Proof. done. Qed.

Lemma put_spec map M i k v :
  hm_inv map M -> ident k = Some i ->
  exists map', hashmap_put ops map k v = Val map' /\ hm_inv map' (put_abs M i k v) /\
    capacity map' = if 70 <? hashmap_load_factor map then 2 * capacity map else capacity map.
Proof.
  intros Hinv Hk. unfold hashmap_put. rewrite put_depth_S.
  destruct (Z.ltb_spec 70 (hashmap_load_factor map)).
  - destruct (expand_spec 0 _ _ Hinv) as (map1 & -> & Hinv1 & Hcap1). cbn [mbind res_bind].
    rewrite <- Hcap1. apply put_here_any; [done|done|].
    rewrite Hcap1. pose proof (inv_room _ _ _ _ Hinv). pose proof (inv_cap_pos _ _ Hinv).
    rewrite (inv_size _ _ _ _ Hinv1), <- (inv_size _ _ _ _ Hinv). lia.
  - apply put_here_any; [done|done|]. by eapply load_factor_room.
Qed.

(** ** Removal *)

(** The array after [hashmap_remove] of the key in slot [j]. *)
Definition cleared map (j : nat) (k : K) (v : V) : hashmap K V :=
  add_size (set_element map (Z.of_nat j) (mk_element false k v)) (-1).

Lemma array_cleared map j k v :
  array (cleared map j k v) = <[j := mk_element false k v]> (array map).
Proof. cbn. by rewrite Nat2Z.id. Qed.

Lemma remove_found map M i k k0 v :
  hm_inv map M -> ident k = Some i -> M !! i = Some (k0, v) ->
  exists j, array map !! j = Some (mk_element true k0 v) /\ path map i j /\
    hashmap_remove ops map k = Val (cleared map j k0 v).
Proof.
  intros Hinv Hk HM. destruct (indexof_spec _ _ _ _ Hinv Hk) as (j & el & Hix & Hel & Hp & Hc).
  rewrite HM in Hc. subst el. exists j. split_and!; [done|done|].
  unfold hashmap_remove. rewrite Hix. cbn [mbind res_bind].
  by rewrite (element_at_lookup _ _ _ Hel).
Qed.

(** The slot after [j] in probing order. *)
Definition next_slot (cap : Z) (j : nat) : nat := Z.to_nat ((Z.of_nat j + 1) mod cap).

(** When the slot after [j] is free no probe continues past [j]. *)
Lemma path_not_past map M i j jn el :
  hm_inv map M -> jn = next_slot (capacity map) j ->
  array map !! jn = Some el -> used el = false ->
  forall x, path map i x -> x <> j -> x <> jn ->
  forall d, (x = slot (capacity map) (ihash i) d) ->
    (forall d', (d' < d)%nat -> stops (array map) i (slot (capacity map) (ihash i) d') = false) ->
  forall d', (d' < d)%nat -> slot (capacity map) (ihash i) d' <> j.
Proof.
  intros Hinv -> Hn Hu x Hp Hxj Hxn d -> Hmin d' Hd' Heq.
  pose proof (inv_cap_pos _ _ Hinv).
  assert (Hnext : slot (capacity map) (ihash i) (S d') = next_slot (capacity map) j).
  { unfold next_slot. rewrite <- Heq, <- slot_succ by lia. by rewrite Nat2Z.id. }
  destruct (decide (S d' = d)) as [<-|]; [by rewrite Hnext in Hxn|].
  assert (Hst : stops (array map) i (slot (capacity map) (ihash i) (S d')) = false)
    by (apply Hmin; lia).
  rewrite Hnext in Hst. unfold HashMap.stops in Hst. by rewrite Hn, Hu in Hst.
Qed.

Lemma path_cleared map M i j k v el :
  hm_inv map M -> array map !! next_slot (capacity map) j = Some el -> used el = false ->
  (j < length (array map))%nat ->
  forall x el', path map i x -> x <> j -> array map !! x = Some el' -> used el' = true ->
  path (cleared map j k v) i x.
Proof.
  intros Hinv Hn Hu Hlt x el' Hp Hxj Hx Hu'.
  assert (Hxn : x <> next_slot (capacity map) j) by (intros ->; congruence).
  destruct Hp as (d & Hxd & Hst & Hmin). exists d. rewrite array_cleared.
  split_and!; [done| |].
  - rewrite stops_insert by done. by rewrite decide_False.
  - intros d' Hd'. cbn [capacity cleared add_size set_element].
    rewrite stops_insert, decide_False; [by apply Hmin| |done].
    apply (path_not_past _ _ i _ _ el Hinv eq_refl Hn Hu x ltac:(by exists d) Hxj Hxn d);
      done.
Qed.

Lemma inv_cleared map M i j k v el :
  hm_inv map M -> array map !! j = Some (mk_element true k v) -> ident k = Some i ->
  array map !! next_slot (capacity map) j = Some el -> used el = false ->
  hm_inv (cleared map j k v) (delete i M).
Proof.
  intros Hinv Hj Hk Hn Hu. destruct (inv_sound _ _ _ _ Hinv _ _ Hj eq_refl) as (i0 & Hi0 & HM & Hp).
  cbn in Hi0, HM. assert (i0 = i) as -> by congruence.
  assert (Hlt : (j < length (array map))%nat) by by apply lookup_lt_Some in Hj.
  assert (Hsz : (size M = S (size (delete i M)))%nat).
  { rewrite map_size_delete, HM. assert (size M <> 0)%nat; [|lia].
    intros Hz%map_size_empty_inv. subst M. by rewrite lookup_empty in HM. }
  pose proof Hinv as [Hpow Hlen Hsize Hcount Hroom Hsound Hcompl].
  split; rewrite ?array_cleared, ?length_insert; try done.
  - cbn. lia.
  - pose proof (count_used_insert _ j _ (mk_element false k v) Hj) as Hc.
    cbn [used] in Hc. lia.
  - cbn. lia.
  - intros x el' Hx Hu'. destruct (decide (x = j)) as [->|Hne].
    { rewrite list_lookup_insert_eq in Hx by done. by simplify_eq. }
    rewrite list_lookup_insert_ne in Hx by done.
    destruct (Hsound _ _ Hx Hu') as (i' & Hi' & HM' & Hp'). exists i'.
    split_and!; [done| |by eapply path_cleared].
    rewrite lookup_delete_ne; [done|]. intros <-.
    by pose proof (path_unique _ _ _ _ Hp Hp').
  - intros i' k' v' [Hne HM']%lookup_delete_Some.
    destruct (Hcompl _ _ _ HM') as (Hk' & x & Hx). split; [done|]. exists x.
    rewrite list_lookup_insert_ne; [done|]. intros <-. congruence.
Qed.

End Table.

(** ** The probing loop without fuel *)

Section Loop.
Context {K V : Type} {nullK : NullPtr K} {nullV : NullPtr V} {ops : KeyOps K}.
Context (map : hashmap K V) (k : K).

(** The loop goes on at index [z]. *)
Definition goes_on (z : Z) : Prop :=
  exists el, element_at (array map) z = Val el /\ used el = true /\
    equals k (key el) = Val false.

Definition advance (z : Z) : Z := Z.land (z + 1) (capacity map - 1).

Lemma probe_loop_complete z r :
  probe_loop ops map k z r -> exists n, probe ops n map k z = Val r.
Proof.
  induction 1 as [z el He Hu|z el He Hu Hq|z el r He Hu Hq _ (n & IH)].
  - exists 1%nat. cbn. rewrite He. cbn. by rewrite Hu.
  - exists 1%nat. cbn. rewrite He. cbn. by rewrite Hu, Hq.
  - exists (S n). cbn. rewrite He. cbn. rewrite Hu, Hq. done.
Qed.

Lemma probe_loop_sound n z r : probe ops n map k z = Val r -> probe_loop ops map k z r.
Proof.
  revert z. induction n as [|n IH]; intros z; [done|]. cbn [probe].
  destruct (element_at (array map) z) as [el|] eqn:He; [|done]. cbn [mbind res_bind].
  destruct (used el) eqn:Hu; [|intros [= <-]; by eapply probe_free].
  destruct (equals k (key el)) as [[]|] eqn:Hq; [| |done]; cbn [mbind res_bind].
  - intros [= <-]. by eapply probe_found.
  - intros Hp. by eapply probe_next; eauto.
Qed.

Lemma probe_more n m z :
  probe ops n map k z <> Fault Diverges -> probe ops (n + m) map k z = probe ops n map k z.
Proof.
  revert z. induction n as [|n IH]; intros z; [done|]. cbn [Nat.add probe].
  destruct (element_at (array map) z) as [el|]; [|done]. cbn [mbind res_bind].
  destruct (used el); [|done].
  destruct (equals k (key el)) as [[]|]; cbn [mbind res_bind]; [done| |done]. apply IH.
Qed.

Lemma probe_deterministic n m z x y :
  probe ops n map k z = Val x -> probe ops m map k z = Val y -> x = y.
Proof.
  intros Hx Hy. pose proof (probe_more n m z) as H1. pose proof (probe_more m n z) as H2.
  rewrite Hx in H1. rewrite Hy in H2. rewrite Nat.add_comm in H2.
  specialize (H1 ltac:(done)). specialize (H2 ltac:(done)). congruence.
Qed.

(** When some amount of fuel gives a result, less fuel can only diverge. *)
Lemma probe_fault n m z x f :
  probe ops n map k z = Val x -> probe ops m map k z = Fault f -> f = Diverges.
Proof.
  intros Hx Hf. destruct (decide (f = Diverges)); [done|].
  pose proof (probe_more n m z) as H1. pose proof (probe_more m n z) as H2.
  rewrite Hx in H1. rewrite Hf in H2. rewrite Nat.add_comm in H2.
  specialize (H1 ltac:(done)). specialize (H2 ltac:(congruence)). congruence.
Qed.

Lemma probe_diverges_on n z :
  probe ops n map k z = Fault Diverges ->
  (forall el, equals k el <> Fault Diverges) ->
  forall d, (d < n)%nat -> goes_on (Nat.iter d advance z).
Proof.
  revert z. induction n as [|n IH]; intros z Hp Hok d Hd; [lia|]. cbn [probe] in Hp.
  destruct (element_at (array map) z) as [el|f] eqn:He; cbn [mbind res_bind] in Hp.
  2: { unfold element_at in He. repeat case_match; congruence. }
  destruct (used el) eqn:Hu; [|done].
  destruct (equals k (key el)) as [[]|f] eqn:Hq; cbn [mbind res_bind] in Hp;
    [done| |by specialize (Hok (key el)); congruence].
  destruct d as [|d]; [by exists el|]. rewrite Nat.iter_succ_r. apply IH; [done|done|lia].
Qed.

Lemma iter_advance n z d :
  0 <= n -> capacity map = 2 ^ n -> 0 <= z < capacity map ->
  Nat.iter d advance z = (z + Z.of_nat d) mod capacity map.
Proof.
  intros Hn Hc Hz. induction d as [|d IH].
  - cbn. rewrite Z.add_0_r. symmetry. by apply Z.mod_small.
  - rewrite Nat.iter_succ, IH. unfold advance. rewrite Hc, land_mask by done.
    rewrite Zplus_mod_idemp_l. f_equal. lia.
Qed.

Lemma goes_on_forever z r :
  (forall d, goes_on (Nat.iter d advance z)) -> ~ probe_loop ops map k z r.
Proof.
  intros Hall Hr. induction Hr as [z el He Hu|z el He Hu Hq|z el r He Hu Hq _ IH].
  - destruct (Hall O) as (el' & He' & Hu' & _). cbn in He'. congruence.
  - destruct (Hall O) as (el' & He' & _ & Hq'). cbn in He'. congruence.
  - apply IH. intros d. specialize (Hall (S d)). by rewrite Nat.iter_succ_r in Hall.
Qed.
End Loop.

Lemma highest_bit_loop_spec fuel i k :
  0 <= k -> 2 ^ k < 2 * i \/ k = 0 -> i <= 2 ^ 62 -> 63 - k < Z.of_nat fuel -> k <= 62 ->
  exists n, k <= n <= 62 /\ highest_bit_loop fuel i (2 ^ k) = Val (Z.quot (2 ^ n) 2) /\
    i <= 2 ^ n /\ (n = 0 \/ 2 ^ n < 2 * i).
Proof.
  revert k. induction fuel as [|fuel IH]; intros k Hk Hlow Hi Hf Hk2; [lia|].
  cbn [highest_bit_loop]. destruct (Z.ltb_spec (2 ^ k) i) as [Hlt|Hge].
  - assert (k < 62) by (apply (Z.pow_lt_mono_r_iff 2); lia).
    rewrite Z.shiftl_mul_pow2 by lia. replace (2 ^ k * 2 ^ 1) with (2 ^ (k + 1))
      by (rewrite Z.pow_add_r; lia).
    assert (2 ^ (k + 1) <= 2 ^ 62) by (apply Z.pow_le_mono_r; lia).
    destruct (Z.leb_spec (2 ^ 63) (2 ^ (k + 1))); [lia|].
    destruct (IH (k + 1)) as (n & Hn & Hr & Hin & Hb); try lia.
    { left. rewrite Z.pow_add_r by lia. lia. }
    exists n. split_and!; try done; lia.
  - exists k. split_and!; done || lia.
Qed.

(** ** Integer keys, for concrete runs: a key is its own identity and hash. *)

#[export] Instance Z_null : NullPtr Z := -1.

#[export] Instance Z_ops : KeyOps Z := {|
  hash := fun k => Val k;
  equals := fun a b => Val (a =? b)
|}.

#[export] Instance Z_laws : KeyLaws Z_ops (fun k => Some k) id.
Proof.
  split; [by intros k i [= ->]|]. intros a b i j [= ->] [= ->]. cbn. f_equal.
  destruct (Z.eqb_spec i j); symmetry; [by apply bool_decide_eq_true_2|by apply bool_decide_eq_false_2].
Qed.

Abbreviation Z_inv := (hm_inv (V := Z) (fun k : Z => Some k) id).
Definition Z_empty : hashmap Z Z := mk_hashmap (replicate 16 zero_element) 16 0.

Lemma Z_empty_inv : Z_inv Z_empty ∅.
Proof. apply (inv_empty 4). lia. Qed.

(** Keys 5, 21, 37 have the same home slot in a table of 16. *)
Definition Z_three : hashmap Z Z :=
  match (m ← hashmap_put Z_ops Z_empty 5 50; m ← hashmap_put Z_ops m 21 210;
         hashmap_put Z_ops m 37 370) with
  | Val m => m | Fault _ => Z_empty
  end.

Lemma Z_three_inv : Z_inv Z_three (<[37 := (37, 370)]> (<[21 := (21, 210)]> {[5 := (5, 50)]})).
Proof.

  edestruct (put_spec _ _ 5 5 50 Z_empty_inv eq_refl) as (m1 & E1 & Hi1 & _).
  edestruct (put_spec _ _ 21 21 210 Hi1 eq_refl) as (m2 & E2 & Hi2 & _).
  edestruct (put_spec _ _ 37 37 370 Hi2 eq_refl) as (m3 & E3 & Hi3 & _).
  unfold Z_three. rewrite E1. cbn [mbind res_bind]. rewrite E2. cbn [mbind res_bind].
  by rewrite E3.
Qed.

End HashMapFacts.
