(* ===== verification/HashMapSpec.v ===== *)
(** * What the hash map promises

    The contract of src/src/collections/hashmap.c against finite maps, for any
    client that keeps [KeyLaws]: allocation, lookup, insertion, growth, clearing,
    the exact conditions under which removal is correct, and the termination of
    the probing loop. *)

From S2P Require Import Prelude HashMap HashMapFacts.
Import HashMap HashMapFacts.

Module HashMapSpec.

Section Contract.
Context {K V I : Type} {nullK : NullPtr K} {nullV : NullPtr V} `{Countable I}.
Context {ops : KeyOps K} {ident : K -> option I} {ihash : I -> Z}.
Context {laws : KeyLaws ops ident ihash}.
Implicit Types (map : hashmap K V) (M : gmap I (K * V)) (i : I) (k : K) (v : V).

(** Allocation. *)
Lemma alloc_spec initial_size :
  initial_size <= 2 ^ 62 ->
  exists map, hashmap_alloc initial_size = Val map /\ hm_inv ident ihash map ∅ /\
    initial_size <= hashmap_capacity map /\
    (hashmap_capacity map = 16 \/ hashmap_capacity map < 2 * initial_size).
Proof.
  intros Hi. unfold hashmap_alloc, highest_bit.
  change (highest_bit_loop 64 initial_size 1) with (highest_bit_loop 64 initial_size (2 ^ 0)).
  destruct (highest_bit_loop_spec 64 initial_size 0) as (n & Hn & -> & Hin & Hb); try lia.
  cbn [mbind res_bind mret res_ret].
  assert (Hshift : 1 <= n -> Z.shiftl (Z.quot (2 ^ n) 2) 1 = 2 ^ n).
  { intros. rewrite Z.shiftl_mul_pow2 by lia. replace n with (n - 1 + 1) by lia.
    rewrite Z.pow_add_r, Z.quot_mul by lia. lia. }
  eexists. split; [done|]. unfold hashmap_capacity. cbn [capacity].
  destruct (decide (n < 4)) as [Hlt|Hge].
  - assert (2 ^ n <= 8) by (change 8 with (2 ^ 3); apply Z.pow_le_mono_r; lia).
    destruct (Z.ltb_spec (Z.shiftl (Z.quot (2 ^ n) 2) 1) 16) as [|Hbad].
    + split_and!; [apply (inv_empty 4); lia|lia|lia].
    + assert (n = 0 \/ 1 <= n) as [->|Hn1] by lia; [done|]. rewrite Hshift in Hbad; lia.
  - assert (2 ^ 4 <= 2 ^ n) by (apply Z.pow_le_mono_r; lia).
    rewrite Hshift by lia. destruct (Z.ltb_spec (2 ^ n) 16); [lia|].
    split_and!; [apply inv_empty; lia|lia|lia].
Qed.

(** C40 [hashmap_alloc] returns an empty well-formed table for every requested size
    up to 2^62: its capacity is a power of two, at least the request, and either
    the minimum 16 or less than twice the request. *)
Theorem alloc_correct initial_size :
  initial_size <= 2 ^ 62 ->
  exists map, hashmap_alloc initial_size = Val map /\ hm_inv ident ihash map ∅ /\
    initial_size <= hashmap_capacity map /\
    (hashmap_capacity map = 16 \/ hashmap_capacity map < 2 * initial_size).
Proof. apply alloc_spec. Qed.

(** Lookups agree with the abstract map: [hashmap_get_or_default] returns the
    value stored for the identity of the key, or the default, and
    [hashmap_contains_key] tells which; both return on every well-formed table. *)
Theorem get_correct map M k i def :
  hm_inv ident ihash map M -> ident k = Some i ->
  hashmap_get_or_default ops map k def =
    Val (match M !! i with Some (_, v) => v | None => def end) /\
  hashmap_contains_key ops map k = Val (bool_decide (is_Some (M !! i))).
Proof. intros Hinv Hk. by apply get_spec. Qed.

(** C9 [hashmap_put] implements insertion: it returns, keeps the table well-formed
    (doubling it above a load of 70 per cent), stores the value under the key's
    identity, keeps the pointer of a key that was already there, and changes no
    other entry. *)
Theorem put_correct map M k i v :
  hm_inv ident ihash map M -> ident k = Some i ->
  let k' := match M !! i with Some (k0, _) => k0 | None => k end in
  exists map', hashmap_put ops map k v = Val map' /\
    hm_inv ident ihash map' (<[i := (k', v)]> M) /\
    hashmap_capacity map' =
      if 70 <? hashmap_load_factor map then 2 * hashmap_capacity map else hashmap_capacity map.
Proof. intros Hinv Hk. by apply put_spec. Qed.

(** [hashmap_expand] doubles the capacity and keeps every entry, with its key
    and value pointers. *)
Theorem expand_correct map M :
  hm_inv ident ihash map M ->
  exists map', hashmap_expand ops map = Val map' /\ hm_inv ident ihash map' M /\
    hashmap_capacity map' = 2 * hashmap_capacity map.
Proof. apply expand_spec. Qed.

(** C31 [hashmap_remove] of a stored key whose next slot in probing order is free
    implements deletion. *)
Theorem remove_correct_at_chain_end map M k i k0 v :
  hm_inv ident ihash map M -> ident k = Some i -> M !! i = Some (k0, v) ->
  (forall j, array map !! j = Some (mk_element true k0 v) ->
    exists el, array map !! next_slot (capacity map) j = Some el /\ used el = false) ->
  exists map', hashmap_remove ops map k = Val map' /\ hm_inv ident ihash map' (delete i M).
Proof.
  intros Hinv Hk HM Hnext. destruct (remove_found _ _ _ _ _ _ Hinv Hk HM) as (j & Hj & _ & ->).
  destruct (Hnext j Hj) as (el & Hn & Hu). exists (cleared map j k0 v). split; [done|].
  eapply inv_cleared; try done. by apply (inv_complete _ _ _ _ Hinv _ _ _ HM).
Qed.

(** [hashmap_clear] empties the table and keeps its capacity. *)
Theorem clear_correct map M :
  hm_inv ident ihash map M ->
  hm_inv ident ihash (hashmap_clear map) ∅ /\
  hashmap_capacity (hashmap_clear map) = hashmap_capacity map.
Proof.
  intros Hinv. pose proof (inv_cap_pos _ _ Hinv). split; [|done].
  assert (Hfree : forall j el, array (hashmap_clear map) !! j = Some el -> used el = false).
  { intros j el Hj. cbn in Hj. rewrite list_lookup_fmap in Hj.
    destruct (array map !! j); by simplify_eq/=. }
  split; cbn [capacity hashmap_clear size_]; rewrite ?map_size_empty; try done.
  - apply (inv_pow2 _ _ _ _ Hinv).
  - cbn. rewrite length_fmap. apply (inv_length _ _ _ _ Hinv).
  - revert Hfree. generalize (array (hashmap_clear map)). intros arr Hfree.
    unfold count_used. induction arr as [|el arr IH]; [done|].
    rewrite list.filter_cons, decide_False by (by rewrite (Hfree O el)).
    apply IH. intros j. apply (Hfree (S j)).
  - lia.
  - intros j el Hj Hu. by rewrite (Hfree _ _ Hj) in Hu.
Qed.

(** C39 The probing loop of [hashmap_indexof] terminates on every well-formed table, for
    every key: run without a bound from the home slot of the key, it ends, at one index
    only, within as many rounds as the table has slots; there it stands on the entry of
    the key, or, when the key is not stored, on a free slot. *)
Theorem indexof_terminates map M k i :
  hm_inv ident ihash map M -> ident k = Some i ->
  exists h j el, hash k = Val h /\
    (forall r, probe_loop ops map k (Z.land h (capacity map - 1)) r <-> r = j) /\
    probe ops (Z.to_nat (capacity map)) map k (Z.land h (capacity map - 1)) = Val j /\
    element_at (array map) j = Val el /\
    match M !! i with
    | Some (k', v) => el = mk_element true k' v
    | None => used el = false
    end.
Proof.
  intros Hinv Hk. destruct (indexof_spec _ _ _ _ Hinv Hk) as (j & el & Hix & Hel & _ & Hm).
  unfold hashmap_indexof in Hix. destruct (hash k) as [h|] eqn:Hh; [|done]. cbn [mbind res_bind] in Hix.
  exists h, (Z.of_nat j), el. split_and!; [done| |done| |done].
  - intros r. split; [|intros ->; by eapply probe_loop_sound].
    intros (m & Hr)%probe_loop_complete. by eapply probe_deterministic.
  - unfold element_at. rewrite (proj2 (Z.ltb_ge _ 0)) by lia. by rewrite Nat2Z.id, Hel.
Qed.

(** The fuel of the model loses nothing, on any table of power-of-two capacity: the
    probing loop with [capacity] rounds returns exactly when the C loop terminates, and
    with the same index. *)
Theorem probe_fuel_exact map k z r n :
  0 <= n -> capacity map = 2 ^ n -> 0 <= z < capacity map ->
  (forall el, equals k el <> Fault Diverges) ->
  probe ops (Z.to_nat (capacity map)) map k z = Val r <-> probe_loop ops map k z r.
Proof.
  intros Hn Hc Hz Hok. split; [apply probe_loop_sound|]. intros Hr.
  destruct (probe_loop_complete _ _ _ _ Hr) as (m & Hm).
  destruct (probe ops (Z.to_nat (capacity map)) map k z) as [x|f] eqn:Hp.
  { f_equal. by eapply probe_deterministic. }
  assert (f = Diverges) as -> by by eapply probe_fault.
  exfalso. apply (goes_on_forever map k z r); [|done]. intros d.
  rewrite (iter_advance _ n) by done.
  assert (Hd : (Z.to_nat (Z.of_nat d mod capacity map) < Z.to_nat (capacity map))%nat)
    by (pose proof (Z.mod_pos_bound (Z.of_nat d) (capacity map)); lia).
  pose proof (probe_diverges_on map k _ _ Hp Hok _ Hd) as Hg.
  rewrite (iter_advance _ n), Z2Nat.id, Zplus_mod_idemp_r in Hg; try done.
  apply Z.mod_pos_bound. lia.
Qed.

(** Removing a key that is not stored is not a no-op: [hashmap_remove] returns a
    table with the same used slots and a size that is one too small, which is no
    well-formed table for any abstract map. *)
Theorem remove_absent_miscounts map M k i :
  hm_inv ident ihash map M -> ident k = Some i -> M !! i = None ->
  exists map', hashmap_remove ops map k = Val map' /\
    hashmap_size map' = hashmap_size map - 1 /\
    count_used (array map') = count_used (array map) /\
    forall M', ~ hm_inv ident ihash map' M'.
Proof.
  intros Hinv Hk HM. destruct (indexof_spec _ _ _ _ Hinv Hk) as (j & el & Hix & Hel & _ & Hu).
  rewrite HM in Hu. unfold hashmap_remove. rewrite Hix. cbn [mbind res_bind].
  rewrite (element_at_lookup _ _ _ Hel). cbn [mbind res_bind mret res_ret].
  exists (cleared map j (key el) (value el)).
  assert (Hc : count_used (array (cleared map j (key el) (value el))) = count_used (array map)).
  { rewrite array_cleared.
    pose proof (count_used_insert _ j _ (mk_element false (key el) (value el)) Hel) as Hc.
    rewrite Hu in Hc. cbn [used] in Hc. lia. }
  split_and!; [done|done|exact Hc|].
  intros M' Hinv'. pose proof (inv_size _ _ _ _ Hinv'). pose proof (inv_count _ _ _ _ Hinv').
  pose proof (inv_size _ _ _ _ Hinv). pose proof (inv_count _ _ _ _ Hinv). cbn in *. lia.
Qed.
End Contract.

(** ** Witnesses on tables with integer keys *)

Lemma alloc_correct_witness :
  exists map : hashmap Z Z, hashmap_alloc 33 = Val map /\
    hm_inv (fun k : Z => Some k) id map ∅ /\ 33 <= hashmap_capacity map /\
    (hashmap_capacity map = 16 \/ hashmap_capacity map < 2 * 33).
Proof. exact (alloc_correct (K := Z) (V := Z) (ident := fun k => Some k) (ihash := id) 33 ltac:(lia)). Defined.

Lemma get_correct_witness :
  hashmap_get_or_default Z_ops Z_three 21 7 = Val 210 /\
  hashmap_contains_key Z_ops Z_three 21 = Val true.
Proof. apply (get_correct Z_three _ 21 21 7 Z_three_inv eq_refl). Defined.

Lemma put_correct_witness :
  exists map', hashmap_put Z_ops Z_three 53 530 = Val map' /\
    hm_inv (fun k : Z => Some k) id map' (<[53 := (53, 530)]>
      (<[37 := (37, 370)]> (<[21 := (21, 210)]> {[5 := (5, 50)]}))) /\
    hashmap_capacity map' = 16.
Proof. apply (put_correct Z_three _ 53 53 530 Z_three_inv eq_refl). Defined.

Lemma expand_correct_witness :
  exists map', hashmap_expand Z_ops Z_three = Val map' /\
    hm_inv (fun k : Z => Some k) id map'
      (<[37 := (37, 370)]> (<[21 := (21, 210)]> {[5 := (5, 50)]})) /\
    hashmap_capacity map' = 32.
Proof. apply (expand_correct Z_three _ Z_three_inv). Defined.

Lemma remove_correct_at_chain_end_witness :
  exists map', hashmap_remove Z_ops Z_three 37 = Val map' /\
    hm_inv (fun k : Z => Some k) id map'
      (delete 37 (<[37 := (37, 370)]> (<[21 := (21, 210)]> {[5 := (5, 50)]}))).
Proof.
  apply (remove_correct_at_chain_end Z_three _ 37 37 37 370 Z_three_inv);
    [reflexivity|reflexivity|].
  intros j Hj. exists zero_element. split; [|reflexivity].
  do 16 (destruct j as [|j]; [vm_compute in Hj; first [discriminate Hj|vm_compute; reflexivity]|]).
  vm_compute in Hj. discriminate Hj.
Defined.

Lemma clear_correct_witness :
  hm_inv (fun k : Z => Some k) id (hashmap_clear Z_three) ∅ /\
  hashmap_capacity (hashmap_clear Z_three) = 16.
Proof. apply (clear_correct Z_three _ Z_three_inv). Defined.

(** 37 is found in the third slot of its chain, 53 would go to the slot behind it. *)
Lemma indexof_terminates_witness :
  (forall r, probe_loop Z_ops Z_three 37 5 r <-> r = 7) /\
  (forall r, probe_loop Z_ops Z_three 53 5 r <-> r = 8).
Proof.
  destruct (indexof_terminates Z_three _ 37 37 Z_three_inv eq_refl) as (h & j & el & Hh & Hr & Hp & _).
  destruct (indexof_terminates Z_three _ 53 53 Z_three_inv eq_refl) as (h' & j' & el' & Hh' & Hr' & Hp' & _).
  vm_compute in Hh, Hh'. injection Hh as <-. injection Hh' as <-.
  vm_compute in Hp, Hp'. injection Hp as <-. injection Hp' as <-. split; [exact Hr|exact Hr'].
Defined.

Lemma probe_fuel_exact_witness :
  probe Z_ops 16 Z_three 37 5 = Val 7 <-> probe_loop Z_ops Z_three 37 5 7.
Proof.
  apply (probe_fuel_exact Z_three 37 5 7 4); [lia|reflexivity|split; by vm_compute|].
  intros el. cbn. discriminate.
Defined.

Lemma remove_absent_miscounts_witness :
  exists map', hashmap_remove Z_ops Z_three 99 = Val map' /\
    hashmap_size map' = hashmap_size Z_three - 1 /\
    count_used (array map') = count_used (array Z_three) /\
    forall M', ~ hm_inv (fun k : Z => Some k) id map' M'.
Proof. apply (remove_absent_miscounts Z_three _ 99 99 Z_three_inv); reflexivity. Defined.

(** ** Two runs that go wrong *)

(** Removing a key in the middle of a probe chain loses the keys behind it: with
    5, 21 and 37 in one chain, removing 5 makes 21 and 37 unreachable although
    nobody removed them, and storing 21 again stores it twice. *)
Theorem remove_loses_colliding_keys :
  exists map' map'', hashmap_remove Z_ops Z_three 5 = Val map' /\
    hashmap_contains_key Z_ops Z_three 21 = Val true /\
    hashmap_contains_key Z_ops map' 21 = Val false /\
    hashmap_contains_key Z_ops map' 37 = Val false /\ hashmap_size map' = 2 /\
    hashmap_put Z_ops map' 21 211 = Val map'' /\
    length (filter (fun el => key el = 21 /\ used el = true) (array map'')) = 2%nat.
Proof. do 2 eexists. vm_compute. done. Qed.

Fixpoint remove_keys (map : hashmap Z Z) (ks : list Z) : res (hashmap Z Z) :=
  match ks with
  | [] => Val map
  | k :: ks => map ← hashmap_remove Z_ops map k; remove_keys map ks
  end.

Fixpoint put_keys (map : hashmap Z Z) (ks : list Z) : res (hashmap Z Z) :=
  match ks with
  | [] => Val map
  | k :: ks => map ← hashmap_put Z_ops map k k; put_keys map ks
  end.

(** The wrong size defeats the growth of the table: after sixteen removals of an
    absent key the size is -16, sixteen insertions fill all sixteen slots without
    growing, and the lookup of any other key loops forever. *)
Theorem remove_absent_makes_lookup_diverge :
  exists m1 m2, remove_keys Z_empty (replicate 16 100) = Val m1 /\
    hashmap_size m1 = -16 /\ put_keys m1 (seqZ 0 16) = Val m2 /\
    hashmap_contains_key Z_ops m2 16 = Fault Diverges /\
    forall r, ~ probe_loop Z_ops m2 16 0 r.
Proof.
  do 2 eexists. split; [vm_compute; reflexivity|]. split; [reflexivity|].
  split; [vm_compute; reflexivity|]. split; [vm_compute; reflexivity|].
  intros r Hr. apply (probe_fuel_exact _ 16 0 r 4) in Hr;
    [vm_compute in Hr; discriminate Hr|lia|reflexivity|cbn; lia|].
  intros el. cbn. discriminate.
Qed.

End HashMapSpec.
