(* ===== verification/HashMapTrace.v ===== *)
(** * Whole runs of the hash map (src/src/collections/hashmap.c)

    Any sequence of operations on a table that [hashmap_alloc] returned gives the answers
    of a finite map: the data refinement that the single contracts of HashMapSpec.v add up
    to.  [hashmap_remove] is not among the operations: it refines deletion only at the end
    of a probe chain. *)

From S2P Require Import Prelude HashMap HashMapFacts HashMapSpec.
Import HashMap HashMapFacts HashMapSpec.

Module HashMapTrace.

Inductive request (K V : Type) :=
| Put (k : K) (v : V)
| Get (k : K) (def : V)
| Contains (k : K)
| Size
| Expand
| Clear.
Arguments Put {K V} k v.
Arguments Get {K V} k def.
Arguments Contains {K V} k.
Arguments Size {K V}.
Arguments Expand {K V}.
Arguments Clear {K V}.

Inductive answer (V : Type) := Done | Found (v : V) | Present (b : bool) | Number (n : Z).
Arguments Done {V}.
Arguments Found {V} v.
Arguments Present {V} b.
Arguments Number {V} n.

Section Runs.
Context {K V I : Type} {nullK : NullPtr K} {nullV : NullPtr V} `{Countable I}.
Context {ops : KeyOps K} {ident : K -> option I} {ihash : I -> Z}.
Context {laws : KeyLaws ops ident ihash}.
Implicit Types (map : hashmap K V) (M : gmap I (K * V)) (rs : list (request K V)).

(** ** The table *)

Definition run_request map (r : request K V) : res (answer V * hashmap K V) :=
  match r with
  | Put k v => map ← hashmap_put ops map k v; mret (Done, map)
  | Get k def => v ← hashmap_get_or_default ops map k def; mret (Found v, map)
  | Contains k => b ← hashmap_contains_key ops map k; mret (Present b, map)
  | Size => mret (Number (hashmap_size map), map)
  | Expand => map ← hashmap_expand ops map; mret (Done, map)
  | Clear => mret (Done, hashmap_clear map)
  end.

Fixpoint run_requests map rs : res (list (answer V) * hashmap K V) :=
  match rs with
  | [] => mret ([], map)
  | r :: rs =>
      a ← run_request map r;
      b ← run_requests (snd a) rs;
      mret (fst a :: fst b, snd b)
  end.

(** ** The finite map *)

(** [None] when a key of the request has no identity. *)
Definition spec_request M (r : request K V) : option (answer V * gmap I (K * V)) :=
  match r with
  | Put k v =>
      i ← ident k;
      Some (Done, <[i := (match M !! i with Some (k0, _) => k0 | None => k end, v)]> M)
  | Get k def =>
      i ← ident k; Some (Found (match M !! i with Some (_, v) => v | None => def end), M)
  | Contains k => i ← ident k; Some (Present (bool_decide (is_Some (M !! i))), M)
  | Size => Some (Number (Z.of_nat (size M)), M)
  | Expand => Some (Done, M)
  | Clear => Some (Done, ∅)
  end.

Fixpoint spec_requests M rs : option (list (answer V) * gmap I (K * V)) :=
  match rs with
  | [] => Some ([], M)
  | r :: rs =>
      a ← spec_request M r;
      b ← spec_requests (snd a) rs;
      Some (fst a :: fst b, snd b)
  end.

(** ** Refinement *)

Lemma request_refines map M r a M' :
  hm_inv ident ihash map M -> spec_request M r = Some (a, M') ->
  exists map', run_request map r = Val (a, map') /\ hm_inv ident ihash map' M'.
Proof.
  intros Hinv Hs. destruct r as [k v|k def|k| | |]; cbn in Hs; unfold run_request.
  - destruct (ident k) as [i|] eqn:Hk; [|done]. injection Hs as <- <-.
    destruct (put_spec map M i k v Hinv Hk) as (map' & Hrun & Hinv' & _). exists map'.
    split; [by rewrite Hrun|exact Hinv'].
  - destruct (ident k) as [i|] eqn:Hk; [|done]. injection Hs as <- <-. exists map.
    split; [|done]. by rewrite (proj1 (get_spec map M k i def Hinv Hk)).
  - destruct (ident k) as [i|] eqn:Hk; [|done]. injection Hs as <- <-. exists map.
    split; [|done]. by rewrite (proj2 (get_spec map M k i NULL Hinv Hk)).
  - injection Hs as <- <-. exists map. unfold hashmap_size. by rewrite (inv_size _ _ _ _ Hinv).
  - injection Hs as <- <-. destruct (expand_spec 0 map M Hinv) as (map' & Hrun & Hinv' & _).
    exists map'. split; [unfold hashmap_expand; by rewrite Hrun|exact Hinv'].
  - injection Hs as <- <-. eexists. split; [done|]. by apply (clear_correct map M).
Qed.

Lemma requests_refine rs map M outs M' :
  hm_inv ident ihash map M -> spec_requests M rs = Some (outs, M') ->
  exists map', run_requests map rs = Val (outs, map') /\ hm_inv ident ihash map' M'.
Proof.
  revert map M outs. induction rs as [|r rs IH]; intros map M outs Hinv Hs; cbn in Hs.
  - injection Hs as <- <-. by exists map.
  - destruct (spec_request M r) as [[a M1]|] eqn:Hr; [|done]. cbn in Hs.
    destruct (spec_requests M1 rs) as [[outs1 M2]|] eqn:Hrs; [|done]. injection Hs as <- <-.
    destruct (request_refines _ _ _ _ _ Hinv Hr) as (map1 & Hrun1 & Hinv1).
    destruct (IH _ _ _ Hinv1 Hrs) as (map2 & Hrun2 & Hinv2).
    exists map2. split; [|done]. cbn [run_requests]. rewrite Hrun1. cbn. by rewrite Hrun2.
Qed.

(** C8 A table from [hashmap_alloc] answers any sequence of insertions, lookups, size
    queries, growths and clearings as a finite map does: every operation returns, the
    answers are those of the map, and the table is well-formed and holds the map's
    entries at the end. *)
Theorem table_refinement initial_size rs outs M' :
  initial_size <= 2 ^ 62 -> spec_requests ∅ rs = Some (outs, M') ->
  exists map map', hashmap_alloc initial_size = Val map /\
    run_requests map rs = Val (outs, map') /\ hm_inv ident ihash map' M'.
Proof.
  intros Hi Hs.
  destruct (alloc_spec (I := I) (ident := ident) (ihash := ihash) initial_size Hi)
    as (map & Halloc & Hinv & _).
  destruct (requests_refine rs map ∅ outs M' Hinv Hs) as (map' & Hrun & Hinv').
  by exists map, map'.
Qed.
End Runs.

(** ** Witness: twenty keys, two of them twice, in a table that starts with 16 slots *)

Definition twenty : list (request Z Z) :=
  ((fun i => Put (Z.of_nat i * 16) (Z.of_nat i)) <$> seq 0 20) ++
  [Put 32 99; Get 32 0; Get 5 7; Contains 304; Size; Expand; Get 304 0; Clear; Size].

Lemma table_refinement_witness :
  exists map map', hashmap_alloc 1 = Val map /\
    run_requests (ops := Z_ops) map twenty =
      Val (replicate 21 Done ++ [Found 99; Found 7; Present true; Number 20; Done; Found 19; Done;
                                 Number 0], map') /\
    hm_inv (fun k : Z => Some k) id map' ∅.
Proof. apply (table_refinement 1 twenty); [lia|vm_compute; reflexivity]. Defined.

End HashMapTrace.
