(* ===== verification/HashMapGrowth.v ===== *)
(** * The hash map while it grows (src/src/collections/hashmap.c)

    [hashmap_expand] installs an empty array of twice the size and then reinserts the
    entries of the old array one by one.  [growing old moved rest mid M] describes the
    table between two rounds of that loop, as a reader sees it that takes no lock: a
    well-formed table that holds the entries of the slots moved so far. *)

From S2P Require Import Prelude HashMap HashMapFacts.
Import HashMap HashMapFacts.

Module HashMapGrowth.

Section Growth.
Context {K V : Type} {nullK : NullPtr K} {nullV : NullPtr V} (ops : KeyOps K).
Implicit Types (map : hashmap K V) (el : hashmap_element K V) (k : K) (v : V).

(** The table before the first round of the loop of [hashmap_expand]. *)
Definition grow_start map : hashmap K V :=
  mk_hashmap (replicate (Z.to_nat (capacity map * 2)) zero_element) (2 * capacity map) 0.

(** One round. *)
Definition grow_one el map : res (hashmap K V) :=
  if used el then put_depth ops 0 map (key el) (value el) else mret map.

(** The rounds in a row, and the end of [hashmap_put], are [hashmap_put]. *)
Lemma reinsert_cons el rest map :
  reinsert (put_depth ops 0) (el :: rest) map =
    (map ← grow_one el map; reinsert (put_depth ops 0) rest map).
Proof. done. Qed.

Lemma put_sections map k v :
  hashmap_put ops map k v =
    (if 70 <? hashmap_load_factor map then
       map ← reinsert (put_depth ops 0) (array map) (grow_start map); put_here ops map k v
     else put_here ops map k v).
Proof. unfold hashmap_put. rewrite put_depth_S. by destruct (70 <? _). Qed.

Lemma reinsert_app put (l1 l2 : list (hashmap_element K V)) map :
  reinsert put (l1 ++ l2) map = (map ← reinsert put l1 map; reinsert put l2 map).
Proof.
  revert map. induction l1 as [|el l1 IH]; intros map; [done|]. cbn.
  destruct (if used el then _ else _) as [map'|f]; [apply IH|done].
Qed.
End Growth.

Section Table.
Context {K V I : Type} {nullK : NullPtr K} {nullV : NullPtr V} `{Countable I}.
Implicit Types (map old mid : hashmap K V) (M : gmap I (K * V)) (i : I) (k : K) (v : V).
Implicit Types (moved rest : list (hashmap_element K V)) (el : hashmap_element K V).

(** [mid] is the table [old] when the slots [moved] have been reinserted and the slots
    [rest] have not; it holds the entries [M]. *)
Record growing (ident : K -> option I) (ihash : I -> Z) old moved rest mid M : Prop := {
  gr_array : array old = moved ++ rest;
  gr_capacity : capacity mid = 2 * capacity old;
  gr_size : size_ mid = Z.of_nat (count_used moved);
  gr_inv : hm_inv ident ihash mid M;
  gr_entries i kv : M !! i = Some kv <-> entry_of (ident := ident) moved i kv
}.

Context {ops : KeyOps K} {ident : K -> option I} {ihash : I -> Z}.
Context {laws : KeyLaws ops ident ihash}.
Abbreviation hm_inv := (HashMap.hm_inv ident ihash).
Abbreviation entry_of := (HashMapFacts.entry_of (ident := ident)).

Lemma growing_start old M :
  hm_inv old M -> growing ident ihash old [] (array old) (grow_start old) ∅.
Proof.
  intros Hinv. destruct (inv_pow2 _ _ _ _ Hinv) as (n & Hn & Hcap). split; [done|done|done| |].
  - unfold grow_start. rewrite Hcap. replace (2 ^ n * 2) with (2 ^ (n + 1)) by (rewrite Z.pow_add_r; lia).
    replace (2 * 2 ^ n) with (2 ^ (n + 1)) by (rewrite Z.pow_add_r; lia). apply inv_empty. lia.
  - intros i kv. rewrite lookup_empty. split; [done|]. by intros (el & ?%elem_of_nil & _).
Qed.

(** What has been moved is part of the old table. *)
Lemma growing_sub old moved rest mid M0 M :
  hm_inv old M0 -> growing ident ihash old moved rest mid M -> M ⊆ M0.
Proof.
  intros Hinv Hg. apply map_subseteq_spec. intros i kv.
  rewrite (gr_entries _ _ _ _ _ _ _ Hg), (inv_entries _ _ _ _ Hinv), (gr_array _ _ _ _ _ _ _ Hg).
  intros (el & Hel & Hrest). exists el. rewrite elem_of_app. auto.
Qed.

Lemma count_used_app (l1 l2 : list (hashmap_element K V)) :
  count_used (l1 ++ l2) = (count_used l1 + count_used l2)%nat.
Proof. unfold count_used. by rewrite list.filter_app, length_app. Qed.

(** The new table stays at most half full. *)
Lemma growing_room old moved rest mid M0 M :
  hm_inv old M0 -> growing ident ihash old moved rest mid M ->
  2 * (size_ mid + Z.of_nat (count_used rest)) <= capacity mid.
Proof.
  intros Hinv Hg. rewrite (gr_capacity _ _ _ _ _ _ _ Hg), (gr_size _ _ _ _ _ _ _ Hg).
  pose proof (inv_room _ _ _ _ Hinv) as Hroom.
  rewrite (inv_size _ _ _ _ Hinv), <- (inv_count _ _ _ _ Hinv), (gr_array _ _ _ _ _ _ _ Hg),
    count_used_app in Hroom. lia.
Qed.

(** The next entry has not been moved yet. *)
Lemma growing_next old moved el rest mid M0 M :
  hm_inv old M0 -> growing ident ihash old moved (el :: rest) mid M -> used el = true ->
  exists i, ident (key el) = Some i /\ M !! i = None.
Proof.
  intros Hinv Hg Hu. pose proof (gr_array _ _ _ _ _ _ _ Hg) as Harr.
  assert (Hel : array old !! length moved = Some el) by (rewrite Harr; by apply list_lookup_middle).
  destruct (inv_sound _ _ _ _ Hinv _ _ Hel Hu) as (i & Hi & _). exists i. split; [done|].
  apply eq_None_not_Some. intros [kv HM]. apply (gr_entries _ _ _ _ _ _ _ Hg) in HM.
  destruct HM as (e & (j & Hj)%list_elem_of_lookup & Hue & Hie & _).
  assert (Hjo : array old !! j = Some e) by (rewrite Harr; by apply lookup_app_l_Some).
  pose proof (inv_distinct _ _ Hinv _ _ _ _ _ Hjo Hel Hue Hu Hie Hi) as ->.
  apply lookup_lt_Some in Hj. lia.
Qed.

(** A round succeeds and moves one slot. *)
Lemma growing_step old moved el rest mid M0 M :
  hm_inv old M0 -> growing ident ihash old moved (el :: rest) mid M ->
  exists mid' M', grow_one ops el mid = Val mid' /\
    growing ident ihash old (moved ++ [el]) rest mid' M'.
Proof.
  intros Hinv Hg. pose proof (growing_room _ _ _ _ _ _ Hinv Hg) as Hroom.
  pose proof (gr_inv _ _ _ _ _ _ _ Hg) as Hmid. pose proof (inv_cap_pos _ _ Hmid) as Hcap.
  assert (Harr : array old = (moved ++ [el]) ++ rest)
    by (rewrite <- app_assoc; apply Hg).
  assert (Hsnoc : forall i kv, entry_of (moved ++ [el]) i kv <->
    entry_of moved i kv \/ used el = true /\ ident (key el) = Some i /\ kv = (key el, value el)).
  { intros i kv. unfold HashMapFacts.entry_of. setoid_rewrite elem_of_app.
    setoid_rewrite list_elem_of_singleton. split.
    - intros (e & [He| ->] & Hu & Hi & Hkv); [left; by exists e|by right].
    - intros [(e & He & Hu & Hi & Hkv)|(Hu & Hi & Hkv)]; [exists e|exists el]; auto. }
  assert (Hcount : count_used (moved ++ [el]) = (count_used moved + (if used el then 1 else 0))%nat).
  { rewrite count_used_app. f_equal. unfold count_used. rewrite list.filter_cons.
    by destruct (used el). }
  unfold count_used in Hroom. rewrite list.filter_cons in Hroom. unfold grow_one.
  destruct (used el) eqn:Hu; cbn [length] in Hroom.
  - rewrite decide_True in Hroom by done. cbn [length] in Hroom.
    destruct (growing_next _ _ _ _ _ _ _ Hinv Hg Hu) as (i & Hi & HM).
    rewrite (put_depth_light _ _ M) by (done || lia).
    destruct (put_here_spec mid M i (key el) (value el)) as (mid' & Hput & Hinv' & Hcap');
      [done|done|done|lia|].
    unfold put_abs in Hinv'. rewrite HM in Hinv'.
    exists mid', (<[i := (key el, value el)]> M). split; [done|]. split; try done.
    + rewrite Hcap'. apply Hg.
    + rewrite (inv_size _ _ _ _ Hinv'), map_size_insert_None, Hcount by done.
      pose proof (gr_size _ _ _ _ _ _ _ Hg) as Hs. rewrite (inv_size _ _ _ _ Hmid) in Hs. lia.
    + intros i' kv. rewrite Hsnoc, <- (gr_entries _ _ _ _ _ _ _ Hg).
      destruct (decide (i' = i)) as [->|].
      * rewrite lookup_insert_eq, HM. intuition congruence.
      * rewrite lookup_insert_ne by done. intuition congruence.
  - exists mid, M. split; [done|]. split; try apply Hg; [done| |].
    + rewrite Hcount, Nat.add_0_r. apply Hg.
    + intros i kv. rewrite Hsnoc, (gr_entries _ _ _ _ _ _ _ Hg). intuition congruence.
Qed.

(** The rounds end with all the entries, and with room for the insertion that follows. *)
Lemma growing_done old moved mid M0 M :
  hm_inv old M0 -> growing ident ihash old moved [] mid M ->
  hm_inv mid M0 /\ capacity mid = 2 * capacity old /\ size_ mid + 1 < capacity mid.
Proof.
  intros Hinv Hg. pose proof (growing_room _ _ _ _ _ _ Hinv Hg) as Hroom.
  pose proof (gr_inv _ _ _ _ _ _ _ Hg) as Hmid. pose proof (inv_cap_pos _ _ Hmid).
  split_and!; [|apply Hg|lia]. replace M0 with M; [done|]. apply map_eq. intros i.
  apply option_eq. intros kv. rewrite (inv_entries _ _ _ _ Hinv), (gr_entries _ _ _ _ _ _ _ Hg).
  by rewrite (gr_array _ _ _ _ _ _ _ Hg), app_nil_r.
Qed.

Lemma growing_rounds old n M0 :
  hm_inv old M0 -> (n <= length (array old))%nat ->
  exists mid M, reinsert (put_depth ops 0) (take n (array old)) (grow_start old) = Val mid /\
    growing ident ihash old (take n (array old)) (drop n (array old)) mid M.
Proof.
  intros Hinv. induction n as [|n IH]; intros Hn.
  { exists (grow_start old), ∅. split; [done|]. by apply (growing_start old M0). }
  destruct IH as (mid & M & Hrun & Hg); [lia|].
  destruct (lookup_lt_is_Some_2 (array old) n) as [el Hel]; [lia|].
  rewrite (drop_S _ _ _ Hel) in Hg.
  destruct (growing_step _ _ _ _ _ _ _ Hinv Hg) as (mid' & M' & Hone & Hg').
  exists mid', M'. rewrite (take_S_r _ _ _ Hel), reinsert_app, Hrun. split; [|done].
  cbn [mbind res_bind]. rewrite reinsert_cons, Hone. done.
Qed.

(** [hashmap_expand] hides entries while it runs.  After [n] rounds of its loop the table
    is well-formed, and it holds the entries of the first [n] slots of the old array and
    no other: a lookup at that moment finds a key exactly when its slot has been moved, and
    before the first round it finds nothing at all. *)
Theorem growth_hides_entries old M0 n k i def :
  hm_inv old M0 -> (n <= length (array old))%nat -> ident k = Some i ->
  exists mid, reinsert (put_depth ops 0) (take n (array old)) (grow_start old) = Val mid /\
    (exists M, hm_inv mid M /\ M ⊆ M0) /\
    forall j el, array old !! j = Some el -> used el = true -> ident (key el) = Some i ->
      hashmap_get_or_default ops mid k def = Val (if decide (j < n)%nat then value el else def).
Proof.
  intros Hinv Hn Hk. destruct (growing_rounds old n M0 Hinv Hn) as (mid & M & Hrun & Hg).
  exists mid. split_and!; [done|exists M; split; [apply Hg|by eapply growing_sub]|].
  intros j el Hj Hu Hi. rewrite (proj1 (get_spec _ _ _ _ def (gr_inv _ _ _ _ _ _ _ Hg) Hk)).
  f_equal. case_decide as Hjn.
  - assert (HM : M !! i = Some (key el, value el)); [|by rewrite HM].
    apply (gr_entries _ _ _ _ _ _ _ Hg). exists el. split_and!; [|done|done|done].
    apply list_elem_of_lookup. exists j. by rewrite lookup_take_lt.
  - assert (HM : M !! i = None); [|by rewrite HM]. apply eq_None_not_Some. intros [kv HM].
    apply (gr_entries _ _ _ _ _ _ _ Hg) in HM as (e & (j' & Hj')%list_elem_of_lookup & Hue & Hie & _).
    apply lookup_take_Some in Hj' as [Hj' Hlt].
    by pose proof (inv_distinct _ _ Hinv _ _ _ _ _ Hj' Hj Hue Hu Hie Hi) as ->.
Qed.

End Table.

(** ** Witness *)

(** Key 21 of [Z_three] is in slot 6: not found after five rounds. *)
Lemma growth_hides_entries_witness :
  exists mid, reinsert (put_depth Z_ops 0) (take 6 (array Z_three)) (grow_start Z_three) = Val mid /\
    hashmap_get_or_default Z_ops mid 21 0 = Val 0.
Proof.
  destruct (growth_hides_entries (ops := Z_ops) Z_three _ 6 21 21 0 Z_three_inv
    ltac:(vm_compute; lia) eq_refl) as (mid & Hrun & _ & Hget).
  exists mid. split; [exact Hrun|].
  exact (Hget 6%nat (mk_element true 21 210) eq_refl eq_refl eq_refl).
Defined.

End HashMapGrowth.
