(* ===== verification/HashMapIter.v ===== *)
(** * Hash map iterators (src/src/collections/hashmap.c, lines 191-283)

    An iterator holds a pointer to the map it walks, so it sees the map as it is
    at the time of the call: the operations take the store of the live hash maps.

    The scan [while (!(el->used) && (it->index) < capacity)] reads [el->used] before
    it compares the index, hence it reads [array\[capacity\]] when no used slot is
    left.  [past] is what that read gives: [None] when it is the undefined
    behaviour that C says it is, [Some b] on a machine where the byte behind the
    array happens to be [b]. *)

From S2P Require Import Prelude HashMap HashMapFacts.
Import HashMap HashMapFacts.

Module HashMapIter.

Record hashmap_iterator := mk_iterator {
  it_index : Z;
  it_consumed : bool;
  it_map : option positive
}.

Definition hashmap_it_alloc : hashmap_iterator := mk_iterator 0 false None.

Definition hashmap_it_reset (it : hashmap_iterator) : hashmap_iterator :=
  mk_iterator 0 false (it_map it).

Definition hashmap_it_set_map (it : hashmap_iterator) (p : positive) : hashmap_iterator :=
  hashmap_it_reset (mk_iterator (it_index it) (it_consumed it) (Some p)).

Section Iterator.
Context {K V : Type} (past : option bool).
Implicit Types (map : hashmap K V) (store : gmap positive (hashmap K V)).

(** [it->map->array[index].used] *)
Definition used_at map (index : Z) : res bool :=
  if index =? capacity map then
    match past with Some b => Val b | None => Fault OutOfBounds end
  else el ← element_at (array map) index; mret (used el).

(** [while (!(el->used) && (it->index) < capacity) { it->index++; ... }] *)
Fixpoint scan (fuel : nat) map (index : Z) : res Z :=
  match fuel with
  | O => Fault Diverges
  | S fuel =>
      u ← used_at map index;
      if negb u && (index <? capacity map) then scan fuel map (index + 1)
      else Val index
  end.

(** The part that [hashmap_it_has_next] and [hashmap_it_next] have in common: the
    early return ([None]), or the index that the scan reaches and the map. *)
Definition it_seek store (it : hashmap_iterator) : res (option (Z * hashmap K V)) :=
  match it_map it with
  | None => mret None
  | Some p =>
      match store !! p with
      | None => Fault Dangling
      | Some map =>
          if capacity map <=? it_index it then mret None
          else
            let index := if it_consumed it then it_index it + 1 else it_index it in
            index ← scan (Z.to_nat (capacity map) + 2) map index;
            mret (Some (index, map))
      end
  end.

Definition hashmap_it_has_next store (it : hashmap_iterator) : res (bool * hashmap_iterator) :=
  found ← it_seek store it;
  match found with
  | None => mret (false, it)
  | Some (index, map) =>
      mret (index <? capacity map, mk_iterator index false (it_map it))
  end.

(** The result is the [char] returned, with [*key] and [*value] when it is 1. *)
Definition hashmap_it_next store (it : hashmap_iterator)
    : res (option (K * V) * hashmap_iterator) :=
  found ← it_seek store it;
  match found with
  | None => mret (None, it)
  | Some (index, map) =>
      if index <? capacity map then
        el ← element_at (array map) index;
        mret (Some (key el, value el), mk_iterator index true (it_map it))
      else mret (None, mk_iterator index false (it_map it))
  end.

(** [while (n > 0 && hashmap_it_has_next(it))] with [n] as a counter. *)
Fixpoint skip_loop (n : nat) store (it : hashmap_iterator) : res (bool * hashmap_iterator) :=
  match n with
  | O => mret (true, it)
  | S n =>
      r ← hashmap_it_has_next store it;
      if fst r : bool then
        r ← hashmap_it_next store (snd r);
        skip_loop n store (snd r)
      else mret (false, snd r)
  end.

Definition hashmap_it_skip store (it : hashmap_iterator) (n : Z)
    : res (bool * hashmap_iterator) :=
  if n <? 0 then mret (false, it) else skip_loop (Z.to_nat n) store it.

(** The client's loop [while (hashmap_it_has_next(it)) { hashmap_it_next(it, ...); }]
    of [arp_destroy] and of the tests, collecting what it is given. *)
Fixpoint it_collect (fuel : nat) store (it : hashmap_iterator)
    : res (list (K * V) * hashmap_iterator) :=
  match fuel with
  | O => Fault Diverges
  | S fuel =>
      r ← hashmap_it_has_next store it;
      if fst r : bool then
        r ← hashmap_it_next store (snd r);
        match fst r with
        | Some kv =>
            rest ← it_collect fuel store (snd r);
            mret (kv :: fst rest, snd rest)
        | None => mret ([], snd r)
        end
      else mret ([], snd r)
  end.
End Iterator.

(** ** The scan *)

Section Facts.
Context {K V : Type} (past : option bool).
Implicit Types (map : hashmap K V) (arr : list (hashmap_element K V)).

(** The entries of the used slots, in order. *)
Definition used_entries arr : list (K * V) :=
  (fun el => (key el, value el)) <$> filter (fun el => used el = true) arr.

Fixpoint unused_prefix arr : nat :=
  match arr with
  | el :: arr => if used el then O else S (unused_prefix arr)
  | [] => O
  end.

Lemma used_entries_prefix arr :
  match drop (unused_prefix arr) arr with
  | el :: rest => used el = true /\ used_entries arr = (key el, value el) :: used_entries rest
  | [] => used_entries arr = []
  end.
Proof.
  induction arr as [|el arr IH]; [done|]. unfold used_entries. cbn [unused_prefix].
  rewrite list.filter_cons. destruct (used el) eqn:Hu; cbn [drop].
  - by rewrite decide_True.
  - rewrite decide_False by done. exact IH.
Qed.

Lemma used_at_in map (i : nat) el :
  Z.of_nat (length (array map)) = capacity map -> array map !! i = Some el ->
  used_at past map (Z.of_nat i) = Val (used el).
Proof.
  intros Hlen Hi. apply lookup_lt_Some in Hi as Hlt. unfold used_at.
  destruct (Z.eqb_spec (Z.of_nat i) (capacity map)); [lia|].
  by rewrite (element_at_lookup _ _ _ Hi).
Qed.

Lemma scan_spec map fuel (i : nat) :
  Z.of_nat (length (array map)) = capacity map ->
  (i <= length (array map))%nat -> (length (array map) - i < fuel)%nat ->
  scan past fuel map (Z.of_nat i) =
    match drop (i + unused_prefix (drop i (array map))) (array map), past with
    | _ :: _, _ => Val (Z.of_nat (i + unused_prefix (drop i (array map))))
    | [], Some _ => Val (capacity map)
    | [], None => Fault OutOfBounds
    end.
Proof.
  intros Hlen. revert i. induction fuel as [|fuel IH]; intros i Hi Hf; [lia|].
  cbn [scan]. destruct (decide (i = length (array map))) as [->|Hne].
  - rewrite drop_all. cbn [unused_prefix]. rewrite Nat.add_0_r, drop_all, Hlen.
    unfold used_at. rewrite Z.eqb_refl. destruct past as [b|]; [|done].
    cbn [mbind res_bind]. rewrite Z.ltb_irrefl. by rewrite andb_false_r.
  - destruct (lookup_lt_is_Some_2 (array map) i ltac:(lia)) as [el Hel].
    rewrite (used_at_in _ _ _ Hlen Hel). cbn [mbind res_bind].
    rewrite (drop_S _ _ _ Hel). cbn [unused_prefix].
    destruct (used el) eqn:Hu; cbn [negb andb].
    + rewrite Nat.add_0_r. by rewrite (drop_S _ _ _ Hel).
    + destruct (Z.ltb_spec (Z.of_nat i) (capacity map)); [|lia].
      replace (Z.of_nat i + 1) with (Z.of_nat (S i)) by lia.
      rewrite IH by lia. by rewrite <- Nat.add_succ_comm.
Qed.

(** An iterator inside the map, by the position of the next slot to look at. *)
Definition at_position map (p : positive) (it : hashmap_iterator) (i : nat) : Prop :=
  it_map it = Some p /\ 0 <= it_index it < capacity map /\
  it_index it + (if it_consumed it then 1 else 0) = Z.of_nat i.

Lemma seek_spec map store p it i :
  store !! p = Some map -> Z.of_nat (length (array map)) = capacity map ->
  at_position map p it i ->
  it_seek past store it =
    match drop (i + unused_prefix (drop i (array map))) (array map), past with
    | _ :: _, _ => Val (Some (Z.of_nat (i + unused_prefix (drop i (array map))), map))
    | [], Some _ => Val (Some (capacity map, map))
    | [], None => Fault OutOfBounds
    end.
Proof.
  intros Hst Hlen (Hm & Hb & Hi). unfold it_seek. rewrite Hm, Hst.
  destruct (Z.leb_spec (capacity map) (it_index it)); [lia|].
  replace (if it_consumed it then it_index it + 1 else it_index it) with (Z.of_nat i)
    by (destruct (it_consumed it); lia).
  rewrite scan_spec; [|done| |].
  - by destruct (drop _ _), past.
  - destruct (it_consumed it); lia.
  - lia.
Qed.

(** One turn of the client's loop: it ends, or delivers the next used entry and
    stands behind it. *)
Lemma turn_spec map store p it i :
  store !! p = Some map -> Z.of_nat (length (array map)) = capacity map ->
  at_position map p it i ->
  match used_entries (drop i (array map)), past with
  | kv :: rest, _ => exists it1 it2 i',
      hashmap_it_has_next past store it = Val (true, it1) /\
      hashmap_it_next past store it1 = Val (Some kv, it2) /\
      at_position map p it2 i' /\ (i < i' <= length (array map))%nat /\
      used_entries (drop i' (array map)) = rest
  | [], Some _ => hashmap_it_has_next past store it = Val (false, mk_iterator (capacity map) false (Some p))
  | [], None => hashmap_it_has_next past store it = Fault OutOfBounds
  end.
Proof.
  intros Hst Hlen Hat. pose proof (seek_spec _ _ _ _ _ Hst Hlen Hat) as Hseek.
  pose proof (used_entries_prefix (drop i (array map))) as Hpre. rewrite drop_drop in Hpre.
  set (j := (i + unused_prefix (drop i (array map)))%nat) in *.
  unfold hashmap_it_has_next. rewrite Hseek. destruct Hat as (Hm & Hb & Hi).
  destruct (drop j (array map)) as [|el rest] eqn:Hd.
  { rewrite Hpre. destruct past; [|done]. cbn. by rewrite Z.ltb_irrefl, Hm. }
  destruct Hpre as [Hu ->]. assert (Hel : array map !! j = Some el).
  { replace j with (j + 0)%nat by lia. rewrite <- lookup_drop, Hd. done. }
  apply lookup_lt_Some in Hel as Hlt. cbn [mbind res_bind mret res_ret].
  destruct (Z.ltb_spec (Z.of_nat j) (capacity map)); [|lia].
  eexists _, (mk_iterator (Z.of_nat j) true (Some p)), (S j). rewrite Hm.
  split; [done|]. split; [|split_and!; try done; cbn; try lia].
  - unfold hashmap_it_next. rewrite (seek_spec map store p _ j); [|done|done|].
    + rewrite (drop_S _ _ _ Hel). cbn [unused_prefix]. rewrite Hu, Nat.add_0_r.
      rewrite (drop_S _ _ _ Hel). cbn [mbind res_bind].
      destruct (Z.ltb_spec (Z.of_nat j) (capacity map)); [|lia].
      by rewrite (element_at_lookup _ _ _ Hel).
    + split_and!; cbn; done || lia.
  - split_and!; cbn; done || lia.
  - rewrite (drop_S _ _ _ Hel) in Hd. by injection Hd as ->.
Qed.

Lemma collect_spec map store p fuel it i :
  store !! p = Some map -> Z.of_nat (length (array map)) = capacity map ->
  at_position map p it i -> (i <= length (array map))%nat ->
  (length (array map) - i < fuel)%nat ->
  it_collect past fuel store it =
    match past with
    | Some _ => Val (used_entries (drop i (array map)), mk_iterator (capacity map) false (Some p))
    | None => Fault OutOfBounds
    end.
Proof.
  intros Hst Hlen. revert it i. induction fuel as [|fuel IH]; intros it i Hat Hi Hf; [lia|].
  pose proof (turn_spec _ _ _ _ _ Hst Hlen Hat) as Hturn. cbn [it_collect].
  destruct (used_entries (drop i (array map))) as [|kv rest].
  - destruct past; rewrite Hturn; done.
  - destruct Hturn as (it1 & it2 & i' & -> & Hn & Hat' & Hi' & Hrest).
    cbn [mbind res_bind fst snd]. rewrite Hn. cbn [mbind res_bind fst snd].
    rewrite (IH it2 i') by (done || lia). rewrite Hrest. by destruct past.
Qed.

Lemma skip_spec map store p b n it i :
  past = Some b ->
  store !! p = Some map -> Z.of_nat (length (array map)) = capacity map ->
  at_position map p it i -> (i <= length (array map))%nat ->
  exists it', skip_loop past n store it =
    Val (bool_decide (n <= length (used_entries (drop i (array map))))%nat, it').
Proof.
  intros Hpast Hst Hlen. revert it i. induction n as [|n IH]; intros it i Hat Hi.
  { exists it. by rewrite bool_decide_eq_true_2 by lia. }
  pose proof (turn_spec _ _ _ _ _ Hst Hlen Hat) as Hturn. cbn [skip_loop].
  destruct (used_entries (drop i (array map))) as [|kv rest].
  - rewrite Hpast in Hturn. rewrite Hpast, Hturn. cbn [mbind res_bind fst snd]. eexists.
    by rewrite bool_decide_eq_false_2 by (cbn; lia).
  - destruct Hturn as (it1 & it2 & i' & -> & Hn & Hat' & Hi' & Hrest).
    cbn [mbind res_bind fst snd]. rewrite Hn. cbn [mbind res_bind fst snd].
    destruct (IH it2 i' Hat' ltac:(lia)) as (it' & ->). exists it'. rewrite Hrest. cbn [length].
    do 2 f_equal. apply bool_decide_ext. lia.
Qed.

Lemma at_start map p it :
  0 < capacity map -> at_position map p (hashmap_it_set_map it p) 0.
Proof. intros. split_and!; cbn; done || lia. Qed.
End Facts.

(** ** What an iteration delivers *)

Section Contract.
Context {K V I : Type} {nullK : NullPtr K} {nullV : NullPtr V} `{Countable I}.
Context {ops : KeyOps K} {ident : K -> option I} {ihash : I -> Z}.
Context {laws : KeyLaws ops ident ihash}.
Implicit Types (map : hashmap K V) (M : gmap I (K * V)).

(** The used slots with their identities. *)
Definition labelled (arr : list (hashmap_element K V)) : list (I * (K * V)) :=
  omap (fun el => if used el then (fun i => (i, (key el, value el))) <$> ident (key el)
                  else None) arr.

Lemma elem_of_labelled arr i kv : (i, kv) ∈ labelled arr <-> entry_of (ident := ident) arr i kv.
Proof.
  unfold labelled, entry_of. rewrite list_elem_of_omap. split.
  - intros (el & Hel & Hf). destruct (used el) eqn:Hu; [|done].
    destruct (ident (key el)) eqn:Hi; [|done]. simplify_eq/=. eauto 10.
  - intros (el & Hel & Hu & Hi & ->). exists el. by rewrite Hu, Hi.
Qed.

Lemma labelled_NoDup arr : distinct_idents (ident := ident) arr -> NoDup (labelled arr).*1.
Proof.
  induction arr as [|el arr IH]; intros Hd; [constructor|].
  apply distinct_idents_cons in Hd as [Hd Hne]. unfold labelled. cbn [omap list_omap].
  destruct (used el) eqn:Hu; [|by apply IH].
  destruct (ident (key el)) as [i|] eqn:Hi; [|by apply IH]. cbn. constructor; [|by apply IH].
  intros ((i' & kv) & -> & (el' & Hin & Hu' & Hi' & _)%elem_of_labelled)%list_elem_of_fmap.
  by apply (Hne eq_refl el' i' Hin Hu' eq_refl).
Qed.

Lemma labelled_values map M :
  hm_inv ident ihash map M -> (labelled (array map)).*2 = used_entries (array map).
Proof.
  intros Hinv. assert (Hid : forall el, el ∈ array map -> used el = true ->
    exists i, ident (key el) = Some i).
  { intros el (j & Hj)%list_elem_of_lookup Hu.
    destruct (inv_sound _ _ _ _ Hinv _ _ Hj Hu) as (i & Hi & _). by exists i. }
  revert Hid. generalize (array map). clear. intros arr Hid.
  induction arr as [|el arr IH]; [done|]. unfold labelled, used_entries.
  cbn [omap list_omap]. rewrite list.filter_cons.
  destruct (used el) eqn:Hu; [rewrite decide_True by done|rewrite decide_False by done].
  - destruct (Hid el ltac:(left) Hu) as (i & Hi). rewrite Hi. cbn. f_equal.
    apply IH. intros el' Hin. apply Hid. by right.
  - apply IH. intros el' Hin. apply Hid. by right.
Qed.

Lemma used_entries_map map M :
  hm_inv ident ihash map M -> used_entries (array map) ≡ₚ (map_to_list M).*2.
Proof.
  intros Hinv. rewrite <- (labelled_values _ _ Hinv). apply fmap_Permutation.
  apply NoDup_Permutation.
  - eapply NoDup_fmap_1, labelled_NoDup, inv_distinct, Hinv.
  - apply NoDup_map_to_list.
  - intros [i kv]. rewrite elem_of_labelled, elem_of_map_to_list.
    symmetry. by apply (inv_entries _ _ _ _ Hinv).
Qed.

Lemma length_used_entries map M :
  hm_inv ident ihash map M -> Z.of_nat (length (used_entries (array map))) = hashmap_size map.
Proof.
  intros Hinv. unfold used_entries. rewrite length_fmap.
  pose proof (inv_count _ _ _ _ Hinv) as Hc. unfold count_used in Hc. rewrite Hc.
  symmetry. apply (inv_size _ _ _ _ Hinv).
Qed.

(** C24 A complete iteration over a well-formed map delivers every entry exactly
    once, [hashmap_size] entries in all, and stops: [capacity + 1] turns of the
    client's loop are enough.  This holds whatever byte lies behind the array, as
    long as reading it does no harm. *)
Theorem iteration_complete map M store p it b :
  hm_inv ident ihash map M -> store !! p = Some map ->
  exists entries it',
    it_collect (Some b) (S (Z.to_nat (hashmap_capacity map))) store (hashmap_it_set_map it p)
      = Val (entries, it') /\
    (entries ≡ₚ (map_to_list M).*2) /\ Z.of_nat (length entries) = hashmap_size map /\
    hashmap_it_has_next (Some b) store it' = Val (false, it').
Proof.
  intros Hinv Hst. pose proof (inv_cap_pos _ _ Hinv). pose proof (inv_length _ _ _ _ Hinv).
  eexists _, _. split_and!.
  - unfold hashmap_capacity. erewrite collect_spec; [done|done|done|apply at_start; lia|lia|lia].
  - rewrite drop_0. by apply used_entries_map.
  - rewrite drop_0. by eapply length_used_entries.
  - unfold hashmap_it_has_next, it_seek. cbn [it_map it_index]. rewrite Hst.
    by rewrite Z.leb_refl.
Qed.

(** C32 No complete iteration stays inside the array: the scan for the entry after the
    last one reads [array\[capacity\]] before it compares the index, so with that
    read undefined every iteration to the end is undefined behaviour. *)
Theorem iteration_reads_past_end map M store p it :
  hm_inv ident ihash map M -> store !! p = Some map ->
  it_collect None (S (Z.to_nat (hashmap_capacity map))) store (hashmap_it_set_map it p)
    = Fault OutOfBounds.
Proof.
  intros Hinv Hst. pose proof (inv_cap_pos _ _ Hinv). pose proof (inv_length _ _ _ _ Hinv).
  unfold hashmap_capacity. erewrite collect_spec; [done|done|done|apply at_start; lia|lia|lia].
Qed.

(** [hashmap_it_skip] by [n] from the start succeeds exactly when the map has at
    least [n] entries. *)
Theorem skip_correct map M store p it b n :
  hm_inv ident ihash map M -> store !! p = Some map -> 0 <= n ->
  exists it', hashmap_it_skip (Some b) store (hashmap_it_set_map it p) n =
    Val (n <=? hashmap_size map, it').
Proof.
  intros Hinv Hst Hn. pose proof (inv_cap_pos _ _ Hinv). pose proof (inv_length _ _ _ _ Hinv).
  unfold hashmap_it_skip. destruct (Z.ltb_spec n 0); [lia|].
  destruct (skip_spec (Some b) map store p b (Z.to_nat n) (hashmap_it_set_map it p) 0)
    as (it' & ->); [done|done|done|apply at_start; lia|lia|].
  exists it'. rewrite drop_0. pose proof (length_used_entries _ _ Hinv). do 2 f_equal.
  destruct (Z.leb_spec n (hashmap_size map));
    [apply bool_decide_eq_true_2|apply bool_decide_eq_false_2]; lia.
Qed.
End Contract.

Abbreviation Z_three_map :=
  (<[37 := (37, 370)]> (<[21 := (21, 210)]> {[5 := (5, 50)]}) : gmap Z (Z * Z)).

Lemma iteration_complete_witness :
  exists entries it',
    it_collect (Some true) 17 {[1%positive := Z_three]} (hashmap_it_set_map hashmap_it_alloc 1)
      = Val (entries, it') /\
    (entries ≡ₚ (map_to_list Z_three_map).*2) /\ Z.of_nat (length entries) = 3 /\
    hashmap_it_has_next (Some true) {[1%positive := Z_three]} it' = Val (false, it').
Proof. apply (iteration_complete Z_three _ _ 1 _ true Z_three_inv). reflexivity. Defined.

Lemma iteration_reads_past_end_witness :
  it_collect None 17 {[1%positive := Z_three]} (hashmap_it_set_map hashmap_it_alloc 1)
    = Fault OutOfBounds.
Proof. apply (iteration_reads_past_end Z_three _ _ 1 _ Z_three_inv). reflexivity. Defined.

Lemma skip_correct_witness :
  exists it', hashmap_it_skip (Some false) {[1%positive := Z_three]}
    (hashmap_it_set_map hashmap_it_alloc 1) 3 = Val (true, it').
Proof. apply (skip_correct Z_three _ _ 1 _ false 3 Z_three_inv); [reflexivity|lia]. Defined.

End HashMapIter.
