(* ===== verification/LinkedList.v ===== *)
(** * Doubly linked lists (src/src/collections/linked_list.c)

    The collection is not linked into the program (the Makefile has no rule for it).
    Its objects live in a heap of their own, one map per structure type: nodes, lists
    and iterators; a pointer is [None] ([NULL]) or an address.  [h_junk] is the value
    of the one field that the code leaves uninitialised. *)

From S2P Require Import Prelude.

Module LinkedList.

Abbreviation addr := positive.
Abbreviation pointer := (option addr).

Section Lists.
Context {V : Type}.

Record node := mk_node { n_content : V; n_next : pointer; n_prev : pointer }.
Record linked_list := mk_list { l_size : Z; l_head : pointer; l_tail : pointer }.
Record linked_list_iterator := mk_it { i_consumed : bool; i_cursor : pointer; i_list : pointer }.

Record heap := mk_heap {
  h_nodes : gmap addr node;
  h_lists : gmap addr linked_list;
  h_its : gmap addr linked_list_iterator;
  h_junk : pointer
}.

Definition with_nodes m h := mk_heap m (h_lists h) (h_its h) (h_junk h).
Definition with_lists m h := mk_heap (h_nodes h) m (h_its h) (h_junk h).
Definition with_its m h := mk_heap (h_nodes h) (h_lists h) m (h_junk h).

(** ** Outcomes *)

(** A call returns, fails an [assert], or is undefined. *)
Inductive lout (A : Type) :=
| LOk (a : A) (h : heap)
| LAbort
| LFault (f : fault).
Arguments LOk {A} a h.
Arguments LAbort {A}.
Arguments LFault {A} f.

Definition L (A : Type) : Type := heap -> lout A.

#[export] Instance L_ret : MRet L := fun A a h => LOk a h.
#[export] Instance L_bind : MBind L := fun A B k m h =>
  match m h with
  | LOk a h => k a h
  | LAbort => LAbort
  | LFault f => LFault f
  end.

Definition l_assert (b : bool) : L unit := fun h => if b then LOk tt h else LAbort.
Definition l_fault {A} (f : fault) : L A := fun _ => LFault f.
Definition l_modify (f : heap -> heap) : L unit := fun h => LOk tt (f h).

Definition is_null (p : pointer) : bool := if p is Some _ then false else true.

(** [*p] and [p->field = ...] in the map that [sel] and [put] select. *)
Definition fetch {A} (sel : heap -> gmap addr A) (p : pointer) : L A := fun h =>
  match p with
  | None => LFault NullDeref
  | Some l => match sel h !! l with Some a => LOk a h | None => LFault Dangling end
  end.
Definition assign {A} (sel : heap -> gmap addr A) (put : gmap addr A -> heap -> heap)
    (p : pointer) (f : A -> A) : L unit :=
  a ← fetch sel p;
  match p with
  | None => l_fault NullDeref
  | Some l => l_modify (fun h => put (<[l := f a]> (sel h)) h)
  end.
Definition new {A} (sel : heap -> gmap addr A) (put : gmap addr A -> heap -> heap) (a : A)
    : L pointer := fun h =>
  let l := fresh (dom (sel h)) in LOk (Some l) (put (<[l := a]> (sel h)) h).
Definition release {A} (sel : heap -> gmap addr A) (put : gmap addr A -> heap -> heap)
    (p : pointer) : L unit := fun h =>
  match p with
  | None => LOk tt h
  | Some l => match sel h !! l with
              | Some _ => LOk tt (put (delete l (sel h)) h)
              | None => LFault BadFree
              end
  end.

Abbreviation get_node := (fetch h_nodes).
Abbreviation set_node := (assign h_nodes with_nodes).
Abbreviation get_list := (fetch h_lists).
Abbreviation set_list := (assign h_lists with_lists).
Abbreviation get_it := (fetch h_its).
Abbreviation set_it := (assign h_its with_its).

Definition set_next q (n : node) := mk_node (n_content n) q (n_prev n).
Definition set_prev q (n : node) := mk_node (n_content n) (n_next n) q.
Definition set_size s (l : linked_list) := mk_list s (l_head l) (l_tail l).
Definition set_head q (l : linked_list) := mk_list (l_size l) q (l_tail l).
Definition set_tail q (l : linked_list) := mk_list (l_size l) (l_head l) q.
Definition set_consumed b (i : linked_list_iterator) := mk_it b (i_cursor i) (i_list i).
Definition set_cursor q (i : linked_list_iterator) := mk_it (i_consumed i) q (i_list i).
Definition set_it_list q (i : linked_list_iterator) := mk_it (i_consumed i) (i_cursor i) q.

(** [list->size += d], a [long]. *)
Definition add_to_size (list : pointer) (d : Z) : L unit :=
  l ← get_list list;
  let s := l_size l + d in
  if (- 2 ^ 63 <=? s) && (s <? 2 ^ 63) then set_list list (set_size s)
  else l_fault SignedOverflow.

(** ** Lists *)

Definition linked_list_alloc : L pointer := new h_lists with_lists (mk_list 0 None None).

Definition linked_list_is_empty (list : pointer) : L bool :=
  l_assert (negb (is_null list));;
  l ← get_list list;
  mret (l_size l =? 0).

Definition linked_list_size (list : pointer) : L Z :=
  l_assert (negb (is_null list));;
  l ← get_list list;
  mret (l_size l).

Definition linked_list_pop_tail (list : pointer) : L V :=
  l_assert (negb (is_null list));;
  e ← linked_list_is_empty list;
  l_assert (negb e);;
  l ← get_list list;
  t ← get_node (l_tail l);
  let new_tail := n_prev t in
  let content := n_content t in
  release h_nodes with_nodes (l_tail l);;
  (if is_null new_tail then mret tt else set_node new_tail (set_next None));;
  set_list list (set_tail new_tail);;
  add_to_size list (-1);;
  l ← get_list list;
  (if l_size l =? 0 then set_list list (set_head None) else mret tt);;
  mret content.

Definition linked_list_push_tail (list : pointer) (content : V) : L unit :=
  l_assert (negb (is_null list));;
  l ← get_list list;
  new_tail ← new h_nodes with_nodes (mk_node content None (l_tail l));
  (if is_null (l_tail l) then mret tt else set_node (l_tail l) (set_next new_tail));;
  (if is_null (l_head l) then set_list list (set_head new_tail) else mret tt);;
  set_list list (set_tail new_tail);;
  add_to_size list 1.

Definition linked_list_pop_head (list : pointer) : L V :=
  l_assert (negb (is_null list));;
  e ← linked_list_is_empty list;
  l_assert (negb e);;
  l ← get_list list;
  t ← get_node (l_head l);
  let new_head := n_next t in
  let content := n_content t in
  release h_nodes with_nodes (l_head l);;
  (if is_null new_head then mret tt else set_node new_head (set_prev None));;
  set_list list (set_head new_head);;
  add_to_size list (-1);;
  l ← get_list list;
  (if l_size l =? 0 then set_list list (set_tail None) else mret tt);;
  mret content.

Definition linked_list_push_head (list : pointer) (content : V) : L unit :=
  l_assert (negb (is_null list));;
  l ← get_list list;
  new_head ← new h_nodes with_nodes (mk_node content (l_head l) None);
  (if is_null (l_head l) then mret tt else set_node (l_head l) (set_prev new_head));;
  (if is_null (l_tail l) then set_list list (set_tail new_head) else mret tt);;
  set_list list (set_head new_head);;
  add_to_size list 1.

Definition linked_list_concat (a b : pointer) : L unit :=
  l_assert (negb (is_null a) && negb (is_null b));;
  ea ← linked_list_is_empty a;
  if ea : bool then
    lb ← get_list b;
    set_list a (fun _ => lb)
  else
    eb ← linked_list_is_empty b;
    if negb eb then
      la ← get_list a;
      lb ← get_list b;
      set_node (l_tail la) (set_next (l_head lb));;
      add_to_size a (l_size lb);;
      set_list a (set_tail (l_tail lb))
    else mret tt.

(** The loop of [free_linked_list]; it calls a function [linked_list_pop] that is
    defined nowhere, hence a parameter. *)
Fixpoint free_loop (pop : pointer -> L V) (fuel : nat) (list : pointer) : L unit :=
  match fuel with
  | O => l_fault Diverges
  | S fuel =>
      e ← linked_list_is_empty list;
      if negb e then pop list;; free_loop pop fuel list else mret tt
  end.

Definition free_linked_list (pop : pointer -> L V) (fuel : nat) (list : pointer) : L unit :=
  l_assert (negb (is_null list));;
  free_loop pop fuel list;;
  release h_lists with_lists list.

(** ** Iterators *)

Definition linked_list_it_alloc : L pointer := fun h =>
  new h_its with_its (mk_it false None (h_junk h)) h.

Definition linked_list_it_reset (it : pointer) : L unit :=
  l_assert (negb (is_null it));;
  set_it it (set_consumed false);;
  i ← get_it it;
  l ← get_list (i_list i);
  set_it it (set_cursor (l_head l)).

Definition linked_list_it_set_list (it list : pointer) : L unit :=
  l_assert (negb (is_null it) && negb (is_null list));;
  set_it it (set_it_list list);;
  l ← get_list list;
  set_it it (set_cursor (l_head l));;
  linked_list_it_reset it.

(** [if (it->consumed) { it->consumed = 0; it->cursor = it->cursor->next; }] *)
Definition advance (it : pointer) : L unit :=
  i ← get_it it;
  if i_consumed i then
    set_it it (set_consumed false);;
    c ← get_node (i_cursor i);
    set_it it (set_cursor (n_next c))
  else mret tt.

Definition linked_list_it_has_next (it : pointer) : L bool :=
  l_assert (negb (is_null it));;
  i ← get_it it;
  if is_null (i_cursor i) then mret false
  else
    advance it;;
    i ← get_it it;
    mret (negb (is_null (i_cursor i))).

Definition linked_list_it_remove (it : pointer) : L bool :=
  l_assert (negb (is_null it));;
  i ← get_it it;
  if is_null (i_cursor i) then mret false
  else
    advance it;;
    i ← get_it it;
    if is_null (i_cursor i) then mret false
    else
      c ← get_node (i_cursor i);
      (if is_null (n_prev c) then set_list (i_list i) (set_head (n_next c))
       else set_node (n_prev c) (set_next (n_next c)));;
      c ← get_node (i_cursor i);
      (if is_null (n_next c) then set_list (i_list i) (set_tail (n_prev c)) else mret tt);;
      let new_cursor := n_prev c in
      release h_nodes with_nodes (i_cursor i);;
      set_it it (set_cursor new_cursor);;
      set_it it (set_consumed true);;
      mret true.

(** The content stored in [*content] when the result is 1. *)
Definition linked_list_it_next (it : pointer) : L (option V) :=
  l_assert (negb (is_null it));;
  i ← get_it it;
  if is_null (i_cursor i) then mret None
  else
    advance it;;
    i ← get_it it;
    if is_null (i_cursor i) then mret None
    else
      set_it it (set_consumed true);;
      c ← get_node (i_cursor i);
      mret (Some (n_content c)).

(** The loop counts [n] down: what is left of it when the loop ends. *)
Fixpoint skip_loop (n : nat) (it : pointer) : L nat :=
  match n with
  | O => mret O
  | S n' =>
      more ← linked_list_it_has_next it;
      if more : bool then linked_list_it_next it;; skip_loop n' it else mret n
  end.

Definition linked_list_it_skip (it : pointer) (n : Z) : L bool :=
  if 0 <? n then left ← skip_loop (Z.to_nat n) it; mret (Nat.eqb left 0) else mret (n =? 0).
End Lists.

#[global] Arguments LOk {V A} a h.
#[global] Arguments LAbort {V A}.
#[global] Arguments LFault {V A} f.
#[global] Arguments node : clear implicits.
#[global] Arguments heap : clear implicits.
#[global] Arguments L : clear implicits.

End LinkedList.
