(* ===== verification/LinkedListFacts.v ===== *)
(** * Linked lists: representation and rules

    [represents h p ls xs]: the list at [p] holds the contents [xs] in the nodes [ls],
    linked in both directions.  [forward] is the weaker fact that the [next] pointers
    lead through [ls]; it is all that an iteration needs. *)

From S2P Require Import Prelude LinkedList.
Import LinkedList.

Module LinkedListFacts.

Section Facts.
Context {V : Type}.
Implicit Types (h : heap V) (m : gmap addr (node V)) (ls : list addr) (xs : list V) (p l : addr).

(** ** Running *)

Definition lwp {A} (c : L V A) h (Q : A -> heap V -> Prop) : Prop :=
  match c h with LOk a h' => Q a h' | _ => False end.

Lemma lwp_run {A} (c : L V A) h (Q : A -> heap V -> Prop) :
  lwp c h Q -> exists a h', c h = LOk a h' /\ Q a h'.
Proof. unfold lwp. destruct (c h); try done. eauto. Qed.

Lemma lwp_bind {A B} (c : L V A) (k : A -> L V B) h (Q : B -> heap V -> Prop) :
  lwp c h (fun a h' => lwp (k a) h' Q) -> lwp (c ≫= k) h Q.
Proof. unfold lwp, mbind, L_bind. destruct (c h); done. Qed.

(** Run a prefix that returns, whatever becomes of the rest. *)
Lemma lwp_then {A B} (c : L V A) (k : A -> L V B) h (P : lout B -> Prop) :
  lwp c h (fun a h' => P (k a h')) -> P ((c ≫= k) h).
Proof. unfold lwp, mbind, L_bind. destruct (c h); done. Qed.

Lemma bind_ok {A B} (c : L V A) (k : A -> L V B) h a h' : c h = LOk a h' -> (c ≫= k) h = k a h'.
Proof. unfold mbind, L_bind. by intros ->. Qed.

Lemma bind_abort {A B} (c : L V A) (k : A -> L V B) h : c h = LAbort -> (c ≫= k) h = LAbort.
Proof. unfold mbind, L_bind. by intros ->. Qed.

Lemma bind_fault {A B} (c : L V A) (k : A -> L V B) h f : c h = LFault f -> (c ≫= k) h = LFault f.
Proof. unfold mbind, L_bind. by intros ->. Qed.

Lemma lwp_mono {A} (c : L V A) h (Q Q' : A -> heap V -> Prop) :
  lwp c h Q -> (forall a h', Q a h' -> Q' a h') -> lwp c h Q'.
Proof. unfold lwp. destruct (c h); auto. Qed.

Lemma lwp_ret {A} (a : A) h (Q : A -> heap V -> Prop) : Q a h -> lwp (mret a) h Q.
Proof. done. Qed.

Lemma lwp_assert b h (Q : unit -> heap V -> Prop) : b = true -> Q tt h -> lwp (l_assert b) h Q.
Proof. by intros ->. Qed.

Lemma lwp_fetch {A} sel l (a : A) h (Q : A -> heap V -> Prop) :
  sel h !! l = Some a -> Q a h -> lwp (fetch sel (Some l)) h Q.
Proof. intros Hl HQ. unfold lwp, fetch. by rewrite Hl. Qed.

Lemma lwp_assign {A} sel put l (a : A) f h (Q : unit -> heap V -> Prop) :
  sel h !! l = Some a -> Q tt (put (<[l := f a]> (sel h)) h) ->
  lwp (assign sel put (Some l) f) h Q.
Proof. intros Hl HQ. unfold assign. apply lwp_bind. by eapply lwp_fetch. Qed.

Lemma lwp_new {A} sel put (a : A) h (Q : pointer -> heap V -> Prop) :
  (forall l, sel h !! l = None -> Q (Some l) (put (<[l := a]> (sel h)) h)) ->
  lwp (new sel put a) h Q.
Proof. intros HQ. unfold lwp, new. apply HQ, not_elem_of_dom, is_fresh. Qed.

Lemma lwp_release {A} sel put l (a : A) h (Q : unit -> heap V -> Prop) :
  sel h !! l = Some a -> Q tt (put (delete l (sel h)) h) ->
  lwp (release sel put (Some l)) h Q.
Proof. intros Hl HQ. unfold lwp, release. by rewrite Hl. Qed.

Lemma lwp_add_to_size l (a : linked_list) d h (Q : unit -> heap V -> Prop) :
  h_lists h !! l = Some a -> - 2 ^ 63 <= l_size a + d < 2 ^ 63 ->
  Q tt (with_lists (<[l := set_size (l_size a + d) a]> (h_lists h)) h) ->
  lwp (add_to_size (Some l) d) h Q.
Proof.
  intros Hl Hd HQ. unfold add_to_size. apply lwp_bind. eapply lwp_fetch; [exact Hl|]. cbv zeta.
  rewrite (proj2 (Z.leb_le _ _)), (proj2 (Z.ltb_lt _ _)) by lia. by eapply lwp_assign.
Qed.

Lemma lwp_is_empty l (a : linked_list) h (Q : bool -> heap V -> Prop) :
  h_lists h !! l = Some a -> Q (l_size a =? 0) h -> lwp (linked_list_is_empty (Some l)) h Q.
Proof. intros Hl HQ. apply lwp_bind. cbn. apply lwp_bind. by eapply lwp_fetch. Qed.

(** ** Segments *)

(** The node that follows: the first of [ls], or [nx]. *)
Definition first ls (nx : pointer) : pointer := if ls is l :: _ then Some l else nx.
(** The node that precedes: the last of [ls], or [pv]. *)
Definition final (pv : pointer) ls : pointer := if list.last ls is Some l then Some l else pv.

(** The nodes [ls] hold [xs], linked both ways, between [pv] and [nx]. *)
Fixpoint seg m (pv : pointer) ls xs (nx : pointer) : Prop :=
  match ls, xs with
  | [], [] => True
  | l :: ls, x :: xs => m !! l = Some (mk_node x (first ls nx) pv) /\ seg m (Some l) ls xs nx
  | _, _ => False
  end.

(** The same for the [next] pointers only. *)
Fixpoint fseg m ls xs (nx : pointer) : Prop :=
  match ls, xs with
  | [], [] => True
  | l :: ls, x :: xs => (exists pv, m !! l = Some (mk_node x (first ls nx) pv)) /\ fseg m ls xs nx
  | _, _ => False
  end.

Lemma seg_length m pv ls xs nx : seg m pv ls xs nx -> length ls = length xs.
Proof.
  revert pv xs. induction ls as [|l ls IH]; intros pv [|x xs]; cbn; try done.
  intros [_ H]. f_equal. by eapply IH.
Qed.

Lemma seg_ext m m' pv ls xs nx :
  (forall l, l ∈ ls -> m' !! l = m !! l) -> seg m pv ls xs nx -> seg m' pv ls xs nx.
Proof.
  revert pv xs. induction ls as [|l ls IH]; intros pv [|x xs] Hm; cbn; try done.
  intros [Hl Hs]. split; [rewrite Hm by left; done|]. apply IH; [|done].
  intros l' Hl'. apply Hm. by right.
Qed.

Lemma seg_alloc m pv ls xs nx l : seg m pv ls xs nx -> l ∈ ls -> is_Some (m !! l).
Proof.
  revert pv xs. induction ls as [|l' ls IH]; intros pv [|x xs]; cbn; try done.
  - by intros _ Hl%elem_of_nil.
  - intros [Hl Hs] [->|Hin]%elem_of_cons; [by eexists|by eapply IH].
Qed.

Lemma final_cons pv l ls : final pv (l :: ls) = final (Some l) ls.
Proof. unfold final. rewrite last_cons. by destruct (list.last ls). Qed.

Lemma final_app pv ls l : final pv (ls ++ [l]) = Some l.
Proof. unfold final. by rewrite last_snoc. Qed.

Lemma first_app ls ls' nx : first (ls ++ ls') nx = first ls (first ls' nx).
Proof. by destruct ls. Qed.

Lemma seg_app m pv ls xs ls' xs' nx :
  length ls = length xs ->
  seg m pv (ls ++ ls') (xs ++ xs') nx <->
  seg m pv ls xs (first ls' nx) /\ seg m (final pv ls) ls' xs' nx.
Proof.
  revert pv xs. induction ls as [|l ls IH]; intros pv [|x xs] Hl; cbn in Hl; try done.
  - cbn. tauto.
  - cbn [app seg]. rewrite IH by lia. rewrite final_cons, first_app. tauto.
Qed.

Lemma seg_snoc m pv ls xs l x nx :
  length ls = length xs ->
  seg m pv (ls ++ [l]) (xs ++ [x]) nx <->
  seg m pv ls xs (Some l) /\ m !! l = Some (mk_node x nx (final pv ls)).
Proof. intros Hl. rewrite seg_app by done. cbn. tauto. Qed.

Lemma seg_fseg m pv ls xs nx : seg m pv ls xs nx -> fseg m ls xs nx.
Proof.
  revert pv xs. induction ls as [|l ls IH]; intros pv [|x xs]; cbn; try done.
  intros [Hl Hs]. eauto.
Qed.

Lemma fseg_app m ls xs ls' xs' nx :
  fseg m ls xs (first ls' nx) -> fseg m ls' xs' nx -> fseg m (ls ++ ls') (xs ++ xs') nx.
Proof.
  revert xs. induction ls as [|l ls IH]; intros [|x xs]; cbn; try done.
  rewrite first_app. intros [Hl Hs] H'. auto.
Qed.

(** ** Lists *)

Record represents h p ls xs : Prop := {
  rep_list : h_lists h !! p = Some (mk_list (Z.of_nat (length xs)) (first ls None) (final None ls));
  rep_seg : seg (h_nodes h) None ls xs None;
  rep_nodup : NoDup ls
}.

Record forward h p ls xs : Prop := {
  fwd_list : exists t, h_lists h !! p = Some (mk_list (Z.of_nat (length xs)) (first ls None) t);
  fwd_seg : fseg (h_nodes h) ls xs None
}.

Lemma represents_forward h p ls xs : represents h p ls xs -> forward h p ls xs.
Proof. intros []. split; [by eexists|by eapply seg_fseg]. Qed.

(** What an operation on the list [p] with nodes [ls] leaves alone. *)
Record elsewhere h p ls h' : Prop := {
  else_lists q : q <> p -> h_lists h' !! q = h_lists h !! q;
  else_nodes l : l ∉ ls -> is_Some (h_nodes h !! l) -> h_nodes h' !! l = h_nodes h !! l;
  else_its : h_its h' = h_its h
}.

(** Two lists that share no node stay apart. *)
Lemma represents_elsewhere h p ls h' q ls' xs' :
  elsewhere h p ls h' -> q <> p -> ls ## ls' -> represents h q ls' xs' -> represents h' q ls' xs'.
Proof.
  intros He Hq Hd [Hl Hs Hn]. split; [|eapply seg_ext; [|exact Hs]|done].
  - by rewrite (else_lists _ _ _ _ He).
  - intros l Hin. apply (else_nodes _ _ _ _ He); [|by eapply seg_alloc].
    intros Hin'. by apply (Hd l).
Qed.

End Facts.

(** One primitive at a time. *)
Ltac l_step :=
  match goal with
  | |- lwp (mret _) _ _ => apply lwp_ret
  | |- lwp (_ ≫= _) _ _ => apply lwp_bind
  | |- lwp (l_assert _) _ _ => apply lwp_assert; [reflexivity|]
  | |- lwp (fetch _ (Some _)) _ _ => eapply lwp_fetch
  | |- lwp (assign _ _ (Some _) _) _ _ => eapply lwp_assign
  | |- lwp (release _ _ (Some _)) _ _ => eapply lwp_release
  | |- lwp (add_to_size (Some _) _) _ _ => eapply lwp_add_to_size
  | |- lwp (linked_list_is_empty (Some _)) _ _ => eapply lwp_is_empty
  end.

End LinkedListFacts.
