(* ===== verification/LinkedListSpec.v ===== *)
(** * Linked lists: the contract

    The four operations at the ends refine a double-ended queue, an iteration delivers
    the contents in order, and the places where concatenation and removal break the
    backward links or the size. *)

From S2P Require Import Prelude LinkedList LinkedListFacts.
Import LinkedList LinkedListFacts.

Module LinkedListSpec.

Section Contract.
Context {V : Type}.
Implicit Types (h : heap V) (m : gmap addr (node V)) (ls : list addr) (xs : list V) (p l : addr).

(** [ls] and [xs] are empty together, or end together. *)
Lemma snoc_cases ls xs :
  length ls = length xs ->
  (ls = [] /\ xs = []) \/ exists ls' l xs' x, ls = ls' ++ [l] /\ xs = xs' ++ [x] /\
    length ls' = length xs'.
Proof.
  destruct ls as [|l ls _] using rev_ind; destruct xs as [|x xs _] using rev_ind;
    rewrite ?length_app; cbn; intros Hl; [by left|lia|lia|].
  right. exists ls, l, xs, x. split_and!; try done. lia.
Qed.

Lemma seg_write_last m pv ls xs l n nx :
  l ∉ ls -> seg m pv ls xs nx -> seg (<[l := n]> m) pv ls xs nx.
Proof.
  intros Hl. apply seg_ext. intros l' Hl'. apply lookup_insert_ne. by intros ->.
Qed.

Lemma seg_delete m pv ls xs l nx :
  l ∉ ls -> seg m pv ls xs nx -> seg (delete l m) pv ls xs nx.
Proof.
  intros Hl. apply seg_ext. intros l' Hl'. apply lookup_delete_ne. by intros ->.
Qed.

Lemma rep_length h p ls xs : represents h p ls xs -> length ls = length xs.
Proof. intros []. by eapply seg_length. Qed.

Lemma rep_fresh h p ls xs l : represents h p ls xs -> h_nodes h !! l = None -> l ∉ ls.
Proof. intros [_ Hs _] Hl [a Ha]%(seg_alloc _ _ _ _ _ _ Hs). congruence. Qed.

Lemma list_fields s s' hd hd' tl tl' :
  s = s' -> hd = hd' -> tl = tl' -> Some (mk_list s hd tl) = Some (mk_list s' hd' tl').
Proof. by intros -> -> ->. Qed.

(** ** The ends *)

Lemma push_tail_step h p ls xs x :
  represents h p ls xs -> Z.of_nat (length xs) + 1 < 2 ^ 63 ->
  lwp (linked_list_push_tail (Some p) x) h (fun _ h' => exists l, h_nodes h !! l = None /\
    represents h' p (ls ++ [l]) (xs ++ [x]) /\ elsewhere h p ls h').
Proof.
  intros Hrep Hsize. pose proof (rep_length _ _ _ _ Hrep) as Hlen.
  pose proof Hrep as [Hlist Hseg Hnd]. unfold linked_list_push_tail.
  l_step. l_step. l_step. l_step; [exact Hlist|]. l_step. apply lwp_new. intros l Hl.
  pose proof (rep_fresh _ _ _ _ _ Hrep Hl) as Hnl.
  destruct (snoc_cases ls xs Hlen) as [[-> ->]|(ls' & t & xs' & y & -> & -> & Hlen')].
  - cbn. l_step. l_step. l_step. l_step; [exact Hlist|]. l_step.
    l_step; [apply lookup_insert_eq|]. l_step; [apply lookup_insert_eq|cbn; lia|].
    exists l. split; [done|]. split.
    + split; cbn; [apply lookup_insert_eq| |by apply NoDup_singleton].
      split; [apply lookup_insert_eq|done].
    + split; cbn; [|intros l' _ [n Hn]; apply lookup_insert_ne; congruence|done].
      intros q Hq. by rewrite !lookup_insert_ne by done.
  - apply seg_snoc in Hseg as [Hseg Ht]; [|done]. rewrite final_app. cbn [l_tail is_null].
    rewrite first_app. cbn [first].
    assert (Hne : l <> t) by congruence.
    l_step. l_step; [cbn; by rewrite lookup_insert_ne|].
    assert (Hhd : is_null (first ls' (Some t)) = false) by by destruct ls'. cbn [l_head].
    rewrite Hhd. l_step. l_step. l_step. l_step; [exact Hlist|].
    l_step; [apply lookup_insert_eq|cbn in *; lia|]. cbn.
    apply list.NoDup_app in Hnd as (Hnd & Hdis & _).
    assert (Hnt : t ∉ ls') by (intros Hin; by apply (Hdis t), list_elem_of_singleton).
    rewrite elem_of_app, list_elem_of_singleton in Hnl.
    exists l. split; [done|]. split.
    + split; cbn.
      * rewrite lookup_insert_eq. apply list_fields; cbn.
        -- rewrite !length_app. cbn. lia.
        -- by rewrite !first_app.
        -- by rewrite final_app.
      * apply seg_snoc; [rewrite !length_app; cbn; lia|]. rewrite final_app. split.
        -- apply seg_snoc; [done|]. split; [|by rewrite lookup_insert_eq].
           apply seg_write_last; [done|]. by apply seg_write_last; [tauto|].
        -- rewrite lookup_insert_ne by done. apply lookup_insert_eq.
      * rewrite <- app_assoc. apply list.NoDup_app. split_and!; [done| |].
        -- intros l' Hl' [->|[->|Hn%elem_of_nil]%elem_of_cons]%elem_of_cons; tauto.
        -- constructor; [by rewrite list_elem_of_singleton|apply NoDup_singleton].
    + split; cbn; [|intros l' Hl' [n Hn]|done].
      * intros q Hq. by rewrite !lookup_insert_ne by done.
      * rewrite elem_of_app, list_elem_of_singleton in Hl'.
        rewrite !lookup_insert_ne; [done|congruence|]. intros ->. tauto.
Qed.

Lemma push_head_step h p ls xs x :
  represents h p ls xs -> Z.of_nat (length xs) + 1 < 2 ^ 63 ->
  lwp (linked_list_push_head (Some p) x) h (fun _ h' => exists l, h_nodes h !! l = None /\
    represents h' p (l :: ls) (x :: xs) /\ elsewhere h p ls h').
Proof.
  intros Hrep Hsize. pose proof (rep_length _ _ _ _ Hrep) as Hlen.
  pose proof Hrep as [Hlist Hseg Hnd]. unfold linked_list_push_head.
  l_step. l_step. l_step. l_step; [exact Hlist|]. l_step. apply lwp_new. intros l Hl.
  pose proof (rep_fresh _ _ _ _ _ Hrep Hl) as Hnl.
  destruct ls as [|t ls], xs as [|y xs]; try done.
  - cbn. l_step. l_step. l_step. l_step; [exact Hlist|]. l_step.
    l_step; [apply lookup_insert_eq|]. l_step; [apply lookup_insert_eq|cbn; lia|].
    exists l. split; [done|]. split.
    + split; cbn; [apply lookup_insert_eq| |by apply NoDup_singleton].
      split; [apply lookup_insert_eq|done].
    + split; cbn; [|intros l' _ [n Hn]; apply lookup_insert_ne; congruence|done].
      intros q Hq. by rewrite !lookup_insert_ne by done.
  - cbn [first l_head is_null]. destruct Hseg as [Ht Hseg].
    assert (Hne : l <> t) by congruence.
    l_step. l_step; [cbn; by rewrite lookup_insert_ne|].
    cbn [l_tail]. rewrite final_cons.
    assert (Htl : is_null (final (Some t) ls) = false) by (unfold final; by destruct (list.last ls)).
    rewrite Htl. l_step. l_step. l_step. l_step; [exact Hlist|].
    l_step; [apply lookup_insert_eq|cbn in *; lia|]. cbn.
    apply list.NoDup_cons in Hnd as [Hnt Hnd].
    assert (Hnl' : l ∉ ls) by (intros ?; apply Hnl; by right).
    exists l. split; [done|]. split.
    + split; cbn.
      * rewrite lookup_insert_eq. apply list_fields; cbn; [lia|done|by rewrite !final_cons].
      * split; [rewrite lookup_insert_ne by done; apply lookup_insert_eq|].
        split; [apply lookup_insert_eq|]. apply seg_write_last; [done|]. by apply seg_write_last.
      * constructor; [done|]. by constructor.
    + split; cbn; [|intros l' Hl' [n Hn]|done].
      * intros q Hq. by rewrite !lookup_insert_ne by done.
      * rewrite !lookup_insert_ne; [done|congruence|]. intros ->. apply Hl'. by left.
Qed.

Lemma pop_tail_step h p ls xs t x :
  represents h p (ls ++ [t]) (xs ++ [x]) -> Z.of_nat (length xs) < 2 ^ 63 ->
  lwp (linked_list_pop_tail (Some p)) h (fun v h' => v = x /\ represents h' p ls xs /\
    elsewhere h p (ls ++ [t]) h').
Proof.
  intros Hrep Hsize. pose proof (rep_length _ _ _ _ Hrep) as Hlen.
  rewrite !length_app in Hlen. cbn in Hlen.
  assert (Hlen' : length ls = length xs) by lia. clear Hlen.
  pose proof Hrep as [Hlist Hseg Hnd]. apply seg_snoc in Hseg as [Hseg Ht]; [|done].
  rewrite final_app in Hlist. rewrite length_app in Hlist.
  apply list.NoDup_app in Hnd as (Hnd & Hdis & _).
  assert (Hnt : t ∉ ls) by (intros Hin; by apply (Hdis t), list_elem_of_singleton).
  unfold linked_list_pop_tail. l_step. l_step. l_step. l_step; [exact Hlist|]. cbn [l_size].
  rewrite (proj2 (Z.eqb_neq _ 0)) by (cbn; lia). l_step. l_step. l_step. l_step; [exact Hlist|].
  cbn [l_tail]. l_step. l_step; [exact Ht|]. cbv zeta. cbn [n_prev n_content].
  l_step. l_step; [exact Ht|]. l_step.
  destruct (snoc_cases ls xs Hlen') as [[-> ->]|(ls' & u & xs' & y & -> & -> & Hlen'')].
  - cbn. l_step. l_step; [exact Hlist|]. l_step.
    l_step; [apply lookup_insert_eq|cbn; lia|]. l_step. l_step; [apply lookup_insert_eq|]. cbn.
    l_step. change (Z.of_nat 1 + -1 =? 0) with true. cbv iota. l_step; [apply lookup_insert_eq|]. l_step. split; [done|]. split.
    + split; cbn; [by rewrite lookup_insert_eq|done|constructor].
    + split; cbn; [| |done].
      * intros q Hq. by rewrite !lookup_insert_ne by done.
      * intros l' Hl' _. apply lookup_delete_ne. rewrite list_elem_of_singleton in Hl'. congruence.
  - apply seg_snoc in Hseg as [Hseg Hu]; [|done]. rewrite final_app in *. cbn [is_null].
    assert (Hut : u <> t) by (intros ->; apply Hnt, elem_of_app; right; left).
    l_step; [cbn; by rewrite lookup_delete_ne|]. l_step. l_step; [exact Hlist|]. l_step.
    l_step; [apply lookup_insert_eq|cbn in *; rewrite length_app; cbn; rewrite length_app in Hsize; cbn in Hsize; lia|].
    l_step. l_step; [apply lookup_insert_eq|]. cbn [l_size set_size set_tail].
    rewrite (proj2 (Z.eqb_neq _ 0)) by (rewrite length_app; cbn; lia). l_step. l_step. l_step.
    split; [done|]. split.
    + apply list.NoDup_app in Hnd as (Hnd & Hdis' & _).
      assert (Hnu : u ∉ ls') by (intros Hin; by apply (Hdis' u), list_elem_of_singleton).
      rewrite elem_of_app, list_elem_of_singleton in Hnt.
      split; cbn.
      * rewrite lookup_insert_eq. apply list_fields; cbn.
        -- rewrite !length_app. cbn. lia.
        -- by rewrite !first_app.
        -- by rewrite final_app.
      * apply seg_snoc; [done|]. split; [|apply lookup_insert_eq].
        apply seg_write_last; [done|]. by apply seg_delete; [tauto|].
      * apply list.NoDup_app. split_and!; [done|done|apply NoDup_singleton].
    + split; cbn; [| |done].
      * intros q Hq. by rewrite !lookup_insert_ne by done.
      * intros l' Hl' _. rewrite !elem_of_app, !list_elem_of_singleton in Hl'.
        rewrite lookup_insert_ne by (intros ->; tauto). apply lookup_delete_ne. intros ->; tauto.
Qed.

Lemma pop_head_step h p ls xs t x :
  represents h p (t :: ls) (x :: xs) -> Z.of_nat (length xs) < 2 ^ 63 ->
  lwp (linked_list_pop_head (Some p)) h (fun v h' => v = x /\ represents h' p ls xs /\
    elsewhere h p (t :: ls) h').
Proof.
  intros Hrep Hsize. pose proof (rep_length _ _ _ _ Hrep) as [= Hlen].
  pose proof Hrep as [Hlist [Ht Hseg] [Hnt Hnd]%list.NoDup_cons]. cbn [length] in Hlist.
  unfold linked_list_pop_head. l_step. l_step. l_step. l_step; [exact Hlist|]. cbn [l_size].
  rewrite (proj2 (Z.eqb_neq _ 0)) by (cbn; lia). l_step. l_step. l_step. l_step; [exact Hlist|].
  cbn [l_head first]. l_step. l_step; [exact Ht|]. cbv zeta. cbn [n_next n_content].
  l_step. l_step; [exact Ht|]. l_step.
  destruct ls as [|u ls], xs as [|y xs]; try done.
  - cbn. l_step. l_step; [exact Hlist|]. l_step.
    l_step; [apply lookup_insert_eq|cbn; lia|]. l_step. l_step; [apply lookup_insert_eq|]. cbn.
    l_step. change (Z.of_nat 1 + -1 =? 0) with true. cbv iota.
    l_step; [apply lookup_insert_eq|]. l_step. split; [done|]. split.
    + split; cbn; [by rewrite lookup_insert_eq|done|constructor].
    + split; cbn; [| |done].
      * intros q Hq. by rewrite !lookup_insert_ne by done.
      * intros l' Hl' _. apply lookup_delete_ne. rewrite list_elem_of_singleton in Hl'. congruence.
  - cbn [first is_null]. destruct Hseg as [Hu Hseg].
    apply list.NoDup_cons in Hnd as [Hnu Hnd]. rewrite elem_of_cons in Hnt.
    assert (Hut : u <> t) by (intros ->; tauto).
    l_step; [cbn; by rewrite lookup_delete_ne|]. l_step. l_step; [exact Hlist|]. l_step.
    l_step; [apply lookup_insert_eq|cbn in *; lia|].
    l_step. l_step; [apply lookup_insert_eq|]. cbn [l_size set_size set_head].
    rewrite (proj2 (Z.eqb_neq _ 0)) by (cbn; lia). l_step. l_step. l_step.
    split; [done|]. split.
    + split; cbn.
      * rewrite lookup_insert_eq. apply list_fields; cbn; [lia|done|by rewrite !final_cons].
      * split; [apply lookup_insert_eq|]. apply seg_write_last; [done|].
        apply seg_delete; [tauto|done].
      * by constructor.
    + split; cbn; [| |done].
      * intros q Hq. by rewrite !lookup_insert_ne by done.
      * intros l' Hl' _. rewrite !elem_of_cons in Hl'.
        rewrite lookup_insert_ne by (intros ->; tauto). apply lookup_delete_ne. intros ->; tauto.
Qed.

(** ** A double-ended queue *)

Inductive deque_op := PushTail (x : V) | PushHead (x : V) | PopTail | PopHead.

(** The operation of linked_list.c, with what it returns. *)
Definition run_op p (op : deque_op) : L V (option V) :=
  match op with
  | PushTail x => linked_list_push_tail (Some p) x;; mret None
  | PushHead x => linked_list_push_head (Some p) x;; mret None
  | PopTail => x ← linked_list_pop_tail (Some p); mret (Some x)
  | PopHead => x ← linked_list_pop_head (Some p); mret (Some x)
  end.

Fixpoint run_ops p (ops : list deque_op) : L V (list (option V)) :=
  match ops with
  | [] => mret []
  | op :: ops => o ← run_op p op; os ← run_ops p ops; mret (o :: os)
  end.

(** The operation on the abstract queue; [None] where the queue is empty. *)
Definition spec_op (op : deque_op) xs : option (option V * list V) :=
  match op with
  | PushTail x => Some (None, xs ++ [x])
  | PushHead x => Some (None, x :: xs)
  | PopTail => (fun x => (Some x, take (length xs - 1) xs)) <$> list.last xs
  | PopHead => match xs with x :: xs => Some (Some x, xs) | [] => None end
  end.

Fixpoint spec_ops (ops : list deque_op) xs : option (list (option V) * list V) :=
  match ops with
  | [] => Some ([], xs)
  | op :: ops =>
      r ← spec_op op xs;
      rs ← spec_ops ops r.2;
      Some (r.1 :: rs.1, rs.2)
  end.

Lemma pop_empty h p ls :
  represents h p ls [] ->
  linked_list_pop_tail (Some p) h = LAbort /\ linked_list_pop_head (Some p) h = LAbort.
Proof.
  intros [Hl Hs _]. unfold linked_list_pop_tail, linked_list_pop_head.
  split; apply (lwp_then _ _ _ (fun o => o = LAbort)); l_step;
    apply (lwp_then _ _ _ (fun o => o = LAbort)); (eapply lwp_is_empty; [exact Hl|done]).
Qed.

Lemma run_op_step h p ls xs op :
  represents h p ls xs -> Z.of_nat (length xs) + 1 < 2 ^ 63 ->
  match spec_op op xs with
  | Some (o, xs') => exists h' ls', run_op p op h = LOk o h' /\ represents h' p ls' xs' /\
      elsewhere h p ls h' /\ forall l, l ∈ ls' -> l ∈ ls \/ h_nodes h !! l = None
  | None => run_op p op h = LAbort
  end.
Proof.
  intros Hrep Hsize. pose proof (rep_length _ _ _ _ Hrep) as Hlen. destruct op as [x|x| |]; cbn [spec_op].
  - destruct (lwp_run _ _ _ (push_tail_step h p ls xs x Hrep Hsize)) as ([] & h' & Hrun & l & Hl & Hr & He).
    exists h', (ls ++ [l]). unfold run_op, mbind, L_bind. rewrite Hrun. split_and!; try done.
    intros l' [?|Hx%list_elem_of_singleton]%elem_of_app; [by left|right; by subst].
  - destruct (lwp_run _ _ _ (push_head_step h p ls xs x Hrep Hsize)) as ([] & h' & Hrun & l & Hl & Hr & He).
    exists h', (l :: ls). unfold run_op, mbind, L_bind. rewrite Hrun. split_and!; try done.
    intros l' [->|?]%elem_of_cons; auto.
  - destruct (snoc_cases ls xs Hlen) as [[-> ->]|(ls' & t & xs' & x & -> & -> & Hlen')].
    + cbn. unfold run_op, mbind, L_bind. by rewrite (proj1 (pop_empty h p [] Hrep)).
    + rewrite last_snoc. cbn [fmap option_fmap option_map].
      rewrite length_app in *. cbn [length] in *.
      destruct (lwp_run _ _ _ (pop_tail_step h p ls' xs' t x Hrep ltac:(lia))) as (v & h' & Hrun & -> & Hr & He).
      exists h', ls'. unfold run_op, mbind, L_bind. rewrite Hrun.
      rewrite take_app_le, take_ge by lia. split_and!; try done.
      intros l Hl. left. apply elem_of_app. by left.
  - destruct xs as [|x xs], ls as [|t ls]; try done.
    + unfold run_op, mbind, L_bind. by rewrite (proj2 (pop_empty h p [] Hrep)).
    + cbn [length] in *.
      destruct (lwp_run _ _ _ (pop_head_step h p ls xs t x Hrep ltac:(lia))) as (v & h' & Hrun & -> & Hr & He).
      exists h', ls. unfold run_op, mbind, L_bind. rewrite Hrun. split_and!; try done.
      intros l Hl. left. by right.
Qed.

Lemma elsewhere_trans h p ls h' ls' h'' :
  elsewhere h p ls h' -> elsewhere h' p ls' h'' ->
  (forall l, l ∈ ls' -> l ∈ ls \/ h_nodes h !! l = None) -> elsewhere h p ls h''.
Proof.
  intros H1 H2 Hsub. split.
  - intros q Hq. by rewrite (else_lists _ _ _ _ H2), (else_lists _ _ _ _ H1).
  - intros l Hl Ha. pose proof (else_nodes _ _ _ _ H1 l Hl Ha) as Heq.
    rewrite (else_nodes _ _ _ _ H2 l); [done| |by rewrite Heq].
    intros [?|Hn]%Hsub; [done|]. rewrite Hn in Ha. by destruct Ha.
  - by rewrite (else_its _ _ _ _ H2), (else_its _ _ _ _ H1).
Qed.

Lemma spec_op_length op xs o xs' :
  spec_op op xs = Some (o, xs') -> (length xs' <= length xs + 1)%nat.
Proof.
  destruct op; cbn; intros H; simplify_eq; rewrite ?length_app; cbn; try lia.
  - destruct (list.last xs); simplify_eq/=. rewrite length_take. lia.
  - destruct xs; simplify_eq/=. lia.
Qed.

(** C13 Any sequence of pushes and pops at the two ends does what it does to a
    double-ended queue: the contents popped, the contents left, the size and both
    chains of links; it fails an assertion exactly when it pops an empty queue, and
    every other list keeps its nodes. *)
Theorem deque_refinement h p ls xs ops :
  represents h p ls xs -> Z.of_nat (length xs + length ops) < 2 ^ 63 ->
  match spec_ops ops xs with
  | Some (os, xs') => exists h' ls', run_ops p ops h = LOk os h' /\ represents h' p ls' xs' /\
      elsewhere h p ls h'
  | None => run_ops p ops h = LAbort
  end.
Proof.
  revert h ls xs. induction ops as [|op ops IH]; intros h ls xs Hrep Hsize.
  - cbn. exists h, ls. split_and!; try done.
  - cbn [spec_ops run_ops length] in *.
    pose proof (run_op_step h p ls xs op Hrep ltac:(lia)) as Hstep.
    destruct (spec_op op xs) as [[o xs1]|] eqn:Hop; [|by apply bind_abort].
    destruct Hstep as (h1 & ls1 & Hrun & Hrep1 & He & Hsub). cbn [mbind option_bind fst snd].
    apply spec_op_length in Hop. specialize (IH h1 ls1 xs1 Hrep1 ltac:(lia)).
    rewrite (bind_ok _ _ _ _ _ Hrun). destruct (spec_ops ops xs1) as [[os xs']|]; cbn.
    + destruct IH as (h' & ls' & Hrun' & Hrep' & He'). exists h', ls'.
      rewrite (bind_ok _ _ _ _ _ Hrun'). split_and!; try done. by eapply elsewhere_trans.
    + by apply bind_abort.
Qed.

End Contract.
End LinkedListSpec.
