(* ===== verification/LinkedListIter.v ===== *)
(** * Linked lists: iteration, concatenation, removal

    An iteration follows the [next] pointers only, so it also works on the result of a
    concatenation, whose backward links are broken at the seam. *)

From S2P Require Import Prelude LinkedList LinkedListFacts LinkedListSpec.
Import LinkedList LinkedListFacts LinkedListSpec.

Module LinkedListIter.

Section Iteration.
Context {V : Type}.
Implicit Types (h : heap V) (ls : list addr) (xs : list V) (p l it : addr).

(** The iterator [it] is about to deliver [xs], the contents of [ls]. *)
Definition it_at h it ls xs : Prop :=
  exists c q, h_its h !! it = Some c /\ i_list c = q /\ fseg (h_nodes h) ls xs None /\
    if i_consumed c then exists l x pv, i_cursor c = Some l /\
      h_nodes h !! l = Some (mk_node x (first ls None) pv)
    else i_cursor c = first ls None.

(** Only iterators change. *)
Definition undisturbed h h' : Prop := h_nodes h' = h_nodes h /\ h_lists h' = h_lists h.

Lemma undisturbed_trans h1 h2 h3 : undisturbed h1 h2 -> undisturbed h2 h3 -> undisturbed h1 h3.
Proof. intros [H1 H2] [H3 H4]. split; congruence. Qed.

(** [advance] on an iterator that has a cursor. *)
Lemma advance_step h it ls xs :
  it_at h it ls xs -> (exists c, h_its h !! it = Some c /\ is_null (i_cursor c) = false) ->
  lwp (advance (Some it)) h (fun _ h' => undisturbed h h' /\ exists q,
    h_its h' !! it = Some (mk_it false (first ls None) q)).
Proof.
  intros (c & q & Hc & Hq & Hs & Hcur) (c' & Hc' & Hn). simplify_eq. unfold advance.
  l_step. l_step; [exact Hc|]. destruct c as [[] cur lq]; cbn in *.
  - destruct Hcur as (l & x & pv & -> & Hl). l_step. l_step; [exact Hc|].
    l_step. l_step; [exact Hl|]. l_step; [apply lookup_insert_eq|]. cbn.
    split; [done|]. exists lq. by rewrite lookup_insert_eq.
  - split; [done|]. exists lq. by rewrite Hc, Hcur.
Qed.

Lemma has_next_step h it ls xs :
  it_at h it ls xs ->
  lwp (linked_list_it_has_next (Some it)) h (fun b h' =>
    b = (if xs is [] then false else true) /\ it_at h' it ls xs /\ undisturbed h h').
Proof.
  intros Hat. pose proof Hat as (c & q & Hc & Hq & Hs & Hcur). unfold linked_list_it_has_next.
  l_step. l_step. l_step. l_step; [exact Hc|].
  destruct (is_null (i_cursor c)) eqn:Hnull.
  - l_step. destruct c as [[] cur lq]; cbn in *.
    { destruct Hcur as (l & x & pv & -> & _). done. }
    subst cur. destruct ls as [|l ls], xs as [|x xs]; done || (split_and!; done).
  - l_step. eapply lwp_mono; [eapply advance_step; [exact Hat|by exists c]|].
    intros [] h' [[Hn Hl] (q' & Hc')]. l_step. l_step; [exact Hc'|]. l_step. cbn.
    split_and!; try done.
    + destruct ls as [|l ls], xs as [|x xs]; done.
    + exists (mk_it false (first ls None) q'), q'. rewrite Hn. split_and!; done.
Qed.

Lemma next_step h it ls xs :
  it_at h it ls xs ->
  lwp (linked_list_it_next (Some it)) h (fun o h' => undisturbed h h' /\
    match xs with
    | [] => o = None
    | x :: xs' => o = Some x /\ exists l ls', ls = l :: ls' /\ it_at h' it ls' xs'
    end).
Proof.
  intros Hat. pose proof Hat as (c & q & Hc & Hq & Hs & Hcur). unfold linked_list_it_next.
  l_step. l_step. l_step. l_step; [exact Hc|].
  destruct (is_null (i_cursor c)) eqn:Hnull.
  - l_step. destruct c as [[] cur lq]; cbn in *.
    { destruct Hcur as (l & x & pv & -> & _). done. }
    subst cur. destruct ls as [|l ls], xs as [|x xs]; done.
  - l_step. eapply lwp_mono; [eapply advance_step; [exact Hat|by exists c]|].
    intros [] h' [[Hn Hl] (q' & Hc')]. l_step. l_step; [exact Hc'|]. cbn [i_cursor].
    destruct ls as [|l ls], xs as [|x xs]; try done; cbn [first is_null].
    destruct Hs as [[pv Hx] Hs]. l_step. l_step; [exact Hc'|].
    l_step. l_step; [cbn; by rewrite Hn|]. l_step. split; [done|]. split; [done|].
    exists l, ls. split; [done|]. eexists _, q'. cbn.
    split_and!; [apply lookup_insert_eq|done|by rewrite Hn|]. cbn. exists l, x, pv.
    by rewrite Hn.
Qed.

(** The client's loop [while (has_next(it)) { next(it, &content); ... }]. *)
Fixpoint it_collect (fuel : nat) (it : pointer) : L V (list V) :=
  match fuel with
  | O => l_fault Diverges
  | S fuel =>
      more ← linked_list_it_has_next it;
      if more : bool then
        o ← linked_list_it_next it;
        match o with
        | Some x => xs ← it_collect fuel it; mret (x :: xs)
        | None => mret []
        end
      else mret []
  end.

Lemma collect_run fuel h it ls xs :
  it_at h it ls xs -> (length xs < fuel)%nat ->
  lwp (it_collect fuel (Some it)) h (fun ys h' => ys = xs /\ undisturbed h h').
Proof.
  revert h ls xs. induction fuel as [|fuel IH]; intros h ls xs Hat Hf; [lia|].
  cbn [it_collect]. l_step. eapply lwp_mono; [by eapply has_next_step|].
  intros b h1 (-> & Hat1 & Hu1). destruct xs as [|x xs]; [by l_step|]. l_step.
  eapply lwp_mono; [by eapply next_step|]. intros o h2 (Hu2 & -> & l & ls' & -> & Hat2).
  l_step. cbn [length] in Hf. eapply lwp_mono; [eapply (IH h2 ls' xs Hat2); lia|].
  intros ys h3 [-> Hu3]. l_step. split; [done|]. by eauto using undisturbed_trans.
Qed.

Lemma set_list_step h p ls xs it c :
  forward h p ls xs -> h_its h !! it = Some c ->
  lwp (linked_list_it_set_list (Some it) (Some p)) h (fun _ h' =>
    h_its h' !! it = Some (mk_it false (first ls None) (Some p)) /\ it_at h' it ls xs /\
    undisturbed h h').
Proof.
  intros [[t Hl] Hs] Hc. unfold linked_list_it_set_list, linked_list_it_reset.
  l_step. l_step. l_step. l_step; [exact Hc|]. l_step. l_step; [exact Hl|].
  l_step. l_step; [apply lookup_insert_eq|]. l_step. l_step.
  l_step. l_step; [apply lookup_insert_eq|]. l_step. l_step; [apply lookup_insert_eq|]. cbn.
  l_step. l_step; [exact Hl|]. l_step; [apply lookup_insert_eq|]. cbn.
  rewrite lookup_insert_eq. split; [done|]. split; [|done].
  eexists _, _. cbn. rewrite lookup_insert_eq. split_and!; done.
Qed.

(** C25 An iteration over a list whose [next] pointers are in order delivers exactly its
    contents, in order, in one turn per element, and changes neither the list nor its
    nodes. *)
Theorem list_iteration_complete h p ls xs it c :
  forward h p ls xs -> h_its h !! it = Some c ->
  exists h', (linked_list_it_set_list (Some it) (Some p);; it_collect (S (length xs)) (Some it)) h
    = LOk xs h' /\ undisturbed h h'.
Proof.
  intros Hf Hc.
  destruct (lwp_run (linked_list_it_set_list (Some it) (Some p);; it_collect (S (length xs)) (Some it))
    h (fun ys h' => ys = xs /\ undisturbed h h')) as (ys & h' & Hrun & -> & Hu); [|by exists h'].
  l_step. eapply lwp_mono; [by eapply set_list_step|]. intros [] h1 (_ & Hat & Hu).
  eapply lwp_mono; [eapply collect_run; [exact Hat|lia]|]. intros ys h2 [-> Hu2].
  split; [done|]. by eapply undisturbed_trans.
Qed.

Lemma skip_loop_run n h it ls xs :
  it_at h it ls xs ->
  lwp (skip_loop n (Some it)) h (fun left h' => left = (n - length xs)%nat /\ undisturbed h h').
Proof.
  revert h ls xs. induction n as [|n IH]; intros h ls xs Hat; [by cbn [skip_loop]; l_step|].
  cbn [skip_loop]. l_step. eapply lwp_mono; [by eapply has_next_step|].
  intros b h1 (-> & Hat1 & Hu1). destruct xs as [|x xs]; [by l_step|]. l_step.
  eapply lwp_mono; [by eapply next_step|]. intros o h2 (Hu2 & -> & l & ls' & -> & Hat2).
  eapply lwp_mono; [by eapply IH|]. intros left h3 [-> Hu3].
  split; [done|]. by eauto using undisturbed_trans.
Qed.

(** [linked_list_it_skip] by [n] elements succeeds when the list has that many. *)
Lemma list_skip h it ls xs n :
  it_at h it ls xs ->
  lwp (linked_list_it_skip (Some it) n) h (fun b h' =>
    b = (0 <=? n) && (n <=? Z.of_nat (length xs)) /\ undisturbed h h').
Proof.
  intros Hat. unfold linked_list_it_skip. destruct (Z.ltb_spec 0 n) as [Hn|Hn].
  - l_step. eapply lwp_mono; [by eapply skip_loop_run|]. intros left h' [-> Hu]. l_step.
    split; [|done]. destruct (Z.leb_spec 0 n); [|lia]. destruct (Z.leb_spec n (Z.of_nat (length xs)));
      [apply Nat.eqb_eq|apply Nat.eqb_neq]; lia.
  - l_step. split; [|done].
    destruct (Z.eqb_spec n 0), (Z.leb_spec 0 n), (Z.leb_spec n (Z.of_nat (length xs))); done || lia.
Qed.
(** ** Concatenation *)

Lemma forward_final ls1 ls2 : first ls2 None <> None -> final None (ls1 ++ ls2) = final None ls2.
Proof.
  destruct ls2 as [|l ls2 _] using rev_ind; [done|]. intros _. by rewrite app_assoc, !final_app.
Qed.

(** The list at [p] as far as its tail is concerned: its last nodes are [lb], and no
    [prev] pointer leads from them to the [k] nodes in front. *)
Record seamed (k : Z) h p lb xb : Prop := {
  seam_list : exists hd, h_lists h !! p =
    Some (mk_list (k + Z.of_nat (length xb)) hd (final None lb));
  seam_seg : seg (h_nodes h) None lb xb None;
  seam_nodup : NoDup lb
}.

Lemma concat_step h a b la xa lb xb :
  represents h a la xa -> represents h b lb xb -> la ## lb -> a <> b -> xa <> [] -> xb <> [] ->
  Z.of_nat (length xa + length xb) < 2 ^ 63 ->
  lwp (linked_list_concat (Some a) (Some b)) h (fun _ h' =>
    forward h' a (la ++ lb) (xa ++ xb) /\ seamed (Z.of_nat (length xa)) h' a lb xb /\
    represents h' b lb xb).
Proof.
  intros Ha Hb Hd Hab Hxa Hxb Hsize. pose proof (rep_length _ _ _ _ Ha) as Hla.
  pose proof (rep_length _ _ _ _ Hb) as Hlb. pose proof Ha as [Hal Has Han].
  pose proof Hb as [Hbl Hbs Hbn].
  destruct (snoc_cases la xa Hla) as [[_ ->]|(la' & t & xa' & x & -> & -> & Hla')]; [done|].
  apply seg_snoc in Has as [Has Ht]; [|done]. rewrite final_app in Hal. rewrite length_app in Hal.
  unfold linked_list_concat. l_step. l_step. l_step. l_step; [exact Hal|]. cbn [l_size].
  rewrite (proj2 (Z.eqb_neq _ 0)) by (cbn; lia). l_step. l_step; [exact Hbl|]. cbn [l_size].
  rewrite (proj2 (Z.eqb_neq (Z.of_nat (length xb)) 0)) by (destruct xb; [done|cbn; lia]).
  cbn [negb]. l_step. l_step; [exact Hal|]. l_step. l_step; [exact Hbl|]. cbn [l_tail l_head].
  l_step. l_step; [exact Ht|]. rewrite length_app in Hsize. cbn [length] in Hsize, Hal.
  l_step. l_step; [exact Hal|cbn; lia|]. l_step; [apply lookup_insert_eq|]. cbn.
  assert (Htb : t ∉ lb) by (intros Hin; apply (Hd t); [apply elem_of_app; right; left|done]).
  apply list.NoDup_app in Han as (Han & Hdis & _).
  assert (Hta : t ∉ la') by (intros Hin; by apply (Hdis t), list_elem_of_singleton).
  split_and!.
  - split; cbn.
    + rewrite lookup_insert_eq. eexists. apply list_fields; cbn; [rewrite !length_app; cbn; lia| |done].
      by rewrite !first_app.
    + rewrite <- !app_assoc. apply fseg_app.
      * eapply seg_fseg. by apply seg_write_last; [|exact Has].
      * cbn [app fseg first]. split; [eexists; by rewrite lookup_insert_eq|].
        eapply (seg_fseg _ None lb). by apply seg_write_last.
  - split; cbn; [|by apply seg_write_last|done].
    rewrite lookup_insert_eq. eexists. apply list_fields; cbn; [rewrite !length_app; cbn; lia|done|done].
  - split; cbn; [|by apply seg_write_last|done]. by rewrite !lookup_insert_ne.
Qed.

Lemma seam_pop k h p ls xs t x :
  seamed k h p (ls ++ [t]) (xs ++ [x]) -> 0 < k -> k + Z.of_nat (length xs) + 1 < 2 ^ 63 ->
  length ls = length xs ->
  lwp (linked_list_pop_tail (Some p)) h (fun v h' => seamed k h' p ls xs).
Proof.
  intros [[hd Hlist] Hseg Hnd] Hk Hsize Hlen. apply seg_snoc in Hseg as [Hseg Ht]; [|done].
  rewrite final_app, length_app in Hlist. apply list.NoDup_app in Hnd as (Hnd & Hdis & _).
  assert (Hnt : t ∉ ls) by (intros Hin; by apply (Hdis t), list_elem_of_singleton).
  unfold linked_list_pop_tail. l_step. l_step. l_step. l_step; [exact Hlist|]. cbn [l_size].
  rewrite (proj2 (Z.eqb_neq _ 0)) by (cbn; lia). l_step. l_step. l_step. l_step; [exact Hlist|].
  cbn [l_tail]. l_step. l_step; [exact Ht|]. cbv zeta. cbn [n_prev n_content].
  l_step. l_step; [exact Ht|]. l_step.
  set (w := with_nodes (delete t (h_nodes h)) h).
  assert (Hnext : lwp (if is_null (final None ls) then mret tt
      else assign h_nodes with_nodes (final None ls) (set_next None)) w (fun _ h' =>
    h_lists h' = h_lists h /\ seg (h_nodes h') None ls xs None)).
  { destruct (snoc_cases ls xs Hlen) as [[-> ->]|(ls' & u & xs' & y & -> & -> & Hlen')]; [done|].
    rewrite final_app. cbn [is_null]. apply seg_snoc in Hseg as [Hseg Hu]; [|done].
    rewrite elem_of_app, list_elem_of_singleton in Hnt.
    apply list.NoDup_app in Hnd as (_ & Hdis' & _).
    assert (Hnu : u ∉ ls') by (intros Hin; by apply (Hdis' u), list_elem_of_singleton).
    l_step; [cbn; rewrite lookup_delete_ne; [exact Hu|intros ->; tauto]|]. split; [done|].
    apply seg_snoc; [done|]. split; [|apply lookup_insert_eq].
    apply seg_write_last; [done|]. apply seg_delete; [tauto|done]. }
  eapply lwp_mono; [exact Hnext|]. intros [] h1 [Hl1 Hs1]. rewrite <- Hl1 in Hlist.
  l_step. l_step; [exact Hlist|]. l_step. l_step; [apply lookup_insert_eq|cbn; lia|].
  l_step. l_step; [apply lookup_insert_eq|]. cbn [l_size set_size set_tail].
  rewrite (proj2 (Z.eqb_neq _ 0)) by (cbn; lia). l_step. l_step. l_step.
  split; cbn; [|done|done]. rewrite lookup_insert_eq. eexists. apply list_fields; cbn; [lia|done|done].
Qed.

Lemma seam_breaks k h p ls xs :
  seamed k h p ls xs -> 0 < k -> k + Z.of_nat (length xs) < 2 ^ 63 ->
  run_ops p (replicate (S (length xs)) PopTail) h = LFault NullDeref.
Proof.
  intros Hs Hk. pose proof (seg_length _ _ _ _ _ (seam_seg _ _ _ _ _ Hs)) as Hlen.
  remember (length xs) as n eqn:Hn. revert h ls xs Hs Hlen Hn.
  induction n as [|n IH]; intros h ls xs Hs Hlen Hn Hsize;
    change (replicate (S ?n) PopTail) with (@PopTail V :: replicate n PopTail);
    destruct (snoc_cases ls xs) as [[-> ->]|(ls' & t & xs' & x & -> & -> & Hlen')];
    rewrite ?length_app in *; cbn [length] in *; try lia.
  - apply bind_fault, bind_fault. destruct Hs as [[hd Hl] _ _]. unfold linked_list_pop_tail.
    apply (lwp_then _ _ _ (fun o => o = LFault NullDeref)). l_step.
    apply (lwp_then _ _ _ (fun o => o = LFault NullDeref)). l_step; [exact Hl|]. cbn [l_size].
    rewrite (proj2 (Z.eqb_neq _ 0)) by (cbn; lia).
    apply (lwp_then _ _ _ (fun o => o = LFault NullDeref)). l_step.
    apply (lwp_then _ _ _ (fun o => o = LFault NullDeref)). l_step; [exact Hl|]. done.
  - destruct (lwp_run _ _ _ (seam_pop k h p ls' xs' t x Hs Hk ltac:(lia) Hlen')) as (v & h' & Hrun & Hs').
    cbn [run_ops run_op]. rewrite (bind_ok _ _ _ (Some v) h') by (by rewrite (bind_ok _ _ _ _ _ Hrun)).
    apply bind_fault. apply (IH h' ls' xs' Hs'); lia.
Qed.

(** [linked_list_concat] of two non-empty lists with different nodes appends them as far
    as the [next] pointers and the size go, so an iteration delivers the contents of
    both; but it does not link the seam backwards: popping the elements of the second
    list and one more from the tail dereferences a null pointer. *)
Theorem concat_breaks_pop h a b la xa lb xb :
  represents h a la xa -> represents h b lb xb -> la ## lb -> a <> b -> xa <> [] -> xb <> [] ->
  Z.of_nat (length xa + length xb) < 2 ^ 63 ->
  exists h', linked_list_concat (Some a) (Some b) h = LOk tt h' /\
    forward h' a (la ++ lb) (xa ++ xb) /\
    run_ops a (replicate (S (length xb)) PopTail) h' = LFault NullDeref.
Proof.
  intros Ha Hb Hd Hab Hxa Hxb Hsize.
  destruct (lwp_run _ _ _ (concat_step h a b la xa lb xb Ha Hb Hd Hab Hxa Hxb Hsize))
    as ([] & h' & Hrun & Hf & Hs & _).
  exists h'. split_and!; [done|done|]. eapply (seam_breaks _ _ _ _ _ Hs); [|lia].
  destruct xa; [done|cbn; lia].
Qed.

(** ** Removal *)

(** [linked_list_it_remove] at the start of an iteration unlinks and frees the first
    node, but the size stays what it was, the node that is now first keeps a [prev]
    pointer to the freed one, and the iteration ends there. *)
Theorem it_remove_keeps_size h p ls xs l x it c :
  represents h p (l :: ls) (x :: xs) -> h_its h !! it = Some c -> i_list c = Some p ->
  i_consumed c = false -> i_cursor c = Some l ->
  exists h', linked_list_it_remove (Some it) h = LOk true h' /\
    h_nodes h' !! l = None /\
    (exists a, h_lists h' !! p = Some a /\ l_size a = Z.of_nat (length (x :: xs)) /\
       l_head a = first ls None) /\
    seg (h_nodes h') (Some l) ls xs None /\
    linked_list_it_has_next (Some it) h' = LOk false h'.
Proof.
  intros [Hlist [Hl Hseg] [Hnl Hnd]%list.NoDup_cons] Hc Hq Hcons Hcur.
  destruct c as [cons cur q]. cbn in Hq, Hcons, Hcur. subst.
  set (P := fun (b : bool) h' => b = true /\ h_nodes h' !! l = None /\
    (exists a, h_lists h' !! p = Some a /\ l_size a = Z.of_nat (length (x :: xs)) /\
       l_head a = first ls None) /\
    seg (h_nodes h') (Some l) ls xs None /\ linked_list_it_has_next (Some it) h' = LOk false h').
  destruct (lwp_run (linked_list_it_remove (Some it)) h P) as (b & h' & Hrun & -> & H); [|by exists h'].
  unfold linked_list_it_remove. l_step. l_step. l_step. l_step; [exact Hc|]. cbn [i_cursor is_null].
  l_step. unfold advance. l_step. l_step; [exact Hc|]. cbn [i_consumed]. l_step.
  l_step. l_step; [exact Hc|]. cbn [i_cursor is_null]. l_step. l_step; [exact Hl|].
  cbn [n_prev is_null i_list]. l_step. l_step; [exact Hlist|]. l_step. l_step; [exact Hl|].
  cbn [n_next n_prev]. l_step.
  set (h1 := with_lists _ h).
  assert (Hend : lwp (if is_null (first ls None) then assign h_lists with_lists (Some p) (set_tail None) else mret tt) h1
    (fun _ h2 => h_nodes h2 = h_nodes h /\ h_its h2 = h_its h /\ exists a, h_lists h2 !! p = Some a /\
       l_size a = Z.of_nat (length (x :: xs)) /\ l_head a = first ls None)).
  { destruct (is_null (first ls None)).
    - l_step; [apply lookup_insert_eq|]. split_and!; try done. eexists. cbn.
      split; [apply lookup_insert_eq|done].
    - l_step. split_and!; try done. eexists. cbn. split; [apply lookup_insert_eq|done]. }
  eapply lwp_mono; [exact Hend|]. intros [] h2 (Hn2 & Hi2 & a & Ha & Hs & Hh).
  cbv zeta. l_step. l_step; [by rewrite Hn2|]. l_step. l_step; [cbn; by rewrite Hi2|].
  l_step. l_step; [apply lookup_insert_eq|]. l_step. subst P. cbn. rewrite Hn2. split_and!; try done.
  - apply lookup_delete_eq.
  - by exists a.
  - by apply seg_delete.
  - unfold linked_list_it_has_next. apply (lwp_then _ _ _ (fun o => o = LOk false _)). l_step.
    apply (lwp_then _ _ _ (fun o => o = LOk false _)). l_step; [apply lookup_insert_eq|]. done.
Qed.

End Iteration.

(** ** Witnesses: the lists 10, 20 and 30, and an iterator at the start of the first *)

Definition two_lists : heap Z :=
  mk_heap (<[1%positive := mk_node 10 (Some 2%positive) None]>
          (<[2%positive := mk_node 20 None (Some 1%positive)]>
          {[3%positive := mk_node 30 None None]}))
    (<[1%positive := mk_list 2 (Some 1%positive) (Some 2%positive)]>
          {[2%positive := mk_list 1 (Some 3%positive) (Some 3%positive)]})
    {[1%positive := mk_it false (Some 1%positive) (Some 1%positive)]} None.

Lemma first_list : represents two_lists 1 [1%positive; 2%positive] [10; 20].
Proof. split; [done|done|]. by apply (bool_decide_unpack _). Qed.
Lemma second_list : represents two_lists 2 [3%positive] [30].
Proof. split; [done|done|apply NoDup_singleton]. Qed.

Lemma deque_refinement_witness :
  exists h' ls', run_ops 1 [PushTail 5; PopHead; PushHead 7; PopTail; PopTail] two_lists =
      LOk [None; Some 10; None; Some 5; Some 20] h' /\
    represents h' 1 ls' [7] /\ elsewhere two_lists 1 [1%positive; 2%positive] h'.
Proof.
  apply (deque_refinement two_lists 1 [1%positive; 2%positive] [10; 20]
    [PushTail 5; PopHead; PushHead 7; PopTail; PopTail] first_list).
  cbn. lia.
Defined.

Lemma list_iteration_complete_witness :
  exists h', (linked_list_it_set_list (Some 1%positive) (Some 1%positive);;
      it_collect 3 (Some 1%positive)) two_lists = LOk [10; 20] h' /\ undisturbed two_lists h'.
Proof.
  apply (list_iteration_complete two_lists 1 [1%positive; 2%positive] [10; 20] 1
    (mk_it false (Some 1%positive) (Some 1%positive)) (represents_forward _ _ _ _ first_list)).
  reflexivity.
Defined.

Lemma concat_breaks_pop_witness :
  exists h', linked_list_concat (Some 1%positive) (Some 2%positive) two_lists = LOk tt h' /\
    forward h' 1 [1%positive; 2%positive; 3%positive] [10; 20; 30] /\
    run_ops 1 [PopTail; PopTail] h' = LFault NullDeref.
Proof.
  apply (concat_breaks_pop two_lists 1 2 [1%positive; 2%positive] [10; 20] [3%positive] [30]
    first_list second_list); try done.
  intros l Hl ->%list_elem_of_singleton. by rewrite !elem_of_cons, elem_of_nil in Hl; destruct Hl as [|[|]].
Defined.

Lemma it_remove_keeps_size_witness :
  exists h', linked_list_it_remove (Some 1%positive) two_lists = LOk true h' /\
    h_nodes h' !! 1%positive = None /\
    exists a, h_lists h' !! 1%positive = Some a /\ l_size a = 2 /\ l_head a = Some 2%positive.
Proof.
  destruct (it_remove_keeps_size two_lists 1 [2%positive] [20] 1%positive 10 1%positive
    (mk_it false (Some 1%positive) (Some 1%positive)) first_list eq_refl eq_refl eq_refl eq_refl)
    as (h' & Hrun & Hn & Ha & _).
  by exists h'.
Defined.

End LinkedListIter.
