(* ===== verification/Format.v ===== *)
(** * Formatted output (src/src/utils/log.c)

    The conversions of [printf] that the program uses, [%u], [%lu] and [%x], and
    the two printers of log.c.  Output is a string; the printers return what they
    append to the stream. *)

From Stdlib Require Import Ascii.
From S2P Require Import Prelude Words.
#[local] Open Scope string_scope.
#[local] Open Scope Z_scope.

Module Format.

(** The bytes of a C string literal, without its terminator. *)
Definition chars (s : string) : list Z :=
  (fun c => Z.of_nat (Ascii.nat_of_ascii c)) <$> String.list_ascii_of_string s.

Definition digit (d : Z) : ascii :=
  match d with
  | 0 => "0" | 1 => "1" | 2 => "2" | 3 => "3" | 4 => "4" | 5 => "5" | 6 => "6"
  | 7 => "7" | 8 => "8" | 9 => "9" | 10 => "a" | 11 => "b" | 12 => "c" | 13 => "d"
  | 14 => "e" | _ => "f"
  end%char.

(** The digits of [z] in front of [acc]; 20 digits hold any 64-bit integer. *)
Fixpoint print_digits (fuel : nat) (base z : Z) (acc : string) : string :=
  match fuel with
  | O => acc
  | S fuel =>
      let acc := String (digit (z mod base)) acc in
      if z / base =? 0 then acc else print_digits fuel base (z / base) acc
  end.

Definition fmt_u (z : Z) : string := print_digits 20 10 z "".
Definition fmt_x (z : Z) : string := print_digits 20 16 z "".

(** [%u] of a value promoted to [int], when it is known not to be negative, and
    [%lu] of an [unsigned long] difference, which wraps. *)
Definition fmt_lu (z : Z) : string := fmt_u (u64 z).

Definition mac_fprint (mac : list Z) : string :=
  match mac with
  | [m0; m1; m2; m3; m4; m5] =>
      fmt_x m0 +:+ ":" +:+ fmt_x m1 +:+ ":" +:+ fmt_x m2 +:+ ":" +:+
      fmt_x m3 +:+ ":" +:+ fmt_x m4 +:+ ":" +:+ fmt_x m5
  | _ => ""
  end.

Definition ipv4_fprint (ip : Z) : string :=
  fmt_u (Z.land (Z.shiftr ip 24) 255) +:+ "." +:+
  fmt_u (Z.land (Z.shiftr ip 16) 255) +:+ "." +:+
  fmt_u (Z.land (Z.shiftr ip 8) 255) +:+ "." +:+
  fmt_u (Z.land (Z.shiftr ip 0) 255).

(** Dotted notation of four bytes in the order given. *)
Definition dotted (bs : list Z) : string :=
  match bs with
  | [a; b; c; d] => fmt_u a +:+ "." +:+ fmt_u b +:+ "." +:+ fmt_u c +:+ "." +:+ fmt_u d
  | _ => ""
  end.

Lemma shiftr_byte z k : 0 <= k -> Z.land (Z.shiftr z k) 255 = (z / 2 ^ k) mod 256.
Proof.
  intros Hk. change 255 with (2 ^ 8 - 1). by rewrite land_mask, Z.shiftr_div_pow2 by lia.
Qed.

(** An address in host byte order prints as its bytes, most significant first. *)
Lemma ipv4_fprint_be ip : ipv4_fprint ip = dotted (be_store 4 ip).
Proof.
  unfold ipv4_fprint, be_store, dotted. rewrite !shiftr_byte by lia.
  change (reverse (le_store 4 ip)) with
    [((ip / 256) / 256) / 256 mod 256; (ip / 256) / 256 mod 256; ip / 256 mod 256; ip mod 256].
  rewrite !Z.div_div by lia. cbn [Z.mul]. by rewrite Z.div_1_r.
Qed.

(** [ipv4_fprint] expects an address in host byte order: given the word that sits
    in a packet or in [net_interface_get_ip], it prints the four bytes of the
    address backwards.  The debug output of arp.c passes it such words. *)
Theorem ipv4_fprint_of_network_word a b c d :
  is_byte a -> is_byte b -> is_byte c -> is_byte d ->
  ipv4_fprint (le_load [a; b; c; d]) = dotted [d; c; b; a] /\
  ipv4_fprint (ntohl (le_load [a; b; c; d])) = dotted [a; b; c; d].
Proof.
  intros Ha Hb Hc Hd. rewrite !ipv4_fprint_be. unfold ntohl.
  rewrite be_store_bswap.
  assert (Hl : le_store 4 (le_load [a; b; c; d]) = [a; b; c; d])
    by (apply le_store_load_n; [bytes|done]).
  unfold be_store. by rewrite Hl.
Qed.

Lemma ipv4_fprint_of_network_word_witness :
  ipv4_fprint (le_load [10; 0; 0; 4]) = "4.0.0.10" /\
  ipv4_fprint (ntohl (le_load [10; 0; 0; 4])) = "10.0.0.4".
Proof. apply (ipv4_fprint_of_network_word 10 0 0 4); unfold is_byte; lia. Defined.

End Format.
