(* ===== verification/World.v ===== *)
(** * The state of the process and the monad of its operations

    [world] is everything the program's functions read and write: the memory, the
    static variables of tun_device.c, net_interface.c and arp.c, the mutexes, and
    the traffic with the kernel and the two output streams.

    Memory is a finite map from blocks to their bytes; a pointer is a block with
    an offset, and every access is checked against the bounds of its block, so the
    C structures overlaid on a packet buffer are read and written where the
    program does it.  Structure fields are the [loadN]/[storeN] at their offsets. *)

From S2P Require Import Prelude Words HashMap.
Import HashMap.

Module World.

Abbreviation loc := positive.

Record ptr := Ptr { p_blk : loc; p_off : Z }.
#[export] Instance ptr_eq_dec : EqDecision ptr.
Proof. solve_decision. Defined.

Definition ptr_add (p : ptr) (n : Z) : ptr := Ptr (p_blk p) (p_off p + n).

(** A [void*]: [None] is [NULL]. *)
Abbreviation vptr := (option ptr).
#[export] Instance vptr_null : NullPtr vptr := None.

Inductive mutex := mut_buffer | mut_status | cache_mutex.
#[export] Instance mutex_eq_dec : EqDecision mutex.
Proof. solve_decision. Defined.

(** What the kernel answers to a [read]: a frame, or -1 with the text of [errno]. *)
Inductive rx_event :=
| RxFrame (bs : list Z)
| RxError (msg : string).

(** The static pointer [arp_cache] of arp.c, with the map it points to. *)
Inductive cache_ptr :=
| CacheNull
| CacheMap (map : hashmap vptr vptr)
| CacheFreed.

Record world := mk_world {
  w_mem : gmap loc (list Z);
  w_junk : Z;                        (* the value of uninitialised bytes *)
  w_held : list mutex;
  w_fds : list Z;                    (* tun_device.c: tun_fds *)
  w_busy : list bool;                (* tun_device.c: busy_status *)
  w_ip : Z;                          (* net_interface.c: ip *)
  w_buffers : list vptr;             (* net_interface.c: buffers *)
  w_sizes : list Z;                  (* net_interface.c: buffers_size *)
  w_cache : cache_ptr;               (* arp.c: arp_cache *)
  w_errno : string;                  (* strerror(errno) *)
  w_rx : list rx_event;              (* frames the kernel will deliver *)
  w_tx : list (Z * list Z);          (* frames written, by queue *)
  w_stdout : string;
  w_stderr : string
}.

(** The static arrays [mac] and [BROADCAST] of net_interface.c. *)
Definition mac_loc : loc := 1.
Definition broadcast_loc : loc := 2.

Definition set_mem m w := mk_world m (w_junk w) (w_held w) (w_fds w) (w_busy w) (w_ip w)
  (w_buffers w) (w_sizes w) (w_cache w) (w_errno w) (w_rx w) (w_tx w) (w_stdout w) (w_stderr w).
Definition set_held h w := mk_world (w_mem w) (w_junk w) h (w_fds w) (w_busy w) (w_ip w)
  (w_buffers w) (w_sizes w) (w_cache w) (w_errno w) (w_rx w) (w_tx w) (w_stdout w) (w_stderr w).
Definition set_fds f w := mk_world (w_mem w) (w_junk w) (w_held w) f (w_busy w) (w_ip w)
  (w_buffers w) (w_sizes w) (w_cache w) (w_errno w) (w_rx w) (w_tx w) (w_stdout w) (w_stderr w).
Definition set_busy_status b w := mk_world (w_mem w) (w_junk w) (w_held w) (w_fds w) b (w_ip w)
  (w_buffers w) (w_sizes w) (w_cache w) (w_errno w) (w_rx w) (w_tx w) (w_stdout w) (w_stderr w).
Definition set_ip i w := mk_world (w_mem w) (w_junk w) (w_held w) (w_fds w) (w_busy w) i
  (w_buffers w) (w_sizes w) (w_cache w) (w_errno w) (w_rx w) (w_tx w) (w_stdout w) (w_stderr w).
Definition set_buffers b s w := mk_world (w_mem w) (w_junk w) (w_held w) (w_fds w) (w_busy w) (w_ip w)
  b s (w_cache w) (w_errno w) (w_rx w) (w_tx w) (w_stdout w) (w_stderr w).
Definition set_cache c w := mk_world (w_mem w) (w_junk w) (w_held w) (w_fds w) (w_busy w) (w_ip w)
  (w_buffers w) (w_sizes w) c (w_errno w) (w_rx w) (w_tx w) (w_stdout w) (w_stderr w).
Definition set_rx e r w := mk_world (w_mem w) (w_junk w) (w_held w) (w_fds w) (w_busy w) (w_ip w)
  (w_buffers w) (w_sizes w) (w_cache w) e r (w_tx w) (w_stdout w) (w_stderr w).
Definition set_tx t w := mk_world (w_mem w) (w_junk w) (w_held w) (w_fds w) (w_busy w) (w_ip w)
  (w_buffers w) (w_sizes w) (w_cache w) (w_errno w) (w_rx w) t (w_stdout w) (w_stderr w).
Definition set_out o e w := mk_world (w_mem w) (w_junk w) (w_held w) (w_fds w) (w_busy w) (w_ip w)
  (w_buffers w) (w_sizes w) (w_cache w) (w_errno w) (w_rx w) (w_tx w) o e.

(** ** Outcomes *)

(** A call returns, ends the process ([exit], [abort]), blocks for ever on a mutex
    or on a read that no frame answers, or is undefined. *)
Inductive outcome (A : Type) :=
| Ok (a : A) (w : world)
| Exited (code : Z) (w : world)
| Aborted (w : world)
| Blocked (w : world)
| Undefined (f : fault).
Arguments Ok {A} a w.
Arguments Exited {A} code w.
Arguments Aborted {A} w.
Arguments Blocked {A} w.
Arguments Undefined {A} f.

Definition M (A : Type) : Type := world -> outcome A.

#[export] Instance M_ret : MRet M := fun A a w => Ok a w.
#[export] Instance M_bind : MBind M := fun A B k m w =>
  match m w with
  | Ok a w => k a w
  | Exited c w => Exited c w
  | Aborted w => Aborted w
  | Blocked w => Blocked w
  | Undefined f => Undefined f
  end.

Definition get {A} (f : world -> A) : M A := fun w => Ok (f w) w.
Definition modify (f : world -> world) : M unit := fun w => Ok tt (f w).
Definition undefined {A} (f : fault) : M A := fun w => Undefined f.
Definition exit_ {A} (code : Z) : M A := fun w => Exited code w.
Definition abort_ {A} : M A := fun w => Aborted w.
Definition blocked {A} : M A := fun w => Blocked w.
(** [assert] of the C library. *)
Definition assert_ (b : bool) : M unit := if b then mret tt else abort_.
Definition lift {A} (r : res A) : M A := fun w =>
  match r with Val a => Ok a w | Fault f => Undefined f end.

(** ** Memory *)

Definition load_bytes (p : ptr) (n : Z) : M (list Z) := fun w =>
  match w_mem w !! p_blk p with
  | None => Undefined Dangling
  | Some b =>
      if (0 <=? p_off p) && (0 <=? n) && (p_off p + n <=? Z.of_nat (length b))
      then Ok (slice (Z.to_nat (p_off p)) (Z.to_nat n) b) w
      else Undefined OutOfBounds
  end.

Definition store_bytes (p : ptr) (bs : list Z) : M unit := fun w =>
  match w_mem w !! p_blk p with
  | None => Undefined Dangling
  | Some b =>
      if (0 <=? p_off p) && (p_off p + Z.of_nat (length bs) <=? Z.of_nat (length b))
      then Ok tt (set_mem (<[p_blk p := splice (Z.to_nat (p_off p)) bs b]> (w_mem w)) w)
      else Undefined OutOfBounds
  end.

Definition load8 (p : ptr) : M Z := bs ← load_bytes p 1; mret (le_load bs).
Definition load16 (p : ptr) : M Z := bs ← load_bytes p 2; mret (le_load bs).
Definition load32 (p : ptr) : M Z := bs ← load_bytes p 4; mret (le_load bs).
Definition store8 (p : ptr) (v : Z) : M unit := store_bytes p (le_store 1 v).
Definition store16 (p : ptr) (v : Z) : M unit := store_bytes p (le_store 2 v).
Definition store32 (p : ptr) (v : Z) : M unit := store_bytes p (le_store 4 v).
Definition store64 (p : ptr) (v : Z) : M unit := store_bytes p (le_store 8 v).

Definition memcpy (dst src : ptr) (n : Z) : M unit :=
  bs ← load_bytes src n; store_bytes dst bs.

(** Dereferencing a [void*]. *)
Definition deref (p : vptr) : M ptr :=
  match p with Some p => mret p | None => undefined NullDeref end.

Definition alloc_block (bs : list Z) : M ptr := fun w =>
  let l := fresh (dom (w_mem w)) in
  Ok (Ptr l 0) (set_mem (<[l := bs]> (w_mem w)) w).

Definition calloc (n : Z) : M ptr := alloc_block (replicate (Z.to_nat n) 0).

Definition free_ (p : vptr) : M unit := fun w =>
  match p with
  | None => Ok tt w
  | Some p =>
      match w_mem w !! p_blk p with
      | None => Undefined BadFree
      | Some _ =>
          if p_off p =? 0 then Ok tt (set_mem (delete (p_blk p) (w_mem w)) w)
          else Undefined BadFree
      end
  end.

(** The bytes that [realloc] adds have no defined value. *)
Definition realloc (p : ptr) (n : Z) : M ptr := fun w =>
  match w_mem w !! p_blk p with
  | None => Undefined BadFree
  | Some b =>
      if p_off p =? 0 then
        let b' := take (Z.to_nat n) b ++ replicate (Z.to_nat n - length b) (w_junk w) in
        let m := delete (p_blk p) (w_mem w) in
        let l := fresh (dom (w_mem w)) in
        Ok (Ptr l 0) (set_mem (<[l := b']> m) w)
      else Undefined BadFree
  end.

(** A local variable whose address is taken: a block that lives during the call. *)
Definition with_local {A} (bs : list Z) (body : ptr -> M A) : M A := fun w =>
  let l := fresh (dom (w_mem w)) in
  match body (Ptr l 0) (set_mem (<[l := bs]> (w_mem w)) w) with
  | Ok a w => Ok a (set_mem (delete l (w_mem w)) w)
  | o => o
  end.

(** ** Mutexes and output *)

Definition mutex_lock (m : mutex) : M unit := fun w =>
  if decide (m ∈ w_held w) then Blocked w else Ok tt (set_held (m :: w_held w) w).

Definition mutex_unlock (m : mutex) : M unit :=
  modify (fun w => set_held (filter (fun m' => m' <> m) (w_held w)) w).

Definition printf (s : string) : M unit :=
  modify (fun w => set_out (w_stdout w +:+ s) (w_stderr w) w).
Definition eprintf (s : string) : M unit :=
  modify (fun w => set_out (w_stdout w) (w_stderr w +:+ s) w).

(** The macros of log.h. *)
Definition INFO (s : string) : M unit := printf "[INFO] ";; printf s.
Definition ERROR (s : string) : M unit := eprintf "[ERROR] ";; eprintf s.
Definition LOG_DEBUG (debug : bool) (s : string) : M unit :=
  if debug then printf "[DEBUG] ";; printf s else mret tt.
Definition debug_only (debug : bool) (m : M unit) : M unit :=
  if debug then m else mret tt.

End World.
