(* ===== verification/Wp.v ===== *)
(** * Reasoning about the process monad

    [wp m w Q]: from [w] the call [m] returns (it does not exit, abort, block or
    go wrong), and [Q] holds of its result and of the state it leaves.  One rule
    per primitive of World.v; the tactic [wp_step] applies the one that fits. *)

From S2P Require Import Prelude Words HashMap World.
Import World.

Module Wp.

Definition wp {A} (m : M A) (w : world) (Q : A -> world -> Prop) : Prop :=
  match m w with Ok a w' => Q a w' | _ => False end.

Implicit Types (w : world) (p : ptr) (bs b : list Z).

Lemma wp_run {A} (m : M A) w (Q : A -> world -> Prop) :
  wp m w Q -> exists a w', m w = Ok a w' /\ Q a w'.
Proof. unfold wp. destruct (m w); try done. eauto. Qed.

(** Equations of the monad. *)
Lemma M_bind_assoc {A B C} (m : M A) (f : A -> M B) (g : B -> M C) w :
  ((m ≫= f) ≫= g) w = (m ≫= (fun a => f a ≫= g)) w.
Proof. unfold mbind, M_bind. by destruct (m w). Qed.

Lemma M_bind_ext {A B} (m : M A) (f g : A -> M B) w :
  (forall a w', f a w' = g a w') -> (m ≫= f) w = (m ≫= g) w.
Proof. intros Hfg. unfold mbind, M_bind. by destruct (m w). Qed.

Lemma M_bind_run {A B} (m : M A) (k : A -> M B) w a w' :
  m w = Ok a w' -> (m ≫= k) w = k a w'.
Proof. intros Hm. unfold mbind, M_bind. by rewrite Hm. Qed.

Lemma wp_ret {A} (a : A) w (Q : A -> world -> Prop) : Q a w -> wp (mret a) w Q.
Proof. done. Qed.

Lemma wp_bind {A B} (m : M A) (k : A -> M B) w (Q : B -> world -> Prop) :
  wp m w (fun a w' => wp (k a) w' Q) -> wp (m ≫= k) w Q.
Proof. unfold wp, mbind, M_bind. destruct (m w); done. Qed.

(** Run a prefix that returns, whatever becomes of the rest. *)
Lemma wp_then {A B} (m : M A) (k : A -> M B) w (P : outcome B -> Prop) :
  wp m w (fun a w' => P (k a w')) -> P ((m ≫= k) w).
Proof. unfold wp, mbind, M_bind. destruct (m w); done. Qed.

Lemma wp_mono {A} (m : M A) w (Q Q' : A -> world -> Prop) :
  wp m w Q -> (forall a w', Q a w' -> Q' a w') -> wp m w Q'.
Proof. unfold wp. destruct (m w); auto. Qed.

Lemma wp_get {A} (f : world -> A) w (Q : A -> world -> Prop) : Q (f w) w -> wp (get f) w Q.
Proof. done. Qed.

Lemma wp_modify f w Q : Q tt (f w) -> wp (modify f) w Q.
Proof. done. Qed.

Lemma wp_lift {A} (r : res A) a w (Q : A -> world -> Prop) : r = Val a -> Q a w -> wp (lift r) w Q.
Proof. intros -> HQ. exact HQ. Qed.

Lemma wp_deref p w Q : Q p w -> wp (deref (Some p)) w Q.
Proof. done. Qed.

(** ** Memory *)

Definition in_block (w : world) (p : ptr) (n : Z) (b : list Z) : Prop :=
  w_mem w !! p_blk p = Some b /\ 0 <= p_off p /\ 0 <= n /\ p_off p + n <= Z.of_nat (length b).

Lemma wp_load_bytes p n b w Q :
  in_block w p n b ->
  Q (slice (Z.to_nat (p_off p)) (Z.to_nat n) b) w ->
  wp (load_bytes p n) w Q.
Proof.
  intros (Hb & H1 & H2 & H3) HQ. unfold wp, load_bytes. rewrite Hb.
  rewrite (proj2 (Z.leb_le 0 (p_off p))), (proj2 (Z.leb_le 0 n)) by done.
  by rewrite (proj2 (Z.leb_le (p_off p + n) _)).
Qed.

Lemma wp_load8 p b w Q :
  in_block w p 1 b -> Q (le_load (slice (Z.to_nat (p_off p)) 1 b)) w -> wp (load8 p) w Q.
Proof. intros Hb HQ. apply wp_bind. by eapply wp_load_bytes. Qed.

Lemma wp_load16 p b w Q :
  in_block w p 2 b -> Q (le_load (slice (Z.to_nat (p_off p)) 2 b)) w -> wp (load16 p) w Q.
Proof. intros Hb HQ. apply wp_bind. by eapply wp_load_bytes. Qed.

Lemma wp_load32 p b w Q :
  in_block w p 4 b -> Q (le_load (slice (Z.to_nat (p_off p)) 4 b)) w -> wp (load32 p) w Q.
Proof. intros Hb HQ. apply wp_bind. by eapply wp_load_bytes. Qed.

Definition upd_mem (w : world) (l : loc) (b : list Z) : world :=
  set_mem (<[l := b]> (w_mem w)) w.

Lemma wp_store_bytes p bs b w Q :
  in_block w p (Z.of_nat (length bs)) b ->
  Q tt (upd_mem w (p_blk p) (splice (Z.to_nat (p_off p)) bs b)) ->
  wp (store_bytes p bs) w Q.
Proof.
  intros (Hb & H1 & H2 & H3) HQ. unfold wp, store_bytes. rewrite Hb.
  rewrite (proj2 (Z.leb_le 0 (p_off p))) by done. by rewrite (proj2 (Z.leb_le _ _)).
Qed.

Lemma wp_store n p v b w (Q : unit -> world -> Prop) :
  in_block w p (Z.of_nat n) b ->
  Q tt (upd_mem w (p_blk p) (splice (Z.to_nat (p_off p)) (le_store n v) b)) ->
  wp (store_bytes p (le_store n v)) w Q.
Proof. intros Hb HQ. eapply wp_store_bytes; [by rewrite length_le_store|done]. Qed.

Lemma wp_memcpy dst src n bsrc bdst w Q :
  in_block w src n bsrc -> in_block w dst n bdst ->
  Q tt (upd_mem w (p_blk dst)
    (splice (Z.to_nat (p_off dst)) (slice (Z.to_nat (p_off src)) (Z.to_nat n) bsrc) bdst)) ->
  wp (memcpy dst src n) w Q.
Proof.
  intros Hs Hd HQ. apply wp_bind. eapply wp_load_bytes; [done|].
  eapply wp_store_bytes; [|done]. destruct Hs as (_ & ? & ? & ?).
  rewrite length_slice by lia. by rewrite Z2Nat.id.
Qed.

Lemma wp_alloc_block bs w Q :
  (forall l, w_mem w !! l = None -> Q (Ptr l 0) (upd_mem w l bs)) ->
  wp (alloc_block bs) w Q.
Proof.
  intros HQ. unfold wp, alloc_block. apply HQ.
  apply not_elem_of_dom, (is_fresh (dom (w_mem w))).
Qed.

Lemma wp_free l b w Q :
  w_mem w !! l = Some b -> Q tt (set_mem (delete l (w_mem w)) w) ->
  wp (free_ (Some (Ptr l 0))) w Q.
Proof. intros Hb HQ. unfold wp, free_. cbn. by rewrite Hb. Qed.

Lemma wp_realloc l b n w Q :
  w_mem w !! l = Some b ->
  (forall l', w_mem w !! l' = None ->
    Q (Ptr l' 0) (set_mem (<[l' := take (Z.to_nat n) b ++
      replicate (Z.to_nat n - length b) (w_junk w)]> (delete l (w_mem w))) w)) ->
  wp (realloc (Ptr l 0) n) w Q.
Proof.
  intros Hb HQ. unfold wp, realloc. cbn. rewrite Hb. apply HQ.
  apply not_elem_of_dom, (is_fresh (dom (w_mem w))).
Qed.

Lemma wp_with_local {A} bs (body : ptr -> M A) w (Q : A -> world -> Prop) :
  (forall l, w_mem w !! l = None ->
    wp (body (Ptr l 0)) (upd_mem w l bs)
      (fun a w' => Q a (set_mem (delete l (w_mem w')) w'))) ->
  wp (with_local bs body) w Q.
Proof.
  intros HQ. unfold wp, with_local.
  specialize (HQ (fresh (dom (w_mem w)))
    ltac:(apply not_elem_of_dom, (is_fresh (dom (w_mem w))))).
  unfold wp in HQ. fold (upd_mem w (fresh (dom (w_mem w))) bs).
  destruct (body _ _); done.
Qed.

(** ** Mutexes and output *)

Lemma wp_mutex_lock m w Q :
  m ∉ w_held w -> Q tt (set_held (m :: w_held w) w) -> wp (mutex_lock m) w Q.
Proof. intros Hm HQ. unfold wp, mutex_lock. by rewrite decide_False. Qed.

Lemma wp_mutex_unlock m w Q :
  Q tt (set_held (filter (fun m' => m' <> m) (w_held w)) w) -> wp (mutex_unlock m) w Q.
Proof. done. Qed.

Lemma wp_printf s w Q : Q tt (set_out (w_stdout w +:+ s) (w_stderr w) w) -> wp (printf s) w Q.
Proof. done. Qed.

Lemma wp_eprintf s w Q : Q tt (set_out (w_stdout w) (w_stderr w +:+ s) w) -> wp (eprintf s) w Q.
Proof. done. Qed.

(** Taking and releasing a mutex that was free leaves the held ones as they
    were. *)
Lemma unlock_lock m (h : list mutex) : m ∉ h -> filter (fun m' => m' <> m) (m :: h) = h.
Proof.
  intros Hm. rewrite list.filter_cons, decide_False by tauto.
  induction h as [|x h IH]; [done|]. rewrite not_elem_of_cons in Hm. destruct Hm as [Hx Hm].
  rewrite list.filter_cons, decide_True by done. by rewrite IH.
Qed.

(** ** Symbolic execution *)

(** A block after [upd_mem]. *)
Lemma lookup_upd_mem_eq w l b : w_mem (upd_mem w l b) !! l = Some b.
Proof. apply lookup_insert_eq. Qed.

Lemma lookup_upd_mem_ne w l l' b : l <> l' -> w_mem (upd_mem w l b) !! l' = w_mem w !! l'.
Proof. apply lookup_insert_ne. Qed.

(** Apply the rule of the primitive at the head of the program. *)
Ltac wp_step :=
  match goal with
  | |- wp (mret _) _ _ => apply wp_ret
  | |- wp (_ ≫= _) _ _ => apply wp_bind
  | |- wp (get _) _ _ => apply wp_get
  | |- wp (modify _) _ _ => apply wp_modify
  | |- wp (deref (Some _)) _ _ => apply wp_deref
  | |- wp (load8 _) _ _ => eapply wp_load8
  | |- wp (load16 _) _ _ => eapply wp_load16
  | |- wp (load32 _) _ _ => eapply wp_load32
  | |- wp (load_bytes _ _) _ _ => eapply wp_load_bytes
  | |- wp (store8 _ _) _ _ => eapply (wp_store 1)
  | |- wp (store16 _ _) _ _ => eapply (wp_store 2)
  | |- wp (store32 _ _) _ _ => eapply (wp_store 4)
  | |- wp (store64 _ _) _ _ => eapply (wp_store 8)
  | |- wp (store_bytes _ _) _ _ => eapply wp_store_bytes
  | |- wp (memcpy _ _ _) _ _ => eapply wp_memcpy
  | |- wp (printf _) _ _ => apply wp_printf
  | |- wp (eprintf _) _ _ => apply wp_eprintf
  | |- wp (mutex_lock _) _ _ => apply wp_mutex_lock
  | |- wp (mutex_unlock _) _ _ => apply wp_mutex_unlock
  | |- wp (INFO _) _ _ => unfold INFO
  | |- wp (ERROR _) _ _ => unfold ERROR
  | |- wp (LOG_DEBUG _ _) _ _ => unfold LOG_DEBUG
  | |- wp (debug_only _ _) _ _ => unfold debug_only
  end.

(** ** Output

    [quiet m w]: from [w] the call [m] only prints. *)
Definition quiet (m : M unit) w : Prop :=
  forall Q : unit -> world -> Prop, (forall o e, Q tt (set_out o e w)) -> wp m w Q.

Lemma quiet_printf s w : quiet (printf s) w.
Proof. intros Q HQ. apply HQ. Qed.

Lemma quiet_eprintf s w : quiet (eprintf s) w.
Proof. intros Q HQ. apply HQ. Qed.

Lemma quiet_ret w : quiet (mret tt) w.
Proof. intros Q HQ. specialize (HQ (w_stdout w) (w_stderr w)). by destruct w. Qed.

Lemma quiet_seq m (k : M unit) w :
  quiet m w -> (forall o e, quiet k (set_out o e w)) -> quiet (m;; k) w.
Proof. intros Hm Hk Q HQ. apply wp_bind, Hm. intros o e. by apply Hk. Qed.

Lemma quiet_read {A} (m : M A) (k : A -> M unit) w :
  wp m w (fun a w' => w' = w /\ quiet (k a) w) -> quiet (m ≫= k) w.
Proof.
  intros Hm Q HQ. apply wp_bind. eapply wp_mono; [exact Hm|]. intros a w' [-> Hk]. by apply Hk.
Qed.

(** Print; [side] proves the bounds of what is read for it. *)
Ltac quiet_run side :=
  match goal with
  | |- quiet (printf _) _ => apply quiet_printf
  | |- quiet (eprintf _) _ => apply quiet_eprintf
  | |- quiet (mret _) _ => apply quiet_ret
  | |- quiet (INFO _) _ => unfold INFO; quiet_run side
  | |- quiet (ERROR _) _ => unfold ERROR; quiet_run side
  | |- quiet (LOG_DEBUG _ _) _ => unfold LOG_DEBUG; quiet_run side
  | |- quiet (debug_only _ _) _ => unfold debug_only; quiet_run side
  | |- quiet (if _ then _ else _) _ => progress cbn; quiet_run side
  | |- quiet (load_bytes _ _ ≫= _) _ =>
      apply quiet_read; eapply wp_load_bytes; [side|split; [reflexivity|quiet_run side]]
  | |- quiet (load8 _ ≫= _) _ =>
      apply quiet_read; eapply wp_load8; [side|split; [reflexivity|quiet_run side]]
  | |- quiet (load16 _ ≫= _) _ =>
      apply quiet_read; eapply wp_load16; [side|split; [reflexivity|quiet_run side]]
  | |- quiet (load32 _ ≫= _) _ =>
      apply quiet_read; eapply wp_load32; [side|split; [reflexivity|quiet_run side]]
  | |- quiet (_ ≫= _) _ =>
      first [apply quiet_seq; [quiet_run side|intros ? ?; quiet_run side]|idtac]
  | |- _ => idtac
  end.

(** Step over what only prints. *)
Ltac wp_quiet side :=
  match goal with
  | |- wp (_ ≫= _) _ _ => apply wp_bind; wp_quiet side
  | |- wp _ _ _ =>
      let Q := fresh "Q" in
      let o := fresh "o" in let e := fresh "e" in
      match goal with |- wp ?m ?w ?post =>
        let H := fresh in
        assert (H : quiet m w) by quiet_run side; apply H; clear H; intros o e
      end
  end.

End Wp.
