(* ===== verification/Tun.v ===== *)
(** * The TAP device (src/src/tun_device.c): queue status and input/output

    [w_busy] is [busy_status], [w_fds] is [tun_fds].  The kernel is the list [w_rx]
    of answers to [read] and the list [w_tx] of frames handed to [write].  Both calls take
    their count as an [int], where net_interface.c has a [uint32_t]: the definitions
    convert it. *)

From S2P Require Import Prelude Words HashMap World.
Import World.

Module Tun.

Definition TUN_QUEUES : Z := 10.

(** ** Status *)

(** [busy_status\[i\]] *)
Definition read_busy (i : Z) : M bool := fun w =>
  match (if i <? 0 then None else w_busy w !! Z.to_nat i) with
  | Some b => Ok b w
  | None => Undefined OutOfBounds
  end.

(** [busy_status\[fi\] = busy] *)
Definition write_busy (fi : Z) (busy : bool) : M unit := fun w =>
  if (0 <=? fi) && (fi <? Z.of_nat (length (w_busy w)))
  then Ok tt (set_busy_status (<[Z.to_nat fi := busy]> (w_busy w)) w)
  else Undefined OutOfBounds.

Definition set_busy (fi : Z) (busy : bool) : M unit :=
  mutex_lock mut_status;;
  write_busy (u8 fi) busy;;
  mutex_unlock mut_status.

(** [while (busy_status\[i\]) i++;] with an [int8_t] index; the array has
    [TUN_QUEUES] elements, so one round more than that leaves it. *)
Fixpoint busy_scan (fuel : nat) (i : Z) : M Z :=
  match fuel with
  | O => undefined Diverges
  | S fuel =>
      b ← read_busy i;
      if b : bool then busy_scan fuel (i + 1) else mret i
  end.

Definition available : M Z :=
  mutex_lock mut_status;;
  i ← busy_scan (S (Z.to_nat TUN_QUEUES)) 0;
  mutex_unlock mut_status;;
  mret (if TUN_QUEUES <=? i then -1 else i).

(** ** Input and output *)

Definition tun_fd (fi : Z) : M Z := fun w =>
  match (if fi <? 0 then None else w_fds w !! Z.to_nat fi) with
  | Some fd => Ok fd w
  | None => Undefined OutOfBounds
  end.

(** A system call that fails: -1, and the reason in [errno]. *)
Definition sys_fail (msg : string) : M Z :=
  rx ← get w_rx;
  modify (set_rx msg rx);;
  mret (-1).

(** [read(tun_fds\[fi\], buf, len)] with an [int len]: the kernel stores the next frame,
    cut to [len] bytes, or fails with -1; without a frame the call blocks.  A negative
    [len] is a count of more than half of the address space, which no buffer has: the
    call fails at once. *)
Definition tun_read (fi : Z) (buf : ptr) (len : Z) : M Z :=
  let len := i32 len in
  fd ← tun_fd fi;
  rx ← get w_rx;
  if len <? 0 then sys_fail "Bad address"
  else
    match rx with
    | [] => blocked
    | RxError msg :: rx =>
        modify (set_rx msg rx);;
        mret (-1)
    | RxFrame bs :: rx =>
        err ← get w_errno;
        modify (set_rx err rx);;
        store_bytes buf (take (Z.to_nat len) bs);;
        mret (Z.min len (Z.of_nat (length bs)))
    end.

(** [write(tun_fds\[fi\], buf, len)], with an [int len] as well. *)
Definition tun_write (fi : Z) (buf : ptr) (len : Z) : M Z :=
  let len := i32 len in
  fd ← tun_fd fi;
  if len <? 0 then sys_fail "Bad address"
  else
    bs ← load_bytes buf len;
    modify (fun w => set_tx (w_tx w ++ [(fi, bs)]) w);;
    mret len.

(** Below [2 ^ 31] the conversion does nothing. *)
Lemma tun_write_small fi buf len :
  0 <= len < 2 ^ 31 ->
  tun_write fi buf len =
    (fd ← tun_fd fi;
     bs ← load_bytes buf len;
     modify (fun w => set_tx (w_tx w ++ [(fi, bs)]) w);;
     mret len).
Proof.
  intros Hlen. unfold tun_write. rewrite (i32_small len Hlen).
  by rewrite (proj2 (Z.ltb_ge _ _)) by lia.
Qed.

(** From [2 ^ 31] on nothing is read, stored or sent, whatever is in memory and
    whatever frame is there. *)
Lemma tun_long_count fi fd buf len w :
  w_fds w !! fi = Some fd -> 2 ^ 31 <= len < 2 ^ 32 ->
  tun_read (Z.of_nat fi) buf len w = Ok (-1) (set_rx "Bad address" (w_rx w) w) /\
  tun_write (Z.of_nat fi) buf len w = Ok (-1) (set_rx "Bad address" (w_rx w) w).
Proof.
  intros Hfd Hlen. unfold tun_read, tun_write, mbind, M_bind, tun_fd.
  rewrite (i32_large len Hlen), (proj2 (Z.ltb_lt (len - 2 ^ 32) 0)) by lia.
  rewrite (proj2 (Z.ltb_ge (Z.of_nat fi) 0)) by lia. by rewrite Nat2Z.id, Hfd.
Qed.

End Tun.
