(* ===== verification/NetInterface.v ===== *)
(** * The network interface (src/src/net_interface.c) and Ethernet
    (src/src/protocols/ethernet.h, ethernet.c)

    The static variables [ip], [buffers] and [buffers_size] are [w_ip],
    [w_buffers] and [w_sizes]; the static arrays [mac] and [BROADCAST] are the
    blocks [mac_loc] and [broadcast_loc] of the memory. *)

From S2P Require Import Prelude Words Format HashMap World Tun.
Import Format World Tun.

Module Ethernet.

(** [struct eth_header]: [dst_mac] at 0, [src_mac] at 6, [ether_type] at 12,
    [payload] at 14. *)
Definition sizeof_eth_header : Z := 14.
Definition dst_mac (h : ptr) : ptr := h.
Definition src_mac (h : ptr) : ptr := ptr_add h 6.
Definition ether_type (h : ptr) : ptr := ptr_add h 12.
Definition eth_payload (h : ptr) : ptr := ptr_add h 14.

Definition ETH_P_IP : Z := 0x0800.
Definition ETH_P_ARP : Z := 0x0806.

Definition ethernet_fprint (h : ptr) : M string :=
  d ← load_bytes (dst_mac h) 6;
  s ← load_bytes (src_mac h) 6;
  t ← load16 (ether_type h);
  mret ("ETH header [dst=" +:+ mac_fprint d +:+ ", src=" +:+ mac_fprint s +:+
        ", type=" +:+ fmt_u t +:+ "]").

Definition eth_header_hton (h : ptr) : M unit :=
  t ← load16 (ether_type h); store16 (ether_type h) (htons t).
Definition eth_header_ntoh (h : ptr) : M unit :=
  t ← load16 (ether_type h); store16 (ether_type h) (ntohs t).

End Ethernet.

Module NetInterface.
Import Ethernet.

(** [DEBUG] of net_interface.c. *)
Definition debug : bool := true.

Definition net_interface_get_ip : M Z := get w_ip.
Definition net_interface_get_mac : ptr := Ptr mac_loc 0.
Definition BROADCAST : ptr := Ptr broadcast_loc 0.

Definition get_buffer (fi : Z) : M (vptr * Z) := fun w =>
  match (if fi <? 0 then None else w_buffers w !! Z.to_nat fi),
        (if fi <? 0 then None else w_sizes w !! Z.to_nat fi) with
  | Some b, Some s => Ok (b, s) w
  | _, _ => Undefined OutOfBounds
  end.

Definition put_buffer (fi : Z) (p : ptr) (size : Z) : M unit :=
  modify (fun w => set_buffers (<[Z.to_nat fi := Some p]> (w_buffers w))
                               (<[Z.to_nat fi := size]> (w_sizes w)) w).

Definition ensure_has_size (fi size : Z) : M unit :=
  mutex_lock mut_buffer;;
  bs ← get_buffer fi;
  (if (snd bs <? size) || (snd bs =? 0) then
     p ← match fst bs with
         | Some p => realloc p size
         | None => calloc size
         end;
     put_buffer fi p size
   else mret tt);;
  mutex_unlock mut_buffer.

Definition net_interface_send (content : ptr) (len : Z) (dst : ptr) (protocol : Z) : M unit :=
  fi ← available;
  let total_size := u32 (len + sizeof_eth_header) in
  if fi =? -1 then
    ERROR "NET-IF: No tun device available.";;
    abort_
  else
    ensure_has_size fi total_size;;
    bs ← get_buffer fi;
    eth ← deref (fst bs);
    store16 (ether_type eth) protocol;;
    memcpy (dst_mac eth) dst 6;;
    memcpy (src_mac eth) net_interface_get_mac 6;;
    memcpy (eth_payload eth) content len;;
    debug_only debug (
      s ← ethernet_fprint eth;
      printf ("[DEBUG] [NET-IF] {" +:+ fmt_u fi +:+ "} Sent payload size=" +:+ fmt_u len +:+ " ");;
      printf s;;
      printf "
");;
    eth_header_hton eth;;
    set_busy fi true;;
    tun_write fi eth total_size;;
    set_busy fi false.

Definition net_interface_broadcast (content : ptr) (len protocol : Z) : M unit :=
  net_interface_send content len BROADCAST protocol.

Definition net_interface_read (buffer : ptr) (len : Z) : M Z :=
  fi ← available;
  if fi =? -1 then
    LOG_DEBUG debug "[NET-IF] No tun device available.";;
    mret (-1)
  else
    set_busy fi true;;
    out ← tun_read fi buffer len;
    set_busy fi false;;
    mret out.

(** [inet_pton] of the C library is a parameter: the network-order word of an
    address in dotted notation, or [None]. *)
Definition net_interface_init (inet_pton : string -> option Z) (src_ip : string)
    (src_mac : list Z) : M unit :=
  (if (length src_mac <? 6)%nat then undefined OutOfBounds
   else store_bytes net_interface_get_mac (take 6 src_mac));;
  match inet_pton src_ip with
  | Some i => modify (set_ip i)
  | None => ERROR "NET-IF: Parsing inet address failed
";;
      exit_ 1
  end.

(** [for (i = 0; i < TUN_QUEUES; i++) free(buffers\[i\])] where not [NULL]. *)
Fixpoint free_all (ps : list vptr) : M unit :=
  match ps with
  | [] => mret tt
  | p :: ps => free_ p;; free_all ps
  end.

Definition net_interface_destroy : M unit :=
  ps ← get w_buffers;
  free_all ps.

End NetInterface.
