(* ===== verification/NetFacts.v ===== *)
(** * Sending and receiving frames: invariant and frame rules

    [net_inv] is the invariant of the static variables of tun_device.c and
    net_interface.c; [keeps] says what sending a frame leaves alone. *)

From S2P Require Import Prelude Words Format HashMap World Wp Tun NetInterface.
Import Format World Wp Tun Ethernet NetInterface.

Module NetFacts.

(** [l] is the block of a transmission buffer. *)
Definition tx_block (w : world) (l : loc) : Prop :=
  exists i p, w_buffers w !! i = Some (Some p) /\ p_blk p = l.

(** Blocks that belong to net_interface.c. *)
Definition reserved (w : world) (l : loc) : Prop :=
  l = mac_loc \/ l = broadcast_loc \/ tx_block w l.

Record net_inv (mac : list Z) (w : world) : Prop := {
  ni_mac : w_mem w !! mac_loc = Some mac /\ length mac = 6%nat /\ bytes_ok mac;
  ni_broadcast : w_mem w !! broadcast_loc = Some (replicate 6 255);
  ni_busy : Z.of_nat (length (w_busy w)) = TUN_QUEUES;
  ni_fds : Z.of_nat (length (w_fds w)) = TUN_QUEUES;
  ni_buffers : Z.of_nat (length (w_buffers w)) = TUN_QUEUES;
  ni_sizes : Z.of_nat (length (w_sizes w)) = TUN_QUEUES;
  ni_null i s : w_buffers w !! i = Some None -> w_sizes w !! i = Some s -> s = 0;
  ni_block i p s : w_buffers w !! i = Some (Some p) -> w_sizes w !! i = Some s ->
    p_off p = 0 /\ p_blk p <> mac_loc /\ p_blk p <> broadcast_loc /\
    exists b, w_mem w !! p_blk p = Some b /\ Z.of_nat (length b) = s;
  ni_distinct i j p q : w_buffers w !! i = Some (Some p) -> w_buffers w !! j = Some (Some q) ->
    p_blk p = p_blk q -> i = j;
  ni_held : w_held w = []
}.

(** What an operation of the network interface leaves alone. *)
Record keeps (w w' : world) : Prop := {
  k_mem l b : w_mem w !! l = Some b -> ~ tx_block w l -> w_mem w' !! l = Some b;
  k_tx l : tx_block w' l -> tx_block w l \/ w_mem w !! l = None;
  k_dom l : w_mem w' !! l = None -> w_mem w !! l = None \/ tx_block w l;
  k_busy : w_busy w' = w_busy w;
  k_fds : w_fds w' = w_fds w;
  k_ip : w_ip w' = w_ip w;
  k_cache : w_cache w' = w_cache w;
  k_held : w_held w' = w_held w;
  k_rx : w_rx w' = w_rx w /\ w_errno w' = w_errno w
}.

(** The first queue that is not busy. *)
Fixpoint first_free (busy : list bool) : option nat :=
  match busy with
  | [] => None
  | b :: busy => if b then S <$> first_free busy else Some O
  end.

Lemma first_free_spec busy i :
  first_free busy = Some i ->
  busy !! i = Some false /\ forall j, (j < i)%nat -> busy !! j = Some true.
Proof.
  revert i. induction busy as [|[] busy IH]; intros i; cbn; [done| |].
  - destruct (first_free busy) as [k|]; [|done]. intros [= <-].
    destruct (IH k eq_refl) as [Hk Hlt]. split; [done|]. intros [|j] Hj; [done|].
    apply Hlt. lia.
  - intros [= <-]. split; [done|]. lia.
Qed.

Lemma first_free_None busy : first_free busy = None -> Forall (eq true) busy.
Proof.
  induction busy as [|[] busy IH]; cbn; [done| |done].
  destruct (first_free busy); [done|]. intros _. constructor; [done|]. by apply IH.
Qed.

(** ** Queue status *)

Lemma set_held_id w : set_held (w_held w) w = w.
Proof. by destruct w. Qed.

Lemma busy_scan_run w fuel i k :
  first_free (drop i (w_busy w)) = Some k -> (k < fuel)%nat ->
  busy_scan fuel (Z.of_nat i) w = Ok (Z.of_nat (i + k)) w.
Proof.
  revert i k. induction fuel as [|fuel IH]; intros i k Hf Hk; [lia|]. cbn [busy_scan].
  destruct (w_busy w !! i) as [b|] eqn:Hi; [|by rewrite drop_ge in Hf by by apply lookup_ge_None].
  rewrite (drop_S _ _ _ Hi) in Hf. cbn [first_free] in Hf.
  unfold mbind, M_bind, read_busy. destruct (Z.ltb_spec (Z.of_nat i) 0); [lia|].
  rewrite Nat2Z.id, Hi. destruct b.
  - destruct (first_free (drop (S i) (w_busy w))) as [k'|] eqn:Hk'; [|done].
    injection Hf as <-. replace (Z.of_nat i + 1) with (Z.of_nat (S i)) by lia.
    rewrite (IH _ k') by (done || lia). do 2 f_equal. lia.
  - injection Hf as <-. by rewrite Nat.add_0_r.
Qed.

Lemma available_run w i :
  mut_status ∉ w_held w -> Z.of_nat (length (w_busy w)) = TUN_QUEUES ->
  first_free (w_busy w) = Some i -> available w = Ok (Z.of_nat i) w.
Proof.
  intros Hm Hlen Hf. pose proof (first_free_spec _ _ Hf) as [Hi _].
  apply lookup_lt_Some in Hi. unfold TUN_QUEUES in Hlen.
  unfold available, mbind, M_bind, mutex_lock. rewrite decide_False by done.
  change 0 with (Z.of_nat 0). rewrite (busy_scan_run _ _ 0 i); [|done|unfold TUN_QUEUES; lia].
  unfold mutex_unlock, modify. cbn [w_held set_held]. rewrite unlock_lock by done.
  cbn [Nat.add]. unfold TUN_QUEUES. destruct (Z.leb_spec 10 (Z.of_nat i)); [lia|].
  unfold mret, M_ret. f_equal. by destruct w.
Qed.

Lemma wp_available w (Q : Z -> world -> Prop) i :
  mut_status ∉ w_held w -> Z.of_nat (length (w_busy w)) = TUN_QUEUES ->
  first_free (w_busy w) = Some i -> Q (Z.of_nat i) w -> wp available w Q.
Proof. intros H1 H2 H3 HQ. unfold wp. by rewrite (available_run w i). Qed.

Lemma wp_set_busy (i : nat) busy w (Q : unit -> world -> Prop) :
  mut_status ∉ w_held w -> Z.of_nat (length (w_busy w)) = TUN_QUEUES ->
  (i < length (w_busy w))%nat ->
  Q tt (set_busy_status (<[i := busy]> (w_busy w)) w) -> wp (set_busy (Z.of_nat i) busy) w Q.
Proof.
  intros Hm Hlen Hi HQ. unfold TUN_QUEUES in Hlen. unfold wp, set_busy, mbind, M_bind, mutex_lock.
  rewrite decide_False by done. unfold write_busy. cbn [w_busy set_held].
  replace (u8 (Z.of_nat i)) with (Z.of_nat i) by (unfold u8; rewrite Z.mod_small; lia).
  rewrite (proj2 (Z.leb_le _ _)), (proj2 (Z.ltb_lt _ _)) by lia. cbn [andb].
  rewrite Nat2Z.id. unfold mutex_unlock, modify. cbn [w_held set_busy_status set_held].
  rewrite unlock_lock by done. by destruct w.
Qed.

(** ** Growing a transmission buffer *)

Definition drop_buffer (w : world) (fi : nat) : gmap loc (list Z) :=
  match w_buffers w !! fi with
  | Some (Some p) => delete (p_blk p) (w_mem w)
  | _ => w_mem w
  end.

(** The state in which queue [fi] got the fresh block [l] with bytes [b]. *)
Definition new_buffer (w : world) (fi : nat) (l : loc) (b : list Z) : world :=
  set_buffers (<[fi := Some (Ptr l 0)]> (w_buffers w)) (<[fi := Z.of_nat (length b)]> (w_sizes w))
    (set_mem (<[l := b]> (drop_buffer w fi)) w).

Lemma drop_buffer_lookup mac w fi l :
  net_inv mac w -> ~ tx_block w l -> drop_buffer w fi !! l = w_mem w !! l.
Proof.
  intros Hinv Hl. unfold drop_buffer. destruct (w_buffers w !! fi) as [[p|]|] eqn:Hp; try done.
  apply lookup_delete_ne. intros Heq. apply Hl. by exists fi, p.
Qed.

Lemma drop_buffer_other mac w fi j p :
  net_inv mac w -> w_buffers w !! j = Some (Some p) -> j <> fi ->
  drop_buffer w fi !! p_blk p = w_mem w !! p_blk p.
Proof.
  intros Hinv Hj Hne. unfold drop_buffer. destruct (w_buffers w !! fi) as [[q|]|] eqn:Hq; try done.
  apply lookup_delete_ne. intros Heq. apply Hne. by eapply (ni_distinct _ _ Hinv).
Qed.

Lemma static_not_tx mac w : net_inv mac w -> ~ tx_block w mac_loc /\ ~ tx_block w broadcast_loc.
Proof.
  intros Hinv. split; intros (i & p & Hp & Heq);
  (destruct (lookup_lt_is_Some_2 (w_sizes w) i) as [s Hs];
   [apply lookup_lt_Some in Hp; pose proof (ni_buffers _ _ Hinv);
    pose proof (ni_sizes _ _ Hinv); lia|];
   pose proof (ni_block _ _ Hinv _ _ _ Hp Hs); tauto).
Qed.

Lemma tx_block_alloc mac w l : net_inv mac w -> tx_block w l -> is_Some (w_mem w !! l).
Proof.
  intros Hinv (i & p & Hp & <-). destruct (lookup_lt_is_Some_2 (w_sizes w) i) as [s Hs].
  { apply lookup_lt_Some in Hp. pose proof (ni_buffers _ _ Hinv).
    pose proof (ni_sizes _ _ Hinv). lia. }
  destruct (ni_block _ _ Hinv _ _ _ Hp Hs) as (_ & _ & _ & b & Hb & _). by exists b.
Qed.

Lemma new_buffer_tx w fi l b l' :
  (fi < length (w_buffers w))%nat -> tx_block (new_buffer w fi l b) l' -> l' = l \/ tx_block w l'.
Proof.
  intros Hfi (i & p & Hp & <-). cbn in Hp. destruct (decide (i = fi)) as [->|].
  - rewrite list_lookup_insert_eq in Hp by done. simplify_eq. by left.
  - rewrite list_lookup_insert_ne in Hp by done. right. by exists i, p.
Qed.

Lemma new_buffer_inv mac w fi l b :
  net_inv mac w -> (fi < length (w_buffers w))%nat -> w_mem w !! l = None ->
  net_inv mac (new_buffer w fi l b).
Proof.
  intros Hinv Hfi Hl. destruct (static_not_tx _ _ Hinv) as [Hm Hb].
  assert (Hl1 : l <> mac_loc) by (intros ->; by rewrite (proj1 (ni_mac _ _ Hinv)) in Hl).
  assert (Hl2 : l <> broadcast_loc) by (intros ->; by rewrite (ni_broadcast _ _ Hinv) in Hl).
  pose proof (ni_buffers _ _ Hinv). pose proof (ni_sizes _ _ Hinv).
  split; cbn; rewrite ?length_insert; try apply Hinv.
  - rewrite lookup_insert_ne by done. rewrite (drop_buffer_lookup _ _ _ _ Hinv Hm). apply Hinv.
  - rewrite lookup_insert_ne by done. rewrite (drop_buffer_lookup _ _ _ _ Hinv Hb). apply Hinv.
  - intros i s. destruct (decide (i = fi)) as [->|]; [by rewrite list_lookup_insert_eq by done|].
    rewrite !list_lookup_insert_ne by done. apply Hinv.
  - intros i p s. destruct (decide (i = fi)) as [->|].
    + rewrite !list_lookup_insert_eq by (done || lia). intros. simplify_eq. cbn.
      split_and!; try done. exists b. by rewrite lookup_insert_eq.
    + rewrite !list_lookup_insert_ne by done. intros Hp Hs.
      destruct (ni_block _ _ Hinv _ _ _ Hp Hs) as (? & ? & ? & b' & Hb' & ?).
      split_and!; try done. exists b'. split; [|done].
      rewrite lookup_insert_ne by congruence. by rewrite (drop_buffer_other mac _ _ i).
  - assert (Hfresh : forall j q, w_buffers w !! j = Some (Some q) -> p_blk q <> l).
    { intros j q Hq Heq. destruct (tx_block_alloc mac w l Hinv) as [x Hx]; [by exists j, q|].
      congruence. }
    intros i j p q. destruct (decide (i = fi)) as [->|]; destruct (decide (j = fi)) as [->|];
      rewrite ?list_lookup_insert_eq, ?list_lookup_insert_ne by done; intros Hp Hq Heq;
      simplify_eq/=; try done.
    + by destruct (Hfresh _ _ Hq).
    + by destruct (Hfresh _ _ Hp).
    + by eapply (ni_distinct _ _ Hinv).
Qed.

Lemma new_buffer_keeps mac w fi l b :
  net_inv mac w -> (fi < length (w_buffers w))%nat -> w_mem w !! l = None ->
  keeps w (new_buffer w fi l b).
Proof.
  intros Hinv Hfi Hl. split; cbn; try done.
  - intros l' b' Hl' Htx. rewrite lookup_insert_ne by congruence.
    by rewrite (drop_buffer_lookup _ _ _ _ Hinv Htx).
  - intros l' [->|]%new_buffer_tx; auto.
  - intros l' [Hl' Hd]%lookup_insert_None. unfold drop_buffer in Hl'.
    destruct (w_buffers w !! fi) as [[p|]|] eqn:Hp; auto.
    apply lookup_delete_None in Hl' as [<-|]; [|by left]. right. by exists fi, p.
Qed.

Lemma keeps_refl w : keeps w w.
Proof. by split; auto. Qed.

Lemma keeps_trans w1 w2 w3 : keeps w1 w2 -> keeps w2 w3 -> keeps w1 w3.
Proof.
  intros H12 H23. split.
  - intros l b Hl Htx. apply (k_mem _ _ H23); [by apply (k_mem _ _ H12)|].
    intros [|]%(k_tx _ _ H12); [done|congruence].
  - intros l [Htx|Hn]%(k_tx _ _ H23); [by apply (k_tx _ _ H12)|].
    destruct (k_dom _ _ H12 _ Hn); auto.
  - intros l [Hn|Htx]%(k_dom _ _ H23); [by apply (k_dom _ _ H12)|].
    destruct (k_tx _ _ H12 _ Htx); auto.
  - rewrite (k_busy _ _ H23). apply H12.
  - rewrite (k_fds _ _ H23). apply H12.
  - rewrite (k_ip _ _ H23). apply H12.
  - rewrite (k_cache _ _ H23). apply H12.
  - rewrite (k_held _ _ H23). apply H12.
  - destruct (k_rx _ _ H12), (k_rx _ _ H23). split; congruence.
Qed.

(** What [ensure_has_size] does to a buffer that is there: nothing when it is large
    enough, else the block is freed and a block of the size asked for replaces it. *)
Definition resized (w : world) (fi : nat) (size : Z) (w' : world) (b : list Z) : Prop :=
  (forall p0 b0, w_buffers w !! fi = Some (Some p0) -> w_mem w !! p_blk p0 = Some b0 ->
    (size <= Z.of_nat (length b0) -> w' = w) /\
    (Z.of_nat (length b0) < size -> w_mem w' !! p_blk p0 = None)) /\
  (forall s, w_sizes w !! fi = Some s -> Z.of_nat (length b) = Z.max s size).

Lemma resized_grow mac w fi size s l b :
  net_inv mac w -> w_sizes w !! fi = Some s -> (s <? size) || (s =? 0) = true -> 0 < size ->
  w_mem w !! l = None -> Z.of_nat (length b) = size -> resized w fi size (new_buffer w fi l b) b.
Proof.
  intros Hinv Hs Hgt Hsize Hl Hb. split.
  - intros p0 b0 Hp0 Hb0. destruct (ni_block _ _ Hinv _ _ _ Hp0 Hs) as (_ & _ & _ & c & Hc & Hlc).
    simplify_eq. split; [blia|]. intros _. unfold new_buffer, drop_buffer. cbn. rewrite Hp0.
    rewrite lookup_insert_ne by congruence. apply lookup_delete_eq.
  - intros s' Hs'. assert (0 <= s).
    { destruct (w_buffers w !! fi) as [[p0|]|] eqn:Hp0.
      - destruct (ni_block _ _ Hinv _ _ _ Hp0 Hs) as (_ & _ & _ & c & Hc & Hlc). lia.
      - by rewrite (ni_null _ _ Hinv _ _ Hp0 Hs).
      - apply lookup_ge_None in Hp0. apply lookup_lt_Some in Hs.
        pose proof (ni_buffers _ _ Hinv). pose proof (ni_sizes _ _ Hinv). lia. }
    simplify_eq. blia.
Qed.

(** The buffer of queue [fi], made larger, serves as [wp_ensure_has_size] promises. *)
Lemma grown_buffer mac w fi p s size l b' :
  net_inv mac w -> Z.of_nat fi < TUN_QUEUES -> 0 < size -> w_buffers w !! fi = Some p ->
  w_sizes w !! fi = Some s -> (s <? size) || (s =? 0) = true ->
  w_mem w !! l = None -> Z.of_nat (length b') = size ->
  let w' := new_buffer w fi l b' in
  net_inv mac w' /\ keeps w w' /\ w_tx w' = w_tx w /\ w_buffers w' !! fi = Some (Some (Ptr l 0)) /\
  w_mem w' !! l = Some b' /\ resized w fi size w' b'.
Proof.
  intros Hinv Hfi Hsize Hp Hs Hgt Hl Hb' w'. pose proof (ni_buffers _ _ Hinv). split_and!.
  - apply new_buffer_inv; [done|lia|done].
  - eapply new_buffer_keeps; [done|lia|done].
  - done.
  - apply list_lookup_insert_eq. lia.
  - apply lookup_insert_eq.
  - by eapply resized_grow.
Qed.

Lemma wp_ensure_has_size mac w fi size (Q : unit -> world -> Prop) :
  net_inv mac w -> Z.of_nat fi < TUN_QUEUES -> 0 < size ->
  (forall w' p b, net_inv mac w' -> keeps w w' -> w_tx w' = w_tx w ->
    w_buffers w' !! fi = Some (Some p) -> p_off p = 0 -> w_mem w' !! p_blk p = Some b ->
    size <= Z.of_nat (length b) -> resized w fi size w' b -> Q tt w') ->
  wp (ensure_has_size (Z.of_nat fi) size) w Q.
Proof.
  intros Hinv Hfi Hsize HQ. pose proof (ni_buffers _ _ Hinv) as Hlb.
  pose proof (ni_sizes _ _ Hinv) as Hls. pose proof (ni_held _ _ Hinv) as Hheld.
  destruct (lookup_lt_is_Some_2 (w_buffers w) fi) as [p Hp]; [lia|].
  destruct (lookup_lt_is_Some_2 (w_sizes w) fi) as [s Hs]; [lia|].
  assert (Hback : set_held (filter (fun m => m <> mut_buffer) (mut_buffer :: w_held w)) w = w)
    by (rewrite unlock_lock by (rewrite Hheld; apply not_elem_of_nil); apply set_held_id).
  unfold ensure_has_size. wp_step. wp_step; [rewrite Hheld; apply not_elem_of_nil|].
  wp_step. unfold wp at 1, get_buffer. cbn [w_buffers w_sizes set_held].
  destruct (Z.ltb_spec (Z.of_nat fi) 0); [lia|]. rewrite Nat2Z.id, Hp, Hs. cbn [fst snd].
  assert (Hgrow : (s <? size) || (s =? 0) = true -> forall l b', w_mem w !! l = None ->
    Z.of_nat (length b') = size -> Q tt (new_buffer w fi l b')).
  { intros Hgt l b' Hl Hb'.
    destruct (grown_buffer mac w fi p s size l b') as (? & ? & ? & ? & ? & ?); try done.
    apply (HQ _ (Ptr l 0) b'); done || lia. }
  destruct ((s <? size) || (s =? 0)) eqn:Hgt; wp_step.
  - specialize (Hgrow eq_refl). wp_step. destruct p as [p|].
    + destruct (ni_block _ _ Hinv _ _ _ Hp Hs) as (Hoff & _ & _ & b & Hb & Hlen).
      destruct p as [l0 off]. cbn in Hoff, Hb. subst off.
      eapply wp_realloc; [exact Hb|]. intros l Hl. cbn [w_mem set_held] in *.
      unfold put_buffer. wp_step. wp_step. cbn -[filter].
      specialize (Hgrow l (take (Z.to_nat size) b ++
        replicate (Z.to_nat size - length b) (w_junk w)) Hl).
      unfold new_buffer, drop_buffer in Hgrow. rewrite Hp in Hgrow. cbn [p_blk] in Hgrow.
      rewrite unlock_lock by (rewrite Hheld; apply not_elem_of_nil).
      rewrite Nat2Z.id. rewrite length_app, length_take, length_replicate in Hgrow.
      replace (Z.of_nat (Z.to_nat size `min` length b + (Z.to_nat size - length b)))
        with size in Hgrow by lia. by apply Hgrow.
    + apply wp_alloc_block. intros l Hl. cbn [w_mem set_held] in *.
      unfold put_buffer. wp_step. wp_step. cbn -[filter].
      specialize (Hgrow l (replicate (Z.to_nat size) 0) Hl).
      unfold new_buffer, drop_buffer in Hgrow. rewrite Hp in Hgrow.
      rewrite unlock_lock by (rewrite Hheld; apply not_elem_of_nil).
      rewrite Nat2Z.id. rewrite length_replicate in Hgrow.
      rewrite Z2Nat.id in Hgrow by lia. by apply Hgrow.
  - wp_step. wp_step. cbn [w_held set_held]. apply orb_false_iff in Hgt as [Hgt Hz].
    change (set_held _ (set_held _ w)) with
      (set_held (filter (fun m => m <> mut_buffer) (mut_buffer :: w_held w)) w).
    rewrite Hback. destruct p as [p|]; [|by pose proof (ni_null _ _ Hinv _ _ Hp Hs); blia].
    destruct (ni_block _ _ Hinv _ _ _ Hp Hs) as (Hoff & _ & _ & b & Hb & Hlen).
    eapply HQ; try done; [apply keeps_refl|blia|]. split.
    + intros p0 b0 Hp0 Hb0. simplify_eq. split; [done|blia].
    + intros s' Hs'. simplify_eq. blia.
Qed.

(** ** The frame that [net_interface_send] builds *)

Lemma frame_bytes (b d m t1 t2 pay : list Z) :
  length d = 6%nat -> length m = 6%nat -> length t1 = 2%nat -> length t2 = 2%nat ->
  (14 + length pay <= length b)%nat ->
  slice 0 (14 + length pay)
    (splice 12 t2 (splice 14 pay (splice 6 m (splice 0 d (splice 12 t1 b)))))
    = d ++ m ++ t2 ++ pay.
Proof.
  intros Hd Hm Ht1 Ht2 Hb. explode d. explode m. explode t1. explode t2.
  do 14 (destruct b as [|? b]; [cbn in Hb; lia|]).
  unfold slice, splice. cbn. rewrite !drop_0, take_0. cbn [app].
  by rewrite take_app_length.
Qed.

Lemma frame_type (b d m t pay : list Z) :
  length d = 6%nat -> length m = 6%nat -> length t = 2%nat ->
  (14 + length pay <= length b)%nat ->
  slice 12 2 (splice 14 pay (splice 6 m (splice 0 d (splice 12 t b)))) = t.
Proof.
  intros Hd Hm Ht Hb.
  rewrite !slice_splice_disjoint with (off' := 14%nat) by slen.
  rewrite !slice_splice_disjoint with (off' := 6%nat) by slen.
  rewrite !slice_splice_disjoint with (off' := 0%nat) by slen.
  apply slice_splice_same; slen.
Qed.

(** ** Rules for frames *)

(** [net_inv] only looks at some fields of the state. *)
Lemma net_inv_fields mac w w' :
  w_mem w' = w_mem w -> w_buffers w' = w_buffers w -> w_sizes w' = w_sizes w ->
  w_busy w' = w_busy w -> w_fds w' = w_fds w -> w_held w' = w_held w ->
  net_inv mac w -> net_inv mac w'.
Proof.
  intros Hm Hb Hs Hbu Hf Hh [? ? ? ? ? ? ? ? ? ?].
  by split; rewrite ?Hm, ?Hb, ?Hs, ?Hbu, ?Hf, ?Hh.
Qed.

(** Overwriting a transmission buffer. *)
Lemma net_inv_write mac w i l b b' :
  net_inv mac w -> w_buffers w !! i = Some (Some (Ptr l 0)) -> w_mem w !! l = Some b ->
  length b' = length b -> net_inv mac (upd_mem w l b').
Proof.
  intros Hinv Hi Hl Hlen. destruct (static_not_tx _ _ Hinv) as [Hm Hb].
  assert (Htx : tx_block w l) by by exists i, (Ptr l 0).
  split; cbn; try apply Hinv.
  - rewrite lookup_insert_ne by congruence. apply Hinv.
  - rewrite lookup_insert_ne by congruence. apply Hinv.
  - intros j p s Hp Hs. destruct (ni_block _ _ Hinv _ _ _ Hp Hs) as (? & ? & ? & c & Hc & ?).
    split_and!; try done. destruct (decide (p_blk p = l)) as [Heq|].
    + exists b'. rewrite Heq, lookup_insert_eq. split; [done|].
      rewrite Heq in Hc. simplify_eq. lia.
    + exists c. by rewrite lookup_insert_ne.
Qed.

Lemma keeps_write w i l b b' :
  w_buffers w !! i = Some (Some (Ptr l 0)) -> w_mem w !! l = Some b -> keeps w (upd_mem w l b').
Proof.
  intros Hi Hl. assert (Htx : tx_block w l) by by exists i, (Ptr l 0).
  split; cbn; try done.
  - intros l' c Hc Hn. by rewrite lookup_insert_ne by congruence.
  - intros l' Hl'. by left.
  - intros l' [Hl' _]%lookup_insert_None. by left.
Qed.

Lemma keeps_fields w w1 w' :
  w_mem w' = w_mem w1 -> w_buffers w' = w_buffers w1 -> w_busy w' = w_busy w1 ->
  w_fds w' = w_fds w1 -> w_ip w' = w_ip w1 -> w_cache w' = w_cache w1 ->
  w_held w' = w_held w1 -> w_rx w' = w_rx w1 -> w_errno w' = w_errno w1 ->
  keeps w w1 -> keeps w w'.
Proof.
  intros Hm Hb Hbu Hf Hi Hc Hh Hr He [? ? ? ? ? ? ? ? ?].
  unfold tx_block in *.
  split; unfold tx_block; rewrite ?Hm, ?Hb, ?Hbu, ?Hf, ?Hi, ?Hc, ?Hh, ?Hr, ?He; done.
Qed.

Lemma busy_restored (busy : list bool) (i : nat) :
  busy !! i = Some false -> <[i := false]> (<[i := true]> busy) = busy.
Proof. intros Hi. by rewrite list_insert_insert_eq, list_insert_id. Qed.

(** The debug output changes nothing but the output. *)
Lemma wp_ethernet_fprint w l b (Q : string -> world -> Prop) :
  w_mem w !! l = Some b -> (14 <= length b)%nat -> (forall s, Q s w) ->
  wp (ethernet_fprint (Ptr l 0)) w Q.
Proof.
  intros Hb Hlen HQ. unfold ethernet_fprint, dst_mac, src_mac, ether_type, ptr_add.
  cbn [p_blk p_off].
  wp_step. wp_step; [split_and!; cbn; [done|lia|lia|lia]|].
  wp_step. wp_step; [split_and!; cbn; [done|lia|lia|lia]|].
  wp_step. wp_step; [split_and!; cbn; [done|lia|lia|lia]|].
  wp_step. apply HQ.
Qed.

(** A source block stays readable while the transmission buffer is written. *)
Lemma in_block_upd w p n b l b' :
  in_block w p n b -> p_blk p <> l -> in_block (upd_mem w l b') p n b.
Proof.
  intros (Hb & H1) Hne. split; [|done]. by rewrite lookup_upd_mem_ne.
Qed.

Lemma in_block_keeps w w' p n b :
  in_block w p n b -> ~ tx_block w (p_blk p) -> keeps w w' -> in_block w' p n b.
Proof. intros (Hb & H1) Hn Hk. split; [|done]. by apply (k_mem _ _ Hk). Qed.

Lemma not_tx_keeps w w' l b :
  w_mem w !! l = Some b -> ~ tx_block w l -> keeps w w' -> ~ tx_block w' l.
Proof. intros Hb Hn Hk [|]%(k_tx _ _ Hk); [done|congruence]. Qed.

Lemma upd_mem_upd_mem w l b b' : upd_mem (upd_mem w l b) l b' = upd_mem w l b'.
Proof. unfold upd_mem. cbn. by rewrite insert_insert_eq. Qed.

(** The bytes on the wire for a payload. *)
Definition eth_frame (dst src : list Z) (type : Z) (payload : list Z) : list Z :=
  dst ++ src ++ be_store 2 type ++ payload.

(** The payload bytes that a pointer and a length designate. *)
Definition bytes_at (b : list Z) (p : ptr) (n : Z) : list Z :=
  slice (Z.to_nat (p_off p)) (Z.to_nat n) b.

Lemma length_bytes_at w p n b : in_block w p n b -> length (bytes_at b p n) = Z.to_nat n.
Proof. intros (_ & H1 & H2 & H3). unfold bytes_at. apply length_slice. lia. Qed.

(** The stores of [net_interface_send] into the buffer, up to the debug output. *)
Lemma wp_fill_frame {B} mac w fi l b content len bc dst bd protocol
    (rest : M B) (Q : B -> world -> Prop) :
  net_inv mac w -> w_buffers w !! fi = Some (Some (Ptr l 0)) -> w_mem w !! l = Some b ->
  in_block w content len bc -> in_block w dst 6 bd ->
  ~ tx_block w (p_blk content) -> ~ tx_block w (p_blk dst) ->
  14 + len <= Z.of_nat (length b) ->
  wp rest (upd_mem w l (splice 14 (bytes_at bc content len) (splice 6 mac
    (splice 0 (bytes_at bd dst 6) (splice 12 (le_store 2 protocol) b))))) Q ->
  wp (store16 (ether_type (Ptr l 0)) protocol;;
      memcpy (dst_mac (Ptr l 0)) dst 6;;
      memcpy (src_mac (Ptr l 0)) net_interface_get_mac 6;;
      memcpy (eth_payload (Ptr l 0)) content len;; rest) w Q.
Proof.
  intros Hinv Hp Hb Hc Hd Hnc Hnd Hlen HQ.
  assert (Htx : tx_block w l) by by exists fi, (Ptr l 0).
  destruct (ni_mac _ _ Hinv) as (Hmac & Hml & _). destruct (static_not_tx _ _ Hinv) as [Hnm _].
  assert (Hlc : p_blk content <> l) by congruence. assert (Hld : p_blk dst <> l) by congruence.
  assert (Hlm : mac_loc <> l) by congruence.
  pose proof (length_bytes_at _ _ _ _ Hd) as Hdl. pose proof (length_bytes_at _ _ _ _ Hc) as Hcl.
  assert (0 <= len) by (destruct Hc as (_ & _ & ? & _); done).
  assert (Hm : in_block w net_interface_get_mac 6 mac)
    by (split_and!; cbn; [done|lia|lia|rewrite Hml; lia]).
  unfold bytes_at in *. pose proof (length_le_store 2 protocol) as Htl.
  set (dd := slice (Z.to_nat (p_off dst)) (Z.to_nat 6) bd) in *.
  set (cc := slice (Z.to_nat (p_off content)) (Z.to_nat len) bc) in *.
  unfold store16, dst_mac, src_mac, eth_payload, ether_type, ptr_add. cbn [p_blk p_off Z.add].
  wp_step. wp_step; [split_and!; cbn; [exact Hb|lia|lia|lia]|]. cbn [p_blk p_off].
  set (t := le_store 2 protocol) in *.
  wp_step. eapply wp_memcpy; [by apply in_block_upd; [exact Hd|]| |].
  { split_and!; cbn [p_blk p_off]; [apply lookup_upd_mem_eq|lia|lia|slen]. }
  cbn [p_blk p_off]. rewrite upd_mem_upd_mem. fold dd.
  wp_step. eapply wp_memcpy; [by apply in_block_upd; [exact Hm|]| |].
  { split_and!; cbn [p_blk p_off]; [apply lookup_upd_mem_eq|lia|lia|slen]. }
  cbn [p_blk p_off]. rewrite upd_mem_upd_mem.
  assert (Hsm : slice (Z.to_nat (p_off net_interface_get_mac)) (Z.to_nat 6) mac = mac)
    by (unfold slice; cbn; rewrite drop_0; apply take_ge; lia).
  rewrite Hsm. wp_step. eapply wp_memcpy; [by apply in_block_upd; [exact Hc|]| |].
  { split_and!; cbn [p_blk p_off]; [apply lookup_upd_mem_eq|lia|lia|slen]. }
  cbn [p_blk p_off]. by rewrite upd_mem_upd_mem.
Qed.

(** The rest of [net_interface_send]: debug output, network order, transmission. *)
Lemma wp_transmit mac w fi l b len (dbg : string -> M unit) (Q : unit -> world -> Prop) :
  net_inv mac w -> w_mem w !! l = Some b ->
  0 <= len -> len + 14 < 2 ^ 31 -> 14 + len <= Z.of_nat (length b) -> w_busy w !! fi = Some false ->
  (forall o e, Q tt (set_out o e (set_tx (w_tx w ++ [(Z.of_nat fi, slice 0 (Z.to_nat (len + 14))
      (splice 12 (le_store 2 (htons (le_load (slice 12 2 b)))) b))])
    (upd_mem w l (splice 12 (le_store 2 (htons (le_load (slice 12 2 b)))) b))))) ->
  (forall s w' (Q' : unit -> world -> Prop), (forall o e, Q' tt (set_out o e w')) -> wp (dbg s) w' Q') ->
  wp (debug_only debug (s ← ethernet_fprint (Ptr l 0); dbg s);;
      eth_header_hton (Ptr l 0);;
      set_busy (Z.of_nat fi) true;;
      tun_write (Z.of_nat fi) (Ptr l 0) (len + 14);;
      set_busy (Z.of_nat fi) false) w Q.
Proof.
  intros Hinv Hb Hlen0 Hint Hlen Hbusy HQ Hdbg. apply lookup_lt_Some in Hbusy as Hfl.
  pose proof (ni_busy _ _ Hinv) as Hbl. pose proof (ni_held _ _ Hinv) as Hheld.
  assert (Hnm : mut_status ∉ w_held w) by (rewrite Hheld; apply not_elem_of_nil).
  destruct (lookup_lt_is_Some_2 (w_fds w) fi) as [fd Hfd].
  { pose proof (ni_fds _ _ Hinv). lia. }
  wp_step. unfold debug_only, debug. wp_step.
  eapply wp_ethernet_fprint; [exact Hb|lia|]. intros str. apply Hdbg. intros o e.
  unfold eth_header_hton, ether_type, ptr_add. cbn [p_blk p_off Z.add].
  wp_step. wp_step. wp_step; [split_and!; cbn; [exact Hb|lia|lia|lia]|]. cbn [p_off].
  wp_step; [split_and!; cbn; [exact Hb|lia|lia|lia]|]. cbn [p_blk p_off].
  wp_step. apply wp_set_busy; [done|done|done|]. wp_step. rewrite tun_write_small by lia. wp_step.
  unfold wp at 1, tun_fd. destruct (Z.ltb_spec (Z.of_nat fi) 0); [lia|].
  cbn [w_fds set_busy_status upd_mem set_mem set_out]. rewrite Nat2Z.id, Hfd.
  wp_step. wp_step.
  { split_and!; cbn; [apply lookup_insert_eq|lia|lia|].
    rewrite length_splice; [lia|rewrite length_le_store; lia]. }
  wp_step. wp_step. wp_step.
  apply wp_set_busy; [done|cbn; by rewrite length_insert|cbn; by rewrite length_insert|].
  specialize (HQ o e). revert HQ. cbn. rewrite busy_restored by done. by destruct w.
Qed.

(** The bytes of the frame after its fields have been written one by one and the ether type
    has been swapped. *)
Lemma frame_written dd mac protocol cc b :
  let t := le_store 2 protocol in
  let b4 := splice 14 cc (splice 6 mac (splice 0 dd (splice 12 t b))) in
  let b5 := splice 12 (le_store 2 (htons (le_load t))) b4 in
  length dd = 6%nat -> length mac = 6%nat -> (14 + length cc <= length b)%nat ->
  length b4 = length b /\ slice 12 2 b4 = t /\ length b5 = length b /\
  slice 0 (14 + length cc) b5 = eth_frame dd mac protocol cc.
Proof.
  intros t b4 b5 Hd Hm Hb. pose proof (length_le_store 2 protocol) as Htl. fold t in Htl.
  assert (Hl4 : length b4 = length b) by (subst b4; slen).
  assert (Hl5 : length b5 = length b)
    by (subst b5; rewrite length_splice; [done|rewrite length_le_store; lia]).
  split_and!; [done|by apply frame_type; lia|done|].
  subst b5 b4. unfold htons. rewrite le_store_bswap, frame_bytes by (rewrite ?length_be_store; lia).
  subst t. by rewrite be_store_le_load.
Qed.

(** [net_interface_send] on the first free queue: the frame that goes out, and what
    stays. *)
Lemma wp_net_interface_send mac w fi content len bc dst bd protocol (Q : unit -> world -> Prop) :
  net_inv mac w -> first_free (w_busy w) = Some fi ->
  in_block w content len bc -> in_block w dst 6 bd ->
  ~ tx_block w (p_blk content) -> ~ tx_block w (p_blk dst) -> len + 14 < 2 ^ 31 ->
  (forall w', net_inv mac w' -> keeps w w' ->
    w_tx w' = w_tx w ++ [(Z.of_nat fi,
      eth_frame (bytes_at bd dst 6) mac protocol (bytes_at bc content len))] -> Q tt w') ->
  wp (net_interface_send content len dst protocol) w Q.
Proof.
  intros Hinv Hfree Hc Hd Hnc Hnd Hlen HQ.
  assert (Hlen0 : 0 <= len) by (destruct Hc as (_ & _ & ? & _); done).
  pose proof (first_free_spec _ _ Hfree) as [Hfi _]. apply lookup_lt_Some in Hfi as Hfl.
  pose proof (ni_busy _ _ Hinv) as Hbl. pose proof (ni_held _ _ Hinv) as Hheld.
  assert (Hnm : mut_status ∉ w_held w) by (rewrite Hheld; apply not_elem_of_nil).
  unfold net_interface_send. wp_step. eapply wp_available; try done.
  replace (u32 (len + sizeof_eth_header)) with (len + 14)
    by (unfold u32, sizeof_eth_header; rewrite Z.mod_small; lia).
  destruct (Z.eqb_spec (Z.of_nat fi) (-1)); [lia|].
  wp_step. eapply wp_ensure_has_size; [done|lia|lia|].
  intros w1 p b Hinv1 Hk1 Htx1 Hp Hoff Hb Hlb _. destruct p as [l off]. cbn in Hoff, Hb. subst off.
  wp_step. unfold wp at 1, get_buffer.
  destruct (Z.ltb_spec (Z.of_nat fi) 0); [lia|]. rewrite Nat2Z.id, Hp.
  destruct (lookup_lt_is_Some_2 (w_sizes w1) fi) as [s Hs].
  { pose proof (ni_sizes _ _ Hinv1). unfold TUN_QUEUES in *. lia. }
  rewrite Hs. cbn [fst]. wp_step. wp_step.
  pose proof (not_tx_keeps _ _ _ _ (proj1 Hc) Hnc Hk1) as Hnc1.
  pose proof (not_tx_keeps _ _ _ _ (proj1 Hd) Hnd Hk1) as Hnd1.
  pose proof (in_block_keeps _ _ _ _ _ Hc Hnc Hk1) as Hc1.
  pose proof (in_block_keeps _ _ _ _ _ Hd Hnd Hk1) as Hd1.
  eapply (wp_fill_frame mac w1 fi l b); try done; [lia|].
  pose proof (length_bytes_at _ _ _ _ Hd) as Hdl. pose proof (length_bytes_at _ _ _ _ Hc) as Hcl.
  pose proof (proj1 (proj2 (ni_mac _ _ Hinv1))) as Hml.
  set (dd := bytes_at bd dst 6) in *. set (cc := bytes_at bc content len) in *.
  destruct (frame_written dd mac protocol cc b) as (Hl4 & Hty & Hl5 & Hframe); [lia|lia|lia|].
  set (t := le_store 2 protocol) in *.
  set (b4 := splice 14 cc (splice 6 mac (splice 0 dd (splice 12 t b)))) in *.
  eapply (wp_transmit mac _ fi l b4); cbn [w_busy upd_mem set_mem w_mem].
  { by eapply net_inv_write. }
  { apply lookup_insert_eq. }
  { lia. } { lia. } { lia. }
  { rewrite (k_busy _ _ Hk1). by apply first_free_spec. }
  2: { intros str w' Q' HQ'. repeat wp_step. exact (HQ' _ _). }
  intros o e. rewrite Hty, upd_mem_upd_mem. set (b5 := splice 12 _ b4) in *.
  replace (Z.to_nat (len + 14)) with (14 + length cc)%nat by lia.
  rewrite Hframe. apply HQ.
  - eapply (net_inv_fields mac (upd_mem w1 l b5)); try done. by eapply net_inv_write.
  - eapply (keeps_fields w (upd_mem w1 l b5)); try done.
    eapply keeps_trans; [exact Hk1|]. by eapply keeps_write.
  - cbn. by rewrite Htx1.
Qed.

(** ** Blocks of other owners *)

(** The rest of the program may do what it wants with the blocks that net_interface.c
    does not own. *)
Lemma net_inv_other mac w m :
  net_inv mac w -> (forall l, reserved w l -> m !! l = w_mem w !! l) -> net_inv mac (set_mem m w).
Proof.
  intros Hinv Hm. split; cbn; try apply Hinv.
  - rewrite Hm by (by left). apply Hinv.
  - rewrite Hm by (right; by left). apply Hinv.
  - intros i p s Hp Hs. rewrite Hm by (right; right; by exists i, p). by eapply Hinv.
Qed.

Lemma net_inv_upd mac w l b :
  net_inv mac w -> ~ reserved w l -> net_inv mac (upd_mem w l b).
Proof.
  intros Hinv Hl. apply net_inv_other; [done|]. intros l' Hl'.
  apply lookup_insert_ne. congruence.
Qed.

Lemma net_inv_delete mac w l :
  net_inv mac w -> ~ reserved w l -> net_inv mac (set_mem (delete l (w_mem w)) w).
Proof.
  intros Hinv Hl. apply net_inv_other; [done|]. intros l' Hl'.
  apply lookup_delete_ne. congruence.
Qed.

Lemma reserved_alloc mac w l : net_inv mac w -> reserved w l -> is_Some (w_mem w !! l).
Proof.
  intros Hinv [-> | [-> | Htx]].
  - rewrite (proj1 (ni_mac _ _ Hinv)). by eexists.
  - rewrite (ni_broadcast _ _ Hinv). by eexists.
  - by eapply tx_block_alloc.
Qed.

Lemma fresh_not_reserved mac w l : net_inv mac w -> w_mem w !! l = None -> ~ reserved w l.
Proof. intros Hinv Hl [x Hx]%(reserved_alloc _ _ _ Hinv). congruence. Qed.

Lemma reserved_keeps mac w w' l b :
  net_inv mac w -> keeps w w' -> w_mem w !! l = Some b -> ~ reserved w l -> ~ reserved w' l.
Proof.
  intros Hinv Hk Hl Hr [-> | [-> | [Htx|Hn]%(k_tx _ _ Hk)]]; try (apply Hr; by left);
    try (apply Hr; right; by left); [|congruence]. apply Hr. right; by right.
Qed.

End NetFacts.
