(* ===== verification/NetSpec.v ===== *)
(** * The contract of the network interface

    What net_interface.c and the queue status of tun_device.c promise to the
    protocols: initialisation, the frame that [net_interface_send] puts on the wire,
    the answers of [net_interface_read], the choice of a queue and the clean-up. *)

From S2P Require Import Prelude Words Format HashMap World Wp Tun NetInterface NetFacts.
Import Format World Wp Tun Ethernet NetInterface NetFacts.

Module NetSpec.

(** The static variables when [main] starts, after [tun_alloc] filled [tun_fds]. *)
Definition static_world (junk : Z) (fds : list Z) (rx : list rx_event) : world :=
  mk_world {[mac_loc := replicate 6 0; broadcast_loc := replicate 6 255]} junk [] fds
    (replicate 10 false) 0 (replicate 10 None) (replicate 10 0) CacheNull "" rx [] "" "".

(** Every queue is free and has its file descriptor. *)
Definition ready_world (mac : list Z) (ip : Z) (rx : list rx_event) : world :=
  set_ip ip (upd_mem (static_world 0 (seqZ 3 10) rx) mac_loc mac).

Lemma started_inv mac ip junk fds rx :
  length mac = 6%nat -> bytes_ok mac -> Z.of_nat (length fds) = TUN_QUEUES ->
  net_inv mac (set_ip ip (upd_mem (static_world junk fds rx) mac_loc mac)).
Proof.
  intros Hl Hb Hfds. split; cbn -[replicate]; try done.
  - by intros i s _ [-> _]%lookup_replicate_1.
  - by intros i p s [? _]%lookup_replicate_1.
  - by intros i j p q [? _]%lookup_replicate_1.
Qed.

Lemma ready_inv mac ip rx :
  length mac = 6%nat -> bytes_ok mac -> net_inv mac (ready_world mac ip rx).
Proof. intros. by apply started_inv. Qed.

(** ** Initialisation *)

(** [net_interface_init] establishes the invariant of the network interface from
    the static initial values, with the address [inet_pton] finds and the first six
    bytes of its second argument as the MAC address. *)
Theorem net_interface_init_correct inet_pton src_ip src_mac ip junk fds rx :
  inet_pton src_ip = Some ip -> (6 <= length src_mac)%nat -> bytes_ok src_mac ->
  Z.of_nat (length fds) = TUN_QUEUES ->
  exists w', net_interface_init inet_pton src_ip src_mac (static_world junk fds rx) = Ok tt w' /\
    net_inv (take 6 src_mac) w' /\ w_ip w' = ip.
Proof.
  intros Hip Hlen Hb Hfds.
  exists (set_ip ip (upd_mem (static_world junk fds rx) mac_loc (take 6 src_mac))). split_and!.
  - unfold net_interface_init. destruct (Nat.ltb_spec (length src_mac) 6); [lia|].
    rewrite Hip. unfold mbind, M_bind, store_bytes, net_interface_get_mac. cbn [p_blk p_off].
    change (w_mem (static_world junk fds rx) !! mac_loc) with (Some (replicate 6 0)). cbn -[take].
    rewrite length_take. replace (6 `min` length src_mac)%nat with 6%nat by lia.
    rewrite splice_all by (rewrite length_take; cbn -[Nat.min]; lia). done.
  - apply started_inv; [rewrite length_take; lia|by apply Forall_take|done].
  - done.
Qed.

Lemma net_interface_init_correct_witness :
  exists w', net_interface_init (fun _ => Some 67108874) "10.0.0.4" (chars "00:0c:29:6d:50:25")
      (static_world 0 (seqZ 3 10) []) = Ok tt w' /\
    net_inv (take 6 (chars "00:0c:29:6d:50:25")) w' /\ w_ip w' = 67108874.
Proof.
  apply (net_interface_init_correct (fun _ => Some 67108874)); [done|cbn; lia| |done].
  repeat constructor; done.
Defined.

(** The arguments of [main] give the interface the six characters [00:0c:] as its
    MAC address, 30:30:3a:30:63:3a, and not the address 00:0c:29:6d:50:25 they
    spell: the source address of every frame follows from it. *)
Theorem main_mac_is_the_text ip junk fds rx :
  exists w', net_interface_init (fun _ => Some ip) "10.0.0.4" (chars "00:0c:29:6d:50:25")
      (static_world junk fds rx) = Ok tt w' /\
    w_mem w' !! mac_loc = Some [0x30; 0x30; 0x3a; 0x30; 0x63; 0x3a] /\
    w_mem w' !! mac_loc <> Some [0x00; 0x0c; 0x29; 0x6d; 0x50; 0x25].
Proof. eexists. split; [reflexivity|]. split; [reflexivity|]. vm_compute. congruence. Qed.

(** ** Sending *)

(** C10 [net_interface_send] returns, and hands exactly one frame to the kernel, on the
    first free queue: destination, own MAC address, protocol in network order, and the
    [len] bytes of the payload, whatever a previous frame left in the queue's buffer.
    It keeps the invariant, every block outside its own buffers, the queue status,
    the cache, and releases its mutexes.  The frame has less than [2 ^ 31] bytes:
    [tun_write] takes an [int] ([tun_long_count] is what happens beyond). *)
Theorem net_interface_send_correct mac w fi content len bc dst bd protocol :
  net_inv mac w -> first_free (w_busy w) = Some fi ->
  in_block w content len bc -> in_block w dst 6 bd ->
  ~ tx_block w (p_blk content) -> ~ tx_block w (p_blk dst) -> len + 14 < 2 ^ 31 ->
  exists w', net_interface_send content len dst protocol w = Ok tt w' /\
    net_inv mac w' /\ keeps w w' /\
    w_tx w' = w_tx w ++ [(Z.of_nat fi,
      eth_frame (bytes_at bd dst 6) mac protocol (bytes_at bc content len))].
Proof.
  intros H1 H2 H3 H4 H5 H6 H7.
  destruct (wp_run (net_interface_send content len dst protocol) w (fun _ w' =>
    net_inv mac w' /\ keeps w w' /\ w_tx w' = w_tx w ++ [(Z.of_nat fi,
      eth_frame (bytes_at bd dst 6) mac protocol (bytes_at bc content len))]))
    as ([] & w' & Hrun & Hw'); [|by exists w'].
  eapply wp_net_interface_send; eauto.
Qed.

Definition payload_world : world :=
  upd_mem (upd_mem (ready_world [2; 0; 0; 0; 0; 1] 67108874 []) 3%positive [0xaa; 0xbb; 0xcc])
    4%positive [2; 0; 0; 0; 0; 9].

Lemma payload_inv : net_inv [2; 0; 0; 0; 0; 1] payload_world.
Proof.
  assert (Hbuf : forall l, l <> mac_loc -> l <> broadcast_loc ->
    ~ reserved (ready_world [2; 0; 0; 0; 0; 1] 67108874 []) l).
  { intros l H1 H2 [|[|(i & p & Hp & _)]]; try done. 
    by apply lookup_replicate_1 in Hp as [? _]. }
  apply net_inv_upd; [apply net_inv_upd; [apply ready_inv|]|].
  - done.
  - repeat constructor; done.
  - by apply Hbuf.
  - by apply (Hbuf 4%positive).
Qed.

Lemma payload_no_tx l : ~ tx_block payload_world l.
Proof. intros (i & p & Hp & _). by apply lookup_replicate_1 in Hp as [? _]. Qed.

Lemma net_interface_send_correct_witness :
  exists w', net_interface_send (Ptr 3 1) 2 (Ptr 4 0) ETH_P_IP payload_world = Ok tt w' /\
    net_inv [2; 0; 0; 0; 0; 1] w' /\ keeps payload_world w' /\
    w_tx w' = [(0, [2; 0; 0; 0; 0; 9; 2; 0; 0; 0; 0; 1; 8; 0; 0xbb; 0xcc])].
Proof.
  apply (net_interface_send_correct [2; 0; 0; 0; 0; 1] payload_world 0 (Ptr 3 1) 2
    [0xaa; 0xbb; 0xcc] (Ptr 4 0) [2; 0; 0; 0; 0; 9] ETH_P_IP payload_inv).
  - reflexivity.
  - split_and!; cbn; [reflexivity|lia|lia|lia].
  - split_and!; cbn; [reflexivity|lia|lia|lia].
  - apply payload_no_tx.
  - apply payload_no_tx.
  - reflexivity.
Defined.

(** ** The choice of a queue *)

Lemma busy_scan_overrun w fuel i :
  Forall (eq true) (drop i (w_busy w)) -> (length (w_busy w) - i < fuel)%nat ->
  busy_scan fuel (Z.of_nat i) w = Undefined OutOfBounds.
Proof.
  revert i. induction fuel as [|fuel IH]; intros i Hall Hfuel; [lia|]. cbn [busy_scan].
  unfold mbind, M_bind, read_busy. destruct (Z.ltb_spec (Z.of_nat i) 0); [lia|].
  rewrite Nat2Z.id. destruct (w_busy w !! i) as [b|] eqn:Hi; [|done].
  rewrite (drop_S _ _ _ Hi) in Hall. apply Forall_cons_iff in Hall as [<- Hall].
  apply lookup_lt_Some in Hi. replace (Z.of_nat i + 1) with (Z.of_nat (S i)) by lia.
  apply IH; [done|lia].
Qed.

Lemma available_overrun w :
  mut_status ∉ w_held w -> Z.of_nat (length (w_busy w)) = TUN_QUEUES ->
  Forall (eq true) (w_busy w) -> available w = Undefined OutOfBounds.
Proof.
  intros Hm Hlen Hall. unfold available, mbind, M_bind, mutex_lock. rewrite decide_False by done.
  change 0 with (Z.of_nat 0). unfold TUN_QUEUES in *. rewrite busy_scan_overrun; [done|done|].
  cbn. lia.
Qed.

(** [available] returns the first free queue when there is one.  When every queue is
    busy it reads past the end of [busy_status]: the bound is only tested after the
    loop, so the value -1 that its callers test for is never returned. *)
Theorem available_correct w :
  mut_status ∉ w_held w -> Z.of_nat (length (w_busy w)) = TUN_QUEUES ->
  match first_free (w_busy w) with
  | Some i => available w = Ok (Z.of_nat i) w
  | None => Forall (eq true) (w_busy w) /\ available w = Undefined OutOfBounds
  end.
Proof.
  intros Hm Hlen. destruct (first_free (w_busy w)) as [i|] eqn:Hf; [by apply available_run|].
  apply first_free_None in Hf. split; [done|by apply available_overrun].
Qed.

Lemma available_correct_witness :
  (mut_status ∉ w_held (set_busy_status (replicate 10 true) payload_world)) /\
  available (set_busy_status (replicate 10 true) payload_world) = Undefined OutOfBounds /\
  available payload_world = Ok 0 payload_world.
Proof.
  split_and!; [apply not_elem_of_nil|
    apply (available_correct (set_busy_status (replicate 10 true) payload_world));
      [apply not_elem_of_nil|done]|
    apply (available_correct payload_world); [apply not_elem_of_nil|done]].
Defined.

(** ** Receiving *)

(** The state after the kernel delivered [ev] into the bytes [b] at [buf]. *)
Definition after_read (w : world) (buf : ptr) (len : Z) (b : list Z) (ev : rx_event)
    (rx : list rx_event) : Z * world :=
  match ev with
  | RxFrame bs =>
      (Z.min len (Z.of_nat (length bs)),
       upd_mem (set_rx (w_errno w) rx w) (p_blk buf)
         (splice (Z.to_nat (p_off buf)) (take (Z.to_nat len) bs) b))
  | RxError msg => (-1, set_rx msg rx w)
  end.

Lemma net_interface_read_run mac w fi buf len b :
  net_inv mac w -> first_free (w_busy w) = Some fi -> in_block w buf len b -> len < 2 ^ 31 ->
  match w_rx w with
  | [] => (exists w', net_interface_read buf len w = Blocked w')
  | ev :: rx =>
      net_interface_read buf len w =
        Ok (fst (after_read w buf len b ev rx)) (snd (after_read w buf len b ev rx))
  end.
Proof.
  intros Hinv Hf (Hb & H1 & H2 & H3) Hint.
  pose proof (ni_held _ _ Hinv) as Hheld. pose proof (ni_busy _ _ Hinv) as Hbl.
  assert (Hm : mut_status ∉ w_held w) by (rewrite Hheld; apply not_elem_of_nil).
  pose proof (first_free_spec _ _ Hf) as [Hfi _]. apply lookup_lt_Some in Hfi as Hfl.
  destruct (lookup_lt_is_Some_2 (w_fds w) fi) as [fd Hfd]; [pose proof (ni_fds _ _ Hinv); lia|].
  unfold net_interface_read, mbind, M_bind. rewrite (available_run w fi) by done.
  destruct (Z.eqb_spec (Z.of_nat fi) (-1)); [lia|].
  assert (Hset : forall w0 v, w_held w0 = [] -> length (w_busy w0) = length (w_busy w) ->
    set_busy (Z.of_nat fi) v w0 = Ok tt (set_busy_status (<[fi := v]> (w_busy w0)) w0)).
  { intros w0 v Hh0 Hl0. destruct (wp_run (set_busy (Z.of_nat fi) v) w0
      (fun _ w1 => w1 = set_busy_status (<[fi := v]> (w_busy w0)) w0)) as ([] & w1 & -> & ->);
      [|done].
    apply wp_set_busy; [rewrite Hh0; apply not_elem_of_nil|lia|lia|done]. }
  rewrite Hset by done. unfold tun_read, mbind, M_bind, tun_fd.
  rewrite (i32_small len), (proj2 (Z.ltb_ge len 0)) by lia.
  destruct (Z.ltb_spec (Z.of_nat fi) 0); [lia|].
  cbn [w_fds set_busy_status]. rewrite Nat2Z.id, Hfd. unfold get. cbn [w_rx set_busy_status].
  destruct (w_rx w) as [|[bs|msg] rx] eqn:Hrx.
  - eexists. reflexivity.
  - unfold modify, store_bytes. cbn [w_mem set_rx set_busy_status]. rewrite Hb.
    rewrite (proj2 (Z.leb_le 0 (p_off buf))) by done.
    rewrite (proj2 (Z.leb_le _ _)) by (rewrite length_take; lia). cbn [andb mret M_ret].
    rewrite Hset by (done || cbn; apply length_insert).
    cbn. rewrite busy_restored by done. by destruct w.
  - unfold modify. cbn [mret M_ret]. rewrite Hset by (done || cbn; apply length_insert).
    cbn. rewrite busy_restored by done. by destruct w.
Qed.

(** C26 [net_interface_read] consumes one answer of the kernel: a frame is stored cut to
    [len] bytes, the rest of the buffer keeping what it held; an error returns -1 and
    leaves the whole buffer as it was; without an answer it blocks.  The queue status
    and the mutexes are restored.  [len] is below [2 ^ 31], since [tun_read] takes an
    [int] ([tun_long_count] is what happens beyond). *)
Theorem net_interface_read_correct mac w fi buf len b :
  net_inv mac w -> first_free (w_busy w) = Some fi -> in_block w buf len b -> len < 2 ^ 31 ->
  match w_rx w with
  | [] => (exists w', net_interface_read buf len w = Blocked w')
  | ev :: rx =>
      net_interface_read buf len w =
        Ok (fst (after_read w buf len b ev rx)) (snd (after_read w buf len b ev rx))
  end.
Proof. apply net_interface_read_run. Qed.

Lemma net_interface_read_correct_witness :
  net_interface_read (Ptr 3 0) 3 (set_rx "" [RxFrame [1; 2; 3; 4]] payload_world) =
    Ok 3 (upd_mem (set_rx "" [] payload_world) 3%positive [1; 2; 3]).
Proof.
  apply (net_interface_read_correct [2; 0; 0; 0; 0; 1]
    (set_rx "" [RxFrame [1; 2; 3; 4]] payload_world) 0 (Ptr 3 0) 3 [0xaa; 0xbb; 0xcc]).
  - by apply (net_inv_fields _ payload_world), payload_inv.
  - reflexivity.
  - split_and!; cbn; [reflexivity|lia|lia|lia].
  - reflexivity.
Defined.

(** ** Clean-up *)

Definition owns (ps : list vptr) (l : loc) : bool :=
  existsb (fun p => bool_decide (p_blk <$> p = Some l)) ps.

Lemma owns_elem ps l : owns ps l = true <-> exists p, Some p ∈ ps /\ p_blk p = l.
Proof.
  unfold owns. rewrite existsb_exists. setoid_rewrite bool_decide_eq_true. split.
  - intros ([p|] & Hp%list_elem_of_In & Heq); [|done]. injection Heq as <-. by exists p.
  - intros (p & Hp%list_elem_of_In & <-). by exists (Some p).
Qed.

Lemma free_all_run ps w :
  (forall p, Some p ∈ ps -> p_off p = 0 /\ is_Some (w_mem w !! p_blk p)) ->
  (forall i j p q, ps !! i = Some (Some p) -> ps !! j = Some (Some q) ->
    p_blk p = p_blk q -> i = j) ->
  exists m, free_all ps w = Ok tt (set_mem m w) /\
    forall l, m !! l = if owns ps l then None else w_mem w !! l.
Proof.
  revert w. induction ps as [|[p|] ps IH]; intros w Hall Hdist; cbn [free_all].
  - exists (w_mem w). split; [by destruct w|done].
  - destruct (Hall p ltac:(left)) as [Hoff [b Hb]].
    unfold mbind, M_bind, free_ at 1. rewrite Hb, Hoff. cbn [Z.eqb].
    destruct (IH (set_mem (delete (p_blk p) (w_mem w)) w)) as (m & -> & Hm).
    + intros q Hq. destruct (Hall q ltac:(by right)) as [Ho Hs]. split; [done|].
      cbn. rewrite lookup_delete_ne; [done|]. intros Heq.
      apply list_elem_of_lookup in Hq as [i Hi].
      by specialize (Hdist 0%nat (S i) p q eq_refl Hi Heq).
    + intros i j q q' Hq Hq' Heq. by specialize (Hdist (S i) (S j) q q' Hq Hq' Heq) as [= ->].
    + exists m. split; [done|]. intros l. rewrite Hm. cbn.
      destruct (decide (p_blk p = l)) as [->|].
      * rewrite bool_decide_true by done. cbn. rewrite lookup_delete_eq. by destruct (owns ps l).
      * rewrite bool_decide_false by congruence. by rewrite lookup_delete_ne.
  - unfold mbind, M_bind, free_ at 1. destruct (IH w) as (m & -> & Hm).
    + intros q Hq. apply Hall. by right.
    + intros i j q q' Hq Hq' Heq. by specialize (Hdist (S i) (S j) q q' Hq Hq' Heq) as [= ->].
    + by exists m.
Qed.

Lemma net_interface_destroy_run mac w :
  net_inv mac w ->
  exists m, net_interface_destroy w = Ok tt (set_mem m w) /\
    forall l, m !! l = if owns (w_buffers w) l then None else w_mem w !! l.
Proof.
  intros Hinv. apply free_all_run; [|by eapply ni_distinct].
  intros p [i Hp]%list_elem_of_lookup. split.
  - destruct (lookup_lt_is_Some_2 (w_sizes w) i) as [s Hs].
    { apply lookup_lt_Some in Hp. pose proof (ni_buffers _ _ Hinv).
      pose proof (ni_sizes _ _ Hinv). lia. }
    by destruct (ni_block _ _ Hinv _ _ _ Hp Hs).
  - apply (tx_block_alloc mac); [done|]. by exists i, p.
Qed.

(** [net_interface_destroy] frees the buffer of every queue that has one, each once,
    and nothing else. *)
Theorem net_interface_destroy_correct mac w :
  net_inv mac w ->
  exists m, net_interface_destroy w = Ok tt (set_mem m w) /\
    forall l, m !! l = if owns (w_buffers w) l then None else w_mem w !! l.
Proof. apply net_interface_destroy_run. Qed.

Lemma net_interface_destroy_correct_witness :
  exists m, net_interface_destroy payload_world = Ok tt (set_mem m payload_world) /\
    forall l, m !! l = if owns (w_buffers payload_world) l then None
                       else w_mem payload_world !! l.
Proof. apply (net_interface_destroy_correct _ _ payload_inv). Defined.

End NetSpec.
