(* ===== verification/Arp.v ===== *)
(** * ARP (src/src/protocols/arp.h and arp.c)

    The cache maps the 64-bit key of [to_key] to a MAC address.  The hash map
    stores pointers: its keys point to 8-byte cells and its values to 6-byte
    cells of the heap, and [hash] and [equals] read the cells, so the key
    operations depend on the memory at the time of the call. *)

From S2P Require Import Prelude Words Format HashMap HashMapIter World Tun NetInterface.
Import Format HashMap HashMapIter World Tun Ethernet NetInterface.

Module Arp.

(** [DEBUG] of arp.c. *)
Definition debug : bool := true.

Definition ARP_ETHERNET : Z := 1.
Definition ARP_IPV4 : Z := 0x0800.
Definition ARP_REQUEST : Z := 1.
Definition ARP_REPLY : Z := 2.

(** [struct arp_header] *)
Definition sizeof_arp_header : Z := 8.
Definition hw_type (h : ptr) : ptr := h.
Definition pro_type (h : ptr) : ptr := ptr_add h 2.
Definition hw_size (h : ptr) : ptr := ptr_add h 4.
Definition pro_size (h : ptr) : ptr := ptr_add h 5.
Definition opcode (h : ptr) : ptr := ptr_add h 6.
Definition arp_data (h : ptr) : ptr := ptr_add h 8.

(** [struct arp_ipv4] *)
Definition sizeof_arp_ipv4 : Z := 20.
Definition ar_src_mac (c : ptr) : ptr := c.
Definition ar_src_ip (c : ptr) : ptr := ptr_add c 6.
Definition ar_dst_mac (c : ptr) : ptr := ptr_add c 10.
Definition ar_dst_ip (c : ptr) : ptr := ptr_add c 16.

Definition arp_header_fprint (h : ptr) : M string :=
  ht ← load16 (hw_type h);
  hs ← load8 (hw_size h);
  pt ← load16 (pro_type h);
  ps ← load8 (pro_size h);
  op ← load16 (opcode h);
  mret ("ARP header [hw=" +:+ fmt_u ht +:+ ", hw_size=" +:+ fmt_u hs +:+ ", protocol=" +:+
        fmt_u pt +:+ ", protocol_size=" +:+ fmt_u ps +:+ ", opcode=" +:+ fmt_u op +:+ "]").

(** ** The transition table *)

Definition ARP_CACHE_INITIAL_SIZE : Z := 16.

(** [*((uint64_t* )ptr)] *)
Definition read_u64 (m : gmap loc (list Z)) (k : vptr) : res Z :=
  match k with
  | None => Fault NullDeref
  | Some p =>
      match m !! p_blk p with
      | None => Fault Dangling
      | Some b =>
          if (0 <=? p_off p) && (p_off p + 8 <=? Z.of_nat (length b))
          then Val (le_load (slice (Z.to_nat (p_off p)) 8 b))
          else Fault OutOfBounds
      end
  end.

Definition arp_hash (m : gmap loc (list Z)) (k : vptr) : res Z := read_u64 m k.
Definition arp_equals (m : gmap loc (list Z)) (a b : vptr) : res bool :=
  x ← read_u64 m a; y ← read_u64 m b; mret (x =? y).

Definition arp_ops (m : gmap loc (list Z)) : KeyOps vptr := {|
  hash := arp_hash m;
  equals := arp_equals m
|}.

Definition to_key (pro_type src_ip : Z) : Z := u64 (Z.shiftl pro_type 32 + src_ip).

(** The map behind [arp_cache]; the [assert(map != NULL)] of hashmap.c. *)
Definition the_cache : M (hashmap vptr vptr) :=
  c ← get w_cache;
  match c with
  | CacheNull => abort_
  | CacheMap map => mret map
  | CacheFreed => undefined Dangling
  end.

Definition cache_contains (key : ptr) : M bool :=
  map ← the_cache; m ← get w_mem;
  lift (hashmap_contains_key (arp_ops m) map (Some key)).
Definition cache_get (key : ptr) : M vptr :=
  map ← the_cache; m ← get w_mem;
  lift (hashmap_get (arp_ops m) map (Some key)).
Definition cache_put (key : ptr) (data : vptr) : M unit :=
  map ← the_cache; m ← get w_mem;
  map ← lift (hashmap_put (arp_ops m) map (Some key) data);
  modify (set_cache (CacheMap map)).

Definition is_in_arp_cache (pro_type src_ip : Z) : M bool :=
  with_local (le_store 8 (to_key pro_type src_ip)) (fun key =>
    mutex_lock cache_mutex;;
    out ← cache_contains key;
    mutex_unlock cache_mutex;;
    mret out).

Definition set_in_arp_cache (pro_type src_ip : Z) (src_mac : ptr) : M unit :=
  with_local (le_store 8 (to_key pro_type src_ip)) (fun key =>
    dst_mac ← cache_get key;
    assert_ (bool_decide (dst_mac <> None));;
    dst ← deref dst_mac;
    memcpy dst src_mac 6;;
    mutex_lock cache_mutex;;
    cache_put key dst_mac;;
    mutex_unlock cache_mutex).

Definition add_to_arp_cache (pro_type src_ip : Z) (src_mac : ptr) : M unit :=
  dst_key ← calloc 8;
  dst_mac ← calloc 6;
  store64 dst_key (to_key pro_type src_ip);;
  memcpy dst_mac src_mac 6;;
  mutex_lock cache_mutex;;
  cache_put dst_key (Some dst_mac);;
  mutex_unlock cache_mutex.

(** ** Byte order *)

Definition arp_header_hton (h : ptr) : M unit :=
  op ← load16 (opcode h); store16 (opcode h) (htons op);;
  ht ← load16 (hw_type h); store16 (hw_type h) (htons ht);;
  pt ← load16 (pro_type h); store16 (pro_type h) (htons pt).
Definition arp_header_ntoh (h : ptr) : M unit :=
  op ← load16 (opcode h); store16 (opcode h) (ntohs op);;
  ht ← load16 (hw_type h); store16 (hw_type h) (ntohs ht);;
  pt ← load16 (pro_type h); store16 (pro_type h) (ntohs pt).

(** ** Life cycle *)

Definition arp_init : M unit :=
  map ← lift (hashmap_alloc ARP_CACHE_INITIAL_SIZE);
  modify (set_cache (CacheMap map)).

(** The loop of [arp_destroy]; the iterator walks the map as it is in [w_cache].
    The out-parameters [key] and [cell] are the result of [hashmap_it_next]. *)
Fixpoint destroy_loop (fuel : nat) (past : option bool) (it : hashmap_iterator) : M unit :=
  match fuel with
  | O => undefined Diverges
  | S fuel =>
      map ← the_cache;
      r ← lift (hashmap_it_has_next past {[1%positive := map]} it);
      if fst r : bool then
        n ← lift (hashmap_it_next past {[1%positive := map]} (snd r));
        match fst n with
        | Some (key, cell) =>
            debug_only debug (
              m ← get w_mem;
              ip_and_pro ← lift (read_u64 m key);
              LOG_DEBUG debug "[ARP] [CACHE] IP=";;
              printf (ipv4_fprint (u32 ip_and_pro));;
              printf " MAC=";;
              c ← deref cell;
              mac ← load_bytes c 6;
              printf (mac_fprint mac);;
              printf "
");;
            free_ key;;
            free_ cell
        | None => mret tt
        end;;
        destroy_loop fuel past (snd n)
      else mret tt
  end.

(** [free_hashmap] of hashmap.c, on [arp_cache], which keeps the pointer. *)
Definition free_hashmap : M unit :=
  the_cache;;
  modify (set_cache CacheFreed).

Definition arp_destroy (past : option bool) : M unit :=
  map ← the_cache;
  LOG_DEBUG debug ("[ARP] Dumping cache " +:+ fmt_u (hashmap_size map) +:+ " :
");;
  destroy_loop (S (Z.to_nat (hashmap_capacity map))) past
    (hashmap_it_set_map hashmap_it_alloc 1%positive);;
  free_hashmap.

(** ** Reply, reception, resolution *)

Definition arp_reply (h : ptr) : M unit :=
  let content := arp_data h in
  si ← load32 (ar_src_ip content);
  store32 (ar_dst_ip content) si;;
  memcpy (ar_dst_mac content) (ar_src_mac content) 6;;
  ip ← net_interface_get_ip;
  store32 (ar_src_ip content) ip;;
  memcpy (ar_src_mac content) net_interface_get_mac 6;;
  store16 (opcode h) ARP_REPLY;;
  debug_only debug (
    printf "[DEBUG] [ARP] Replied ";;
    s ← arp_header_fprint h;
    printf s;;
    printf "
");;
  arp_header_hton h;;
  net_interface_send h (sizeof_arp_header + sizeof_arp_ipv4) (ar_dst_mac content) ETH_P_ARP.

Definition arp_receive (eth_header : ptr) : M unit :=
  let h := eth_payload eth_header in
  arp_header_ntoh h;;
  debug_only debug (
    printf "[DEBUG] [ARP] Received ";;
    s ← arp_header_fprint h;
    printf s;;
    printf "
");;
  ht ← load16 (hw_type h);
  hs ← load8 (hw_size h);
  pt ← load16 (pro_type h);
  ps ← load8 (pro_size h);
  if (ht =? ARP_ETHERNET) && (hs =? 6) then
    if (pt =? ARP_IPV4) && (ps =? 4) then
      let content := arp_data h in
      si ← load32 (ar_src_ip content);
      known ← is_in_arp_cache pt si;
      (if known : bool then set_in_arp_cache pt si (ar_src_mac content) else mret tt);;
      di ← load32 (ar_dst_ip content);
      ip ← net_interface_get_ip;
      if di =? ip then
        (if negb known then
           debug_only debug (
             LOG_DEBUG debug "[ARP] [CACHE] Added ";;
             printf (ipv4_fprint si);;
             printf " matching MAC ";;
             sm ← load_bytes (ar_src_mac content) 6;
             printf (mac_fprint sm);;
             printf ".
");;
           add_to_arp_cache pt si (ar_src_mac content)
         else mret tt);;
        op ← load16 (opcode h);
        if op =? ARP_REQUEST then arp_reply h
        else if op =? ARP_REPLY then mret tt
        else ERROR ("ARP: Unsupported opcode " +:+ fmt_u op +:+ "
")
      else mret tt
    else ERROR ("ARP: Unsupported protocol type " +:+ fmt_u pt +:+ " of size " +:+ fmt_u ps +:+ "
")
  else ERROR ("ARP: Unsupported hardware type " +:+ fmt_u ht +:+ " of size " +:+ fmt_u hs +:+ "
").

Definition arp_resolve_ipv4 (ipv4 : Z) : M vptr :=
  known ← is_in_arp_cache ARP_IPV4 ipv4;
  if known : bool then
    with_local (le_store 8 (to_key ARP_IPV4 ipv4)) cache_get
  else
    debug_only debug (
      LOG_DEBUG debug "[ARP] ";;
      printf (ipv4_fprint ipv4);;
      printf " could not be resolved directly... Sending packet.
");;
    h ← calloc (sizeof_arp_header + sizeof_arp_ipv4);
    store16 (hw_type h) ARP_ETHERNET;;
    store8 (hw_size h) 6;;
    store16 (pro_type h) ARP_IPV4;;
    store8 (pro_size h) 4;;
    store16 (opcode h) ARP_REQUEST;;
    arp_header_hton h;;
    let content := arp_data h in
    store32 (ar_dst_ip content) ipv4;;
    store_bytes (ar_dst_mac content) (replicate 6 0xff);;
    ip ← net_interface_get_ip;
    store32 (ar_src_ip content) ip;;
    memcpy (ar_src_mac content) net_interface_get_mac 6;;
    net_interface_broadcast h (sizeof_arp_header + sizeof_arp_ipv4) ETH_P_ARP;;
    free_ (Some h);;
    mret None.

End Arp.
