(* ===== verification/ArpFacts.v ===== *)
(** * The ARP cache: invariant and rules

    [arp_inv w A]: the hash map behind [arp_cache] holds exactly the entries [A],
    each key and each MAC address in a heap cell of its own.  The rules below run the
    cache operations of arp.c against [A]; [steps] is what ARP and the network
    interface together leave alone. *)

From S2P Require Import Prelude Words Format HashMap HashMapFacts HashMapIter World Wp Tun.
From S2P Require Import NetInterface NetFacts Arp.
Import Format HashMap HashMapFacts HashMapIter World Wp Tun Ethernet NetInterface NetFacts Arp.

Module ArpFacts.

(** An entry: the cell of its key, the cell of its MAC address, the address. *)
Record cell := mk_cell { c_key : loc; c_val : loc; c_mac : list Z }.

Implicit Types (w : world) (A : gmap Z cell) (l : loc) (i : Z) (c : cell).

(** The keys of the hash map are identified by the 64-bit word they point to. *)
Definition ident_in (m : gmap loc (list Z)) (k : vptr) : option Z :=
  match read_u64 m k with Val z => Some z | Fault _ => None end.

#[export] Instance arp_laws m : KeyLaws (arp_ops m) (ident_in m) id.
Proof.
  unfold ident_in. split; cbn; unfold arp_hash, arp_equals.
  - intros k i Hk. destruct (read_u64 m k); by simplify_eq.
  - intros a b i j Ha Hb. destruct (read_u64 m a), (read_u64 m b); simplify_eq/=.
    unfold mret, res_ret. by rewrite bool_decide_decide; case_decide; subst;
      rewrite ?Z.eqb_refl; try rewrite (proj2 (Z.eqb_neq _ _)).
Qed.

Definition entry (c : cell) : vptr * vptr := (Some (Ptr (c_key c) 0), Some (Ptr (c_val c) 0)).

(** The blocks of the cache. *)
Definition arp_block A l : Prop := exists i c, A !! i = Some c /\ (l = c_key c \/ l = c_val c).

Record arp_inv w A : Prop := {
  ai_map : exists map, w_cache w = CacheMap map /\
    hm_inv (ident_in (w_mem w)) id map (entry <$> A);
  ai_key i c : A !! i = Some c ->
    exists b, w_mem w !! c_key c = Some b /\ length b = 8%nat /\ le_load b = i;
  ai_val i c : A !! i = Some c ->
    w_mem w !! c_val c = Some (c_mac c) /\ length (c_mac c) = 6%nat;
  ai_private l : arp_block A l -> ~ reserved w l;
  ai_key_val i j c c' : A !! i = Some c -> A !! j = Some c' -> c_key c <> c_val c';
  ai_val_inj i j c c' : A !! i = Some c -> A !! j = Some c' -> c_val c = c_val c' -> i = j
}.

(** ** Identity of keys *)

Lemma ident_cell m l b :
  m !! l = Some b -> length b = 8%nat -> ident_in m (Some (Ptr l 0)) = Some (le_load b).
Proof.
  intros Hb Hlen. unfold ident_in, read_u64. cbn [p_blk p_off]. rewrite Hb, Hlen. cbn.
  unfold slice. rewrite drop_0, take_ge by lia. done.
Qed.

Lemma ident_store m l z :
  m !! l = Some (le_store 8 z) -> 0 <= z < 2 ^ 64 ->
  ident_in m (Some (Ptr l 0)) = Some z.
Proof.
  intros Hb Hz. erewrite ident_cell; [|exact Hb|apply length_le_store].
  rewrite le_load_store. f_equal. by apply Z.mod_small.
Qed.

Lemma to_key_range pt ip : 0 <= to_key pt ip < 2 ^ 64.
Proof. unfold to_key, u64. apply Z.mod_pos_bound. lia. Qed.

Lemma to_key_val pt ip :
  0 <= pt < 2 ^ 16 -> 0 <= ip < 2 ^ 32 -> to_key pt ip = pt * 2 ^ 32 + ip.
Proof.
  intros. unfold to_key, u64. rewrite Z.shiftl_mul_pow2 by lia. apply Z.mod_small. lia.
Qed.

Lemma to_key_inj pt ip pt' ip' :
  0 <= pt < 2 ^ 16 -> 0 <= ip < 2 ^ 32 -> 0 <= pt' < 2 ^ 16 -> 0 <= ip' < 2 ^ 32 ->
  to_key pt ip = to_key pt' ip' -> pt = pt' /\ ip = ip'.
Proof. intros. rewrite !to_key_val in * by done. lia. Qed.

(** The invariant of the hash map only depends on the identities of its stored keys. *)
Lemma hm_inv_ident (id1 id2 : vptr -> option Z) (map : hashmap vptr vptr) M :
  hm_inv id1 id map M ->
  (forall i k v, M !! i = Some (k, v) -> id2 k = Some i) -> hm_inv id2 id map M.
Proof.
  intros Hinv Hid.
  assert (Hel : forall j el, array map !! j = Some el -> used el = true ->
    id2 (key el) = id1 (key el)).
  { intros j el Hj Hu. destruct (inv_sound _ _ _ _ Hinv _ _ Hj Hu) as (i & -> & HM & _).
    by eapply Hid. }
  assert (Hst : forall i j, HashMap.stops id2 (array map) i j = HashMap.stops id1 (array map) i j).
  { intros i j. unfold HashMap.stops. destruct (array map !! j) as [el|] eqn:Hj; [|done].
    destruct (used el) eqn:Hu; [|done]. by rewrite (Hel _ _ Hj Hu). }
  split; try apply Hinv.
  - intros j el Hj Hu. destruct (inv_sound _ _ _ _ Hinv _ _ Hj Hu) as (i & Hi & HM & Hp).
    exists i. split_and!; [by rewrite (Hel _ _ Hj Hu)|done|].
    destruct Hp as (d & ? & ? & Hd). exists d. rewrite Hst. split_and!; [done|done|].
    intros d' Hd'. rewrite Hst. by apply Hd.
  - intros i k v HM. split; [by eapply Hid|].
    by destruct (inv_complete _ _ _ _ Hinv _ _ _ HM).
Qed.

(** ** Frame *)

Lemma arp_inv_frame w w' A :
  arp_inv w A -> w_cache w' = w_cache w ->
  (forall l, arp_block A l -> w_mem w' !! l = w_mem w !! l) ->
  (forall l, arp_block A l -> ~ reserved w' l) -> arp_inv w' A.
Proof.
  intros Hinv Hc Hm Hr.
  assert (Hk : forall i c, A !! i = Some c -> w_mem w' !! c_key c = w_mem w !! c_key c)
    by (intros i c Hi; apply Hm; exists i, c; auto).
  split; try apply Hinv; try done.
  - destruct (ai_map _ _ Hinv) as (map & Hmap & Hinvm). exists map. rewrite Hc. split; [done|].
    eapply hm_inv_ident; [exact Hinvm|]. intros i k v HM.
    apply lookup_fmap_Some in HM as (c & [= <- <-] & Hi).
    destruct (ai_key _ _ Hinv _ _ Hi) as (b & Hb & Hl & <-).
    apply ident_cell; [|done]. by rewrite (Hk _ _ Hi).
  - intros i c Hi. rewrite (Hk _ _ Hi). by apply (ai_key _ _ Hinv).
  - intros i c Hi. rewrite Hm by (exists i, c; auto). by apply (ai_val _ _ Hinv _ _ Hi).
Qed.

Lemma arp_block_alloc w A l : arp_inv w A -> arp_block A l -> is_Some (w_mem w !! l).
Proof.
  intros Hinv (i & c & Hi & [-> | ->]).
  - destruct (ai_key _ _ Hinv _ _ Hi) as (b & Hb & _). by exists b.
  - destruct (ai_val _ _ Hinv _ _ Hi) as (Hb & _). by eexists.
Qed.

(** Changing a block that is not the cache's. *)
Lemma arp_inv_upd w A l b : arp_inv w A -> ~ arp_block A l -> arp_inv (upd_mem w l b) A.
Proof.
  intros Hinv Hl. eapply arp_inv_frame; [exact Hinv|done| |].
  - intros l' Hl'. apply lookup_insert_ne. congruence.
  - intros l' Hl'. by apply (ai_private _ _ Hinv).
Qed.

Lemma fresh_not_arp w A l : arp_inv w A -> w_mem w !! l = None -> ~ arp_block A l.
Proof. intros Hinv Hl [x Hx]%(arp_block_alloc _ _ _ Hinv). congruence. Qed.

(** ** Ownership *)

Definition owned A w l : Prop := reserved w l \/ arp_block A l.

(** What a call leaves alone: the blocks of the caller, the queue status, the address,
    the traffic not yet received. *)
Record steps A w A' w' : Prop := {
  s_mem l b : w_mem w !! l = Some b -> ~ owned A w l -> w_mem w' !! l = Some b;
  s_owned l : owned A' w' l -> owned A w l \/ w_mem w !! l = None;
  s_dom l : w_mem w' !! l = None -> w_mem w !! l = None \/ owned A w l;
  s_busy : w_busy w' = w_busy w;
  s_ip : w_ip w' = w_ip w;
  s_rx : w_rx w' = w_rx w /\ w_errno w' = w_errno w
}.

Lemma steps_refl A w : steps A w A w.
Proof. split; auto. Qed.

Lemma steps_trans A1 w1 A2 w2 A3 w3 :
  steps A1 w1 A2 w2 -> steps A2 w2 A3 w3 -> steps A1 w1 A3 w3.
Proof.
  intros H12 H23. split.
  - intros l b Hl Ho. apply (s_mem _ _ _ _ H23); [by apply (s_mem _ _ _ _ H12)|].
    intros [|]%(s_owned _ _ _ _ H12); [done|congruence].
  - intros l [Ho|Hn]%(s_owned _ _ _ _ H23); [by apply (s_owned _ _ _ _ H12)|].
    destruct (s_dom _ _ _ _ H12 _ Hn); auto.
  - intros l [Hn|Ho]%(s_dom _ _ _ _ H23); [by apply (s_dom _ _ _ _ H12)|].
    destruct (s_owned _ _ _ _ H12 _ Ho); auto.
  - rewrite (s_busy _ _ _ _ H23). apply H12.
  - rewrite (s_ip _ _ _ _ H23). apply H12.
  - destruct (s_rx _ _ _ _ H12), (s_rx _ _ _ _ H23). split; congruence.
Qed.

Lemma keeps_steps mac w w' A :
  net_inv mac w -> keeps w w' -> steps A w A w'.
Proof.
  intros Hinv Hk. split; try apply Hk.
  - intros l b Hl Ho. apply (k_mem _ _ Hk); [done|]. intros Htx. apply Ho. left. right. by right.
  - intros l [[-> | [-> | [Htx|Hn]%(k_tx _ _ Hk)]]|Ha]; auto.
    + left. left. by left.
    + left. left. right. by left.
    + left. left. right. by right.
    + left. by right.
  - intros l [Hn|Htx]%(k_dom _ _ Hk); [by left|]. right. left. right. by right.
Qed.

(** [steps] does not look at the output. *)
Lemma steps_out o e A w A' w' : steps A (set_out o e w) A' w' -> steps A w A' w'.
Proof. by intros [? ? ? ? ? ?]. Qed.

(** Sending a frame does not disturb the cache. *)
Lemma arp_inv_keeps mac w w' A :
  net_inv mac w -> keeps w w' -> arp_inv w A -> arp_inv w' A.
Proof.
  intros Hinv Hk Ha.
  assert (Hb : forall l, arp_block A l -> exists b, w_mem w !! l = Some b /\ ~ tx_block w l).
  { intros l Hl. destruct (arp_block_alloc _ _ _ Ha Hl) as [b Hb]. exists b. split; [done|].
    intros Htx. apply (ai_private _ _ Ha _ Hl). right. by right. }
  eapply arp_inv_frame; [exact Ha|apply Hk| |]; intros l Hl;
    destruct (Hb l Hl) as (b & Hlb & Hn).
  - rewrite Hlb. by apply (k_mem _ _ Hk).
  - eapply reserved_keeps; try done. by apply (ai_private _ _ Ha).
Qed.

(** ** Operations on the cache *)

Lemma wp_the_cache w map (Q : hashmap vptr vptr -> world -> Prop) :
  w_cache w = CacheMap map -> Q map w -> wp the_cache w Q.
Proof. intros Hc HQ. unfold the_cache. wp_step. wp_step. by rewrite Hc. Qed.

Lemma wp_cache_contains w A p i (Q : bool -> world -> Prop) :
  arp_inv w A -> ident_in (w_mem w) (Some p) = Some i ->
  Q (bool_decide (is_Some (A !! i))) w -> wp (cache_contains p) w Q.
Proof.
  intros Hinv Hp HQ. destruct (ai_map _ _ Hinv) as (map & Hmap & Hm).
  unfold cache_contains. wp_step. eapply wp_the_cache; [done|]. wp_step. wp_step.
  destruct (get_spec (ops := arp_ops (w_mem w)) _ _ _ _ NULL Hm Hp) as [_ Hc].
  eapply wp_lift; [exact Hc|]. rewrite lookup_fmap. by destruct (A !! i).
Qed.

Lemma wp_cache_get w A p i (Q : vptr -> world -> Prop) :
  arp_inv w A -> ident_in (w_mem w) (Some p) = Some i ->
  Q ((fun c => Ptr (c_val c) 0) <$> A !! i) w -> wp (cache_get p) w Q.
Proof.
  intros Hinv Hp HQ. destruct (ai_map _ _ Hinv) as (map & Hmap & Hm).
  unfold cache_get. wp_step. eapply wp_the_cache; [done|]. wp_step. wp_step.
  destruct (get_spec (ops := arp_ops (w_mem w)) _ _ _ _ NULL Hm Hp) as [Hg _].
  eapply wp_lift; [exact Hg|]. rewrite lookup_fmap. by destruct (A !! i).
Qed.

Lemma inv_held w h A : arp_inv w A -> arp_inv (set_held h w) A.
Proof.
  intros Hinv. eapply arp_inv_frame; [exact Hinv|done|done|]. intros l. by apply (ai_private _ _ Hinv).
Qed.

(** Storing the address cell of a known entry again. *)
Lemma wp_cache_put_known w A p i c (Q : unit -> world -> Prop) :
  arp_inv w A -> ident_in (w_mem w) (Some p) = Some i -> A !! i = Some c ->
  (forall map, arp_inv (set_cache (CacheMap map) w) A -> Q tt (set_cache (CacheMap map) w)) ->
  wp (cache_put p (Some (Ptr (c_val c) 0))) w Q.
Proof.
  intros Hinv Hp Hi HQ. destruct (ai_map _ _ Hinv) as (map & Hmap & Hm).
  unfold cache_put. wp_step. eapply wp_the_cache; [done|]. wp_step. wp_step.
  destruct (put_spec (ops := arp_ops (w_mem w)) _ _ _ _ (Some (Ptr (c_val c) 0)) Hm Hp)
    as (map' & Hput & Hm' & _).
  wp_step. eapply wp_lift; [exact Hput|]. wp_step. apply HQ.
  assert (Hsame : put_abs (entry <$> A) i (Some p) (Some (Ptr (c_val c) 0)) = entry <$> A).
  { unfold put_abs. rewrite lookup_fmap, Hi. cbn. apply insert_id.
    by rewrite lookup_fmap, Hi. }
  rewrite Hsame in Hm'. split; cbn; try apply Hinv. by exists map'.
Qed.

(** Installing an entry: its cells hold the key and the address and are nobody else's. *)
Lemma arp_inv_entry w A i (map : hashmap vptr vptr) lk bk lv mac :
  let A' := <[i := mk_cell lk lv mac]> A in
  arp_inv w A -> hm_inv (ident_in (w_mem w)) id map (entry <$> A') ->
  w_mem w !! lk = Some bk -> length bk = 8%nat -> le_load bk = i ->
  w_mem w !! lv = Some mac -> length mac = 6%nat ->
  ~ reserved w lk -> ~ reserved w lv -> lk <> lv ->
  (forall j c, A !! j = Some c -> lk <> c_val c /\ c_key c <> lv /\ (lv = c_val c -> i = j)) ->
  arp_inv (set_cache (CacheMap map) w) A'.
Proof.
  intros A' Hinv Hm Hk Hkl Hload Hv Hvl Hrk Hrv Hne Hapart.
  split; cbn; [by exists map| | | | |].
  - intros j c. unfold A'. rewrite lookup_insert_Some. intros [[<- <-]|[? Hj]]; [by exists bk|].
    by apply (ai_key _ _ Hinv).
  - intros j c. unfold A'. rewrite lookup_insert_Some. intros [[<- <-]|[? Hj]]; [done|].
    by apply (ai_val _ _ Hinv _ _ Hj).
  - intros l (j & c & Hj & Hl) Hr. unfold A' in Hj.
    apply lookup_insert_Some in Hj as [[<- <-]|[? Hj]]; [by destruct Hl as [-> | ->]|].
    apply (ai_private _ _ Hinv l); [by exists j, c|done].
  - intros j j' c c'. unfold A'. rewrite !lookup_insert_Some.
    intros [[<- <-]|[? Hj]] [[<- <-]|[? Hj']]; cbn; try done.
    + by apply (Hapart j').
    + by apply (Hapart j).
    + by apply (ai_key_val _ _ Hinv j j').
  - intros j j' c c'. unfold A'. rewrite !lookup_insert_Some.
    intros [[<- <-]|[? Hj]] [[<- <-]|[? Hj']]; cbn; try done.
    + by apply Hapart.
    + intros Heq. symmetry. by apply (Hapart _ _ Hj).
    + by apply (ai_val_inj _ _ Hinv j j').
Qed.

Lemma wp_cache_put_new w A lk lv bk mac (Q : unit -> world -> Prop) :
  let A' := <[le_load bk := mk_cell lk lv mac]> A in
  arp_inv w A -> A !! le_load bk = None ->
  w_mem w !! lk = Some bk -> length bk = 8%nat -> w_mem w !! lv = Some mac -> length mac = 6%nat ->
  ~ owned A w lk -> ~ owned A w lv -> lk <> lv ->
  (forall map, arp_inv (set_cache (CacheMap map) w) A' -> Q tt (set_cache (CacheMap map) w)) ->
  wp (cache_put (Ptr lk 0) (Some (Ptr lv 0))) w Q.
Proof.
  intros A' Hinv Hi Hk Hkl Hv Hvl Hok Hov Hne HQ. destruct (ai_map _ _ Hinv) as (map & Hmap & Hm).
  pose proof (ident_cell _ _ _ Hk Hkl) as Hid.
  unfold cache_put. wp_step. eapply wp_the_cache; [done|]. wp_step. wp_step.
  destruct (put_spec (ops := arp_ops (w_mem w)) _ _ _ _ (Some (Ptr lv 0)) Hm Hid)
    as (map' & Hput & Hm' & _).
  wp_step. eapply wp_lift; [exact Hput|]. wp_step. apply HQ.
  eapply arp_inv_entry; try done.
  - unfold put_abs in Hm'. rewrite lookup_fmap, Hi in Hm'. cbn in Hm'. by rewrite fmap_insert.
  - intros Hr. apply Hok. by left.
  - intros Hr. apply Hov. by left.
  - intros j c Hj. split_and!; [intros Heq; apply Hok|intros Heq; apply Hov|intros Heq; destruct Hov];
      right; exists j, c; auto.
Qed.

(** Overwriting the address cell of a known entry. *)
Definition with_mac (c : cell) (mac : list Z) : cell := mk_cell (c_key c) (c_val c) mac.

Lemma arp_inv_set_mac w A i c mac :
  arp_inv w A -> A !! i = Some c -> length mac = 6%nat ->
  arp_inv (upd_mem w (c_val c) mac) (<[i := with_mac c mac]> A).
Proof.
  intros Hinv Hi Hlen.
  assert (Hkeys : forall j d, A !! j = Some d -> c_val c <> c_key d)
    by (intros j d Hj Heq; by apply (ai_key_val _ _ Hinv _ _ _ _ Hj Hi)).
  split.
  - destruct (ai_map _ _ Hinv) as (map & Hmap & Hm). exists map. split; [done|].
    rewrite fmap_insert. change (entry (with_mac c mac)) with (entry c).
    rewrite insert_id by (by rewrite lookup_fmap, Hi).
    eapply hm_inv_ident; [exact Hm|]. intros j k v HM.
    apply lookup_fmap_Some in HM as (d & [= <- <-] & Hj).
    destruct (ai_key _ _ Hinv _ _ Hj) as (b & Hb & Hl & <-).
    apply ident_cell; [|done]. rewrite lookup_upd_mem_ne; eauto.
  - intros j d. rewrite lookup_insert_Some. intros [[<- <-]|[? Hj]]; cbn [c_key with_mac].
    + rewrite lookup_upd_mem_ne by eauto. by apply (ai_key _ _ Hinv).
    + rewrite lookup_upd_mem_ne by eauto. by apply (ai_key _ _ Hinv).
  - intros j d. rewrite lookup_insert_Some. intros [[<- <-]|[Hne Hj]]; cbn [c_val c_mac with_mac].
    + by rewrite lookup_upd_mem_eq.
    + rewrite lookup_upd_mem_ne; [by apply (ai_val _ _ Hinv _ _ Hj)|].
      intros Heq. apply Hne. by eapply (ai_val_inj _ _ Hinv).
  - intros l (j & d & Hj & Hl). change (reserved (upd_mem w (c_val c) mac) l) with (reserved w l).
    apply lookup_insert_Some in Hj as [[<- <-]|[? Hj]]; apply (ai_private _ _ Hinv);
      [by exists i, c|by exists j, d].
  - intros j j' d d'. rewrite !lookup_insert_Some.
    intros [[<- <-]|[? Hj]] [[<- <-]|[? Hj']]; cbn; by eapply (ai_key_val _ _ Hinv).
  - intros j j' d d'. rewrite !lookup_insert_Some.
    intros [[<- <-]|[? Hj]] [[<- <-]|[? Hj']]; cbn; by eapply (ai_val_inj _ _ Hinv).
Qed.

(** ** The functions of the transition table *)

Lemma restore_local w l b h :
  w_mem w !! l = None -> h ∉ w_held w ->
  set_mem (delete l (<[l := b]> (w_mem w)))
    (set_held (filter (fun m' => m' <> h) (h :: w_held w)) (upd_mem w l b)) = w.
Proof. intros Hl Hh. rewrite unlock_lock, delete_insert_id by done. by destruct w. Qed.

Lemma wp_is_in_arp_cache w A pt ip (Q : bool -> world -> Prop) :
  arp_inv w A -> w_held w = [] ->
  Q (bool_decide (is_Some (A !! to_key pt ip))) w -> wp (is_in_arp_cache pt ip) w Q.
Proof.
  intros Hinv Hh HQ. unfold is_in_arp_cache. apply wp_with_local. intros l Hl.
  assert (Hid : ident_in (<[l := le_store 8 (to_key pt ip)]> (w_mem w)) (Some (Ptr l 0)) =
    Some (to_key pt ip)).
  { apply ident_store; [apply lookup_insert_eq|apply to_key_range]. }
  wp_step. wp_step; [cbn; rewrite Hh; apply not_elem_of_nil|].
  wp_step. eapply (wp_cache_contains _ A); [|exact Hid|].
  { apply inv_held, arp_inv_upd; [done|]. by eapply fresh_not_arp. }
  wp_step. wp_step. wp_step.
  change (Q (bool_decide (is_Some (A !! to_key pt ip)))
    (set_mem (delete l (<[l := le_store 8 (to_key pt ip)]> (w_mem w)))
      (set_held (filter (fun m' => m' <> cache_mutex) (cache_mutex :: w_held w))
        (upd_mem w l (le_store 8 (to_key pt ip)))))).
  by rewrite restore_local by (done || rewrite Hh; apply not_elem_of_nil).
Qed.

(** [w'] is [w] with the cache map [map] and the memory [m]. *)
Definition cached (map : hashmap vptr vptr) (m : gmap loc (list Z)) w : world :=
  set_cache (CacheMap map) (set_mem m w).

Lemma steps_cached A w A' map m :
  (forall l, w_mem w !! l <> None -> m !! l = w_mem w !! l \/ arp_block A l /\ m !! l <> None) ->
  (forall l, arp_block A' l -> arp_block A l \/ w_mem w !! l = None) ->
  steps A w A' (cached map m w).
Proof.
  intros Hm Ha. split; try done; cbn.
  - intros l b Hl Ho. destruct (Hm l) as [->|[]]; [congruence|done|]. destruct Ho. by right.
  - intros l [Hr|[|]%Ha]; [left; by left|left; by right|by right].
  - intros l Hl. destruct (w_mem w !! l) eqn:E; [|by left].
    destruct (Hm l) as [Heq|[Hb Hs]]; [congruence|congruence|done].
Qed.

Lemma net_inv_cached mac w map m :
  net_inv mac w -> (forall l, reserved w l -> m !! l = w_mem w !! l) ->
  net_inv mac (cached map m w).
Proof.
  intros Hinv Hm. eapply (net_inv_fields mac (set_mem m w)); try done. by apply net_inv_other.
Qed.

(** The address of a known entry, changed in its cell: [w0] is any state with the new cell
    and the table. *)
Lemma set_mac_result mac w A i c sha map w0 :
  let A' := <[i := with_mac c sha]> A in
  let w1 := cached map (<[c_val c := sha]> (w_mem w)) w in
  net_inv mac w -> arp_inv w A -> A !! i = Some c ->
  arp_inv w0 A' -> w_cache w0 = CacheMap map ->
  (forall l, arp_block A l -> w_mem w0 !! l = <[c_val c := sha]> (w_mem w) !! l) ->
  net_inv mac w1 /\ arp_inv w1 A' /\ steps A w A' w1.
Proof.
  intros A' w1 Hnet Hinv Hi Hmap Hc Hm.
  assert (HA' : forall l, arp_block A' l -> arp_block A l).
  { intros l (j & d & Hj & Hd). apply lookup_insert_Some in Hj as [[<- <-]|[? Hj]];
      [by exists i, c|by exists j, d]. }
  assert (Hblk : arp_block A (c_val c)) by (exists i, c; auto).
  split_and!.
  - apply net_inv_cached; [done|]. intros l Hr. apply lookup_insert_ne. intros <-.
    by eapply (ai_private _ _ Hinv).
  - eapply arp_inv_frame; [exact Hmap|by rewrite Hc| |].
    + intros l Hl%HA'. symmetry. by apply Hm.
    + intros l Hl%HA'. by apply (ai_private _ _ Hinv).
  - apply steps_cached.
    + intros l Hl. destruct (decide (l = c_val c)) as [->|]; [right|left; by rewrite lookup_insert_ne].
      split; [done|]. by rewrite lookup_insert_eq.
    + intros l Hl. left. by apply HA'.
Qed.

Lemma wp_set_in_arp_cache mac w A pt ip src bs c (Q : unit -> world -> Prop) :
  let sha := bytes_at bs src 6 in
  let A' := <[to_key pt ip := with_mac c sha]> A in
  net_inv mac w -> arp_inv w A -> A !! to_key pt ip = Some c ->
  in_block w src 6 bs -> p_blk src <> c_val c ->
  (forall w', net_inv mac w' -> arp_inv w' A' -> steps A w A' w' -> w_tx w' = w_tx w -> Q tt w') ->
  wp (set_in_arp_cache pt ip src) w Q.
Proof.
  intros sha A' Hnet Hinv Hi Hsrc Hne HQ. pose proof (ni_held _ _ Hnet) as Hh.
  destruct (ai_val _ _ Hinv _ _ Hi) as [Hval Hvl].
  assert (Hsl : length sha = 6%nat) by (subst sha; by erewrite length_bytes_at).
  unfold set_in_arp_cache. apply wp_with_local. intros l Hl.
  set (kb := le_store 8 (to_key pt ip)).
  assert (Hlv : l <> c_val c) by congruence.
  assert (Hls : l <> p_blk src) by (intros ->; destruct Hsrc; congruence).
  assert (Hla : ~ arp_block A l) by by eapply fresh_not_arp.
  assert (Hid : forall m, m !! l = Some kb -> ident_in m (Some (Ptr l 0)) = Some (to_key pt ip))
    by (intros m Hm; eapply ident_store; [exact Hm|apply to_key_range]).
  wp_step. eapply (wp_cache_get _ A).
  { by apply arp_inv_upd. } { apply Hid, lookup_upd_mem_eq. }
  rewrite Hi. cbn [fmap option_fmap option_map].
  wp_step. unfold assert_. rewrite bool_decide_true by done. wp_step. wp_step. wp_step. wp_step.
  eapply (wp_memcpy _ _ _ bs (c_mac c)).
  { apply in_block_upd; [done|congruence]. }
  { split_and!; cbn [p_blk p_off]; [by rewrite lookup_upd_mem_ne|lia|lia|lia]. }
  cbn [p_blk p_off]. change (slice (Z.to_nat (p_off src)) (Z.to_nat 6) bs) with sha.
  rewrite splice_all by congruence.
  wp_step. wp_step; [cbn; rewrite Hh; apply not_elem_of_nil|]. wp_step.
  assert (Hcell : A' !! to_key pt ip = Some (with_mac c sha)) by apply lookup_insert_eq.
  eapply (wp_cache_put_known _ A' _ (to_key pt ip) (with_mac c sha)); [| |done|].
  { apply inv_held, arp_inv_set_mac; [by apply arp_inv_upd|done|done]. }
  { apply Hid. cbn. rewrite lookup_insert_ne by done. apply lookup_insert_eq. }
  intros map Hmap. wp_step.
  destruct (set_mac_result mac w A (to_key pt ip) c sha map
    (set_cache (CacheMap map) (set_held [cache_mutex] (upd_mem (upd_mem w l kb) (c_val c) sha))))
    as (Hn1 & Ha1 & Hs1); try done.
  { cbn in Hmap. rewrite Hh in Hmap. exact Hmap. }
  { intros l' Hl'. cbn. destruct (decide (l' = c_val c)) as [->|]; [by rewrite !lookup_insert_eq|].
    rewrite !lookup_insert_ne by congruence. done. }
  assert (Hfin : forall w1, w1 = cached map (<[c_val c := sha]> (w_mem w)) w -> Q tt w1)
    by (intros w1 ->; by apply HQ).
  apply Hfin. unfold cached. cbn -[filter]. rewrite unlock_lock by (rewrite Hh; apply not_elem_of_nil).
  rewrite insert_insert_ne, delete_insert_id by (done || by rewrite lookup_insert_ne).
  by destruct w.
Qed.

(** The cells of a new entry: the key, and the address copied from [src]. *)
Definition new_cells w lk lv (key : Z) (mac : list Z) : world :=
  upd_mem (upd_mem w lk (le_store 8 key)) lv mac.

Lemma wp_new_cells {B} w key src bs (k : ptr -> ptr -> M B) (Q : B -> world -> Prop) :
  in_block w src 6 bs ->
  (forall lk lv, w_mem w !! lk = None -> w_mem w !! lv = None -> lk <> lv ->
     wp (k (Ptr lk 0) (Ptr lv 0)) (new_cells w lk lv key (bytes_at bs src 6)) Q) ->
  wp (dst_key ← calloc 8; dst_mac ← calloc 6; store64 dst_key key;; memcpy dst_mac src 6;;
      k dst_key dst_mac) w Q.
Proof.
  intros Hsrc HQ. assert (Hsl : length (bytes_at bs src 6) = 6%nat) by by erewrite length_bytes_at.
  unfold calloc.
  wp_step. apply wp_alloc_block. intros lk Hlk. wp_step. apply wp_alloc_block. intros lv Hlv.
  assert (Hkv : lk <> lv) by (intros ->; by rewrite lookup_upd_mem_eq in Hlv).
  rewrite lookup_upd_mem_ne in Hlv by done.
  assert (Hsk : p_blk src <> lk) by (intros <-; destruct Hsrc; congruence).
  assert (Hsv : p_blk src <> lv) by (intros <-; destruct Hsrc; congruence).
  wp_step. wp_step.
  { split_and!; cbn [p_blk p_off];
      [rewrite lookup_upd_mem_ne by done; apply lookup_upd_mem_eq|lia|lia|rewrite length_replicate; lia]. }
  cbn [p_blk p_off]. rewrite splice_all by (rewrite length_le_store; done).
  wp_step. eapply (wp_memcpy _ _ _ bs (replicate 6 0)).
  { repeat apply in_block_upd; done. }
  { split_and!; cbn [p_blk p_off];
      [rewrite lookup_upd_mem_ne by done; apply lookup_upd_mem_eq|lia|lia|rewrite length_replicate; lia]. }
  cbn [p_blk p_off]. change (slice (Z.to_nat (p_off src)) (Z.to_nat 6) bs) with (bytes_at bs src 6).
  rewrite splice_all by (rewrite Hsl; done).
  assert (Hw1 : upd_mem (upd_mem (upd_mem (upd_mem w lk (replicate (Z.to_nat 8) 0)) lv
    (replicate (Z.to_nat 6) 0)) lk (le_store 8 key)) lv (bytes_at bs src 6) =
    new_cells w lk lv key (bytes_at bs src 6)).
  { unfold new_cells, upd_mem, set_mem. cbn. f_equal.
    apply map_eq. intros l'. rewrite !lookup_insert. repeat case_decide; congruence. }
  rewrite Hw1. by apply HQ.
Qed.

Lemma wp_add_to_arp_cache mac w A pt ip src bs (Q : unit -> world -> Prop) :
  let sha := bytes_at bs src 6 in
  net_inv mac w -> arp_inv w A -> A !! to_key pt ip = None -> in_block w src 6 bs ->
  (forall w' lk lv, let A' := <[to_key pt ip := mk_cell lk lv sha]> A in
    net_inv mac w' -> arp_inv w' A' -> steps A w A' w' -> w_tx w' = w_tx w -> Q tt w') ->
  wp (add_to_arp_cache pt ip src) w Q.
Proof.
  intros sha Hnet Hinv Hi Hsrc HQ. pose proof (ni_held _ _ Hnet) as Hh.
  assert (Hsl : length sha = 6%nat) by (subst sha; by erewrite length_bytes_at).
  unfold add_to_arp_cache. set (kb := le_store 8 (to_key pt ip)).
  eapply wp_new_cells; [done|]. intros lk lv Hlk Hlv Hkv. fold sha. unfold new_cells. fold kb.
  wp_step. wp_step; [cbn; rewrite Hh; apply not_elem_of_nil|]. wp_step.
  assert (Hna : ~ arp_block A lk /\ ~ arp_block A lv) by (split; by eapply fresh_not_arp).
  assert (Hnr : ~ reserved w lk /\ ~ reserved w lv) by (split; by eapply fresh_not_reserved).
  assert (Hload : le_load kb = to_key pt ip).
  { subst kb. rewrite le_load_store. apply Z.mod_small, to_key_range. }
  eapply (wp_cache_put_new _ A lk lv kb sha).
  { apply inv_held, arp_inv_upd; [apply arp_inv_upd|]; try done; tauto. }
  { by rewrite Hload. }
  { cbn. rewrite lookup_insert_ne by done. apply lookup_insert_eq. }
  { apply length_le_store. }
  { cbn. apply lookup_insert_eq. } { done. }
  { unfold owned. change (~ (reserved w lk \/ arp_block A lk)). tauto. }
  { unfold owned. change (~ (reserved w lv \/ arp_block A lv)). tauto. } { done. }
  rewrite Hload. intros map Hmap. wp_step.
  assert (Hfin : forall w2, w2 = cached map (<[lv := sha]> (<[lk := kb]> (w_mem w))) w -> Q tt w2).
  { intros w2 ->. apply (HQ _ lk lv).
    - apply net_inv_cached; [done|]. intros l' Hr.
      rewrite !lookup_insert_ne; [done|..]; intros ->; tauto.
    - eapply arp_inv_frame; [exact Hmap|done|done|]. apply (ai_private _ _ Hmap).
    - apply steps_cached.
      + intros l' Hl'. left. by rewrite !lookup_insert_ne by congruence.
      + intros l' (j & d & Hj & Hd). apply lookup_insert_Some in Hj as [[<- <-]|[? Hj]].
        * destruct Hd as [-> | ->]; by right.
        * left. by exists j, d.
    - done. }
  apply Hfin. unfold cached. cbn -[filter]. rewrite unlock_lock by (rewrite Hh; apply not_elem_of_nil).
  by destruct w.
Qed.

End ArpFacts.
