(* ===== verification/ArpSpec.v ===== *)
(** * ARP implements RFC 826

    The abstract algorithm of RFC 826 on decoded packets and a translation table
    ([rfc826]), and the theorems that [arp_receive] and [arp_resolve_ipv4]
    implement it: the table they leave, the frame they send, and what they keep. *)

From S2P Require Import Prelude Words Format HashMap HashMapFacts HashMapIter World Wp Tun.
From S2P Require Import NetInterface NetFacts NetSpec Arp ArpFacts.
Import Format HashMap HashMapFacts HashMapIter World Wp Tun Ethernet NetInterface NetFacts
  NetSpec Arp ArpFacts.

Module ArpSpec.

Implicit Types (w : world) (l : loc).

(** ** Frames with an ARP packet, field by field *)

Record arp_frame := mk_arp_frame {
  f_eth : list Z;
  f_ht : list Z; f_pt : list Z; f_hs : Z; f_ps : Z; f_op : list Z;
  f_sha : list Z; f_spa : list Z; f_tha : list Z; f_tpa : list Z;
  f_tail : list Z
}.

Definition arp_body (f : arp_frame) : list Z :=
  f_ht f ++ f_pt f ++ [f_hs f; f_ps f] ++ f_op f ++ f_sha f ++ f_spa f ++ f_tha f ++ f_tpa f.

Definition layout f : list Z := f_eth f ++ arp_body f ++ f_tail f.

Definition arp_decode (b : list Z) : arp_frame :=
  mk_arp_frame (slice 0 14 b) (slice 14 2 b) (slice 16 2 b) (nth 18 b 0) (nth 19 b 0)
    (slice 20 2 b) (slice 22 6 b) (slice 28 4 b) (slice 32 6 b) (slice 38 4 b) (drop 42 b).

Record frame_wf f : Prop := {
  wf_eth : length (f_eth f) = 14%nat;
  wf_ht : length (f_ht f) = 2%nat;
  wf_pt : length (f_pt f) = 2%nat;
  wf_op : length (f_op f) = 2%nat;
  wf_sha : length (f_sha f) = 6%nat;
  wf_spa : length (f_spa f) = 4%nat;
  wf_tha : length (f_tha f) = 6%nat;
  wf_tpa : length (f_tpa f) = 4%nat
}.

Lemma decode_layout b : (42 <= length b)%nat -> layout (arp_decode b) = b.
Proof.
  intros Hb. do 42 (destruct b as [|? b]; [cbn in Hb; lia|]).
  unfold layout, arp_body, arp_decode, slice. cbn. by rewrite drop_0.
Qed.

Lemma decode_wf b : (42 <= length b)%nat -> frame_wf (arp_decode b).
Proof. intros Hb. split; cbn; apply length_slice; lia. Qed.

Lemma length_layout f : frame_wf f -> length (layout f) = (42 + length (f_tail f))%nat.
Proof.
  intros []. unfold layout, arp_body. rewrite !length_app. cbn. lia.
Qed.

(** Break a well-formed frame into its bytes. *)
Ltac bytes_of f :=
  let H := fresh in
  intros H; destruct f as [e ht pt hs ps op sha spa tha tpa tl], H; cbn in *;
  explode e; explode ht; explode pt; explode op; explode sha; explode spa; explode tha; explode tpa.

Lemma slice_ht f : frame_wf f -> slice 14 2 (layout f) = f_ht f.
Proof. by bytes_of f. Qed.
Lemma slice_pt f : frame_wf f -> slice 16 2 (layout f) = f_pt f.
Proof. by bytes_of f. Qed.
Lemma slice_hs f : frame_wf f -> slice 18 1 (layout f) = [f_hs f].
Proof. by bytes_of f. Qed.
Lemma slice_ps f : frame_wf f -> slice 19 1 (layout f) = [f_ps f].
Proof. by bytes_of f. Qed.
Lemma slice_op f : frame_wf f -> slice 20 2 (layout f) = f_op f.
Proof. by bytes_of f. Qed.
Lemma slice_sha f : frame_wf f -> slice 22 6 (layout f) = f_sha f.
Proof. by bytes_of f. Qed.
Lemma slice_spa f : frame_wf f -> slice 28 4 (layout f) = f_spa f.
Proof. by bytes_of f. Qed.
Lemma slice_tha f : frame_wf f -> slice 32 6 (layout f) = f_tha f.
Proof. by bytes_of f. Qed.
Lemma slice_tpa f : frame_wf f -> slice 38 4 (layout f) = f_tpa f.
Proof. by bytes_of f. Qed.
Lemma slice_body f : frame_wf f -> slice 14 28 (layout f) = arp_body f.
Proof. by bytes_of f. Qed.

Definition set_ht x f := mk_arp_frame (f_eth f) x (f_pt f) (f_hs f) (f_ps f) (f_op f)
  (f_sha f) (f_spa f) (f_tha f) (f_tpa f) (f_tail f).
Definition set_pt x f := mk_arp_frame (f_eth f) (f_ht f) x (f_hs f) (f_ps f) (f_op f)
  (f_sha f) (f_spa f) (f_tha f) (f_tpa f) (f_tail f).
Definition set_op x f := mk_arp_frame (f_eth f) (f_ht f) (f_pt f) (f_hs f) (f_ps f) x
  (f_sha f) (f_spa f) (f_tha f) (f_tpa f) (f_tail f).
Definition set_sha x f := mk_arp_frame (f_eth f) (f_ht f) (f_pt f) (f_hs f) (f_ps f) (f_op f)
  x (f_spa f) (f_tha f) (f_tpa f) (f_tail f).
Definition set_spa x f := mk_arp_frame (f_eth f) (f_ht f) (f_pt f) (f_hs f) (f_ps f) (f_op f)
  (f_sha f) x (f_tha f) (f_tpa f) (f_tail f).
Definition set_tha x f := mk_arp_frame (f_eth f) (f_ht f) (f_pt f) (f_hs f) (f_ps f) (f_op f)
  (f_sha f) (f_spa f) x (f_tpa f) (f_tail f).
Definition set_tpa x f := mk_arp_frame (f_eth f) (f_ht f) (f_pt f) (f_hs f) (f_ps f) (f_op f)
  (f_sha f) (f_spa f) (f_tha f) x (f_tail f).

Ltac spliced f x := intros Hx; bytes_of f; explode x; unfold splice; cbn; by rewrite ?drop_0.

Lemma splice_ht x f : length x = 2%nat -> frame_wf f ->
  splice 14 x (layout f) = layout (set_ht x f).
Proof. spliced f x. Qed.
Lemma splice_pt x f : length x = 2%nat -> frame_wf f ->
  splice 16 x (layout f) = layout (set_pt x f).
Proof. spliced f x. Qed.
Lemma splice_op x f : length x = 2%nat -> frame_wf f ->
  splice 20 x (layout f) = layout (set_op x f).
Proof. spliced f x. Qed.
Lemma splice_sha x f : length x = 6%nat -> frame_wf f ->
  splice 22 x (layout f) = layout (set_sha x f).
Proof. spliced f x. Qed.
Lemma splice_spa x f : length x = 4%nat -> frame_wf f ->
  splice 28 x (layout f) = layout (set_spa x f).
Proof. spliced f x. Qed.
Lemma splice_tha x f : length x = 6%nat -> frame_wf f ->
  splice 32 x (layout f) = layout (set_tha x f).
Proof. spliced f x. Qed.
Lemma splice_tpa x f : length x = 4%nat -> frame_wf f ->
  splice 38 x (layout f) = layout (set_tpa x f).
Proof. spliced f x. Qed.

(** The bytes of a host-order word are those of the network-order word, reversed. *)
Lemma swap_bytes x : bytes_ok x -> length x = 2%nat -> le_store 2 (bswap 2 (le_load x)) = reverse x.
Proof. intros Hb Hl. rewrite le_store_bswap. unfold be_store. by rewrite le_store_load_n. Qed.

Definition swapped f : arp_frame :=
  mk_arp_frame (f_eth f) (reverse (f_ht f)) (reverse (f_pt f)) (f_hs f) (f_ps f) (reverse (f_op f))
    (f_sha f) (f_spa f) (f_tha f) (f_tpa f) (f_tail f).

Lemma swapped_wf f : frame_wf f -> frame_wf (swapped f).
Proof. intros []. by split; cbn; rewrite ?length_reverse. Qed.

Lemma swapped_swapped f : swapped (swapped f) = f.
Proof. destruct f. unfold swapped. cbn -[reverse]. by rewrite !reverse_involutive. Qed.

(** [b'] can stand in the buffer of the frame [f], with the same ether type. *)
Definition fits (f : arp_frame) (b' : list Z) : Prop :=
  length b' = length (layout f) /\ (bytes_ok (layout f) -> bytes_ok b') /\
  slice 12 2 b' = slice 12 2 (layout f).

Lemma slice_type f : frame_wf f -> slice 12 2 (layout f) = drop 12 (f_eth f).
Proof. by bytes_of f. Qed.

Lemma layout_bytes f :
  bytes_ok (layout f) <-> bytes_ok (f_eth f) /\ bytes_ok (f_ht f) /\ bytes_ok (f_pt f) /\
    bytes_ok [f_hs f; f_ps f] /\ bytes_ok (f_op f) /\ bytes_ok (f_sha f) /\ bytes_ok (f_spa f) /\
    bytes_ok (f_tha f) /\ bytes_ok (f_tpa f) /\ bytes_ok (f_tail f).
Proof. unfold layout, arp_body. rewrite !Forall_app. tauto. Qed.

Lemma swapped_bytes f : bytes_ok (layout (swapped f)) <-> bytes_ok (layout f).
Proof. rewrite !layout_bytes. cbn -[reverse]. by rewrite !Forall_reverse. Qed.

Lemma fits_swapped f : frame_wf f -> fits f (layout (swapped f)).
Proof.
  intros Hwf. split_and!; [by rewrite !length_layout by auto using swapped_wf|apply swapped_bytes|].
  by rewrite !slice_type by auto using swapped_wf.
Qed.

Lemma fits_from_swapped f b' : frame_wf f -> fits (swapped f) b' -> fits f b'.
Proof.
  intros Hwf (Hl & Hb & Ht). split_and!.
  - rewrite Hl, !length_layout by auto using swapped_wf. done.
  - intros Hf. by apply Hb, swapped_bytes.
  - by rewrite Ht, !slice_type by auto using swapped_wf.
Qed.

(** ** RFC 826 *)

(** The translation table: the hardware address of a protocol type and address. *)
Abbreviation table := (gmap (Z * list Z) (list Z)).

Definition reply_frame (mac ip : list Z) (f : arp_frame) : list Z :=
  eth_frame (f_sha f) mac ETH_P_ARP
    (f_ht f ++ f_pt f ++ [f_hs f; f_ps f] ++ be_store 2 ARP_REPLY ++ mac ++ ip ++ f_sha f ++ f_spa f).

(** "Packet Reception" of RFC 826: the new table and the reply. *)
Definition rfc826 (mac ip : list Z) (T : table) (f : arp_frame) : table * option (list Z) :=
  if (be_load (f_ht f) =? ARP_ETHERNET) && (f_hs f =? 6) then
    if (be_load (f_pt f) =? ARP_IPV4) && (f_ps f =? 4) then
      let pair := (be_load (f_pt f), f_spa f) in
      let merge_flag := bool_decide (is_Some (T !! pair)) in
      let T := if merge_flag then <[pair := f_sha f]> T else T in
      if bool_decide (f_tpa f = ip) then
        ((if merge_flag then T else <[pair := f_sha f]> T),
         if be_load (f_op f) =? ARP_REQUEST then Some (reply_frame mac ip f) else None)
      else (T, None)
    else (T, None)
  else (T, None).

(** ** Running the header functions on a frame *)

(** Turn the offsets of a field into numbers. *)
Ltac offsets :=
  unfold hw_type, pro_type, hw_size, pro_size, opcode, arp_data, ar_src_mac, ar_src_ip,
    ar_dst_mac, ar_dst_ip, eth_payload, ptr_add, sizeof_arp_header, sizeof_arp_ipv4;
  cbn [p_blk p_off];
  repeat match goal with
         | |- context [Zpos ?a + Zpos ?b] =>
             let k := eval vm_compute in (Zpos a + Zpos b) in change (Zpos a + Zpos b) with k
         | |- context [Z.to_nat (Zpos ?n)] =>
             let k := eval vm_compute in (Z.to_nat (Zpos n)) in change (Z.to_nat (Zpos n)) with k
         | |- context [Z.to_nat 0] => change (Z.to_nat 0) with 0%nat
         end.

Ltac frame_side :=
  unfold upd_mem;
  split_and!; offsets;
  [cbn -[layout]; rewrite ?lookup_insert_eq; done || assumption|lia|lia|
   rewrite length_layout by assumption; lia].

(** The store of a field. *)
Ltac frame_store lem :=
  wp_step; [frame_side|]; offsets; rewrite ?upd_mem_upd_mem;
  rewrite lem by (first [assumption | rewrite ?length_le_store; reflexivity]).

Definition bytes_frame f : Prop :=
  bytes_ok (f_ht f) /\ bytes_ok (f_pt f) /\ bytes_ok (f_op f).

Lemma wp_arp_swap l w f (Q : unit -> world -> Prop) :
  frame_wf f -> bytes_frame f -> w_mem w !! l = Some (layout f) ->
  Q tt (upd_mem w l (layout (swapped f))) ->
  wp (arp_header_hton (Ptr l 14)) w Q.
Proof.
  intros Hwf (Hht & Hpt & Hop) Hl HQ.
  assert (Hs : forall x, bytes_ok x -> length x = 2%nat ->
    le_store 2 (htons (le_load x)) = reverse x) by (intros; by apply swap_bytes).
  set (f1 := set_op (reverse (f_op f)) f). set (f2 := set_ht (reverse (f_ht f)) f1).
  assert (Hwf1 : frame_wf f1) by (destruct Hwf; split; cbn; rewrite ?length_reverse; done).
  assert (Hwf2 : frame_wf f2) by (destruct Hwf; split; cbn; rewrite ?length_reverse; done).
  unfold arp_header_hton, hw_type, pro_type, opcode.
  wp_step. wp_step; [frame_side|]. offsets. rewrite slice_op by done.
  wp_step. frame_store splice_op. rewrite Hs by (done || apply Hwf). fold f1.
  wp_step. wp_step; [frame_side|]. offsets. rewrite slice_ht by done.
  change (f_ht f1) with (f_ht f).
  wp_step. frame_store splice_ht. rewrite Hs by (done || apply Hwf). fold f2.
  wp_step. wp_step; [frame_side|]. offsets. rewrite slice_pt by done.
  change (f_pt f2) with (f_pt f).
  frame_store splice_pt. rewrite Hs by (done || apply Hwf). exact HQ.
Qed.

Lemma wp_arp_swap_ntoh l w f (Q : unit -> world -> Prop) :
  frame_wf f -> bytes_frame f -> w_mem w !! l = Some (layout f) ->
  Q tt (upd_mem w l (layout (swapped f))) ->
  wp (arp_header_ntoh (Ptr l 14)) w Q.
Proof. apply wp_arp_swap. Qed.

Lemma wp_arp_fprint w l f (Q : string -> world -> Prop) :
  frame_wf f -> w_mem w !! l = Some (layout f) -> (forall s, Q s w) ->
  wp (arp_header_fprint (Ptr l 14)) w Q.
Proof.
  intros Hwf Hl HQ. unfold arp_header_fprint.
  do 5 (wp_step; wp_step; [frame_side|]). wp_step. apply HQ.
Qed.

(** The packet that [arp_reply] sends for a packet in host order. *)
Definition replied (mac ip : list Z) (f : arp_frame) : arp_frame :=
  swapped (mk_arp_frame (f_eth f) (f_ht f) (f_pt f) (f_hs f) (f_ps f) (le_store 2 ARP_REPLY)
    mac ip (f_sha f) (f_spa f) (f_tail f)).

Lemma replied_swapped mac ip f :
  eth_frame (f_sha f) mac ETH_P_ARP (arp_body (replied mac ip (swapped f))) =
  reply_frame mac ip f.
Proof.
  unfold reply_frame, arp_body, replied, be_store. cbn -[reverse].
  by rewrite !reverse_involutive.
Qed.

Lemma wp_debug_arp w l f str (Q : unit -> world -> Prop) :
  frame_wf f -> w_mem w !! l = Some (layout f) -> (forall o e, Q tt (set_out o e w)) ->
  wp (debug_only debug (printf str;; s ← arp_header_fprint (Ptr l 14); printf s;; printf "
")) w Q.
Proof.
  intros Hwf Hl HQ. unfold debug_only, debug. do 3 wp_step.
  eapply wp_arp_fprint; [done|exact Hl|]. intros str'. do 3 wp_step. exact (HQ _ _).
Qed.

Lemma wp_fill_reply mac w l f (rest : M unit) (Q : unit -> world -> Prop) :
  net_inv mac w -> l <> mac_loc -> frame_wf f -> bytes_frame f -> bytes_ok (f_spa f) ->
  w_mem w !! l = Some (layout f) ->
  (forall o e, wp rest (upd_mem (set_out o e w) l
    (layout (replied mac (le_store 4 (w_ip w)) f))) Q) ->
  wp (let content := arp_data (Ptr l 14) in
      si ← load32 (ar_src_ip content);
      store32 (ar_dst_ip content) si;;
      memcpy (ar_dst_mac content) (ar_src_mac content) 6;;
      ip ← net_interface_get_ip;
      store32 (ar_src_ip content) ip;;
      memcpy (ar_src_mac content) net_interface_get_mac 6;;
      store16 (opcode (Ptr l 14)) ARP_REPLY;;
      debug_only debug (
        printf "[DEBUG] [ARP] Replied ";;
        s ← arp_header_fprint (Ptr l 14);
        printf s;;
        printf "
");;
      arp_header_hton (Ptr l 14);; rest) w Q.
Proof.
  intros Hnet Hlm Hwf Hby Hspa Hl Hrest. destruct (ni_mac _ _ Hnet) as (Hmac & Hml & _).
  cbv zeta. set (ip := le_store 4 (w_ip w)).
  assert (Hset : forall f', frame_wf f' -> (forall x, length x = 4%nat -> frame_wf (set_tpa x f'))
    /\ (forall x, length x = 6%nat -> frame_wf (set_tha x f'))
    /\ (forall x, length x = 4%nat -> frame_wf (set_spa x f'))
    /\ (forall x, length x = 6%nat -> frame_wf (set_sha x f'))
    /\ (forall x, length x = 2%nat -> frame_wf (set_op x f')))
    by (intros f' []; split_and!; intros; by split).
  unfold ar_dst_ip, ar_src_ip, ar_dst_mac, ar_src_mac, arp_data, opcode.
  wp_step. wp_step; [frame_side|]. offsets. rewrite slice_spa by done.
  wp_step. frame_store splice_tpa. rewrite le_store_load_n by (done || apply Hwf).
  set (f1 := set_tpa (f_spa f) f). assert (Hwf1 : frame_wf f1) by (apply Hset; [done|apply Hwf]).
  wp_step. wp_step; [frame_side|frame_side|]. offsets. rewrite upd_mem_upd_mem, slice_sha by done.
  rewrite splice_tha by (done || apply Hwf).
  change (f_sha f1) with (f_sha f).
  set (f2 := set_tha (f_sha f) f1). assert (Hwf2 : frame_wf f2) by (apply Hset; [done|apply Hwf]).
  wp_step. unfold net_interface_get_ip. wp_step. change (w_ip (upd_mem w l _)) with (w_ip w).
  wp_step. frame_store splice_spa. fold ip.
  set (f3 := set_spa ip f2). assert (Hwf3 : frame_wf f3) by (apply Hset; [done|apply length_le_store]).
  wp_step. eapply (wp_memcpy _ _ _ mac).
  { apply in_block_upd; [|done]. split_and!; cbn; [done|lia|lia|rewrite Hml; lia]. }
  { frame_side. }
  unfold net_interface_get_mac. offsets. rewrite upd_mem_upd_mem.
  replace (slice 0 6 mac) with mac by (unfold slice; rewrite drop_0, take_ge by lia; done).
  rewrite splice_sha by done.
  set (f4 := set_sha mac f3). assert (Hwf4 : frame_wf f4) by (by apply Hset).
  wp_step. frame_store splice_op.
  set (f5 := set_op (le_store 2 ARP_REPLY) f4).
  assert (Hwf5 : frame_wf f5) by (apply Hset; [done|apply length_le_store]).
  wp_step. eapply wp_debug_arp; [exact Hwf5|apply lookup_upd_mem_eq|]. intros o e.
  wp_step. eapply (wp_arp_swap l _ f5).
  { done. }
  { destruct Hby as (? & ? & ?). split_and!; [done|done|apply le_store_bytes]. }
  { apply lookup_upd_mem_eq. }
  specialize (Hrest o e). unfold upd_mem, set_out, set_mem in *. cbn -[layout] in *.
  by rewrite insert_insert_eq.
Qed.

Lemma wp_arp_reply mac w A fi l f (Q : unit -> world -> Prop) :
  net_inv mac w -> arp_inv w A -> first_free (w_busy w) = Some fi -> ~ owned A w l ->
  frame_wf f -> bytes_frame f -> bytes_ok (f_spa f) -> w_mem w !! l = Some (layout f) ->
  (forall w' b', net_inv mac w' -> arp_inv w' A -> fits f b' ->
    steps A (upd_mem w l b') A w' ->
    w_tx w' = w_tx w ++ [(Z.of_nat fi, eth_frame (f_sha f) mac ETH_P_ARP
      (arp_body (replied mac (le_store 4 (w_ip w)) f)))] -> Q tt w') ->
  wp (arp_reply (Ptr l 14)) w Q.
Proof.
  intros Hnet Harp Hfree Hown Hwf Hby Hspa Hl HQ.
  assert (Hlr : ~ reserved w l) by (intros ?; apply Hown; by left).
  assert (Hla : ~ arp_block A l) by (intros ?; apply Hown; by right).
  unfold arp_reply. eapply wp_fill_reply; try done.
  { intros ->. apply Hlr. by left. }
  intros o e. set (f' := replied mac (le_store 4 (w_ip w)) f).
  assert (Hwf' : frame_wf f').
  { apply swapped_wf. destruct Hwf. split; cbn; try done. apply (ni_mac _ _ Hnet). }
  set (w1 := upd_mem (set_out o e w) l (layout f')).
  assert (Hnet1 : net_inv mac w1).
  { apply net_inv_upd; [|done]. by eapply (net_inv_fields mac w). }
  assert (Harp1 : arp_inv w1 A).
  { apply arp_inv_upd; [|done]. eapply arp_inv_frame; [exact Harp|done|done|].
    apply (ai_private _ _ Harp). }
  assert (Htx1 : ~ tx_block w1 l).
  { intros Htx. apply Hlr. right. by right. }
  eapply (wp_net_interface_send mac w1 fi _ _ (layout f') _ (layout f')).
  { done. } { exact Hfree. }
  { subst w1. frame_side. } { subst w1. frame_side. } { done. } { done. } { done. }
  intros w' Hnet' Hk Htx. apply (HQ w' (layout f')).
  - done.
  - by eapply (arp_inv_keeps mac w1).
  - split_and!; [by rewrite !length_layout| |by rewrite !slice_type]. intros Hbytes. subst f'.
    unfold replied. apply swapped_bytes. rewrite layout_bytes in Hbytes |- *. cbn.
    destruct (ni_mac _ _ Hnet) as (_ & _ & Hmb).
    split_and!; try apply Hbytes; auto using le_store_bytes.
  - apply (steps_out o e). by apply (keeps_steps mac w1).
  - rewrite Htx. unfold bytes_at. offsets. rewrite slice_tha, slice_body by done. done.
Qed.

(** ** The table and the cache *)

(** The entries [A] of the cache are the translation table [T]. *)
Definition represents (A : gmap Z cell) (T : table) : Prop :=
  forall pt a, 0 <= pt < 2 ^ 16 -> bytes_ok a -> length a = 4%nat ->
    T !! (pt, a) = c_mac <$> A !! to_key pt (le_load a).

Lemma le_load_u32 a : bytes_ok a -> length a = 4%nat -> 0 <= le_load a < 2 ^ 32.
Proof. intros Hb Hl. pose proof (le_load_bounds a Hb) as H. by rewrite Hl in H. Qed.

Lemma le_load_inj n a b :
  bytes_ok a -> bytes_ok b -> length a = n -> length b = n -> le_load a = le_load b -> a = b.
Proof.
  intros Ha Hb Hla Hlb Heq. rewrite <- (le_store_load_n n a), <- (le_store_load_n n b) by done.
  by rewrite Heq.
Qed.

Lemma represents_insert A T pt a c :
  represents A T -> 0 <= pt < 2 ^ 16 -> bytes_ok a -> length a = 4%nat ->
  represents (<[to_key pt (le_load a) := c]> A) (<[(pt, a) := c_mac c]> T).
Proof.
  intros Hrep Hpt Ha Hla pt' a' Hpt' Ha' Hla'.
  destruct (decide ((pt, a) = (pt', a'))) as [Heq|Hne].
  - injection Heq as <- <-. by rewrite !lookup_insert_eq.
  - rewrite lookup_insert_ne by done.
    rewrite lookup_insert_ne; [by apply Hrep|]. intros Hk. apply Hne.
    destruct (to_key_inj pt (le_load a) pt' (le_load a')) as [-> Hl];
      try done; try by apply le_load_u32.
    f_equal. by eapply (le_load_inj 4).
Qed.

Lemma represents_in A T pt a :
  represents A T -> 0 <= pt < 2 ^ 16 -> bytes_ok a -> length a = 4%nat ->
  bool_decide (is_Some (T !! (pt, a))) = bool_decide (is_Some (A !! to_key pt (le_load a))).
Proof.
  intros Hrep Hpt Ha Hla. rewrite Hrep by done. by destruct (A !! to_key pt (le_load a)).
Qed.

(** What holds after a packet in block [l] was processed. *)
Record arp_post (mac : list Z) (fi : nat) (A : gmap Z cell) w l (T' : table) (out : option (list Z))
    (A' : gmap Z cell) (b' : list Z) w'
    : Prop := {
  ap_net : net_inv mac w';
  ap_arp : arp_inv w' A';
  ap_table : represents A' T';
  ap_steps : steps A (upd_mem w l b') A' w';
  ap_tx : w_tx w' = w_tx w ++ ((fun fr => (Z.of_nat fi, fr)) <$> option_list out)
}.

Lemma upd_mem_id w l b : w_mem w !! l = Some b -> upd_mem w l b = w.
Proof. intros Hl. unfold upd_mem. rewrite insert_id by done. by destruct w. Qed.

Lemma le_load_1 x : le_load [x] = x.
Proof. cbn. lia. Qed.

Lemma word_eq a ip :
  bytes_ok a -> length a = 4%nat -> 0 <= ip < 2 ^ 32 ->
  (le_load a =? ip) = bool_decide (a = le_store 4 ip).
Proof.
  intros Ha Hl Hip.
  assert (Hip' : le_load (le_store 4 ip) = ip)
    by (rewrite le_load_store; apply Z.mod_small; exact Hip).
  case_bool_decide as Heq; [subst; rewrite Hip'; apply Z.eqb_refl|].
  apply Z.eqb_neq. intros He. apply Heq.
  by apply (le_load_inj 4); rewrite ?Hip'; auto using le_store_bytes, length_le_store.
Qed.

(** The end of [arp_receive], once the table was searched. *)
Definition arp_target (h : ptr) (pt si : Z) (known : bool) : M unit :=
  di ← load32 (ar_dst_ip (arp_data h));
  ip ← net_interface_get_ip;
  if di =? ip then
    (if negb known then
       debug_only debug (
         LOG_DEBUG debug "[ARP] [CACHE] Added ";;
         printf (ipv4_fprint si);;
         printf " matching MAC ";;
         sm ← load_bytes (ar_src_mac (arp_data h)) 6;
         printf (mac_fprint sm);;
         printf ".
");;
       add_to_arp_cache pt si (ar_src_mac (arp_data h))
     else mret tt);;
    op ← load16 (opcode h);
    if op =? ARP_REQUEST then arp_reply h
    else if op =? ARP_REPLY then mret tt
    else ERROR ("ARP: Unsupported opcode " +:+ fmt_u op +:+ "
")
  else mret tt.

(** The opcode switch. *)
Lemma wp_arp_opcode mac w A fi l f T (Q : unit -> world -> Prop) :
  let g := swapped f in
  net_inv mac w -> arp_inv w A -> represents A T -> first_free (w_busy w) = Some fi ->
  ~ owned A w l -> frame_wf f -> bytes_frame f -> bytes_ok (f_spa f) ->
  w_mem w !! l = Some (layout g) ->
  (forall w' b', fits f b' ->
    arp_post mac fi A w l T (if be_load (f_op f) =? ARP_REQUEST
      then Some (reply_frame mac (le_store 4 (w_ip w)) f) else None) A b' w' -> Q tt w') ->
  wp (op ← load16 (opcode (Ptr l 14));
      if op =? ARP_REQUEST then arp_reply (Ptr l 14)
      else if op =? ARP_REPLY then mret tt
      else ERROR ("ARP: Unsupported opcode " +:+ fmt_u op +:+ "
")) w Q.
Proof.
  intros g Hnet Harp Hrep Hfree Hown Hwf Hby Hspa Hl HQ.
  assert (Hwfg : frame_wf g) by by apply swapped_wf.
  assert (Hbyg : bytes_frame g)
    by (destruct Hby as (? & ? & ?); split_and!; by apply Forall_reverse).
  assert (Hlen : fits f (layout g)) by by apply fits_swapped.
  assert (Hsame : forall o e out, out = None ->
    arp_post mac fi A w l T out A (layout g) (set_out o e w)).
  { intros o e out ->. split; [by apply (net_inv_fields mac w)| |done| |cbn; by rewrite app_nil_r].
    - eapply arp_inv_frame; [exact Harp|done|done|]. apply (ai_private _ _ Harp).
    - rewrite upd_mem_id by done. by split; auto. }
  wp_step. wp_step; [frame_side|]. offsets. rewrite slice_op by done.
  change (le_load (f_op g)) with (be_load (f_op f)).
  destruct (be_load (f_op f) =? ARP_REQUEST) eqn:Hop.
  - eapply (wp_arp_reply mac w A fi l g); try done. intros w' b' Hn' Ha' Hb' Hs Htx.
    eapply (HQ w' b'); [by apply fits_from_swapped|]. split; try done. by rewrite Htx, <- replied_swapped.
  - destruct (be_load (f_op f) =? ARP_REPLY).
    + wp_step. apply (HQ w (layout g)); [done|].
      specialize (Hsame (w_stdout w) (w_stderr w) None eq_refl). by destruct w.
    + wp_quiet idtac. by eapply HQ; [exact Hlen|apply Hsame].
Qed.

Lemma steps_upd A w A' w' l b b' :
  w_mem w !! l = Some b -> ~ owned A w l -> steps A w A' w' ->
  steps A (upd_mem w l b') A' (upd_mem w' l b').
Proof.
  intros Hl Ho Hs. pose proof (s_mem _ _ _ _ Hs _ _ Hl Ho) as Hl'. split; try apply Hs; cbn.
  - intros x c. destruct (decide (x = l)) as [->|]; [by rewrite !lookup_insert_eq|].
    rewrite !lookup_insert_ne by done. apply (s_mem _ _ _ _ Hs).
  - intros x [Hx|Hx]%(s_owned _ _ _ _ Hs); [by left|]. right.
    rewrite lookup_insert_ne; [done|congruence].
  - intros x [Hx ?]%lookup_insert_None. destruct (s_dom _ _ _ _ Hs _ Hx); [left|by right].
    by rewrite lookup_insert_ne.
Qed.

(** A packet block survives what does not touch it. *)
Lemma packet_kept A w A' w' l b :
  w_mem w !! l = Some b -> ~ owned A w l -> steps A w A' w' ->
  w_mem w' !! l = Some b /\ ~ owned A' w' l.
Proof.
  intros Hl Ho Hs. split; [by apply (s_mem _ _ _ _ Hs)|].
  intros [|]%(s_owned _ _ _ _ Hs); [done|congruence].
Qed.

Lemma arp_post_after mac fi A w l b A1 w1 T out A' b' w' :
  w_mem w !! l = Some b -> ~ owned A w l -> steps A w A1 w1 -> w_tx w1 = w_tx w ->
  arp_post mac fi A1 w1 l T out A' b' w' -> arp_post mac fi A w l T out A' b' w'.
Proof.
  intros Hl Ho Hs Htx [H1 H2 H3 H4 H5]. split; try done; [|congruence].
  eapply steps_trans; [by eapply steps_upd|exact H4].
Qed.

Lemma arp_post_here mac fi A w l b T o e :
  net_inv mac w -> arp_inv w A -> represents A T -> w_mem w !! l = Some b ->
  arp_post mac fi A w l T None A b (set_out o e w).
Proof.
  intros Hnet Harp Hrep Hl.
  split; [by apply (net_inv_fields mac w)| |done| |cbn; by rewrite app_nil_r].
  - eapply arp_inv_frame; [exact Harp|done|done|]. apply (ai_private _ _ Harp).
  - rewrite upd_mem_id by done. by split; auto.
Qed.

Definition well_formed_packet f : Prop :=
  frame_wf f /\ bytes_frame f /\ bytes_ok (f_spa f) /\ bytes_ok (f_tpa f).

Lemma wp_arp_target mac w A fi l f T (Q : unit -> world -> Prop) :
  let g := swapped f in
  let pt := be_load (f_pt f) in
  let ip := le_store 4 (w_ip w) in
  let known := bool_decide (is_Some (T !! (pt, f_spa f))) in
  net_inv mac w -> arp_inv w A -> represents A T -> first_free (w_busy w) = Some fi ->
  0 <= w_ip w < 2 ^ 32 -> ~ owned A w l -> well_formed_packet f ->
  w_mem w !! l = Some (layout g) ->
  (forall w' A' b', fits f b' ->
    arp_post mac fi A w l
      (if bool_decide (f_tpa f = ip) then if known then T else <[(pt, f_spa f) := f_sha f]> T else T)
      (if bool_decide (f_tpa f = ip) then
         if be_load (f_op f) =? ARP_REQUEST then Some (reply_frame mac ip f) else None
       else None) A' b' w' -> Q tt w') ->
  wp (arp_target (Ptr l 14) pt (le_load (f_spa f)) known) w Q.
Proof.
  intros g pt ip known Hnet Harp Hrep Hfree Hip Hown (Hwf & Hby & Hspa & Htpa) Hl HQ.
  assert (Hwfg : frame_wf g) by by apply swapped_wf.
  assert (Hlen : fits f (layout g)) by by apply fits_swapped.
  assert (Hpt : 0 <= pt < 2 ^ 16).
  { destruct Hby as (_ & Hpb & _). pose proof (be_load_bounds _ Hpb) as H.
    by rewrite (wf_pt _ Hwf) in H. }
  assert (Hlm : l <> mac_loc) by (intros ->; apply Hown; left; by left).
  unfold arp_target. wp_step. wp_step; [frame_side|]. offsets. rewrite slice_tpa by done.
  change (f_tpa g) with (f_tpa f). wp_step. unfold net_interface_get_ip. wp_step.
  rewrite word_eq by (done || apply Hwf). fold ip.
  destruct (bool_decide (f_tpa f = ip)).
  2: { wp_step. apply (HQ w A (layout g)); [done|].
       pose proof (arp_post_here mac fi A w l _ T (w_stdout w) (w_stderr w) Hnet Harp Hrep Hl) as Hp.
       by destruct w. }
  destruct known eqn:Hknown; cbn [negb].
  - wp_step. wp_step. eapply (wp_arp_opcode mac w A fi l f T); try done.
    intros w' b' Hb' Hp. by eapply HQ.
  - wp_step. wp_step. unfold debug. wp_quiet frame_side. set (w1 := set_out o e w).
    assert (Hnone : A !! to_key pt (le_load (f_spa f)) = None).
    { subst known. rewrite (represents_in A) in Hknown by (done || apply Hwf).
      apply bool_decide_eq_false in Hknown. by apply eq_None_not_Some. }
    assert (Harp1 : arp_inv w1 A)
      by (eapply arp_inv_frame; [exact Harp|done|done|]; apply (ai_private _ _ Harp)).
    eapply (wp_add_to_arp_cache mac w1 A _ _ _ (layout g));
      [by apply (net_inv_fields mac w)|done|done|subst w1; frame_side|].
    intros w2 lk lv A2 Hnet2 Harp2 Hs2 Htx2.
    pose proof (steps_out _ _ _ _ _ _ Hs2) as Hs.
    destruct (packet_kept _ _ _ _ _ _ Hl Hown Hs) as [Hl2 Hown2].
    eapply (wp_arp_opcode mac w2 A2 fi l f); try done.
    + apply represents_insert; try done. apply Hwf.
    + by rewrite (s_busy _ _ _ _ Hs).
    + rewrite (s_ip _ _ _ _ Hs). fold ip. intros w' b' Hb' Hp.
      eapply (HQ w' _ b'); [done|]. eapply arp_post_after; try done.
      revert Hp. cbn [c_mac]. unfold bytes_at. offsets. by rewrite slice_sha.
Qed.

(** The table search and what follows it. *)
Lemma wp_arp_search mac w A fi l f T (Q : unit -> world -> Prop) :
  let g := swapped f in
  let pt := be_load (f_pt f) in
  let ip := le_store 4 (w_ip w) in
  let pair := (pt, f_spa f) in
  let merge_flag := bool_decide (is_Some (T !! pair)) in
  let T1 := if merge_flag then <[pair := f_sha f]> T else T in
  net_inv mac w -> arp_inv w A -> represents A T -> first_free (w_busy w) = Some fi ->
  0 <= w_ip w < 2 ^ 32 -> ~ owned A w l -> well_formed_packet f ->
  w_mem w !! l = Some (layout g) ->
  (forall w' A' b', fits f b' ->
    arp_post mac fi A w l
      (if bool_decide (f_tpa f = ip) then if merge_flag then T1 else <[pair := f_sha f]> T1 else T1)
      (if bool_decide (f_tpa f = ip) then
         if be_load (f_op f) =? ARP_REQUEST then Some (reply_frame mac ip f) else None
       else None) A' b' w' -> Q tt w') ->
  wp (known ← is_in_arp_cache pt (le_load (f_spa f));
      (if known : bool
       then set_in_arp_cache pt (le_load (f_spa f)) (ar_src_mac (arp_data (Ptr l 14)))
       else mret tt);;
      arp_target (Ptr l 14) pt (le_load (f_spa f)) known) w Q.
Proof.
  intros g pt ip pair mf T1 Hnet Harp Hrep Hfree Hip Hown Hwp Hl HQ.
  pose proof Hwp as (Hwf & Hby & Hspa & Htpa).
  assert (Hwfg : frame_wf g) by by apply swapped_wf.
  assert (Hpt : 0 <= pt < 2 ^ 16).
  { destruct Hby as (_ & Hpb & _). pose proof (be_load_bounds _ Hpb) as H.
    by rewrite (wf_pt _ Hwf) in H. }
  wp_step. eapply (wp_is_in_arp_cache _ A); [done|apply (ni_held _ _ Hnet)|].
  rewrite <- (represents_in A T) by (done || apply Hwf). fold pair. fold mf.
  destruct (bool_decide (is_Some (T !! pair))) eqn:Hk; subst mf T1.
  - unfold pair in Hk; rewrite (represents_in A) in Hk by (done || apply Hwf).
    apply bool_decide_eq_true in Hk as [c Hc].
    wp_step. eapply (wp_set_in_arp_cache mac w A _ _ _ (layout g) c); try done.
    { frame_side. }
    { intros Heq. apply Hown. right. exists (to_key pt (le_load (f_spa f))), c. auto. }
    intros w2 Hnet2 Harp2 Hs Htx2.
    destruct (packet_kept _ _ _ _ _ _ Hl Hown Hs) as [Hl2 Hown2].
    assert (Hrep2 : represents (<[to_key pt (le_load (f_spa f)) := with_mac c (f_sha f)]> A)
      (<[pair := f_sha f]> T)) by (apply represents_insert; try done; apply Hwf).
    revert Harp2 Hs Hown2. unfold bytes_at. offsets. rewrite slice_sha by done. intros Harp2 Hs Hown2.
    assert (Hin : bool_decide (is_Some (<[pair := f_sha f]> T !! pair)) = true)
      by (rewrite lookup_insert_eq; by apply bool_decide_eq_true_2).
    pose proof (wp_arp_target mac w2 _ fi l f (<[pair := f_sha f]> T) Q Hnet2 Harp2 Hrep2) as Ht.
    cbv zeta in Ht. fold pt pair in Ht. rewrite Hin in Ht. apply Ht; clear Ht; try done.
    + by rewrite (s_busy _ _ _ _ Hs).
    + by rewrite (s_ip _ _ _ _ Hs).
    + rewrite (s_ip _ _ _ _ Hs). fold ip. intros w' A' b' Hb' Hp.
      eapply (HQ w' A' b'); [done|]. eapply arp_post_after; try done.
  - wp_step. wp_step. pose proof (wp_arp_target mac w A fi l f T Q Hnet Harp Hrep) as Ht.
    cbv zeta in Ht. fold pt pair in Ht. rewrite Hk in Ht. by apply Ht.
Qed.

Lemma wp_arp_receive mac w A fi l f T (Q : unit -> world -> Prop) :
  net_inv mac w -> arp_inv w A -> represents A T -> first_free (w_busy w) = Some fi ->
  0 <= w_ip w < 2 ^ 32 -> ~ owned A w l -> well_formed_packet f ->
  w_mem w !! l = Some (layout f) ->
  (forall w' A' b', fits f b' ->
    arp_post mac fi A w l (fst (rfc826 mac (le_store 4 (w_ip w)) T f))
      (snd (rfc826 mac (le_store 4 (w_ip w)) T f)) A' b' w' -> Q tt w') ->
  wp (arp_receive (Ptr l 0)) w Q.
Proof.
  intros Hnet Harp Hrep Hfree Hip Hown Hwp Hl HQ. set (g := swapped f).
  pose proof Hwp as (Hwf & Hby & Hspa & Htpa).
  assert (Hwfg : frame_wf g) by by apply swapped_wf.
  assert (Hlr : ~ reserved w l) by (intros ?; apply Hown; by left).
  assert (Hla : ~ arp_block A l) by (intros ?; apply Hown; by right).
  unfold arp_receive. change (eth_payload (Ptr l 0)) with (Ptr l 14).
  wp_step. eapply (wp_arp_swap_ntoh l w f); try done. fold g.
  wp_step. eapply wp_debug_arp; [exact Hwfg|apply lookup_upd_mem_eq|]. intros o e.
  set (w1 := set_out o e (upd_mem w l (layout g))).
  assert (Hl1 : w_mem w1 !! l = Some (layout g)) by apply lookup_upd_mem_eq.
  assert (Hnet1 : net_inv mac w1)
    by (apply (net_inv_fields mac (upd_mem w l (layout g))); try done; by apply net_inv_upd).
  assert (Harp1 : arp_inv w1 A).
  { eapply arp_inv_frame; [by apply arp_inv_upd; [exact Harp|exact Hla]|done|done|].
    apply (ai_private _ _ Harp). }
  assert (Hback : forall w' T' out A' b', arp_post mac fi A w1 l T' out A' b' w' ->
    arp_post mac fi A w l T' out A' b' w').
  { intros w' T' out A' b' [H1 H2 H3 H4 H5]. split; try done.
    apply (steps_out o e). revert H4. subst w1. unfold upd_mem, set_out, set_mem.
    cbn -[layout]. by rewrite insert_insert_eq. }
  assert (Hlen : fits f (layout g)) by by apply fits_swapped.
  assert (Hdrop : forall o' e', snd (rfc826 mac (le_store 4 (w_ip w)) T f) = None ->
    fst (rfc826 mac (le_store 4 (w_ip w)) T f) = T -> Q tt (set_out o' e' w1)).
  { intros o' e' Hs Hf. eapply (HQ _ A (layout g)); [done|]. rewrite Hs, Hf.
    apply Hback. by apply arp_post_here. }
  wp_step. wp_step; [frame_side|]. offsets. rewrite slice_ht by done.
  change (le_load (f_ht g)) with (be_load (f_ht f)).
  wp_step. wp_step; [frame_side|]. offsets. rewrite slice_hs, le_load_1 by done.
  wp_step. wp_step; [frame_side|]. offsets. rewrite slice_pt by done.
  change (le_load (f_pt g)) with (be_load (f_pt f)).
  wp_step. wp_step; [frame_side|]. offsets. rewrite slice_ps, le_load_1 by done.
  change (f_hs g) with (f_hs f). change (f_ps g) with (f_ps f). unfold rfc826 in *.
  destruct ((be_load (f_ht f) =? ARP_ETHERNET) && (f_hs f =? 6)); [|wp_quiet idtac; by apply Hdrop].
  destruct ((be_load (f_pt f) =? ARP_IPV4) && (f_ps f =? 4)); [|wp_quiet idtac; by apply Hdrop].
  wp_step. wp_step; [frame_side|]. offsets. rewrite slice_spa by done.
  eapply (wp_arp_search mac w1 A fi l f T); try done.
  intros w' A' b' Hb' Hp. apply (HQ w' A' b'); [done|]. apply Hback.
  revert Hp. change (w_ip w1) with (w_ip w). by destruct (bool_decide (f_tpa f = le_store 4 (w_ip w))).
Qed.

Lemma decode_ok b :
  (42 <= length b)%nat -> bytes_ok b -> well_formed_packet (arp_decode b).
Proof.
  intros Hlen Hb. split; [by apply decode_wf|].
  unfold bytes_frame. cbn. split_and!; by apply Forall_slice.
Qed.

(** C2 [arp_receive] implements the reception algorithm of RFC 826 on every frame of at
    least 42 bytes: the cache it leaves is the table of [rfc826], the reply (if any)
    is the only frame sent, on the first free queue, and the invariants of the network
    interface and of the cache hold again.  Apart from the frame in the caller's
    buffer, no block of another owner changes. *)
Theorem arp_receive_implements_rfc826 mac w A fi l b T :
  net_inv mac w -> arp_inv w A -> represents A T -> first_free (w_busy w) = Some fi ->
  0 <= w_ip w < 2 ^ 32 -> ~ owned A w l ->
  w_mem w !! l = Some b -> (42 <= length b)%nat -> bytes_ok b ->
  let r := rfc826 mac (le_store 4 (w_ip w)) T (arp_decode b) in
  exists w' A' b', arp_receive (Ptr l 0) w = Ok tt w' /\ length b' = length b /\ bytes_ok b' /\
    arp_post mac fi A w l (fst r) (snd r) A' b' w'.
Proof.
  intros Hnet Harp Hrep Hfree Hip Hown Hl Hlen Hb r.
  pose proof (decode_ok _ Hlen Hb) as Hwp. pose proof (decode_layout _ Hlen) as Hd.
  destruct (wp_run (arp_receive (Ptr l 0)) w (fun _ w' => exists A' b', length b' = length b /\
    bytes_ok b' /\ arp_post mac fi A w l (fst r) (snd r) A' b' w'))
    as ([] & w' & Hrun & A' & b' & ? & ? & ?).
  - eapply (wp_arp_receive mac w A fi l (arp_decode b) T); rewrite ?Hd; eauto.
    intros w' A' b' (Hl' & Hb' & _) Hp. exists A', b'. rewrite Hd in *. auto.
  - by exists w', A', b'.
Qed.

(** ** Resolution *)

Definition request_frame (mac ip target : list Z) : list Z :=
  eth_frame (replicate 6 255) mac ETH_P_ARP
    (be_store 2 ARP_ETHERNET ++ be_store 2 ARP_IPV4 ++ [6; 4] ++ be_store 2 ARP_REQUEST ++
     mac ++ ip ++ replicate 6 255 ++ target).

Lemma steps_freed A w l b w2 :
  w_mem w !! l = None -> ~ owned A w2 l -> steps A (upd_mem w l b) A w2 ->
  steps A w A (set_mem (delete l (w_mem w2)) w2).
Proof.
  intros Hl Hno Hs. split; try apply Hs; cbn.
  - intros x c Hx Ho. rewrite lookup_delete_ne by congruence.
    apply (s_mem _ _ _ _ Hs); [|done]. cbn. rewrite lookup_insert_ne by congruence. done.
  - intros x [Hx|Hx]%(s_owned _ _ _ _ Hs); [by left|]. cbn in Hx.
    apply lookup_insert_None in Hx as [Hx _]. by right.
  - intros x [<-|Hx]%lookup_delete_None; [by left|].
    destruct (s_dom _ _ _ _ Hs _ Hx) as [Hn|]; [|by right].
    cbn in Hn. apply lookup_insert_None in Hn as [Hn _]. by left.
Qed.

(** Stores into a block whose bytes are known one by one. *)
Ltac block_side :=
  split_and!; offsets; [apply lookup_upd_mem_eq|lia|lia|cbn; lia].
Ltac block_store :=
  wp_step; [block_side|]; offsets; rewrite upd_mem_upd_mem;
  match goal with |- context [upd_mem ?w ?l ?b] =>
    let b' := eval vm_compute in b in change (upd_mem w l b) with (upd_mem w l b')
  end.

(** The header of the request, in a zeroed block. *)
Lemma wp_fill_header w l (rest : M vptr) (Q : vptr -> world -> Prop) :
  wp rest (upd_mem w l ([0; 1; 8; 0; 6; 4; 0; 1] ++ replicate 20 0)) Q ->
  let h := Ptr l 0 in
  wp (store16 (hw_type h) ARP_ETHERNET;;
      store8 (hw_size h) 6;;
      store16 (pro_type h) ARP_IPV4;;
      store8 (pro_size h) 4;;
      store16 (opcode h) ARP_REQUEST;;
      arp_header_hton h;;
      rest) (upd_mem w l (replicate 28 0)) Q.
Proof.
  intros HQ h. subst h. unfold arp_header_hton.
  do 5 (wp_step; block_store). wp_step.
  do 2 (wp_step; wp_step; [block_side|]; wp_step; block_store).
  wp_step. wp_step; [block_side|]. block_store. exact HQ.
Qed.

Lemma wp_fill_request mac w l ipv4 (rest : M vptr) (Q : vptr -> world -> Prop) :
  net_inv mac w -> w_mem w !! l = None ->
  wp rest (upd_mem w l ([0; 1; 8; 0; 6; 4; 0; 1] ++ mac ++ le_store 4 (w_ip w) ++
    replicate 6 255 ++ le_store 4 ipv4)) Q ->
  let h := Ptr l 0 in
  let content := arp_data h in
  wp (store32 (ar_dst_ip content) ipv4;;
      store_bytes (ar_dst_mac content) (replicate 6 0xff);;
      ip ← net_interface_get_ip;
      store32 (ar_src_ip content) ip;;
      memcpy (ar_src_mac content) net_interface_get_mac 6;;
      rest) (upd_mem w l ([0; 1; 8; 0; 6; 4; 0; 1] ++ replicate 20 0)) Q.
Proof.
  intros Hnet Hfresh HQ h content. subst h content.
  destruct (ni_mac _ _ Hnet) as (Hmac & Hml & _).
  assert (Hlm : mac_loc <> l) by congruence.
  pose proof (length_le_store 4 ipv4) as Ht. pose proof (length_le_store 4 (w_ip w)) as Hi.
  set (z := [0; 1; 8; 0; 6; 4; 0; 1] ++ replicate 20 0).
  assert (Hz : length z = 28%nat) by done. set (bc := replicate 6 0xff).
  assert (Hbc : length bc = 6%nat) by done.
  wp_step. wp_step; [split_and!; offsets; [apply lookup_upd_mem_eq|lia|lia|slen]|].
  offsets. rewrite upd_mem_upd_mem.
  wp_step. wp_step; [split_and!; offsets; [apply lookup_upd_mem_eq|lia|lia|slen]|].
  offsets. rewrite upd_mem_upd_mem. wp_step. unfold net_interface_get_ip. wp_step.
  change (w_ip (upd_mem w l _)) with (w_ip w).
  wp_step. wp_step; [split_and!; offsets; [apply lookup_upd_mem_eq|lia|lia|slen]|].
  offsets. rewrite upd_mem_upd_mem. wp_step. eapply (wp_memcpy _ _ _ mac).
  { apply in_block_upd; [|done]. split_and!; cbn; [done|lia|lia|rewrite Hml; lia]. }
  { split_and!; offsets; [apply lookup_upd_mem_eq|lia|lia|slen]. }
  offsets. rewrite upd_mem_upd_mem. revert HQ. generalize dependent (le_store 4 ipv4). intros t Ht.
  generalize dependent (le_store 4 (w_ip w)). intros i Hi.
  unfold net_interface_get_mac. explode t. explode i. explode mac. intros HQ. exact HQ.
Qed.

(** The lookup of a known host through a local key. *)
Lemma wp_local_get w A pt ip c (Q : vptr -> world -> Prop) :
  arp_inv w A -> A !! to_key pt ip = Some c -> Q (Some (Ptr (c_val c) 0)) w ->
  wp (with_local (le_store 8 (to_key pt ip)) cache_get) w Q.
Proof.
  intros Harp HA HQ. apply wp_with_local. intros l Hl. eapply (wp_cache_get _ A).
  { apply arp_inv_upd; [done|by eapply fresh_not_arp]. }
  { apply ident_store; [apply lookup_upd_mem_eq|apply to_key_range]. }
  rewrite HA. cbn [fmap option_fmap option_map]. unfold upd_mem. cbn.
  rewrite delete_insert_id by done. by destruct w.
Qed.

Lemma bytes_at_all b l n : Z.to_nat n = length b -> bytes_at b (Ptr l 0) n = b.
Proof. intros Hn. unfold bytes_at, slice. cbn [p_off]. rewrite drop_0, take_ge; [done|lia]. Qed.

Lemma wp_arp_resolve mac w A fi ipv4 (Q : vptr -> world -> Prop) :
  net_inv mac w -> arp_inv w A -> first_free (w_busy w) = Some fi ->
  match A !! to_key ARP_IPV4 ipv4 with
  | Some c => Q (Some (Ptr (c_val c) 0)) w
  | None => forall w', net_inv mac w' -> arp_inv w' A -> steps A w A w' ->
      w_tx w' = w_tx w ++ [(Z.of_nat fi,
        request_frame mac (le_store 4 (w_ip w)) (le_store 4 ipv4))] -> Q None w'
  end ->
  wp (arp_resolve_ipv4 ipv4) w Q.
Proof.
  intros Hnet Harp Hfree HQ. unfold arp_resolve_ipv4.
  wp_step. eapply (wp_is_in_arp_cache _ A); [done|apply (ni_held _ _ Hnet)|].
  destruct (A !! to_key ARP_IPV4 ipv4) as [c|] eqn:HA.
  - rewrite bool_decide_eq_true_2 by by eexists. by eapply wp_local_get.
  - rewrite bool_decide_eq_false_2 by by intros []. unfold debug. wp_quiet idtac.
    set (w0 := set_out o e w). wp_step. unfold calloc. apply wp_alloc_block. intros l Hl.
    change (Z.to_nat (sizeof_arp_header + sizeof_arp_ipv4)) with 28%nat.
    change (w_mem w0) with (w_mem w) in Hl.
    assert (Hnet0 : net_inv mac w0) by by apply (net_inv_fields mac w).
    assert (Harp0 : arp_inv w0 A)
      by (eapply arp_inv_frame; [exact Harp|done|done|]; apply (ai_private _ _ Harp)).
    assert (Hno : ~ owned A w l).
    { intros [Hr|Ha]; [by eapply fresh_not_reserved|by eapply fresh_not_arp]. }
    apply (wp_fill_header w0 l). eapply (wp_fill_request mac w0); [done|done|].
    set (body := [0; 1; 8; 0; 6; 4; 0; 1] ++ _). set (w1 := upd_mem w0 l body).
    assert (Hbl : length body = 28%nat).
    { subst body. rewrite !length_app, !length_le_store, (proj1 (proj2 (ni_mac _ _ Hnet))). done. }
    assert (Hnet1 : net_inv mac w1)
      by (apply net_inv_upd; [done|]; intros ?; apply Hno; by left).
    assert (Harp1 : arp_inv w1 A)
      by (apply arp_inv_upd; [done|]; intros ?; apply Hno; by right).
    wp_step. unfold net_interface_broadcast.
    eapply (wp_net_interface_send mac w1 fi _ _ body _ (replicate 6 255)); try done.
    { split_and!; offsets; [apply lookup_upd_mem_eq|lia|lia|lia]. }
    { split_and!; cbn; [apply (ni_broadcast _ _ Hnet1)|lia|lia|lia]. }
    { intros Htx. apply Hno. left. right. by right. }
    { apply (static_not_tx _ _ Hnet1). }
    intros w2 Hnet2 Hk Htx.
    assert (Hs : steps A (upd_mem w l body) A w2)
      by (apply (steps_out o e); by apply (keeps_steps mac w1)).
    assert (Harp2 : arp_inv w2 A) by by eapply (arp_inv_keeps mac w1).
    destruct (packet_kept A (upd_mem w l body) A w2 l body) as [Hl2 Hno2]; try done.
    { apply lookup_upd_mem_eq. }
    wp_step. eapply wp_free; [exact Hl2|]. wp_step. apply HQ.
    + apply net_inv_delete; [done|]. intros ?. apply Hno2. by left.
    + eapply arp_inv_frame; [exact Harp2|done| |].
      * intros x Hx. apply lookup_delete_ne. intros ->. apply Hno2. by right.
      * intros x Hx. by apply (ai_private _ _ Harp2).
    + by eapply steps_freed.
    + change (w_tx (set_mem _ w2)) with (w_tx w2). rewrite Htx, bytes_at_all by done. reflexivity.
Qed.

(** C19 [arp_resolve_ipv4] returns the cell with the cached address and changes nothing
    when the address is in the cache; otherwise it broadcasts one request for it on
    the first free queue, frees the packet and returns [NULL]. *)
Theorem arp_resolve_correct mac w A fi T ip :
  net_inv mac w -> arp_inv w A -> represents A T -> first_free (w_busy w) = Some fi ->
  bytes_ok ip -> length ip = 4%nat ->
  match T !! (ARP_IPV4, ip) with
  | Some sha => exists p, arp_resolve_ipv4 (le_load ip) w = Ok (Some p) w /\
      in_block w p 6 sha /\ p_off p = 0
  | None => exists w', arp_resolve_ipv4 (le_load ip) w = Ok None w' /\
      net_inv mac w' /\ arp_inv w' A /\ steps A w A w' /\
      w_tx w' = w_tx w ++ [(Z.of_nat fi, request_frame mac (le_store 4 (w_ip w)) ip)]
  end.
Proof.
  intros Hnet Harp Hrep Hfree Hip Hlen.
  assert (HT : T !! (ARP_IPV4, ip) = c_mac <$> A !! to_key ARP_IPV4 (le_load ip)).
  { apply Hrep; [unfold ARP_IPV4; lia|done|done]. }
  rewrite HT. destruct (A !! to_key ARP_IPV4 (le_load ip)) as [c|] eqn:HA; cbn.
  - destruct (wp_run (arp_resolve_ipv4 (le_load ip)) w
      (fun r w' => r = Some (Ptr (c_val c) 0) /\ w' = w)) as (r & w' & Hrun & -> & ->).
    { eapply wp_arp_resolve; try done. by rewrite HA. }
    exists (Ptr (c_val c) 0). split_and!; [done| |done].
    destruct (ai_val _ _ Harp _ _ HA) as [Hv Hl]. split_and!; cbn; [done|lia|lia|lia].
  - destruct (wp_run (arp_resolve_ipv4 (le_load ip)) w (fun r w' => r = None /\ net_inv mac w' /\
      arp_inv w' A /\ steps A w A w' /\ w_tx w' = w_tx w ++ [(Z.of_nat fi,
        request_frame mac (le_store 4 (w_ip w)) ip)])) as (r & w' & Hrun & -> & Hw').
    { eapply wp_arp_resolve; try done. rewrite HA, le_store_load_n by done. auto. }
    by exists w'.
Qed.

(** ** The cache at start-up *)

Definition empty_cache : hashmap vptr vptr := mk_hashmap (replicate 16 zero_element) 16 0.

Lemma empty_cache_inv mac w : net_inv mac w -> arp_inv (set_cache (CacheMap empty_cache) w) ∅.
Proof.
  intros Hnet. split; try done.
  - exists empty_cache. split; [done|]. rewrite fmap_empty. apply (inv_empty 4). lia.
  - by intros l (i & c & Hi & _).
Qed.

(** [arp_init] installs an empty translation table; before it, looking an address up
    aborts on the assertion of the hash map. *)
Theorem arp_init_correct mac w :
  net_inv mac w -> w_cache w = CacheNull ->
  (exists w', arp_init w = Ok tt w' /\ net_inv mac w' /\ arp_inv w' ∅ /\ represents ∅ ∅) /\
  forall pt ip, exists w', is_in_arp_cache pt ip w = Aborted w'.
Proof.
  intros Hnet Hnull. split.
  - exists (set_cache (CacheMap empty_cache) w). split_and!; [done| | |done].
    + by apply (net_inv_fields mac w).
    + by eapply empty_cache_inv.
  - intros pt ip. unfold is_in_arp_cache, with_local, mbind, M_bind, mutex_lock. cbn.
    rewrite decide_False by (rewrite (ni_held _ _ Hnet); apply not_elem_of_nil).
    unfold cache_contains, the_cache, get, mbind, M_bind. cbn. rewrite Hnull. by eexists.
Qed.

Lemma arp_init_correct_witness :
  (exists w', arp_init payload_world = Ok tt w' /\ net_inv [2; 0; 0; 0; 0; 1] w' /\
     arp_inv w' ∅ /\ represents ∅ ∅) /\
  forall pt ip, exists w', is_in_arp_cache pt ip payload_world = Aborted w'.
Proof. apply (arp_init_correct _ _ payload_inv). done. Defined.

(** A request from 10.0.0.9 for 10.0.0.4 in the buffer of a thread. *)
Definition request : list Z :=
  request_frame [2; 0; 0; 0; 0; 9] [10; 0; 0; 9] [10; 0; 0; 4] ++ replicate 58 0.

Lemma request_bytes : bytes_ok request.
Proof. let r := eval vm_compute in request in change request with r. repeat constructor; done. Qed.

Definition request_world : world :=
  upd_mem (set_cache (CacheMap empty_cache) payload_world) 5%positive request.

Lemma request_free : ~ owned ∅ (set_cache (CacheMap empty_cache) payload_world) 5%positive.
Proof.
  intros [[|[|Htx]]|(i & c & Hi & _)]; try done. by apply (payload_no_tx 5%positive).
Qed.

Lemma request_inv : net_inv [2; 0; 0; 0; 0; 1] request_world /\ arp_inv request_world ∅.
Proof.
  split.
  - apply net_inv_upd; [by apply (net_inv_fields _ payload_world), payload_inv|].
    intros ?. apply request_free. by left.
  - apply arp_inv_upd; [by eapply empty_cache_inv, payload_inv|].
    intros ?. apply request_free. by right.
Qed.

Lemma request_outcome :
  rfc826 [2; 0; 0; 0; 0; 1] (le_store 4 (w_ip request_world)) ∅ (arp_decode request) =
  (<[(ARP_IPV4, [10; 0; 0; 9]) := [2; 0; 0; 0; 0; 9]]> ∅,
   Some ([2; 0; 0; 0; 0; 9] ++ [2; 0; 0; 0; 0; 1] ++ [8; 6] ++ [0; 1; 8; 0; 6; 4; 0; 2] ++
         [2; 0; 0; 0; 0; 1] ++ [10; 0; 0; 4] ++ [2; 0; 0; 0; 0; 9] ++ [10; 0; 0; 9])).
Proof. vm_compute. reflexivity. Qed.

Lemma arp_receive_implements_rfc826_witness :
  exists w' A' b', arp_receive (Ptr 5 0) request_world = Ok tt w' /\ length b' = length request /\
    bytes_ok b' /\ arp_post [2; 0; 0; 0; 0; 1] 0 ∅ request_world 5%positive
      (<[(ARP_IPV4, [10; 0; 0; 9]) := [2; 0; 0; 0; 0; 9]]> ∅)
      (Some ([2; 0; 0; 0; 0; 9] ++ [2; 0; 0; 0; 0; 1] ++ [8; 6] ++ [0; 1; 8; 0; 6; 4; 0; 2] ++
             [2; 0; 0; 0; 0; 1] ++ [10; 0; 0; 4] ++ [2; 0; 0; 0; 0; 9] ++ [10; 0; 0; 9]))
      A' b' w'.
Proof.
  pose proof (arp_receive_implements_rfc826 [2; 0; 0; 0; 0; 1] request_world ∅ 0 5%positive
    request ∅ (proj1 request_inv) (proj2 request_inv)) as H.
  cbv zeta in H. rewrite request_outcome in H. apply H.
  - done.
  - done.
  - cbn; lia.
  - exact request_free.
  - done.
  - apply Nat.leb_le. vm_compute. reflexivity.
  - apply request_bytes.
Defined.

Lemma arp_resolve_correct_witness :
  exists w', arp_resolve_ipv4 (le_load [10; 0; 0; 9]) request_world = Ok None w' /\
    net_inv [2; 0; 0; 0; 0; 1] w' /\ arp_inv w' ∅ /\ steps ∅ request_world ∅ w' /\
    w_tx w' = [(0, request_frame [2; 0; 0; 0; 0; 1] [10; 0; 0; 4] [10; 0; 0; 9])].
Proof.
  assert (Hip : bytes_ok [10; 0; 0; 9]) by (repeat constructor; done).
  pose proof (arp_resolve_correct [2; 0; 0; 0; 0; 1] request_world ∅ 0 ∅ [10; 0; 0; 9]
    (proj1 request_inv) (proj2 request_inv) (fun _ _ _ _ _ => eq_refl) eq_refl Hip eq_refl) as H.
  rewrite lookup_empty in H. exact H.
Defined.

End ArpSpec.
