(* ===== verification/ArpThreads.v ===== *)
(** * The translation table under several threads (src/src/protocols/arp.c)

    The threads of main.c share [arp_cache].  [is_in_arp_cache] and the [hashmap_put] of
    [set_in_arp_cache] and [add_to_arp_cache] run under [cache_mutex]; the [hashmap_get] of
    [set_in_arp_cache] and of [arp_resolve_ipv4], and the [memcpy] into the address cell, do
    not, and nothing joins the check to the update that relies on it.

    [thread_step] cuts what a thread does to the table into the sections between which
    other threads can run; the growth of the table is cut into the rounds of the loop of
    [hashmap_expand], during which the mutex is held.  The lemmas [*_sections] show that the
    sections in a row are the functions of Arp.v.

    Two sections are coarser than the program: the unlocked lookup [get_section] makes many
    accesses to the table, and the copy [copy_section] stores six bytes.  HashMapAccess.v cuts
    the lookup at its accesses: beside the threads that store without enlarging the table
    it is atomic ([lookups_beside_puts]), beside a growth it is not.  [undisturbed] names
    the states in which one section for it is right, and [quiet_run] the runs through
    such states only. *)

From stdpp Require Import relations.
From S2P Require Import Prelude Words HashMap HashMapFacts HashMapGrowth World Wp Tun Arp.
Import HashMap HashMapFacts HashMapGrowth World Wp Arp.

Module ArpThreads.

(** What a thread is about: the sender of a frame to this host is recorded ([arp_receive]),
    an address is looked up ([arp_resolve_ipv4]). *)
Inductive job :=
| Learn (pro_type src_ip : Z) (src_mac : ptr)
| Resolve (ipv4 : Z).

Definition job_pro (j : job) : Z := match j with Learn pt _ _ => pt | Resolve _ => ARP_IPV4 end.
Definition job_ip (j : job) : Z := match j with Learn _ ip _ => ip | Resolve ip => ip end.
Definition job_key (j : job) : Z := to_key (job_pro j) (job_ip j).

(** The arguments of a [hashmap_put] to come; [pd_local]: the key is a local variable. *)
Record pending := mk_pending { pd_key : ptr; pd_data : ptr; pd_local : bool }.

Inductive phase :=
| Ready
| Known                                      (* [is_in_arp_cache] said yes *)
| Unknown                                    (* [is_in_arp_cache] said no *)
| Got (key dst : ptr)                        (* after the [hashmap_get] and the [assert] *)
| Storing (p : pending)                      (* before [pthread_mutex_lock] *)
| Growing (rest : list (hashmap_element vptr vptr)) (p : pending)
                                             (* in [hashmap_expand], with the mutex *)
| Finished (r : vptr).

Implicit Types (j : job) (ph : phase) (p : pending) (w : world).

Definition drop_local (key : ptr) : M unit :=
  modify (fun w => set_mem (delete (p_blk key) (w_mem w)) w).

(** ** The sections *)

Definition check_section j : M phase :=
  known ← is_in_arp_cache (job_pro j) (job_ip j);
  mret (if known : bool then Known else Unknown).

(** The [hashmap_get] outside the mutex, in one piece: right in [undisturbed] states. *)
Definition get_section j : M phase :=
  key ← alloc_block (le_store 8 (job_key j));
  v ← cache_get key;
  match j with
  | Learn _ _ _ => assert_ (bool_decide (v <> None));; dst ← deref v; mret (Got key dst)
  | Resolve _ => drop_local key;; mret (Finished v)
  end.

Definition copy_section (src key dst : ptr) : M phase :=
  memcpy dst src 6;;
  mret (Storing (mk_pending key dst true)).

Definition prepare_section j (src : ptr) : M phase :=
  dst_key ← calloc 8;
  dst_mac ← calloc 6;
  store64 dst_key (job_key j);;
  memcpy dst_mac src 6;;
  mret (Storing (mk_pending dst_key dst_mac false)).

(** The end of [hashmap_put] on the table, the release of the mutex, the return. *)
Definition store_section p : M phase :=
  map ← the_cache; m ← get w_mem;
  map ← lift (put_here (arp_ops m) map (Some (pd_key p)) (Some (pd_data p)));
  modify (set_cache (CacheMap map));;
  mutex_unlock cache_mutex;;
  (if pd_local p then drop_local (pd_key p) else mret tt);;
  mret (Finished None).

(** From [pthread_mutex_lock]: either the table is installed in a larger array, or the
    entry is stored at once. *)
Definition lock_section p : M phase :=
  mutex_lock cache_mutex;;
  map ← the_cache;
  if 70 <? hashmap_load_factor map then
    modify (set_cache (CacheMap (grow_start map)));;
    mret (Growing (array map) p)
  else store_section p.

Definition grow_section (el : hashmap_element vptr vptr) (rest : list (hashmap_element vptr vptr)) p
    : M phase :=
  map ← the_cache; m ← get w_mem;
  map ← lift (grow_one (arp_ops m) el map);
  modify (set_cache (CacheMap map));;
  mret (Growing rest p).

Definition thread_step j ph : M phase :=
  match ph with
  | Ready => check_section j
  | Known => get_section j
  | Unknown =>
      match j with
      | Learn _ _ src => prepare_section j src
      | Resolve _ => mret (Finished None)
      end
  | Got key dst =>
      match j with
      | Learn _ _ src => copy_section src key dst
      | Resolve _ => mret (Finished (Some dst))
      end
  | Storing p => lock_section p
  | Growing [] p => store_section p
  | Growing (el :: rest) p => grow_section el rest p
  | Finished r => mret (Finished r)
  end.

(** ** Many threads *)

Record system := mk_system { s_world : world; s_threads : list (job * phase) }.

Definition finished ph : Prop := match ph with Finished _ => True | _ => False end.
#[export] Instance finished_dec ph : Decision (finished ph).
Proof. destruct ph; apply _. Defined.

(** A step of one thread that does not end the process. *)
Inductive step : system -> system -> Prop :=
| step_thread t j ph w ph' w' ts :
    ts !! t = Some (j, ph) -> ~ finished ph -> thread_step j ph w = Ok ph' w' ->
    step (mk_system w ts) (mk_system w' (<[t := (j, ph')]> ts)).

Definition start w (js : list job) : system := mk_system w ((fun j => (j, Ready)) <$> js).

(** The next sections of two threads cannot be taken for one step each: a lookup without
    the mutex while the other thread enlarges the table, or two copies into one cell. *)
Definition clash ph ph' : bool :=
  match ph, ph' with
  | Known, Growing _ _ | Growing _ _, Known => true
  | Got _ dst, Got _ dst' => bool_decide (dst = dst')
  | _, _ => false
  end.

Definition undisturbed (s : system) : Prop :=
  forall t t' j j' ph ph', t <> t' ->
    s_threads s !! t = Some (j, ph) -> s_threads s !! t' = Some (j', ph') -> clash ph ph' = false.

(** A run through such states. *)
Definition quiet_step (s s' : system) : Prop := step s s' /\ undisturbed s'.
Abbreviation quiet_run := (rtc quiet_step).

Lemma start_undisturbed w js : undisturbed (start w js).
Proof.
  intros t t' j j' ph ph' _. unfold start. cbn. rewrite list_lookup_fmap.
  destruct (js !! t); [|done]. by intros [= _ <-].
Qed.

Lemma quiet_run_steps s s' : quiet_run s s' -> rtc step s s'.
Proof. induction 1 as [|s1 s2 s3 [Hstep _] _ IH]; [done|]. by eapply rtc_l. Qed.

Lemma quiet_run_undisturbed s s' : quiet_run s s' -> undisturbed s -> undisturbed s'.
Proof. induction 1 as [|s1 s2 s3 [_ Hu] _ IH]; auto. Qed.

(** Thread [t] goes next, executable. *)
Definition advance (t : nat) (s : system) : option system :=
  match s_threads s !! t with
  | Some (j, ph) =>
      if decide (finished ph) then None
      else match thread_step j ph (s_world s) with
           | Ok ph' w => Some (mk_system w (<[t := (j, ph')]> (s_threads s)))
           | _ => None
           end
  | None => None
  end.

Fixpoint run (schedule : list nat) (s : system) : option system :=
  match schedule with
  | [] => Some s
  | t :: schedule => s ← advance t s; run schedule s
  end.

Lemma advance_is_step t s s' : advance t s = Some s' -> step s s'.
Proof.
  destruct s as [w ts]. unfold advance. cbn. destruct (ts !! t) as [[j ph]|] eqn:Ht; [|done].
  case_decide as Hf; [done|]. destruct (thread_step j ph w) as [ph' w'| | | |] eqn:Hrun; try done.
  intros [= <-]. by econstructor.
Qed.

Lemma run_nsteps schedule s s' : run schedule s = Some s' -> nsteps step (length schedule) s s'.
Proof.
  revert s. induction schedule as [|t schedule IH]; intros s; cbn; [intros [= ->]; constructor|].
  destruct (advance t s) as [s1|] eqn:Hs; [|done]. intros Hrun.
  eapply nsteps_l; [by eapply advance_is_step|]. by apply IH.
Qed.

Lemma schedule_steps schedule s s' : run schedule s = Some s' -> rtc step s s'.
Proof. intros Hrun. apply rtc_nsteps. eexists. by apply run_nsteps. Qed.

(** The same along a schedule, executable. *)
Fixpoint calm (ts : list (job * phase)) : bool :=
  match ts with
  | [] => true
  | jp :: ts => forallb (fun jp' => negb (clash (snd jp) (snd jp'))) ts && calm ts
  end.

Fixpoint calm_run (schedule : list nat) (s : system) : bool :=
  match schedule with
  | [] => true
  | t :: schedule =>
      if advance t s is Some s' then calm (s_threads s') && calm_run schedule s' else true
  end.

Lemma clash_sym ph ph' : clash ph ph' = clash ph' ph.
Proof. destruct ph, ph'; try done. cbn. apply bool_decide_ext. split; congruence. Qed.

Lemma calm_undisturbed s : calm (s_threads s) = true -> undisturbed s.
Proof.
  destruct s as [w ts]. unfold undisturbed. cbn. induction ts as [|jp ts IH]; [by intros _ []|].
  cbn [calm]. intros [Hall Hts]%andb_true_iff. rewrite forallb_forall in Hall.
  assert (Hhead : forall u j ph, ts !! u = Some (j, ph) -> clash (snd jp) ph = false).
  { intros u j ph Hu%list_elem_of_lookup_2%list_elem_of_In. specialize (Hall _ Hu). cbn in Hall.
    by destruct (clash (snd jp) ph). }
  intros [|t] [|t'] j j' ph ph' Hne Ht Ht'; cbn in Ht, Ht'.
  - done.
  - injection Ht as ->. by apply (Hhead t' j').
  - injection Ht' as ->. rewrite clash_sym. by apply (Hhead t j).
  - eapply (IH Hts t t'); eauto.
Qed.

Lemma calm_run_quiet schedule s s' :
  run schedule s = Some s' -> calm_run schedule s = true -> quiet_run s s'.
Proof.
  revert s. induction schedule as [|t schedule IH]; intros s; cbn [run calm_run]; [by intros [= ->]|].
  destruct (advance t s) as [s1|] eqn:Hs; [|done]. cbn [mbind option_bind].
  intros Hrun [Hc Hq]%andb_true_iff. eapply rtc_l; [|by apply IH].
  split; [by eapply advance_is_step|by apply calm_undisturbed].
Qed.

(** ** One thread alone *)

Fixpoint alone (fuel : nat) j ph : M phase :=
  match fuel with
  | O => undefined Diverges
  | S fuel => if decide (finished ph) then mret ph else ph ← thread_step j ph; alone fuel j ph
  end.

Lemma alone_finished fuel j r w : (0 < fuel)%nat -> alone fuel j (Finished r) w = Ok (Finished r) w.
Proof. by destruct fuel; [lia|]. Qed.

(** A local variable is a block that is dropped when the body returns. *)
Lemma with_local_sections {A B} bs (body : ptr -> M A) (k : A -> M B) w :
  (with_local bs body ≫= k) w = (key ← alloc_block bs; a ← body key; drop_local key;; k a) w.
Proof. by unfold with_local, alloc_block, mbind, M_bind; destruct (body _ _). Qed.

(** Calls that do not touch [arp_cache]. *)
Definition keeps_cache {A} (m : M A) : Prop := forall w a w', m w = Ok a w' -> w_cache w' = w_cache w.

Lemma keeps_bind {A B} (m : M A) (k : A -> M B) :
  keeps_cache m -> (forall a, keeps_cache (k a)) -> keeps_cache (m ≫= k).
Proof.
  intros Hm Hk w b w'. unfold mbind, M_bind. destruct (m w) as [a w1| | | |] eqn:Hrun; try done.
  intros Hb. by rewrite (Hk _ _ _ _ Hb), (Hm _ _ _ Hrun).
Qed.

Lemma keeps_lift {A} (r : res A) : keeps_cache (lift r).
Proof. intros w a w'. unfold lift. destruct r; [by intros [= _ <-]|done]. Qed.

Lemma keeps_load a n : keeps_cache (load_bytes a n).
Proof. intros w x w'. unfold load_bytes. repeat case_match; try done. by intros [= _ <-]. Qed.

Lemma keeps_store a bs : keeps_cache (store_bytes a bs).
Proof. intros w x w'. unfold store_bytes. repeat case_match; try done. by intros [= _ <-]. Qed.

Lemma keeps_alloc bs : keeps_cache (alloc_block bs).
Proof. intros w a w'. unfold alloc_block. by intros [= _ <-]. Qed.

Lemma keeps_memcpy dst src n : keeps_cache (memcpy dst src n).
Proof. apply keeps_bind; [apply keeps_load|intros; apply keeps_store]. Qed.

Lemma keeps_cache_get key : keeps_cache (cache_get key).
Proof.
  apply keeps_bind; [|intros; apply keeps_bind; [|intros; apply keeps_lift]].
  - intros w a w'. unfold the_cache, mbind, M_bind, get. destruct (w_cache w) eqn:Hw; try done.
    unfold mret, M_ret. by intros [= _ <-].
  - intros w x w'. unfold get. by intros [= _ <-].
Qed.

Lemma bind_keeps {A B} (m : M A) (f g : A -> M B) w map :
  keeps_cache m -> w_cache w = CacheMap map ->
  (forall a w', w_cache w' = CacheMap map -> f a w' = g a w') -> (m ≫= f) w = (m ≫= g) w.
Proof.
  intros Hm Hw Hfg. unfold mbind, M_bind. destruct (m w) as [a w'| | | |] eqn:Hrun; try done.
  apply Hfg. by rewrite (Hm _ _ _ Hrun).
Qed.

Lemma the_cache_run w map : w_cache w = CacheMap map -> the_cache w = Ok map w.
Proof. intros Hw. unfold the_cache, mbind, M_bind, get. by rewrite Hw. Qed.

Lemma alone_step fuel j ph w :
  ~ finished ph -> alone (S fuel) j ph w = (ph' ← thread_step j ph; alone fuel j ph') w.
Proof. intros Hf. cbn [alone]. by rewrite decide_False. Qed.

Lemma alone_store fuel j p w :
  (0 < fuel)%nat -> (ph ← store_section p; alone fuel j ph) w = store_section p w.
Proof.
  intros Hf. unfold store_section.
  repeat (rewrite M_bind_assoc; apply M_bind_ext; intros ? ?).
  by apply alone_finished.
Qed.

Lemma store_run p w map :
  w_cache w = CacheMap map ->
  store_section p w =
    (map' ← lift (put_here (arp_ops (w_mem w)) map (Some (pd_key p)) (Some (pd_data p)));
     modify (set_cache (CacheMap map'));;
     mutex_unlock cache_mutex;;
     (if pd_local p then drop_local (pd_key p) else mret tt);;
     mret (Finished None)) w.
Proof.
  intros Hw. unfold store_section. rewrite (M_bind_run _ _ _ _ _ (the_cache_run _ _ Hw)).
  by rewrite (M_bind_run (get w_mem) _ w (w_mem w) w).
Qed.

(** The rounds of the growth in a row. *)
Lemma alone_growing fuel j rest p w map :
  w_cache w = CacheMap map -> (length rest + 2 <= fuel)%nat ->
  alone fuel j (Growing rest p) w =
    (map' ← lift (reinsert (put_depth (arp_ops (w_mem w)) 0) rest map);
     modify (set_cache (CacheMap map'));; store_section p) w.
Proof.
  revert fuel w map. induction rest as [|el rest IH]; intros fuel w map Hw Hf;
    (destruct fuel as [|fuel]; [cbn in Hf; lia|]); rewrite alone_step by auto; cbn [thread_step].
  - rewrite alone_store by (cbn in Hf; lia). cbn. unfold mbind at 1, M_bind at 1, modify. cbn.
    f_equal. destruct w; cbn in *. by rewrite Hw.
  - unfold grow_section. rewrite M_bind_assoc, (M_bind_run _ _ _ _ _ (the_cache_run _ _ Hw)).
    rewrite reinsert_cons. unfold get, lift, modify, mbind, M_bind, mret, M_ret. cbn [res_bind].
    destruct (grow_one (arp_ops (w_mem w)) el map) as [map1|f]; [|done]. cbn [res_bind].
    erewrite IH; [|done|cbn in Hf; lia]. unfold lift, modify, mbind, M_bind. cbn.
    by destruct (reinsert _ rest map1).
Qed.

Lemma alone_storing fuel j p w map :
  w_cache w = CacheMap map -> (length (array map) + 3 <= fuel)%nat ->
  alone fuel j (Storing p) w =
    (mutex_lock cache_mutex;; cache_put (pd_key p) (Some (pd_data p));; mutex_unlock cache_mutex;;
     (if pd_local p then drop_local (pd_key p) else mret tt);; mret (Finished None)) w.
Proof.
  intros Hw Hf. destruct fuel as [|fuel]; [lia|]. rewrite alone_step by auto. cbn [thread_step].
  unfold lock_section. rewrite M_bind_assoc. apply (bind_keeps _ _ _ _ map); [|done|].
  { intros w1 a w2. unfold mutex_lock. case_decide; [done|]. by intros [= _ <-]. }
  clear w Hw. intros _ w Hw. rewrite M_bind_assoc, (M_bind_run _ _ _ _ _ (the_cache_run _ _ Hw)).
  unfold cache_put. rewrite M_bind_assoc, (M_bind_run the_cache _ _ _ _ (the_cache_run _ _ Hw)).
  rewrite M_bind_assoc, (M_bind_run (get w_mem) _ w (w_mem w) w), put_sections by done.
  destruct (70 <? hashmap_load_factor map).
  - set (w1 := set_cache (CacheMap (grow_start map)) w).
    rewrite !M_bind_assoc, (M_bind_run (modify _) _ w tt w1), ?M_bind_assoc by done.
    rewrite (M_bind_run (mret _) _ w1 _ w1) by done. erewrite alone_growing; [|done|lia].
    change (w_mem w1) with (w_mem w).
    destruct (reinsert (put_depth (arp_ops (w_mem w)) 0) (array map) (grow_start map)) as [mid|f]; [|done].
    set (w2 := set_cache (CacheMap mid) w1).
    rewrite (M_bind_run (lift _) _ w1 mid w1), (M_bind_run (modify _) _ w1 tt w2) by done.
    rewrite (store_run p w2 mid) by done. change (w_mem w2) with (w_mem w).
    change (Val mid ≫= ?f) with (f mid). cbv beta. rewrite ?M_bind_assoc.
    destruct (put_here (arp_ops (w_mem w)) mid (Some (pd_key p)) (Some (pd_data p))); done.
  - by rewrite alone_store, (store_run p w map), M_bind_assoc by (done || lia).
Qed.

(** The sections in a row are the functions of arp.c. *)
Lemma set_sections fuel pt ip src w map :
  w_cache w = CacheMap map -> (length (array map) + 5 <= fuel)%nat ->
  alone fuel (Learn pt ip src) Known w = (set_in_arp_cache pt ip src;; mret (Finished None)) w.
Proof.
  intros Hw Hf. destruct fuel as [|[|fuel]]; [lia|lia|]. rewrite alone_step by auto.
  cbn [thread_step]. unfold set_in_arp_cache, get_section.
  transitivity ((key ← alloc_block (le_store 8 (to_key pt ip));
    dst_mac ← cache_get key; assert_ (bool_decide (dst_mac <> None));; dst ← deref dst_mac;
    memcpy dst src 6;; mutex_lock cache_mutex;; cache_put key dst_mac;; mutex_unlock cache_mutex;;
    drop_local key;; mret (Finished None)) w).
  - rewrite !M_bind_assoc. apply (bind_keeps _ _ _ _ map); [apply keeps_alloc|done|].
    clear w Hw. intros key w Hw. rewrite !M_bind_assoc. 
    apply (bind_keeps _ _ _ _ map); [apply keeps_cache_get|done|]. clear w Hw. intros v w Hw.
    destruct v as [dst|]; [|done].
    transitivity ((memcpy dst src 6;; alone fuel (Learn pt ip src) (Storing (mk_pending key dst true))) w).
    { change (alone (S fuel) (Learn pt ip src) (Got key dst) w = (memcpy dst src 6;;
        alone fuel (Learn pt ip src) (Storing (mk_pending key dst true))) w).
      rewrite alone_step by auto. cbn [thread_step]. unfold copy_section. by rewrite M_bind_assoc. }
    rewrite (M_bind_run (assert_ _) _ w tt w), (M_bind_run (deref _) _ w dst w) by done.
    apply (bind_keeps _ _ _ _ map); [apply keeps_memcpy|done|]. clear w Hw. intros _ w Hw.
    erewrite alone_storing by (done || lia). done.
  - rewrite with_local_sections. apply M_bind_ext. intros key w1.
    repeat (rewrite M_bind_assoc; apply M_bind_ext; intros ? ?). done.
Qed.

Lemma add_sections fuel pt ip src w map :
  w_cache w = CacheMap map -> (length (array map) + 4 <= fuel)%nat ->
  alone fuel (Learn pt ip src) Unknown w = (add_to_arp_cache pt ip src;; mret (Finished None)) w.
Proof.
  intros Hw Hf. destruct fuel as [|fuel]; [lia|]. rewrite alone_step by auto.
  cbn [thread_step]. unfold add_to_arp_cache, prepare_section, calloc.
  rewrite !M_bind_assoc. apply (bind_keeps _ _ _ _ map); [apply keeps_alloc|done|].
  clear w Hw. intros lk w Hw. rewrite !M_bind_assoc.
  apply (bind_keeps _ _ _ _ map); [apply keeps_alloc|done|].
  clear w Hw. intros lv w Hw. rewrite !M_bind_assoc.
  apply (bind_keeps _ _ _ _ map); [apply keeps_store|done|].
  clear w Hw. intros _ w Hw. rewrite !M_bind_assoc.
  apply (bind_keeps _ _ _ _ map); [apply keeps_memcpy|done|].
  clear w Hw. intros _ w Hw. change (alone fuel (Learn pt ip src) (Storing (mk_pending lk lv false)) w =
    ((mutex_lock cache_mutex;; cache_put lk (Some lv);; mutex_unlock cache_mutex);;
     mret (Finished None)) w).
  erewrite alone_storing by (done || lia).
  repeat (rewrite M_bind_assoc; apply M_bind_ext; intros ? ?). done.
Qed.

Lemma resolve_sections fuel ip w :
  (2 <= fuel)%nat ->
  alone fuel (Resolve ip) Known w =
    (v ← with_local (le_store 8 (to_key ARP_IPV4 ip)) cache_get; mret (Finished v)) w.
Proof.
  intros Hf. destruct fuel as [|[|fuel]]; [lia|lia|]. rewrite alone_step by auto.
  cbn [thread_step]. unfold get_section. rewrite with_local_sections.
  repeat (rewrite M_bind_assoc; apply M_bind_ext; intros ? ?). done.
Qed.

End ArpThreads.
