(* ===== verification/ArpThreadsFacts.v ===== *)
(** * The invariant of the shared translation table

    [R] gives every block that the threads and the table use its role; a block has one
    role, so the blocks of different roles are apart.  [shared w A R g] is the invariant of
    the table itself, [thread_ok] what a thread relies on, [frame] what a step of one thread
    leaves to the others. *)

From stdpp Require Import relations.
From S2P Require Import Prelude Words HashMap HashMapFacts HashMapGrowth World Wp Tun NetInterface.
From S2P Require Import NetFacts Arp ArpFacts ArpThreads.
Import HashMap HashMapFacts HashMapGrowth World Wp Tun Ethernet NetInterface NetFacts Arp ArpFacts.
Import ArpThreads.

Module ArpThreadsFacts.

(** A key cell of the table; a cell that is or was the address cell of a key; a block that
    only thread [t] knows; the buffer of a received frame. *)
Inductive role := KeyCell | AddrCell (i : Z) | Private (t : nat) | Source.

Implicit Types (w : world) (A : gmap Z cell) (l : loc) (i : Z) (c : cell) (t : nat).
Implicit Types (R : gmap loc role) (r : role) (j : job) (ph : phase) (p : pending).
Implicit Types (rest : list (hashmap_element vptr vptr)).

(** The thread that enlarges the table, with the slots it has still to move. *)
Abbreviation growth := (option (nat * list (hashmap_element vptr vptr))).
Implicit Types (g : growth).

Section Invariant.
(** [told i mac]: [mac] may be recorded for [i]; [cap0]: a lower bound of the capacity. *)
Context (told : Z -> list Z -> Prop) (cap0 : Z).

(** The table when nobody enlarges it, and while somebody does. *)
Definition table_at rest w A : Prop :=
  exists old moved mid M, w_cache w = CacheMap mid /\ arp_inv (set_cache (CacheMap old) w) A /\
    growing (ident_in (w_mem w)) id old moved rest mid M /\
    70 < hashmap_load_factor old /\ cap0 <= capacity old.

Definition table_ok w A g : Prop :=
  match g with
  | None => w_held w = [] /\ arp_inv w A /\
      forall map, w_cache w = CacheMap map -> cap0 <= capacity map
  | Some (_, rest) => w_held w = [cache_mutex] /\ table_at rest w A
  end.

Record cells_ok w A R : Prop := {
  sh_key i c : A !! i = Some c -> R !! c_key c = Some KeyCell;
  sh_val i c : A !! i = Some c -> R !! c_val c = Some (AddrCell i);
  sh_addr l i : R !! l = Some (AddrCell i) ->
    exists mac, w_mem w !! l = Some mac /\ length mac = 6%nat /\ told i mac;
  sh_free l : reserved w l -> R !! l = None /\ is_Some (w_mem w !! l);
  sh_live l r : R !! l = Some r -> is_Some (w_mem w !! l)
}.

Definition shared w A R g : Prop := table_ok w A g /\ cells_ok w A R.

(** The blocks of a [hashmap_put] to come. *)
Definition pending_ok w A R t j p : Prop :=
  exists lk lv, pd_key p = Ptr lk 0 /\ pd_data p = Ptr lv 0 /\
    R !! lk = Some (Private t) /\ w_mem w !! lk = Some (le_store 8 (job_key j)) /\
    if pd_local p then R !! lv = Some (AddrCell (job_key j)) /\ is_Some (A !! job_key j)
    else R !! lv = Some (Private t) /\ lk <> lv /\
      exists mac, w_mem w !! lv = Some mac /\ length mac = 6%nat /\ told (job_key j) mac.

Definition learner j : Prop := match j with Learn _ _ _ => True | Resolve _ => False end.

Definition phase_ok w A R g t j ph : Prop :=
  match ph with
  | Known => is_Some (A !! job_key j)
  | Got key dst => learner j /\ pending_ok w A R t j (mk_pending key dst true)
  | Storing p => learner j /\ pending_ok w A R t j p
  | Growing rest p => learner j /\ pending_ok w A R t j p /\ g = Some (t, rest)
  | Finished v =>
      match j with
      | Learn _ _ _ => is_Some (A !! job_key j)
      | Resolve _ => v = None \/ exists l, v = Some (Ptr l 0) /\ R !! l = Some (AddrCell (job_key j))
      end
  | Ready | Unknown => True
  end.

(** The address that a learner copies. *)
Definition source_ok w R j : Prop :=
  match j with
  | Learn _ _ src => exists bs, in_block w src 6 bs /\ R !! p_blk src = Some Source /\
      told (job_key j) (bytes_at bs src 6)
  | Resolve _ => True
  end.

Definition thread_ok w A R g t j ph : Prop := source_ok w R j /\ phase_ok w A R g t j ph.

(** ** Frame *)

Record frame t w A R w' A' R' : Prop := {
  fr_roles l r : R !! l = Some r -> r <> Private t -> R' !! l = Some r;
  fr_mem l r : R !! l = Some r -> r <> Private t -> (forall i, r <> AddrCell i) ->
    w_mem w' !! l = w_mem w !! l;
  fr_known i : is_Some (A !! i) -> is_Some (A' !! i)
}.

(** Who enlarges the table after thread [t] has gone to [ph]. *)
Definition holder t g ph : growth :=
  match ph with
  | Growing rest _ => Some (t, rest)
  | _ => match g with Some (t', _) => if decide (t' = t) then None else g | None => None end
  end.

Lemma pending_ok_frame t t' w A R w' A' R' j p :
  t' <> t -> frame t w A R w' A' R' -> pending_ok w A R t' j p -> pending_ok w' A' R' t' j p.
Proof.
  intros Hne [Hr Hm Hk] (lk & lv & Hpk & Hpd & Hlk & Hmk & Hrest).
  exists lk, lv. split_and!; [done|done|apply Hr; [done|congruence]| |].
  - rewrite (Hm lk _ Hlk); [done|congruence|done].
  - destruct (pd_local p).
    + destruct Hrest as [Hlv Hi]. split; [by apply Hr|by apply Hk].
    + destruct Hrest as (Hlv & Hd & mac & Hmac & Hl & Ht).
      split_and!; [apply Hr; [done|congruence]|done|]. exists mac.
      rewrite (Hm lv _ Hlv); [done|congruence|done].
Qed.

Lemma source_ok_frame t w A R w' A' R' j :
  frame t w A R w' A' R' -> source_ok w R j -> source_ok w' R' j.
Proof.
  intros [Hr Hm _]. destruct j as [pt ip src|ip]; [|done].
  intros (bs & (Hb & Hbounds) & Hsrc & Ht). exists bs. split_and!; [|by apply Hr|done].
  split; [|done]. by rewrite (Hm _ _ Hsrc).
Qed.

Lemma thread_ok_frame t t' w A R w' A' R' g g' j ph :
  t' <> t -> frame t w A R w' A' R' -> (forall rest, g = Some (t', rest) -> g' = g) ->
  thread_ok w A R g t' j ph -> thread_ok w' A' R' g' t' j ph.
Proof.
  intros Hne Hf Hg [Hs Hp]. split; [by eapply source_ok_frame|].
  destruct ph as [| | |key dst|p|rest p|v]; cbn in *; try done.
  - by apply (fr_known _ _ _ _ _ _ _ Hf).
  - destruct Hp as [Hl Hp]. split; [done|by eapply pending_ok_frame].
  - destruct Hp as [Hl Hp]. split; [done|by eapply pending_ok_frame].
  - destruct Hp as (Hl & Hp & Hgr). split_and!; [done|by eapply pending_ok_frame|].
    by rewrite (Hg _ Hgr).
  - destruct j; [by apply (fr_known _ _ _ _ _ _ _ Hf)|].
    destruct Hp as [->|(l & -> & Hl)]; [by left|right]. exists l. split; [done|].
    by apply (fr_roles _ _ _ _ _ _ _ Hf).
Qed.

(** ** Changes of the memory *)

(** The entries with the addresses that are in their cells. *)
Definition relabel (m : gmap loc (list Z)) A : gmap Z cell :=
  (fun c => mk_cell (c_key c) (c_val c) (default [] (m !! c_val c))) <$> A.

Lemma relabel_lookup m A i c :
  relabel m A !! i = Some c <-> exists d, A !! i = Some d /\
    c = mk_cell (c_key d) (c_val d) (default [] (m !! c_val d)).
Proof. unfold relabel. rewrite lookup_fmap_Some. split; intros (d & ? & ?); by exists d. Qed.

Lemma relabel_known m A i : is_Some (relabel m A !! i) <-> is_Some (A !! i).
Proof. unfold relabel. by rewrite lookup_fmap, fmap_is_Some. Qed.

Lemma entry_relabel m A : entry <$> relabel m A = entry <$> A.
Proof. unfold relabel. rewrite <- map_fmap_compose. by apply map_fmap_ext. Qed.

(** The cells of the keys are as they were, those of the addresses hold addresses. *)
Definition cells_kept w A (m : gmap loc (list Z)) : Prop :=
  forall i c, A !! i = Some c -> m !! c_key c = w_mem w !! c_key c /\
    exists mac, m !! c_val c = Some mac /\ length mac = 6%nat.

Lemma ident_kept w A m i k v :
  arp_inv w A -> cells_kept w A m -> (entry <$> A) !! i = Some (k, v) -> ident_in m k = Some i.
Proof.
  intros Hinv Hm HM. apply lookup_fmap_Some in HM as (c & [= <- <-] & Hi).
  destruct (ai_key _ _ Hinv _ _ Hi) as (b & Hb & Hl & <-). apply ident_cell; [|done].
  by rewrite (proj1 (Hm _ _ Hi)).
Qed.

Lemma arp_inv_relabel w A m : arp_inv w A -> cells_kept w A m -> arp_inv (set_mem m w) (relabel m A).
Proof.
  intros Hinv Hm. split; cbn.
  - destruct (ai_map _ _ Hinv) as (map & Hmap & Hmi). exists map. split; [done|].
    rewrite entry_relabel. eapply hm_inv_ident; [exact Hmi|]. intros i k v. by eapply ident_kept.
  - intros i c (d & Hd & ->)%relabel_lookup. cbn. rewrite (proj1 (Hm _ _ Hd)).
    by apply (ai_key _ _ Hinv).
  - intros i c (d & Hd & ->)%relabel_lookup. cbn.
    destruct (proj2 (Hm _ _ Hd)) as (mac & -> & Hl). done.
  - intros l (i & c & (d & Hd & ->)%relabel_lookup & Hl). apply (ai_private _ _ Hinv). by exists i, d.
  - intros i j c c' (d & Hd & ->)%relabel_lookup (d' & Hd' & ->)%relabel_lookup.
    exact (ai_key_val _ _ Hinv i j d d' Hd Hd').
  - intros i j c c' (d & Hd & ->)%relabel_lookup (d' & Hd' & ->)%relabel_lookup.
    exact (ai_val_inj _ _ Hinv i j d d' Hd Hd').
Qed.

Lemma growing_ident (id1 id2 : vptr -> option Z) old moved rest mid M0 M :
  hm_inv id1 id old M0 -> growing id1 id old moved rest mid M ->
  (forall i k v, M0 !! i = Some (k, v) -> id2 k = Some i) -> growing id2 id old moved rest mid M.
Proof.
  intros Hinv Hg Hid.
  assert (Hel : forall el, el ∈ moved -> used el = true -> id2 (key el) = id1 (key el)).
  { intros el (x & Hx)%list_elem_of_lookup Hu.
    assert (Hold : array old !! x = Some el)
      by (rewrite (gr_array _ _ _ _ _ _ _ Hg); by apply lookup_app_l_Some).
    destruct (inv_sound _ _ _ _ Hinv _ _ Hold Hu) as (i & -> & HM & _). by eapply Hid. }
  split; try apply Hg.
  - eapply hm_inv_ident; [apply Hg|]. intros i k v HM. eapply Hid, map_subseteq_spec; [|exact HM].
    by eapply growing_sub.
  - intros i kv. rewrite (gr_entries _ _ _ _ _ _ _ Hg). unfold entry_of. split.
    + intros (el & He & Hu & Hi & Hkv). exists el. rewrite (Hel _ He Hu). auto.
    + intros (el & He & Hu & Hi & Hkv). exists el. rewrite <- (Hel _ He Hu). auto.
Qed.

Lemma table_ok_mem w A m g : table_ok w A g -> cells_kept w A m -> table_ok (set_mem m w) (relabel m A) g.
Proof.
  destruct g as [[t rest]|]; cbn.
  - intros [Hh (old & moved & mid & M & Hc & Hinv & Hg & Hload & Hcap)] Hm. split; [done|].
    exists old, moved, mid, M. split_and!; [done| | |done|done].
    + by apply (arp_inv_relabel (set_cache (CacheMap old) w)).
    + destruct (ai_map _ _ Hinv) as (map & [= <-] & Hmi). eapply growing_ident; [exact Hmi|exact Hg|].
      intros i k v. by apply (ident_kept (set_cache (CacheMap old) w) A).
  - intros (Hh & Hinv & Hcap) Hm. split_and!; [done|by apply arp_inv_relabel|done].
Qed.

(** The blocks of the table keep their roles. *)
Record roles_kept w R R' (m : gmap loc (list Z)) : Prop := {
  rk_key l : R !! l = Some KeyCell -> R' !! l = Some KeyCell /\ m !! l = w_mem w !! l;
  rk_addr l i : R !! l = Some (AddrCell i) -> R' !! l = Some (AddrCell i);
  rk_addr' l i : R' !! l = Some (AddrCell i) ->
    exists mac, m !! l = Some mac /\ length mac = 6%nat /\ told i mac;
  rk_free l : reserved w l -> R' !! l = None /\ is_Some (m !! l);
  rk_live l r : R' !! l = Some r -> is_Some (m !! l)
}.

Lemma shared_mem w A R R' m g :
  shared w A R g -> roles_kept w R R' m -> shared (set_mem m w) (relabel m A) R' g.
Proof.
  intros [Ht Hs] Hk. split.
  - apply table_ok_mem; [done|]. intros i c Hi.
    split; [exact (proj2 (rk_key _ _ _ _ Hk _ (sh_key _ _ _ Hs _ _ Hi)))|].
    destruct (rk_addr' _ _ _ _ Hk (c_val c) i) as (mac & Hmac & Hl & _); [|by exists mac].
    by apply (rk_addr _ _ _ _ Hk), (sh_val _ _ _ Hs).
  - split; try apply Hk.
    + intros i c (d & Hd & ->)%relabel_lookup.
      exact (proj1 (rk_key _ _ _ _ Hk _ (sh_key _ _ _ Hs _ _ Hd))).
    + intros i c (d & Hd & ->)%relabel_lookup.
      exact (rk_addr _ _ _ _ Hk _ _ (sh_val _ _ _ Hs _ _ Hd)).
Qed.

Lemma frame_refl t w A R : frame t w A R w A R.
Proof. by split. Qed.

Lemma frame_trans t w A R w1 A1 R1 w2 A2 R2 :
  frame t w A R w1 A1 R1 -> frame t w1 A1 R1 w2 A2 R2 -> frame t w A R w2 A2 R2.
Proof.
  intros [Hr1 Hm1 Hk1] [Hr2 Hm2 Hk2]. split; [auto| |auto].
  intros l r Hl Hp Ha. rewrite (Hm2 _ _ (Hr1 _ _ Hl Hp) Hp Ha). by apply (Hm1 _ r).
Qed.

(** [evolves t w A R w' R' g]: a change of the memory that thread [t] may make. *)
Definition evolves t w A R w' R' g : Prop :=
  shared w' (relabel (w_mem w') A) R' g /\ frame t w A R w' (relabel (w_mem w') A) R'.

(** A new block of the thread, or a change of one that it has. *)
Lemma private_upd t w A R g l b :
  shared w A R g -> R !! l = Some (Private t) \/ w_mem w !! l = None ->
  evolves t w A R (upd_mem w l b) (<[l := Private t]> R) g.
Proof.
  intros Hs Hl. pose proof (proj2 Hs) as Hc.
  assert (Hne : forall l' r, R !! l' = Some r -> r <> Private t -> l <> l').
  { intros l' r Hr Hp ->. destruct Hl as [Hl|Hl]; [congruence|].
    destruct (sh_live _ _ _ Hc _ _ Hr). congruence. }
  assert (Hres : forall l', reserved w l' -> l <> l').
  { intros l' Hr ->. destruct (sh_free _ _ _ Hc _ Hr) as [Hn [x Hx]].
    destruct Hl; congruence. }
  split.
  - apply (shared_mem w A R _ (<[l := b]> (w_mem w))); [done|]. split.
    + intros l' Hl'. rewrite !lookup_insert_ne by (by eapply Hne). done.
    + intros l' i Hl'. by rewrite lookup_insert_ne by (by eapply Hne).
    + intros l' i. rewrite lookup_insert_Some. intros [[_ ?]|[? Hl']]; [done|].
      cbn. rewrite lookup_insert_ne by done. by apply (sh_addr _ _ _ Hc).
    + intros l' Hr. cbn. rewrite !lookup_insert_ne by (by apply Hres). by apply (sh_free _ _ _ Hc).
    + intros l' r. cbn. rewrite lookup_insert_Some, lookup_insert_is_Some.
      intros [[<- _]|[? Hl']]; [by left|right]. split; [done|by eapply (sh_live _ _ _ Hc)].
  - split.
    + intros l' r Hr Hp. by rewrite lookup_insert_ne by (by eapply Hne).
    + intros l' r Hr Hp _. apply lookup_insert_ne. by eapply Hne.
    + intros i. by rewrite relabel_known.
Qed.

(** The end of a block of the thread. *)
Lemma private_drop t w A R g l :
  shared w A R g -> R !! l = Some (Private t) ->
  evolves t w A R (set_mem (delete l (w_mem w)) w) (delete l R) g.
Proof.
  intros Hs Hl. pose proof (proj2 Hs) as Hc.
  assert (Hne : forall l' r, R !! l' = Some r -> r <> Private t -> l <> l') by congruence.
  split.
  - apply (shared_mem w A R _ (delete l (w_mem w))); [done|]. split.
    + intros l' Hl'. rewrite !lookup_delete_ne by (by eapply Hne). done.
    + intros l' i Hl'. by rewrite lookup_delete_ne by (by eapply Hne).
    + intros l' i [? Hl']%lookup_delete_Some. rewrite lookup_delete_ne by done.
      by apply (sh_addr _ _ _ Hc).
    + intros l' Hr. destruct (sh_free _ _ _ Hc _ Hr) as [Hn Hx].
      rewrite !lookup_delete_ne by congruence. done.
    + intros l' r [? Hl']%lookup_delete_Some. rewrite lookup_delete_ne by done.
      by apply (sh_live _ _ _ Hc _ r).
  - split.
    + intros l' r Hr Hp. by rewrite lookup_delete_ne by (by eapply Hne).
    + intros l' r Hr Hp _. apply lookup_delete_ne. by eapply Hne.
    + intros i. by rewrite relabel_known.
Qed.

(** An address in the cell of its key. *)
Lemma addr_upd t w A R g l i mac :
  shared w A R g -> R !! l = Some (AddrCell i) -> length mac = 6%nat -> told i mac ->
  evolves t w A R (upd_mem w l mac) R g.
Proof.
  intros Hs Hl Hlen Ht. pose proof (proj2 Hs) as Hc. split.
  - apply (shared_mem w A R _ (<[l := mac]> (w_mem w))); [done|]. split.
    + intros l' Hl'. split; [done|]. apply lookup_insert_ne. congruence.
    + done.
    + intros l' i' Hl'. destruct (decide (l' = l)) as [->|].
      * rewrite lookup_insert_eq. exists mac. by simplify_eq.
      * rewrite lookup_insert_ne by done. by apply (sh_addr _ _ _ Hc).
    + intros l' Hr. destruct (sh_free _ _ _ Hc _ Hr) as [Hn Hx]. split; [done|].
      apply lookup_insert_is_Some. destruct (decide (l = l')); auto.
    + intros l' r Hl'. apply lookup_insert_is_Some.
      destruct (decide (l = l')); [by left|right]. split; [done|by eapply (sh_live _ _ _ Hc)].
  - split; [done| |intros i'; by rewrite relabel_known].
    intros l' r Hr _ Ha. apply lookup_insert_ne. intros <-. apply (Ha i). congruence.
Qed.

(** ** The sections *)

(** What holds after a step of thread [t]. *)
Definition stepped t g j w A R ph' w' : Prop :=
  exists A' R', shared w' A' R' (holder t g ph') /\ thread_ok w' A' R' (holder t g ph') t j ph' /\
    frame t w A R w' A' R' /\
    forall t' rest, g = Some (t', rest) -> t' <> t -> holder t g ph' = g.

(** Nobody or another thread enlarges the table. *)
Definition outside g t : Prop := forall rest, g <> Some (t, rest).

Definition is_growing ph : Prop := match ph with Growing _ _ => True | _ => False end.
#[local] Instance is_growing_dec ph : Decision (is_growing ph).
Proof. destruct ph; apply _. Defined.

Lemma holder_other t g ph : outside g t -> ~ is_growing ph -> holder t g ph = g.
Proof.
  intros Hg Hph. assert (Hh : holder t g ph = match g with
    | Some (t', _) => if decide (t' = t) then None else g | None => None end)
    by (by destruct ph; first [done | destruct Hph]).
  rewrite Hh. destruct g as [[t' rest]|]; [|done].
  rewrite decide_False; [done|intros ->; by apply (Hg rest)].
Qed.

Lemma holder_Some t g ph t' rest :
  holder t g ph = Some (t', rest) ->
  t' = t /\ (exists p, ph = Growing rest p) \/ t' <> t /\ g = Some (t', rest).
Proof.
  intros Hh. destruct (decide (is_growing ph)) as [Hg|Hg].
  - destruct ph; try done. injection Hh as <- <-. left. eauto.
  - assert (Hh' : match g with
      | Some (t1, _) => if decide (t1 = t) then None else g | None => None end = Some (t', rest))
      by (rewrite <- Hh; by destruct ph; first [done | destruct Hg]).
    right. destruct g as [[t1 rest1]|]; [|done]. case_decide; [done|]. by simplify_eq.
Qed.

(** A step that leaves the growth alone. *)
Lemma stepped_intro t g j w A R ph' w' A' R' :
  outside g t -> ~ is_growing ph' -> shared w' A' R' g -> frame t w A R w' A' R' ->
  source_ok w R j -> phase_ok w' A' R' g t j ph' -> stepped t g j w A R ph' w'.
Proof.
  intros Hg Hph Hs Hf Hsrc Hp. exists A', R'. unfold stepped. rewrite (holder_other _ _ _ Hg Hph).
  split_and!; [done|split; [by eapply source_ok_frame|done]|done|done].
Qed.

Lemma job_key_range j : 0 <= job_key j < 2 ^ 64.
Proof. unfold job_key. apply to_key_range. Qed.

Lemma wp_alloc_private t w A R g bs (Q : ptr -> world -> Prop) :
  shared w A R g ->
  (forall l, w_mem w !! l = None -> evolves t w A R (upd_mem w l bs) (<[l := Private t]> R) g ->
     Q (Ptr l 0) (upd_mem w l bs)) ->
  wp (alloc_block bs) w Q.
Proof.
  intros Hs HQ. apply wp_alloc_block. intros l Hl. apply HQ; [done|]. apply private_upd; auto.
Qed.

Lemma check_stepped t j w A R :
  shared w A R None -> source_ok w R j -> wp (check_section j) w (stepped t None j w A R).
Proof.
  intros Hs Hsrc. destruct (proj1 Hs) as (Hh & Hinv & _).
  unfold check_section. apply wp_bind. eapply wp_is_in_arp_cache; [done|done|].
  fold (job_key j). wp_step.
  destruct (A !! job_key j) as [c|] eqn:Hi; cbn;
    (eapply stepped_intro; [done|auto|done|apply frame_refl|done|cbn; eauto]).
Qed.

(** The unlocked lookup: nothing but a growth hides an entry. *)
Lemma cache_get_shared w A R g key i :
  shared w A R g -> ident_in (w_mem w) (Some key) = Some i ->
  exists v, cache_get key w = Ok v w /\
    (v = None /\ (g = None -> A !! i = None) \/
     exists c, A !! i = Some c /\ v = Some (Ptr (c_val c) 0)).
Proof.
  intros [Ht _] Hid. destruct g as [[t rest]|]; cbn in Ht.
  - destruct Ht as (_ & old & moved & mid & M & Hc & Hinv & Hg & _).
    destruct (ai_map _ _ Hinv) as (? & [= <-] & Hold).
    unfold cache_get. rewrite (M_bind_run _ _ _ _ _ (the_cache_run _ _ Hc)).
    rewrite (M_bind_run (get w_mem) _ w (w_mem w) w) by done. unfold lift, hashmap_get.
    rewrite (proj1 (get_spec (ops := arp_ops (w_mem w)) _ _ _ _ NULL (gr_inv _ _ _ _ _ _ _ Hg) Hid)).
    eexists. split; [done|]. destruct (M !! i) as [[k v]|] eqn:HM; [right|by left].
    eapply map_subseteq_spec in HM; [|by eapply growing_sub].
    apply lookup_fmap_Some in HM as (c & [= <- <-] & Hi). by exists c.
  - destruct Ht as (_ & Hinv & _).
    destruct (wp_run (cache_get key) w (fun v w' => w' = w /\ v = (fun c => Ptr (c_val c) 0) <$> A !! i))
      as (v & w' & Hrun & -> & ->); [by eapply wp_cache_get|].
    eexists. split; [exact Hrun|]. destruct (A !! i) as [c|]; [right; by exists c|by left].
Qed.

(** The outcome of a section: a step, or the [assert] of [set_in_arp_cache] that fails
    while another thread enlarges the table, or the wait for the mutex. *)
Definition fine t g j w A R ph (o : outcome phase) : Prop :=
  match o with
  | Ok ph' w' => stepped t g j w A R ph' w'
  | Blocked _ => g <> None /\ ~ is_growing ph
  | Aborted _ => g <> None /\ learner j /\ ph = Known
  | _ => False
  end.

Lemma fine_wp t g j w A R ph (m : M phase) w1 :
  wp m w1 (stepped t g j w A R) -> fine t g j w A R ph (m w1).
Proof. unfold wp, fine. by destruct (m w1). Qed.

Lemma get_fine t g j w A R :
  shared w A R g -> outside g t -> source_ok w R j -> is_Some (A !! job_key j) ->
  fine t g j w A R Known (get_section j w).
Proof.
  intros Hs Hg Hsrc Hi. unfold get_section. apply wp_then. eapply (wp_alloc_private t); [done|].
  intros l Hl [Hs1 Hf1]. set (w1 := upd_mem w l _) in *. set (A1 := relabel _ A) in *.
  set (R1 := <[l := Private t]> R) in *.
  assert (Hid : ident_in (w_mem w1) (Some (Ptr l 0)) = Some (job_key j))
    by (apply ident_store; [apply lookup_upd_mem_eq|apply job_key_range]).
  destruct (cache_get_shared _ _ _ _ _ _ Hs1 Hid) as (v & Hrun & Hv).
  rewrite (M_bind_run _ _ _ _ _ Hrun). apply (fr_known _ _ _ _ _ _ _ Hf1) in Hi as Hi1.
  destruct j as [pt ip src|ip].
  - destruct Hv as [[-> Hn]|(c & Hc & ->)].
    { cbn. split_and!; [|done|done]. intros ->. rewrite Hn in Hi1 by done. by destruct Hi1. }
    apply fine_wp. unfold assert_. rewrite bool_decide_true by done. repeat wp_step.
    eapply stepped_intro; [done|auto|done|done|done|]. cbn. split; [done|].
    exists l, (c_val c). split_and!; [done|done|apply lookup_insert_eq|apply lookup_upd_mem_eq|].
    split; [by apply (sh_val _ _ _ (proj2 Hs1))|done].
  - apply fine_wp. unfold drop_local. repeat wp_step. cbn [p_blk].
    destruct (private_drop t w1 A1 R1 g l) as [Hs2 Hf2]; [done|apply lookup_insert_eq|].
    eapply stepped_intro; [done|auto|exact Hs2|by eapply frame_trans|done|].
    cbn. destruct Hv as [[-> _]|(c & Hc & ->)]; [by left|right]. exists (c_val c). split; [done|].
    apply (fr_roles _ _ _ _ _ _ _ Hf2); [|done]. by apply (sh_val _ _ _ (proj2 Hs1)).
Qed.

Lemma copy_stepped t g pt ip src w A R key dst :
  let j := Learn pt ip src in
  shared w A R g -> outside g t -> source_ok w R j ->
  pending_ok w A R t j (mk_pending key dst true) ->
  wp (copy_section src key dst) w (stepped t g j w A R).
Proof.
  intros j Hs Hg Hsrc Hp. pose proof Hsrc as (bs & Hbs & HR & Ht).
  destruct Hp as (lk & lv & Hpk & Hpd & Hlk & Hmk & Hlv & Hi).
  cbn [pd_key pd_data pd_local] in *. subst key dst.
  destruct (sh_addr _ _ _ (proj2 Hs) _ _ Hlv) as (mac & Hmac & Hlen & _).
  assert (Hsl : length (bytes_at bs src 6) = 6%nat) by by erewrite length_bytes_at.
  unfold copy_section. wp_step. eapply (wp_memcpy _ _ _ bs mac); [exact Hbs| |].
  { split_and!; cbn [p_blk p_off]; [exact Hmac|lia|lia|rewrite Hlen; lia]. }
  wp_step. cbn [p_blk p_off].
  change (slice (Z.to_nat (p_off src)) (Z.to_nat 6) bs) with (bytes_at bs src 6).
  rewrite splice_all by congruence.
  destruct (addr_upd t w A R g lv (job_key j) (bytes_at bs src 6)) as [Hs1 Hf1]; try done.
  eapply stepped_intro; [done|auto|exact Hs1|exact Hf1|done|]. split; [done|].
  exists lk, lv. split_and!; [done|done|done| |split; [done|by apply relabel_known]].
  cbn. rewrite lookup_insert_ne; [done|congruence].
Qed.

(** A learner that found the host unknown prepares the cells of a new entry. *)
Lemma prepare_stepped t g pt ip src w A R :
  let j := Learn pt ip src in
  shared w A R g -> outside g t -> source_ok w R j ->
  wp (prepare_section j src) w (stepped t g j w A R).
Proof.
  intros j Hs Hg Hsrc. pose proof Hsrc as (bs & Hbs & _ & Ht).
  unfold prepare_section. eapply wp_new_cells; [exact Hbs|]. intros lk lv Hlk Hlv Hne. wp_step.
  assert (Hsl : length (bytes_at bs src 6) = 6%nat) by by erewrite length_bytes_at.
  unfold new_cells. set (w1 := upd_mem w lk _).
  destruct (private_upd t w A R g lk (le_store 8 (job_key j)) Hs (or_intror Hlk)) as [Hs1 Hf1].
  fold w1 in Hs1, Hf1. assert (Hlv1 : w_mem w1 !! lv = None) by by apply lookup_insert_None.
  destruct (private_upd t w1 _ _ g lv (bytes_at bs src 6) Hs1 (or_intror Hlv1)) as [Hs2 Hf2].
  eapply stepped_intro; [done|auto|exact Hs2|by eapply frame_trans|done|]. split; [done|].
  exists lk, lv. split_and!; [done|done| | |].
  - rewrite lookup_insert_ne by done. apply lookup_insert_eq.
  - rewrite lookup_upd_mem_ne by done. apply lookup_upd_mem_eq.
  - split_and!; [apply lookup_insert_eq|done|]. exists (bytes_at bs src 6). by rewrite lookup_upd_mem_eq.
Qed.

(** ** The insertion *)

Lemma roles_kept_refl w A R : cells_ok w A R -> roles_kept w R R (w_mem w).
Proof. intros Hc. split; try done; apply Hc. Qed.

(** A private block becomes a cell of the table. *)
Lemma roles_kept_cell w R R1 l t r :
  roles_kept w R R1 (w_mem w) -> R1 !! l = Some (Private t) -> R !! l = Some (Private t) ->
  r = KeyCell \/ (exists i mac, r = AddrCell i /\ w_mem w !! l = Some mac /\
    length mac = 6%nat /\ told i mac) ->
  roles_kept w R (<[l := r]> R1) (w_mem w).
Proof.
  intros Hk Hl HRl Hr. split.
  - intros l' Hl'. rewrite lookup_insert_ne by congruence. by apply (rk_key _ _ _ _ Hk).
  - intros l' i Hl'. rewrite lookup_insert_ne by congruence. by apply (rk_addr _ _ _ _ Hk).
  - intros l' i [[<- Hri]|[? Hl']]%lookup_insert_Some; [|by apply (rk_addr' _ _ _ _ Hk)].
    destruct Hr as [->|(i' & mac & -> & Hmac)]; [done|]. exists mac. by injection Hri as <-.
  - intros l' Hl'. destruct (rk_free _ _ _ _ Hk _ Hl') as [Hn Hx].
    rewrite lookup_insert_ne by congruence. done.
  - intros l' r' [[<- _]|[? Hl']]%lookup_insert_Some; by eapply (rk_live _ _ _ _ Hk).
Qed.

(** Installing an entry whose cells have the roles for it. *)
Lemma install w A R R' (map : hashmap vptr vptr) i lk bk lv mac :
  let A' := <[i := mk_cell lk lv mac]> A in
  arp_inv w A -> cells_ok w A R -> roles_kept w R R' (w_mem w) ->
  hm_inv (ident_in (w_mem w)) id map (entry <$> A') ->
  R' !! lk = Some KeyCell -> R' !! lv = Some (AddrCell i) ->
  w_mem w !! lk = Some bk -> length bk = 8%nat -> le_load bk = i -> w_mem w !! lv = Some mac ->
  arp_inv (set_cache (CacheMap map) w) A' /\ cells_ok (set_cache (CacheMap map) w) A' R'.
Proof.
  intros A' Hinv Hc Hk Hm HRk HRv Hlk Hbk Hload Hlv.
  destruct (rk_addr' _ _ _ _ Hk _ _ HRv) as (mac' & Hmac' & Hlen & _).
  assert (mac' = mac) as -> by congruence.
  assert (HRkey : forall k c, A !! k = Some c -> R' !! c_key c = Some KeyCell)
    by (intros k c Hj; exact (proj1 (rk_key _ _ _ _ Hk _ (sh_key _ _ _ Hc _ _ Hj)))).
  assert (HRval : forall k c, A !! k = Some c -> R' !! c_val c = Some (AddrCell k))
    by (intros k c Hj; exact (rk_addr _ _ _ _ Hk _ _ (sh_val _ _ _ Hc _ _ Hj))).
  assert (Hnr : forall l, reserved w l -> R' !! l = None) by (intros l; apply (rk_free _ _ _ _ Hk)).
  split.
  - eapply arp_inv_entry; try done.
    + intros Hr%Hnr. congruence.
    + intros Hr%Hnr. congruence.
    + congruence.
    + intros k c Hj. pose proof (HRkey _ _ Hj). pose proof (HRval _ _ Hj).
      split_and!; congruence.
  - split; try apply Hk; intros k c [[<- <-]|[_ Hj]]%lookup_insert_Some; cbn; eauto.
Qed.

Lemma store_put w A map key i lv :
  w_cache w = CacheMap map -> arp_inv w A -> size_ map + 1 < capacity map ->
  ident_in (w_mem w) (Some key) = Some i ->
  exists map', put_here (arp_ops (w_mem w)) map (Some key) (Some (Ptr lv 0)) = Val map' /\
    capacity map' = capacity map /\
    forall lk mac, Ptr lk 0 = match A !! i with Some c => Ptr (c_key c) 0 | None => key end ->
      hm_inv (ident_in (w_mem w)) id map' (entry <$> <[i := mk_cell lk lv mac]> A).
Proof.
  intros Hc Hinv Hroom Hid. destruct (ai_map _ _ Hinv) as (map0 & Hc0 & Hm).
  rewrite Hc in Hc0. injection Hc0 as <-.
  destruct (put_here_any (ops := arp_ops (w_mem w)) _ _ _ _ (Some (Ptr lv 0)) Hm Hid Hroom)
    as (map' & Hput & Hm' & Hcap). exists map'. split_and!; [done|done|].
  intros lk mac Hlk. rewrite fmap_insert. unfold entry at 1. cbn.
  unfold put_abs in Hm'. rewrite lookup_fmap in Hm'. rewrite Hlk.
  by destruct (A !! i).
Qed.

(** What [put_here] does with the arguments of a thread: the table stays well-formed, the
    key is in it, and a key that is a local variable is not. *)
Record stored t j w A R p w' A' R' : Prop := {
  so_inv : arp_inv w' A';
  so_cells : cells_ok w' A' R';
  so_known : is_Some (A' !! job_key j);
  so_frame : frame t w A R w' A' R';
  so_local : pd_local p = true -> R' !! p_blk (pd_key p) = Some (Private t)
}.

Lemma known_insert A i c k : is_Some (A !! k) -> is_Some (<[i := c]> A !! k).
Proof. intros Hk. apply lookup_insert_is_Some'. by right. Qed.

(** The stored key cell, the address and the new roles decide the rest. *)
Lemma stored_intro t j w A R R' p (map : hashmap vptr vptr) lk lk' bk lv mac :
  arp_inv w A -> cells_ok w A R -> pd_key p = Ptr lk 0 ->
  hm_inv (ident_in (w_mem w)) id map (entry <$> <[job_key j := mk_cell lk' lv mac]> A) ->
  roles_kept w R R' (w_mem w) -> R' !! lk' = Some KeyCell -> R' !! lv = Some (AddrCell (job_key j)) ->
  w_mem w !! lk' = Some bk -> length bk = 8%nat -> le_load bk = job_key j -> w_mem w !! lv = Some mac ->
  (forall l r, R !! l = Some r -> r <> Private t -> R' !! l = Some r) ->
  (pd_local p = true -> R' !! lk = Some (Private t)) ->
  stored t j w A R p (set_cache (CacheMap map) w) (<[job_key j := mk_cell lk' lv mac]> A) R'.
Proof.
  intros Hinv Hc Hpk Hm Hk HRk HRv Hbk Hbl Hload Hmac Hroles Hloc.
  destruct (install w A R R' map (job_key j) lk' bk lv mac) as [Hinv' Hc']; try done.
  split; [done|done|by rewrite lookup_insert_eq| |by rewrite Hpk].
  split; [done|done|]. intros k. apply known_insert.
Qed.

Lemma put_stored t j w A R p map :
  arp_inv w A -> cells_ok w A R -> w_cache w = CacheMap map -> size_ map + 1 < capacity map ->
  pending_ok w A R t j p ->
  exists map' A' R',
    put_here (arp_ops (w_mem w)) map (Some (pd_key p)) (Some (pd_data p)) = Val map' /\
    capacity map' = capacity map /\ stored t j w A R p (set_cache (CacheMap map') w) A' R'.
Proof.
  intros Hinv Hc Hmap Hroom (lk & lv & Hpk & Hpd & HRk & Hmk & Hp).
  assert (Hid : ident_in (w_mem w) (Some (Ptr lk 0)) = Some (job_key j))
    by (apply ident_store; [done|apply job_key_range]).
  destruct (store_put w A map (Ptr lk 0) (job_key j) lv Hmap Hinv Hroom Hid) as (map' & Hput & Hcap & Hm).
  rewrite Hpk, Hpd. exists map'. pose proof (roles_kept_refl _ _ _ Hc) as Hk0.
  assert (Hcell : forall R1 mac, roles_kept w R R1 (w_mem w) -> R1 !! lv = Some (Private t) ->
    R !! lv = Some (Private t) -> w_mem w !! lv = Some mac -> length mac = 6%nat -> told (job_key j) mac ->
    roles_kept w R (<[lv := AddrCell (job_key j)]> R1) (w_mem w)).
  { intros R1 mac Hk1 H1 H2 Hmac Hlen Ht. eapply roles_kept_cell; [done|exact H1|exact H2|].
    right. by exists (job_key j), mac. }
  destruct (A !! job_key j) as [c|] eqn:Hi.
  - destruct (ai_key _ _ Hinv _ _ Hi) as (bk & Hbk & Hbl & Hload).
    assert (HRc : R !! c_key c = Some KeyCell) by by eapply (sh_key _ _ _ Hc).
    destruct (pd_local p) eqn:Hloc.
    + destruct Hp as [HRv _]. destruct (sh_addr _ _ _ Hc _ _ HRv) as (mac & Hmac & _).
      eexists _, R. split_and!; [done|done|].
      by eapply (stored_intro _ _ _ _ _ _ _ _ lk (c_key c) bk lv mac); eauto.
    + destruct Hp as (HRv & Hne & mac & Hmac & Hlen & Ht).
      eexists _, (<[lv := AddrCell (job_key j)]> R). split_and!; [done|done|].
      eapply (stored_intro _ _ _ _ _ _ _ _ lk (c_key c) bk lv mac); eauto; try congruence.
      * rewrite lookup_insert_ne; congruence.
      * apply lookup_insert_eq.
      * intros l r Hl Hr. rewrite lookup_insert_ne; congruence.
  - destruct (pd_local p) eqn:Hloc; [destruct Hp as [_ Hx]; by destruct Hx|].
    destruct Hp as (HRv & Hne & mac & Hmac & Hlen & Ht).
    eexists _, (<[lv := AddrCell (job_key j)]> (<[lk := KeyCell]> R)). split_and!; [done|done|].
    eapply (stored_intro _ _ _ _ _ _ _ _ lk lk (le_store 8 (job_key j)) lv mac); eauto; try congruence.
    + eapply Hcell; eauto; [|by rewrite lookup_insert_ne]. eapply roles_kept_cell; eauto.
    + rewrite lookup_insert_ne by done. apply lookup_insert_eq.
    + apply lookup_insert_eq.
    + rewrite le_load_store. apply Z.mod_small, job_key_range.
    + intros l r Hl Hr. rewrite !lookup_insert_ne; congruence.
Qed.

(** The table of a thread that holds the mutex. *)
Definition locked w A map : Prop :=
  w_held w = [cache_mutex] /\ arp_inv w A /\ w_cache w = CacheMap map /\ cap0 <= capacity map.

(** The end of the insertion. *)
Lemma store_done t j w A R p map :
  learner j -> source_ok w R j -> locked w A map -> cells_ok w A R -> size_ map + 1 < capacity map ->
  pending_ok w A R t j p ->
  wp (store_section p) w (fun ph' w' => ph' = Finished None /\ exists A' R',
    shared w' A' R' None /\ thread_ok w' A' R' None t j ph' /\ frame t w A R w' A' R').
Proof.
  intros Hl Hsrc (Hh & Hinv & Hmap & Hcap0) Hc Hroom Hp.
  destruct (put_stored t j w A R p map Hinv Hc Hmap Hroom Hp) as (map' & A1 & R1 & Hput & Hcap & Hst).
  unfold wp. rewrite (store_run p w map) by done. rewrite Hput.
  change (wp (mutex_unlock cache_mutex;; (if pd_local p then drop_local (pd_key p) else mret tt);;
    mret (Finished None)) (set_cache (CacheMap map') w) (fun ph' w' => ph' = Finished None /\ exists A' R',
    shared w' A' R' None /\ thread_ok w' A' R' None t j ph' /\ frame t w A R w' A' R')).
  wp_step. wp_step. cbn [w_held set_cache]. rewrite Hh, unlock_lock by apply not_elem_of_nil.
  set (w1 := set_held [] (set_cache (CacheMap map') w)).
  assert (Hs1 : shared w1 A1 R1 None).
  { split.
    - split_and!; [done|apply inv_held, Hst|]. intros map2 [= <-]. by rewrite Hcap.
    - destruct Hst as [_ [] _ _ _]. by split. }
  assert (Hf1 : frame t w A R w1 A1 R1) by (destruct Hst as [_ _ _ [] _]; by split).
  assert (Hfin : forall w2 A2 R2, shared w2 A2 R2 None -> frame t w A R w2 A2 R2 ->
    is_Some (A2 !! job_key j) -> exists A' R', shared w2 A' R' None /\
      thread_ok w2 A' R' None t j (Finished None) /\ frame t w A R w2 A' R').
  { intros w2 A2 R2 Hs2 Hf2 Hk2. exists A2, R2. split_and!; [done| |done].
    split; [by eapply source_ok_frame|]. by destruct j. }
  wp_step. destruct (pd_local p) eqn:Hloc.
  - unfold drop_local. repeat wp_step. split; [done|].
    destruct (private_drop t w1 A1 R1 None (p_blk (pd_key p)) Hs1) as [Hs2 Hf2];
      [exact (so_local _ _ _ _ _ _ _ _ _ Hst Hloc)|].
    eapply Hfin; [exact Hs2|by eapply frame_trans|]. apply relabel_known, Hst.
  - repeat wp_step. split; [done|]. eapply Hfin; [exact Hs1|done|apply Hst].
Qed.

Lemma stepped_done t g j w A R p map w1 :
  (forall t' rest, g = Some (t', rest) -> t' = t) ->
  w_mem w1 = w_mem w -> learner j -> source_ok w R j -> locked w1 A map -> cells_ok w1 A R ->
  size_ map + 1 < capacity map -> pending_ok w A R t j p ->
  wp (store_section p) w1 (stepped t g j w A R).
Proof.
  intros Hg Hm Hl Hsrc Hlock Hc Hroom Hp. eapply wp_mono.
  { apply (store_done t j w1 A R p map); try done.
    - destruct j; [|done]. destruct Hsrc as (bs & [Hb Hbs] & Hrest). exists bs. split; [|done].
      split; [by rewrite Hm|done].
    - unfold pending_ok. rewrite Hm. exact Hp. }
  intros ph' w' (-> & A' & R' & Hs' & Ht' & Hf'). exists A', R'.
  assert (Hh : holder t g (Finished None) = None).
  { destruct g as [[t' rest]|]; [|done]. unfold holder. rewrite decide_True; [done|by eapply Hg]. }
  rewrite Hh. split_and!; [done|done| |].
  - destruct Hf' as [Hr Hmem Hk]. split; [done| |done]. intros l r Hlr Hr1 Hr2.
    rewrite <- Hm. by eapply Hmem.
  - intros t' rest -> Hne. by destruct (Hne (Hg _ _ eq_refl)).
Qed.

(** A step inside the growth. *)
Lemma stepped_growing t g j w A R p rest w1 :
  (forall t' rest, g = Some (t', rest) -> t' = t) ->
  w_mem w1 = w_mem w -> learner j -> source_ok w R j -> pending_ok w A R t j p ->
  w_held w1 = [cache_mutex] -> table_at rest w1 A -> cells_ok w1 A R ->
  stepped t g j w A R (Growing rest p) w1.
Proof.
  intros Hg Hm Hl Hsrc Hp Hh Ht Hc. exists A, R. cbn.
  assert (Hf : frame t w A R w1 A R) by (split; [done| |done]; intros l r _ _ _; by rewrite Hm).
  split_and!; [done| |done|].
  - split; [by eapply source_ok_frame|]. cbn. split_and!; [done| |done].
    unfold pending_ok. rewrite Hm. exact Hp.
  - intros t' rest' -> Hne. by destruct (Hne (Hg _ _ eq_refl)).
Qed.

(** The cells do not depend on the table pointer and on the mutexes. *)
Lemma cells_ok_fields w A R h map :
  cells_ok w A R -> cells_ok (set_cache (CacheMap map) (set_held h w)) A R.
Proof. intros []. by split. Qed.

Lemma lock_fine t g j w A R p :
  shared w A R g -> outside g t -> learner j -> source_ok w R j -> pending_ok w A R t j p ->
  fine t g j w A R (Storing p) (lock_section p w).
Proof.
  intros [Ht Hc] Hg Hl Hsrc Hp. unfold lock_section. destruct g as [[t' rest]|]; cbn in Ht.
  { destruct Ht as [Hh _]. unfold mbind at 1, M_bind at 1, mutex_lock. rewrite Hh.
    rewrite decide_True by set_solver. by split; [|intros []]. }
  destruct Ht as (Hh & Hinv & Hcap). apply wp_then, wp_mutex_lock.
  { rewrite Hh. apply not_elem_of_nil. }
  rewrite Hh. set (w1 := set_held [cache_mutex] w). apply fine_wp.
  destruct (ai_map _ _ Hinv) as (map & Hmap & Hm). wp_step. eapply wp_the_cache; [done|].
  assert (Hinv1 : arp_inv w1 A) by by apply inv_held.
  destruct (Z.ltb_spec 70 (hashmap_load_factor map)) as [Hload|Hload].
  - repeat wp_step. apply stepped_growing; try done; [|by apply cells_ok_fields].
    exists map, [], (grow_start map), ∅. split_and!; [done| | |done|by apply Hcap].
    + eapply arp_inv_frame; [exact Hinv1|exact (eq_sym Hmap)|done|]. apply (ai_private _ _ Hinv1).
    + by eapply growing_start.
  - apply (stepped_done t None j w A R p map); try done.
    + split_and!; [done|done|done|by apply Hcap].
    + destruct Hc. by split.
    + by eapply load_factor_room.
Qed.

Lemma grow_stepped t j w A R p el rest :
  let g := Some (t, el :: rest) in
  shared w A R g -> learner j -> source_ok w R j -> pending_ok w A R t j p ->
  wp (grow_section el rest p) w (stepped t g j w A R).
Proof.
  intros g [(Hh & old & moved & mid & M & Hmap & Hinv & Hgr & Hload & Hcap) Hc] Hl Hsrc Hp.
  destruct (ai_map _ _ Hinv) as (? & [= <-] & Hm).
  destruct (growing_step (ops := arp_ops (w_mem w)) _ _ _ _ _ _ _ Hm Hgr) as (mid' & M' & Hone & Hgr').
  unfold grow_section. wp_step. eapply wp_the_cache; [done|]. repeat wp_step.
  eapply wp_lift; [exact Hone|]. repeat wp_step.
  apply stepped_growing; try done.
  - by intros t' rest' [= -> _].
  - exists old, (moved ++ [el]), mid', M'. done.
  - destruct Hc. by split.
Qed.

Lemma finish_stepped t j w A R p :
  let g := Some (t, []) in
  shared w A R g -> learner j -> source_ok w R j -> pending_ok w A R t j p ->
  wp (store_section p) w (stepped t g j w A R).
Proof.
  intros g [(Hh & old & moved & mid & M & Hmap & Hinv & Hgr & Hload & Hcap) Hc] Hl Hsrc Hp.
  destruct (ai_map _ _ Hinv) as (? & [= <-] & Hm).
  destruct (growing_done _ _ _ _ _ Hm Hgr) as (Hmid & Hcap' & Hroom).
  pose proof (inv_cap_pos _ _ Hm).
  apply (stepped_done t g j w A R p mid); try done; [by intros t' rest' [= -> _]|].
  split_and!; [done| |done|lia]. split; try apply Hinv. by exists mid.
Qed.

(** Every section of every thread, in every state of the table. *)
Lemma thread_step_fine t g j ph w A R :
  shared w A R g -> thread_ok w A R g t j ph -> ~ finished ph -> (is_growing ph \/ outside g t) ->
  fine t g j w A R ph (thread_step j ph w).
Proof.
  intros Hs [Hsrc Hp] Hf Hg. destruct ph as [| | |key dst|p|rest p|v]; cbn in Hp, Hg; cbn [thread_step].
  - destruct g as [[t' rest]|]; [|by apply fine_wp, check_stepped].
    destruct Hs as [[Hh _] _]. unfold check_section, is_in_arp_cache, with_local.
    unfold mbind, M_bind, mutex_lock. cbn. rewrite Hh. by split; [|intros []].
  - apply get_fine; tauto.
  - destruct j as [pt ip src|ip].
    + apply fine_wp, prepare_stepped; tauto.
    + apply fine_wp, wp_ret. eapply stepped_intro; [tauto|auto|exact Hs|apply frame_refl|done|by left].
  - destruct j as [pt ip src|ip]; [|tauto]. apply fine_wp, copy_stepped; tauto.
  - apply lock_fine; tauto.
  - destruct Hp as (Hl & Hp & ->). destruct rest as [|el rest].
    + by apply fine_wp, finish_stepped.
    + by apply fine_wp, grow_stepped.
  - by destruct Hf.
Qed.

End Invariant.
End ArpThreadsFacts.
