(* ===== verification/ArpThreadsSpec.v ===== *)
(** * Several threads learn and resolve addresses: the theorems

    [learning_safe] and [learning_progress]: in every interleaving of the sections of
    ArpThreads.v in which no unlocked lookup overlaps a growth of the table, the table stays
    well-formed and records only what was announced, and nothing goes wrong.
    [few_hosts_are_learned]: with room in the table every run ends with all senders recorded.
    ArpRaces.v has the runs that the condition excludes. *)

From stdpp Require Import relations.
From S2P Require Import Prelude Words HashMap HashMapFacts HashMapGrowth World Wp Tun NetInterface.
From S2P Require Import NetFacts Arp ArpFacts ArpSpec ArpThreads ArpThreadsFacts.
Import HashMap HashMapFacts HashMapGrowth World Wp Tun Ethernet NetInterface NetFacts Arp ArpFacts.
Import ArpSpec ArpThreads ArpThreadsFacts.

Module ArpThreadsSpec.

Implicit Types (w : world) (A : gmap Z cell) (l : loc) (i : Z) (c : cell) (t : nat).
Implicit Types (R : gmap loc role) (j : job) (ph : phase) (p : pending) (js : list job).

(** The state in which the threads start: the table holds [A], nobody is in it, and the
    frames are in buffers of their own. *)
Record ready_for w A js : Prop := {
  rf_net : exists mac, net_inv mac w;
  rf_arp : arp_inv w A;
  rf_frames pt ip src : Learn pt ip src ∈ js ->
    exists bs, in_block w src 6 bs /\ ~ owned A w (p_blk src)
}.

(** [mac] was recorded for [i] at the start, or a frame announces it. *)
Definition told w A js i (mac : list Z) : Prop :=
  (exists c, A !! i = Some c /\ c_mac c = mac) \/
  (exists pt ip src bs, Learn pt ip src ∈ js /\ i = to_key pt ip /\
    in_block w src 6 bs /\ mac = bytes_at bs src 6).

Definition table_capacity w : Z :=
  match w_cache w with CacheMap map => capacity map | _ => 0 end.

Section Run.
Context (w : world) (A : gmap Z cell) (js : list job) (Hready : ready_for w A js).

Abbreviation told := (told w A js).
Abbreviation shared := (shared told (table_capacity w)).
Abbreviation thread_ok := (thread_ok told).

(** ** The start *)

Definition sources : list loc :=
  omap (fun j => match j with Learn _ _ src => Some (p_blk src) | Resolve _ => None end) js.

Definition first_role l : option role :=
  if decide (map_Exists (fun _ c => c_key c = l) A) then Some KeyCell
  else match list_find (fun ic : Z * cell => c_val (snd ic) = l) (map_to_list A) with
       | Some (_, ic) => Some (AddrCell (fst ic))
       | None => if decide (l ∈ sources) then Some Source else None
       end.

Lemma first_role_key i c : A !! i = Some c -> first_role (c_key c) = Some KeyCell.
Proof. intros Hi. unfold first_role. rewrite decide_True; [done|]. by exists i, c. Qed.

Lemma first_role_addr l i :
  first_role l = Some (AddrCell i) -> exists c, A !! i = Some c /\ c_val c = l.
Proof.
  unfold first_role. case_decide; [done|].
  destruct (list_find _ _) as [[n [i' c]]|] eqn:Hf; [|by case_decide]. intros [= <-].
  apply list_find_Some in Hf as (Hn & Hc & _). exists c. split; [|done].
  by apply elem_of_map_to_list, (list_elem_of_lookup_2 _ n).
Qed.

Lemma first_role_val i c : A !! i = Some c -> first_role (c_val c) = Some (AddrCell i).
Proof.
  intros Hi. pose proof (rf_arp _ _ _ Hready) as Hinv. unfold first_role. rewrite decide_False.
  2: { intros (i' & c' & Hi' & Heq). by apply (ai_key_val _ _ Hinv i' i c' c). }
  destruct (list_find _ _) as [[n [i' c']]|] eqn:Hf.
  - apply list_find_Some in Hf as (Hn & Hc & _). cbn in Hc |- *. do 2 f_equal.
    eapply (ai_val_inj _ _ Hinv); [|exact Hi|exact Hc].
    by apply elem_of_map_to_list, (list_elem_of_lookup_2 _ n).
  - apply list_find_None in Hf. rewrite list.Forall_forall in Hf.
    destruct (Hf (i, c)); [by apply elem_of_map_to_list|done].
Qed.

Lemma first_role_source l :
  l ∈ sources -> ~ owned A w l -> first_role l = Some Source.
Proof.
  intros Hl Ho. unfold first_role. rewrite decide_False.
  2: { intros (i & c & Hi & <-). apply Ho. right. exists i, c. auto. }
  destruct (list_find _ _) as [[n [i c]]|] eqn:Hf; [|by rewrite decide_True].
  apply list_find_Some in Hf as (Hn & Hc & _). destruct Ho. right. exists i, c.
  split; [|by right]. by apply elem_of_map_to_list, (list_elem_of_lookup_2 _ n).
Qed.

Lemma first_role_not_reserved l : reserved w l -> first_role l = None.
Proof.
  intros Hr. pose proof (ai_private _ _ (rf_arp _ _ _ Hready) l) as Hp.
  assert (Hno : forall i c, A !! i = Some c -> c_key c <> l /\ c_val c <> l).
  { intros i c Hi. split; intros Heq; (apply Hp; [|done]); exists i, c; auto. }
  unfold first_role. rewrite decide_False by (intros (i & c & Hi & Heq); by destruct (Hno i c Hi)).
  destruct (list_find _ _) as [[n [i c]]|] eqn:Hf.
  - apply list_find_Some in Hf as (Hn & Hc & _). destruct (Hno i c); [|done].
    by apply elem_of_map_to_list, (list_elem_of_lookup_2 _ n).
  - rewrite decide_False; [done|]. intros Hs.
    apply list_elem_of_omap in Hs as ([pt ip src|] & Hj & Heq); [|done].
    injection Heq as <-. destruct (rf_frames _ _ _ Hready _ _ _ Hj) as (bs & _ & Ho). apply Ho. by left.
Qed.

Definition first_roles : gmap loc role := map_imap (fun l _ => first_role l) (w_mem w).

Lemma first_roles_lookup l b : w_mem w !! l = Some b -> first_roles !! l = first_role l.
Proof. intros Hb. unfold first_roles. by rewrite map_lookup_imap, Hb. Qed.

Lemma first_roles_Some l r :
  first_roles !! l = Some r -> is_Some (w_mem w !! l) /\ first_role l = Some r.
Proof.
  unfold first_roles. rewrite map_lookup_imap. destruct (w_mem w !! l); cbn; [|done]. by split; eauto.
Qed.

Lemma start_shared : shared w A first_roles None.
Proof.
  pose proof (rf_arp _ _ _ Hready) as Hinv. destruct (rf_net _ _ _ Hready) as [mac Hnet]. split.
  - split_and!; [by apply (ni_held mac)|done|]. intros map Hmap. unfold table_capacity.
    by rewrite Hmap.
  - split.
    + intros i c Hi. destruct (ai_key _ _ Hinv _ _ Hi) as (b & Hb & _).
      rewrite (first_roles_lookup _ b) by done. by eapply first_role_key.
    + intros i c Hi. destruct (ai_val _ _ Hinv _ _ Hi) as (Hb & _).
      rewrite (first_roles_lookup _ (c_mac c)) by done. by apply first_role_val.
    + intros l i [_ (c & Hi & <-)%first_role_addr]%first_roles_Some.
      destruct (ai_val _ _ Hinv _ _ Hi) as (Hb & Hl). exists (c_mac c). split_and!; [done|done|].
      left. by exists c.
    + intros l Hr. split.
      * destruct (first_roles !! l) as [r|] eqn:Hl; [|done]. apply first_roles_Some in Hl as [_ Hl].
        by rewrite first_role_not_reserved in Hl.
      * by eapply reserved_alloc.
    + by intros l r [? _]%first_roles_Some.
Qed.

Lemma start_thread t j : js !! t = Some j -> thread_ok w A first_roles None t j Ready.
Proof.
  intros Hj. split; [|done]. destruct j as [pt ip src|ip]; [|done].
  apply list_elem_of_lookup_2 in Hj. destruct (rf_frames _ _ _ Hready _ _ _ Hj) as (bs & Hbs & Ho).
  exists bs. split_and!; [done| |].
  - destruct Hbs as [Hb _]. rewrite (first_roles_lookup _ bs) by done.
    apply first_role_source; [|done]. apply list_elem_of_omap. by exists (Learn pt ip src).
  - right. by exists pt, ip, src, bs.
Qed.

(** ** The invariant of the system *)

Definition system_inv (s : system) : Prop :=
  exists A' R g, shared (s_world s) A' R g /\
    (forall t j ph, s_threads s !! t = Some (j, ph) -> thread_ok (s_world s) A' R g t j ph) /\
    (forall t rest, g = Some (t, rest) -> exists j p, s_threads s !! t = Some (j, Growing rest p)) /\
    (forall i, is_Some (A !! i) -> is_Some (A' !! i)) /\
    fst <$> s_threads s = js.

Lemma start_system : system_inv (start w js).
Proof.
  exists A, first_roles, None. split_and!; [apply start_shared| |done|done|].
  2: { cbn. rewrite <- list_fmap_compose. by apply list_fmap_id. }
  intros t j ph. cbn. rewrite list_lookup_fmap. destruct (js !! t) as [j'|] eqn:Hj; [|done].
  intros [= <- <-]. by apply start_thread.
Qed.

Lemma thread_outside s g t j ph :
  (forall t rest, g = Some (t, rest) -> exists j p, s_threads s !! t = Some (j, Growing rest p)) ->
  s_threads s !! t = Some (j, ph) -> is_growing ph \/ outside g t.
Proof.
  intros Hg Ht. destruct ph;
    try (right; intros rest' Heq; destruct (Hg _ _ Heq) as (? & ? & ?); congruence).
  by left.
Qed.

Lemma step_system s s' : system_inv s -> step s s' -> system_inv s'.
Proof.
  intros (A1 & R1 & g & Hs & Hts & Hg & Hk & Hjs) Hstep.
  destruct Hstep as [t j ph w1 ph' w2 ts Ht Hf Hrun]. cbn in *.
  assert (Hfine := thread_step_fine _ _ t g j ph w1 A1 R1 Hs (Hts _ _ _ Ht) Hf
    (thread_outside (mk_system w1 ts) g t j ph Hg Ht)).
  rewrite Hrun in Hfine. destruct Hfine as (A2 & R2 & Hs2 & Ht2 & Hf2 & Hother).
  apply lookup_lt_Some in Ht as Hlt.
  exists A2, R2, (holder t g ph'). cbn. split_and!; [done| | | |].
  - intros t' j' ph1 Ht'. destruct (decide (t' = t)) as [->|Hne].
    + rewrite list_lookup_insert_eq in Ht' by done. injection Ht' as <- <-. done.
    + rewrite list_lookup_insert_ne in Ht' by done.
      eapply thread_ok_frame; [exact Hne|exact Hf2| |by apply Hts].
      intros rest Hr. by eapply Hother.
  - intros t' rest [[-> (p & ->)]|[Hne Hg']]%holder_Some.
    + rewrite list_lookup_insert_eq by done. eauto.
    + rewrite list_lookup_insert_ne by done. by apply Hg.
  - intros i Hi. by apply (fr_known _ _ _ _ _ _ _ Hf2), Hk.
  - rewrite list_fmap_insert. rewrite <- Hjs. apply list_insert_id. by rewrite list_lookup_fmap, Ht.
Qed.

Lemma reachable_system s : rtc step (start w js) s -> system_inv s.
Proof.
  intros Hsteps. pose proof start_system as H0. induction Hsteps as [|s1 s2 s3 Hstep _ IH]; [done|].
  by apply IH, (step_system s1).
Qed.

(** No more hosts than there were and are announced. *)
Lemma shared_size w1 A1 R g :
  shared w1 A1 R g -> (size A1 <= size A + length js)%nat.
Proof.
  clear Hready. intros Hs. rewrite <- !size_dom.
  assert (Hsub : dom A1 ⊆ dom A ∪ (list_to_set (job_key <$> js) : gset Z)).
  { intros i [c Hi]%elem_of_dom. destruct (sh_addr _ _ _ _ (proj2 Hs) (c_val c) i) as (mac & _ & _ & Ht);
      [by apply (sh_val _ _ _ _ (proj2 Hs))|]. apply elem_of_union.
    destruct Ht as [(c0 & Hc0 & _)|(pt & ip & src & bs & Hj & -> & _)].
    - left. by apply elem_of_dom.
    - right. apply elem_of_list_to_set, list_elem_of_fmap. by exists (Learn pt ip src). }
  apply subseteq_size in Hsub. etrans; [exact Hsub|]. rewrite size_union_alt.
  assert (Hdiff : forall X Y : gset Z, X ∖ Y ⊆ X)
    by (intros X Y x; rewrite elem_of_difference; tauto).
  apply Nat.add_le_mono_l. etrans; [apply subseteq_size, Hdiff|].
  rewrite <- (length_fmap job_key js). generalize (job_key <$> js). clear -Hdiff.
  intros l. induction l as [|x l IH]; cbn; [by rewrite size_empty|]. rewrite size_union_alt, size_singleton.
  cbn. apply le_n_S. etrans; [apply subseteq_size, Hdiff|exact IH].
Qed.

(** With room for all of them nobody enlarges the table. *)
Lemma no_growth w1 A1 R g :
  shared w1 A1 R g -> 0 < table_capacity w ->
  (Z.of_nat (size A) + Z.of_nat (length js)) * 100 / table_capacity w <= 70 -> g = None.
Proof.
  clear Hready. intros Hs Hcap Hroom. destruct g as [[t rest]|]; [|done]. exfalso.
  pose proof (shared_size _ _ _ _ Hs) as Hsize.
  destruct Hs as [(_ & old & moved & mid & M & _ & Hinv & _ & Hload & Hle) _].
  destruct (ai_map _ _ Hinv) as (? & [= <-] & Hm).
  rewrite (load_factor_div _ _ Hm), (inv_size _ _ _ _ Hm), map_size_fmap in Hload.
  assert (Z.of_nat (size A1) * 100 / capacity old <=
    (Z.of_nat (size A) + Z.of_nat (length js)) * 100 / table_capacity w); [|lia].
  etrans; [apply Z.div_le_compat_l; [lia|split; [exact Hcap|exact Hle]]|].
  apply Z.div_le_mono; lia.
Qed.

End Run.

(** ** Safety *)

(** C4 In every interleaving in which no unlocked lookup overlaps a growth of the table (and
    no two threads copy into one cell at a time), at every moment at which nobody enlarges
    the table, it is well-formed and the mutex is free: it has lost none of its hosts; every
    address in it was there before or is announced for that host by one of the frames;
    the sender of every frame that has been handled is in it; and a resolution that has
    returned an address returned a cell with such an address of the right host. *)
Theorem learning_safe w A js s :
  ready_for w A js -> quiet_run (start w js) s ->
  (forall t j rest p, s_threads s !! t <> Some (j, Growing rest p)) ->
  exists A', arp_inv (s_world s) A' /\ w_held (s_world s) = [] /\
    (forall i, is_Some (A !! i) -> is_Some (A' !! i)) /\
    (forall i c, A' !! i = Some c -> told w A js i (c_mac c)) /\
    (forall t pt ip src r, s_threads s !! t = Some (Learn pt ip src, Finished r) ->
       is_Some (A' !! to_key pt ip)) /\
    (forall t ip q, s_threads s !! t = Some (Resolve ip, Finished (Some q)) ->
       exists l mac, q = Ptr l 0 /\ w_mem (s_world s) !! l = Some mac /\ length mac = 6%nat /\
         told w A js (to_key ARP_IPV4 ip) mac).
Proof.
  intros Hready Hsteps%quiet_run_steps Hno.
  destruct (reachable_system w A js Hready s Hsteps) as (A' & R & g & Hs & Hts & Hg & Hk & _).
  assert (g = None) as ->.
  { destruct g as [[t rest]|]; [|done]. destruct (Hg _ _ eq_refl) as (j & p & Ht).
    by destruct (Hno t j rest p). }
  destruct Hs as [(Hh & Hinv & _) Hc]. exists A'. split_and!; [done|done|done| | |].
  - intros i c Hi. destruct (sh_addr _ _ _ _ Hc (c_val c) i) as (mac & Hm & _ & Ht);
      [by apply (sh_val _ _ _ _ Hc)|]. destruct (ai_val _ _ Hinv _ _ Hi) as [Hm' _]. congruence.
  - intros t pt ip src r Ht. by destruct (Hts _ _ _ Ht) as [_ Hp].
  - intros t ip q Ht. destruct (Hts _ _ _ Ht) as [_ [?|(l & Hq & Hl)]]; [done|]. injection Hq as ->.
    destruct (sh_addr _ _ _ _ Hc _ _ Hl) as (mac & Hm & Hlen & Htold). by exists l, mac.
Qed.

(** A section succeeds, or another thread enlarges the table. *)
Lemma progress w A js s t j ph :
  ready_for w A js -> rtc step (start w js) s ->
  s_threads s !! t = Some (j, ph) -> ~ finished ph ->
  (exists ph' w', thread_step j ph (s_world s) = Ok ph' w') \/
  (exists t' j' rest p ph' w', t' <> t /\ s_threads s !! t' = Some (j', Growing rest p) /\
     thread_step j' (Growing rest p) (s_world s) = Ok ph' w' /\
     ((exists w1, thread_step j ph (s_world s) = Blocked w1) \/
      (learner j /\ ph = Known /\ exists w1, thread_step j ph (s_world s) = Aborted w1))).
Proof.
  intros Hready Hsteps Ht Hf.
  destruct (reachable_system w A js Hready s Hsteps) as (A' & R & g & Hs & Hts & Hg & _).
  assert (Hfine : forall t j ph, s_threads s !! t = Some (j, ph) -> ~ finished ph ->
    fine (told w A js) (table_capacity w) t g j (s_world s) A' R ph (thread_step j ph (s_world s))).
  { intros t1 j1 ph1 Ht1 Hf1. apply thread_step_fine; try done; [by apply Hts|].
    by eapply thread_outside. }
  assert (Hgrow : ~ is_growing ph -> g <> None -> exists t' j' rest p ph' w', t' <> t /\
    s_threads s !! t' = Some (j', Growing rest p) /\
    thread_step j' (Growing rest p) (s_world s) = Ok ph' w').
  { intros Hph Hgn. destruct g as [[t' rest]|]; [|done]. destruct (Hg _ _ eq_refl) as (j' & p & Ht').
    exists t', j', rest, p. specialize (Hfine _ _ _ Ht' ltac:(auto)).
    destruct (thread_step j' _ _) as [ph' w'|c w'|w'|w'|f]; cbn in Hfine; try tauto.
    - exists ph', w'. split_and!; [|done|done]. intros ->. rewrite Ht in Ht'. by simplify_eq.
    - destruct Hfine as (_ & _ & ?); done. }
  specialize (Hfine _ _ _ Ht Hf).
  destruct (thread_step j ph (s_world s)) as [ph' w'|c w'|w'|w'|f] eqn:Hrun; cbn in Hfine; try done.
  - left. by exists ph', w'.
  - right. destruct Hfine as (Hgn & Hl & ->).
    destruct (Hgrow ltac:(auto) Hgn) as (t' & j' & rest & p & ph' & w2 & ? & ? & ?).
    exists t', j', rest, p, ph', w2. eauto 8.
  - right. destruct Hfine as (Hgn & Hph).
    destruct (Hgrow Hph Hgn) as (t' & j' & rest & p & ph' & w2 & ? & ? & ?).
    exists t', j', rest, p, ph', w2. eauto 8.
Qed.

(** C5 In the same interleavings no call goes wrong: the next section of every thread that
    has not finished succeeds, or the thread waits for the mutex, which another thread
    holds to enlarge the table; that thread can always go on, so there is no deadlock. *)
Theorem learning_progress w A js s t j ph :
  ready_for w A js -> quiet_run (start w js) s ->
  s_threads s !! t = Some (j, ph) -> ~ finished ph ->
  (exists ph' w', thread_step j ph (s_world s) = Ok ph' w') \/
  (exists t' j' rest p ph' w' w1, t' <> t /\ s_threads s !! t' = Some (j', Growing rest p) /\
     thread_step j' (Growing rest p) (s_world s) = Ok ph' w' /\
     thread_step j ph (s_world s) = Blocked w1).
Proof.
  intros Hready Hrun Ht Hf.
  pose proof (quiet_run_undisturbed _ _ Hrun (start_undisturbed _ _)) as Hu.
  destruct (progress w A js s t j ph Hready (quiet_run_steps _ _ Hrun) Ht Hf)
    as [Hok|(t' & j' & rest & p & ph' & w' & Hne & Ht' & Hgo & [[w1 Hb]|(_ & -> & _)])].
  - by left.
  - right. by exists t', j', rest, p, ph', w', w1.
  - by specialize (Hu t t' _ _ _ _ (not_eq_sym Hne) Ht Ht').
Qed.

(** ** Termination *)

(** The sections that a thread has still to run when nobody enlarges the table. *)
Definition rank ph : nat :=
  match ph with
  | Ready => 4
  | Known | Unknown => 3
  | Got _ _ => 2
  | Storing _ | Growing _ _ => 1
  | Finished _ => 0
  end.

(** All results of a call satisfy [P]. *)
Definition returns {B} (m : M B) (P : B -> Prop) : Prop := forall w b w', m w = Ok b w' -> P b.

Lemma returns_ret {B} (b : B) (P : B -> Prop) : P b -> returns (mret b) P.
Proof. intros Hb w b' w'. unfold mret, M_ret. by intros [= <- _]. Qed.

Lemma returns_bind {B C} (m : M B) (k : B -> M C) (P : C -> Prop) :
  (forall b, returns (k b) P) -> returns (m ≫= k) P.
Proof.
  intros Hk w c w'. unfold mbind, M_bind. destruct (m w) as [b w1| | | |]; try done. apply Hk.
Qed.

Lemma thread_step_rank j ph w ph' w' :
  ~ finished ph -> ~ is_growing ph -> ~ is_growing ph' -> thread_step j ph w = Ok ph' w' ->
  (rank ph' < rank ph)%nat.
Proof.
  intros Hf Hg Hg' Hrun. revert w ph' w' Hrun Hg'.
  change (returns (thread_step j ph) (fun ph' => ~ is_growing ph' -> (rank ph' < rank ph)%nat)).
  destruct ph as [| | |key dst|p|rest p|v]; cbn [thread_step rank].
  - apply returns_bind. intros []; apply returns_ret; cbn; lia.
  - do 2 (apply returns_bind; intros ?). destruct j;
      repeat (apply returns_bind; intros ?); apply returns_ret; cbn; lia.
  - destruct j; repeat (apply returns_bind; intros ?); apply returns_ret; cbn; lia.
  - destruct j; repeat (apply returns_bind; intros ?); apply returns_ret; cbn; lia.
  - do 2 (apply returns_bind; intros ?). case_match; repeat (apply returns_bind; intros ?);
      apply returns_ret; cbn; intros; lia || tauto.
  - by destruct Hg.
  - by destruct Hf.
Qed.

Definition total_rank (ts : list (job * phase)) : nat := sum_list_with (fun jp => rank (snd jp)) ts.
Lemma rank_steps s0 n s :
  (forall s1, rtc step s0 s1 -> forall t j rest p, s_threads s1 !! t <> Some (j, Growing rest p)) ->
  nsteps step n s0 s -> (n + total_rank (s_threads s) <= total_rank (s_threads s0))%nat.
Proof.
  intros Hno Hsteps. induction Hsteps as [|n s0 s1 s2 Hstep _ IH]; [lia|].
  specialize (IH ltac:(intros s' Hs'; apply Hno; by eapply rtc_l)).
  assert (Hnow := Hno s0 ltac:(done)). assert (Hnext := Hno s1 ltac:(by apply rtc_once)).
  destruct Hstep as [t j ph w ph' w' ts Ht Hf Hrun]. cbn in *.
  apply lookup_lt_Some in Ht as Hlt.
  assert (Hlt' : (rank ph' < rank ph)%nat).
  { eapply thread_step_rank; [exact Hf| | |exact Hrun].
    - intros Hg. destruct ph; try done. by eapply Hnow.
    - intros Hg. destruct ph'; try done. eapply (Hnext t). by apply list_lookup_insert_eq. }
  pose proof (sum_insert (fun jp => rank (snd jp)) ts t _ (j, ph') Ht) as Hr. unfold total_rank in *.
  cbn in *. lia.
Qed.

(** C16 Few hosts: when the table has room for the hosts in it and one more for each thread, no
    section blocks or ends the process in any interleaving, every run is over after at most
    four sections per thread, and then the sender of every frame is in the table. *)
Theorem few_hosts_are_learned w A js n s :
  ready_for w A js -> 0 < table_capacity w ->
  (Z.of_nat (size A) + Z.of_nat (length js)) * 100 / table_capacity w <= 70 ->
  nsteps step n (start w js) s ->
  (n <= 4 * length js)%nat /\
  (forall t j ph, s_threads s !! t = Some (j, ph) -> ~ finished ph ->
     exists ph' w', thread_step j ph (s_world s) = Ok ph' w') /\
  ((forall t j ph, s_threads s !! t = Some (j, ph) -> finished ph) ->
     exists A', arp_inv (s_world s) A' /\
       forall pt ip src, Learn pt ip src ∈ js -> is_Some (A' !! to_key pt ip)).
Proof.
  intros Hready Hcap Hroom Hsteps.
  assert (Hno : forall s1, rtc step (start w js) s1 -> forall t j rest p,
    s_threads s1 !! t <> Some (j, Growing rest p)).
  { intros s1 Hs1 t j rest p Ht.
    destruct (reachable_system w A js Hready s1 Hs1) as (A1 & R1 & g & Hs & Hts & _).
    rewrite (no_growth w A js _ _ _ _ Hs Hcap Hroom) in Hts.
    by destruct (Hts _ _ _ Ht) as (_ & _ & _ & ?). }
  assert (Hr : rtc step (start w js) s) by (apply rtc_nsteps; by exists n).
  split_and!.
  - pose proof (rank_steps _ _ _ Hno Hsteps) as Hle.
    assert (H0 : total_rank (s_threads (start w js)) = (4 * length js)%nat); [|lia].
    unfold total_rank, start. cbn. clear. induction js as [|j js IH]; cbn in *; lia.
  - intros t j ph Ht Hf.
    destruct (progress w A js s t j ph Hready Hr Ht Hf) as [?|(t' & j' & rest & p & _ & _ & _ & Ht' & _)];
      [done|]. by destruct (Hno s Hr t' j' rest p).
  - intros Hall. destruct (reachable_system w A js Hready s Hr) as (A' & R & g & Hs & Hts & _ & _ & Hjs).
    rewrite (no_growth w A js _ _ _ _ Hs Hcap Hroom) in Hs. exists A'. split; [apply Hs|].
    intros pt ip src (t & Ht)%list_elem_of_lookup. rewrite <- Hjs, list_lookup_fmap in Ht.
    destruct (s_threads s !! t) as [[j ph]|] eqn:Hst; [|done]. injection Ht as ->.
    specialize (Hall _ _ _ Hst). destruct ph; try done. by destruct (Hts _ _ _ Hst) as [_ Hp].
Qed.

(** ** Witnesses: two learners and a resolver over the buffer of a received request *)

Definition two_hosts : list job :=
  [Learn ARP_IPV4 0x0900000a (Ptr 5 22); Learn ARP_IPV4 0x0800000a (Ptr 5 6); Resolve 0x0900000a].

Lemma request_ready js :
  Forall (fun j => match j with Learn _ _ src => p_blk src = 5%positive /\ 0 <= p_off src <= 94
                              | Resolve _ => True end) js ->
  ready_for request_world ∅ js.
Proof.
  intros Hjs. rewrite list.Forall_forall in Hjs.
  split; [exists [2; 0; 0; 0; 0; 1]; apply request_inv|apply request_inv|].
  intros pt ip src Hj. destruct (Hjs _ Hj) as [Hb Hoff]. exists request. split.
  - split_and!; [by rewrite Hb|lia|lia|].
    assert (Hl : length request = 100%nat) by (vm_compute; reflexivity).
    rewrite Hl. lia.
  - rewrite Hb. intros [Hr|Ha]; apply request_free; [left; exact Hr|right; exact Ha].
Qed.

Lemma two_hosts_ready : ready_for request_world ∅ two_hosts.
Proof. apply request_ready. repeat constructor; cbn; lia. Qed.

Definition two_hosts_schedule : list nat := [0; 0; 0; 1; 2; 1; 2; 1]%nat.

Definition two_hosts_end : option system := run two_hosts_schedule (start request_world two_hosts).

Lemma two_hosts_threads : exists w r, two_hosts_end = Some (mk_system w
  [(Learn ARP_IPV4 0x0900000a (Ptr 5 22), Finished None);
   (Learn ARP_IPV4 0x0800000a (Ptr 5 6), Finished None); (Resolve 0x0900000a, Finished (Some r))]).
Proof. vm_compute. eexists _, _. reflexivity. Qed.

Lemma two_hosts_quiet s :
  two_hosts_end = Some s -> quiet_run (start request_world two_hosts) s.
Proof. intros Hend. by apply (calm_run_quiet two_hosts_schedule). Qed.

Lemma learning_safe_witness :
  exists s A', two_hosts_end = Some s /\ arp_inv (s_world s) A' /\
    is_Some (A' !! to_key ARP_IPV4 0x0900000a) /\ is_Some (A' !! to_key ARP_IPV4 0x0800000a).
Proof.
  destruct two_hosts_threads as (w & r & Hend).
  destruct (learning_safe request_world ∅ two_hosts _ two_hosts_ready (two_hosts_quiet _ Hend))
    as (A' & Hinv & _ & _ & _ & Hdone & _).
  { intros [|[|[|t]]] j rest p; cbn; rewrite ?lookup_nil; discriminate. }
  eexists _, A'. split_and!; [exact Hend|exact Hinv|exact (Hdone 0%nat _ _ _ _ eq_refl)|
    exact (Hdone 1%nat _ _ _ _ eq_refl)].
Defined.

(** The resolver knows that the first host is recorded, while a learner is about to store the
    second: its lookup without the mutex goes well. *)
Lemma midway_threads : exists w p, run [0; 0; 0; 1; 2; 1]%nat (start request_world two_hosts) =
  Some (mk_system w [(Learn ARP_IPV4 0x0900000a (Ptr 5 22), Finished None);
    (Learn ARP_IPV4 0x0800000a (Ptr 5 6), Storing p); (Resolve 0x0900000a, Known)]).
Proof. vm_compute. eexists _, _. reflexivity. Qed.

Lemma learning_progress_witness :
  exists s ph' w', run [0; 0; 0; 1; 2; 1]%nat (start request_world two_hosts) = Some s /\
    s_threads s !! 2%nat = Some (Resolve 0x0900000a, Known) /\
    thread_step (Resolve 0x0900000a) Known (s_world s) = Ok ph' w'.
Proof.
  destruct midway_threads as (w & p & Hrun).
  pose proof (calm_run_quiet _ _ _ Hrun ltac:(vm_compute; reflexivity)) as Hq.
  destruct (learning_progress request_world ∅ two_hosts _ 2 (Resolve 0x0900000a) Known two_hosts_ready
    Hq eq_refl ltac:(intros [])) as [(ph' & w' & Hok)|(t' & j' & rest & q & _ & _ & _ & _ & Ht' & _)].
  - eexists _, ph', w'. split_and!; [exact Hrun|reflexivity|exact Hok].
  - exfalso. destruct t' as [|[|[|t']]]; cbn in Ht'; rewrite ?lookup_nil in Ht'; discriminate.
Defined.

Lemma few_hosts_are_learned_witness :
  exists s A', two_hosts_end = Some s /\ arp_inv (s_world s) A' /\
    is_Some (A' !! to_key ARP_IPV4 0x0900000a) /\ (8 <= 4 * length two_hosts)%nat.
Proof.
  destruct two_hosts_threads as (w & r & Hend).
  destruct (few_hosts_are_learned request_world ∅ two_hosts 8 _ two_hosts_ready eq_refl
    ltac:(vm_compute; done) (run_nsteps _ _ _ Hend)) as (Hn & _ & Hall).
  destruct Hall as (A' & Hinv & Hdone).
  { intros [|[|[|t]]] j ph; cbn; rewrite ?lookup_nil; [..|done]; by intros [= <- <-]. }
  eexists _, A'. split_and!; [exact Hend|exact Hinv| |exact Hn].
  apply (Hdone _ _ (Ptr 5 22)). left.
Defined.

End ArpThreadsSpec.
