(* ===== verification/ArpRaces.v ===== *)
(** * What the missing exclusion around the translation table costs (protocols/arp.c)

    Two schedules of the threads of ArpThreads.v, from any state that allows them:
    [growth_aborts_learning], a frame from a known host ends the process while another
    thread enlarges the table; [double_learning_leaks], two frames from one new host leave
    cells that nobody owns. *)

From stdpp Require Import relations.
From S2P Require Import Prelude Words HashMap HashMapFacts HashMapGrowth World Wp Tun NetInterface.
From S2P Require Import NetFacts NetSpec Arp ArpFacts ArpSpec ArpThreads ArpThreadsFacts.
From S2P Require Import ArpThreadsSpec.
Import HashMap HashMapFacts HashMapGrowth World Wp Tun Ethernet NetInterface NetFacts Arp ArpFacts.
Import ArpSpec ArpThreads ArpThreadsFacts ArpThreadsSpec.

Module ArpRaces.

Implicit Types (w : world) (A : gmap Z cell) (l : loc) (c : cell) (t : nat).
Implicit Types (j : job) (ph : phase) (p : pending) (ts : list (job * phase)).

(** ** Sections as equations *)

Lemma check_run w A j :
  arp_inv w A -> w_held w = [] ->
  check_section j w = Ok (if decide (is_Some (A !! job_key j)) then Known else Unknown) w.
Proof.
  intros Hinv Hh. set (answer := if decide (is_Some (A !! job_key j)) then Known else Unknown).
  destruct (wp_run (check_section j) w (fun ph w' => w' = w /\ ph = answer))
    as (ph & w' & Hrun & -> & ->); [|done].
  unfold check_section. wp_step. eapply wp_is_in_arp_cache; [done|done|]. wp_step. split; [done|].
  fold (job_key j). rewrite bool_decide_decide. by destruct (decide _).
Qed.

Lemma prepare_run w pt ip src bs :
  in_block w src 6 bs ->
  exists lk lv, w_mem w !! lk = None /\ w_mem w !! lv = None /\ lk <> lv /\
    prepare_section (Learn pt ip src) src w =
      Ok (Storing (mk_pending (Ptr lk 0) (Ptr lv 0) false))
        (new_cells w lk lv (to_key pt ip) (bytes_at bs src 6)).
Proof.
  intros Hbs. destruct (wp_run (prepare_section (Learn pt ip src) src) w (fun ph w' => exists lk lv,
    w_mem w !! lk = None /\ w_mem w !! lv = None /\ lk <> lv /\
    ph = Storing (mk_pending (Ptr lk 0) (Ptr lv 0) false) /\
    w' = new_cells w lk lv (to_key pt ip) (bytes_at bs src 6)))
    as (ph & w' & Hrun & lk & lv & Hlk & Hlv & Hne & -> & ->).
  - unfold prepare_section. eapply wp_new_cells; [exact Hbs|]. intros lk lv Hlk Hlv Hne. wp_step.
    by exists lk, lv.
  - by exists lk, lv.
Qed.

(** The mutex is free and the table is loaded: the growth starts. *)
Lemma lock_grows w p map :
  w_held w = [] -> w_cache w = CacheMap map -> 70 < hashmap_load_factor map ->
  lock_section p w =
    Ok (Growing (array map) p) (set_cache (CacheMap (grow_start map)) (set_held [cache_mutex] w)).
Proof.
  intros Hh Hmap Hload. unfold lock_section.
  rewrite (M_bind_run (mutex_lock _) _ w tt (set_held [cache_mutex] w)).
  2: { unfold mutex_lock. rewrite Hh, decide_False by apply not_elem_of_nil. done. }
  rewrite (M_bind_run _ _ _ map _ (the_cache_run (set_held [cache_mutex] w) map Hmap)).
  by destruct (Z.ltb_spec 70 (hashmap_load_factor map)); [|lia].
Qed.

(** An empty table answers [NULL]. *)
Lemma cache_get_empty w map key i :
  w_cache w = CacheMap map -> hm_inv (ident_in (w_mem w)) id map ∅ ->
  ident_in (w_mem w) (Some key) = Some i -> cache_get key w = Ok None w.
Proof.
  intros Hmap Hm Hid. unfold cache_get. rewrite (M_bind_run _ _ _ _ _ (the_cache_run _ _ Hmap)).
  rewrite (M_bind_run (get w_mem) _ w (w_mem w) w) by done. unfold lift, hashmap_get.
  by rewrite (proj1 (get_spec (ops := arp_ops (w_mem w)) _ _ _ _ NULL Hm Hid)).
Qed.

Lemma empty_ident (id1 id2 : vptr -> option Z) (map : hashmap vptr vptr) :
  hm_inv id1 id map ∅ -> hm_inv id2 id map ∅.
Proof. intros Hm. eapply hm_inv_ident; [exact Hm|]. intros i k v. by rewrite lookup_empty. Qed.

(** A lookup in the table that has just been emptied. *)
Lemma get_section_empty w map j :
  w_cache w = CacheMap map -> hm_inv (ident_in (w_mem w)) id map ∅ ->
  match j with
  | Learn _ _ _ => exists w', get_section j w = Aborted w'
  | Resolve _ => exists w', get_section j w = Ok (Finished None) w'
  end.
Proof.
  intros Hmap Hm. unfold get_section.
  set (l := fresh (dom (w_mem w))). set (w1 := upd_mem w l (le_store 8 (job_key j))).
  rewrite (M_bind_run (alloc_block _) _ w (Ptr l 0) w1) by done.
  assert (Hget : cache_get (Ptr l 0) w1 = Ok None w1).
  { apply (cache_get_empty w1 map _ (job_key j)); [done|by eapply empty_ident|].
    apply ident_store; [apply lookup_upd_mem_eq|apply job_key_range]. }
  rewrite (M_bind_run _ _ _ _ _ Hget). destruct j as [pt ip src|ip]; by eexists.
Qed.

Lemma step_run w ts t j ph ph' w' :
  ts !! t = Some (j, ph) -> ~ finished ph -> thread_step j ph w = Ok ph' w' ->
  step (mk_system w ts) (mk_system w' (<[t := (j, ph')]> ts)).
Proof. intros. by eapply step_thread. Qed.

(** C17 A frame from a known host can end the process.  One thread learns a new host, a second
    one handles a frame from a known host, a third one resolves the address of a
    known host; the table is loaded.  When the check of the second and of the third thread
    comes first and the first one then starts to enlarge the table, the next section of
    the second thread fails the [assert] of [set_in_arp_cache], and the third one is
    told that the address it has just found is unknown. *)
Theorem growth_aborts_learning w A map pt ip src bs pt2 ip2 src2 ip3 :
  arp_inv w A -> w_held w = [] -> w_cache w = CacheMap map -> 70 < hashmap_load_factor map ->
  in_block w src 6 bs -> A !! to_key pt ip = None ->
  is_Some (A !! to_key pt2 ip2) -> is_Some (A !! to_key ARP_IPV4 ip3) ->
  exists s rest p, rtc step (start w [Learn pt ip src; Learn pt2 ip2 src2; Resolve ip3]) s /\
    s_threads s = [(Learn pt ip src, Growing rest p); (Learn pt2 ip2 src2, Known);
      (Resolve ip3, Known)] /\
    (exists w', thread_step (Learn pt2 ip2 src2) Known (s_world s) = Aborted w') /\
    (exists w', thread_step (Resolve ip3) Known (s_world s) = Ok (Finished None) w').
Proof.
  intros Hinv Hh Hmap Hload Hbs Hnew Hk2 Hk3.
  destruct (prepare_run w pt ip src bs Hbs) as (lk & lv & Hlk & Hlv & Hne & Hprep).
  set (p := mk_pending (Ptr lk 0) (Ptr lv 0) false) in Hprep.
  set (w1 := new_cells _ _ _ _ _) in Hprep.
  set (w2 := set_cache (CacheMap (grow_start map)) (set_held [cache_mutex] w1)).
  exists (mk_system w2 [(Learn pt ip src, Growing (array map) p); (Learn pt2 ip2 src2, Known);
    (Resolve ip3, Known)]), (array map), p. split_and!; [|done| |].
  - pose proof (check_run w A (Learn pt ip src) Hinv Hh) as H1.
    pose proof (check_run w A (Learn pt2 ip2 src2) Hinv Hh) as H2.
    pose proof (check_run w A (Resolve ip3) Hinv Hh) as H3.
    change (job_key (Learn pt ip src)) with (to_key pt ip) in H1.
    rewrite decide_False in H1 by (rewrite Hnew; by intros []).
    rewrite decide_True in H2 by done. rewrite decide_True in H3 by done.
    eapply rtc_l; [apply (step_run _ _ 1 (Learn pt2 ip2 src2) Ready Known w); [done|intros []|exact H2]|].
    eapply rtc_l; [apply (step_run _ _ 2 (Resolve ip3) Ready Known w); [done|intros []|exact H3]|].
    eapply rtc_l; [apply (step_run _ _ 0 (Learn pt ip src) Ready Unknown w); [done|intros []|exact H1]|].
    eapply rtc_l; [apply (step_run _ _ 0 (Learn pt ip src) Unknown (Storing p) w1);
      [done|intros []|exact Hprep]|].
    eapply rtc_l; [apply (step_run _ _ 0 (Learn pt ip src) (Storing p) (Growing (array map) p) w2);
      [done|intros []|by apply lock_grows]|].
    done.
  - apply (get_section_empty w2 (grow_start map) (Learn pt2 ip2 src2)); [done|].
    destruct (ai_map _ _ Hinv) as (map0 & Hmap0 & Hm). rewrite Hmap in Hmap0. injection Hmap0 as <-.
    eapply empty_ident. by apply (growing_start _ _ Hm).
  - apply (get_section_empty w2 (grow_start map) (Resolve ip3)); [done|].
    destruct (ai_map _ _ Hinv) as (map0 & Hmap0 & Hm). rewrite Hmap in Hmap0. injection Hmap0 as <-.
    eapply empty_ident. by apply (growing_start _ _ Hm).
Qed.

(** ** Two frames from one new host *)

(** The table has room: the section of a new entry, or of one that is there already. *)
Lemma lock_stores w A map lk lv i mac :
  let c := mk_cell (match A !! i with Some c => c_key c | None => lk end) lv mac in
  w_held w = [] -> w_cache w = CacheMap map -> hashmap_load_factor map <= 70 -> arp_inv w A ->
  w_mem w !! lk = Some (le_store 8 i) -> 0 <= i < 2 ^ 64 -> w_mem w !! lv = Some mac ->
  length mac = 6%nat -> ~ owned A w lk -> ~ owned A w lv -> lk <> lv ->
  exists map', lock_section (mk_pending (Ptr lk 0) (Ptr lv 0) false) w =
      Ok (Finished None) (set_cache (CacheMap map') w) /\
    capacity map' = capacity map /\ arp_inv (set_cache (CacheMap map') w) (<[i := c]> A).
Proof.
  intros c Hh Hmap Hload Hinv Hlk Hi Hlv Hlen Hok Hov Hne.
  set (p := mk_pending (Ptr lk 0) (Ptr lv 0) false). set (w1 := set_held [cache_mutex] w).
  destruct (ai_map _ _ Hinv) as (map0 & Hmap0 & Hm). rewrite Hmap in Hmap0. injection Hmap0 as <-.
  destruct (store_put w A map (Ptr lk 0) i lv Hmap Hinv) as (map' & Hput & Hcap & Hm').
  { by eapply load_factor_room. } { by apply ident_store. }
  exists map'. split_and!; [|done|].
  - unfold lock_section. rewrite (M_bind_run (mutex_lock _) _ w tt w1).
    2: { unfold mutex_lock. rewrite Hh, decide_False by apply not_elem_of_nil. done. }
    rewrite (M_bind_run _ _ _ map _ (the_cache_run w1 map Hmap)).
    destruct (Z.ltb_spec 70 (hashmap_load_factor map)); [lia|].
    rewrite (store_run p w1 map) by done. cbn [pd_key pd_data pd_local p].
    change (w_mem w1) with (w_mem w). rewrite Hput.
    transitivity (Ok (Finished None : phase) (set_held (filter (fun m' => m' <> cache_mutex) [cache_mutex])
      (set_cache (CacheMap map') w1))); [done|].
    rewrite unlock_lock by apply not_elem_of_nil. destruct w. cbn in *. by subst.
  - assert (Hfree : forall l, ~ owned A w l -> ~ reserved w l /\ ~ arp_block A l)
      by (unfold owned; tauto).
    destruct (Hfree _ Hok) as [Hrk Hak], (Hfree _ Hov) as [Hrv Hav].
    assert (Hapart : forall k d, A !! k = Some d -> c_key d <> lv /\ c_val d <> lv /\ c_val d <> lk).
    { intros k d Hk. split_and!; intros Heq; [apply Hav|apply Hav|apply Hak]; exists k, d; auto. }
    subst c. destruct (A !! i) as [d|] eqn:Hd.
    + destruct (ai_key _ _ Hinv _ _ Hd) as (bk & Hbk & Hbl & Hld).
      apply (arp_inv_entry w A i map' (c_key d) bk lv mac); try done; [by apply Hm'| | |].
      * apply (ai_private _ _ Hinv). exists i, d. auto.
      * by apply (Hapart i).
      * intros k e Hk. destruct (Hapart _ _ Hk) as (? & ? & _).
        split_and!; [by apply (ai_key_val _ _ Hinv i k)|done|congruence].
    + apply (arp_inv_entry w A i map' lk (le_store 8 i) lv mac); try done; [by apply Hm'| |].
      * rewrite le_load_store. by apply Z.mod_small.
      * intros k e Hk. destruct (Hapart _ _ Hk) as (? & ? & ?). split_and!; congruence.
Qed.

(** Two prepared entries for one key, stored one after the other: the second address under
    the first key cell. *)
Lemma two_stores w A map i lk1 lv1 m1 lk2 lv2 m2 :
  w_held w = [] -> w_cache w = CacheMap map -> arp_inv w A -> A !! i = None -> 0 <= i < 2 ^ 64 ->
  (Z.of_nat (size A) + 1) * 100 / capacity map <= 70 ->
  w_mem w !! lk1 = Some (le_store 8 i) -> w_mem w !! lv1 = Some m1 -> length m1 = 6%nat ->
  w_mem w !! lk2 = Some (le_store 8 i) -> w_mem w !! lv2 = Some m2 -> length m2 = 6%nat ->
  Forall (fun l => ~ owned A w l) [lk1; lv1; lk2; lv2] -> NoDup [lk1; lv1; lk2; lv2] ->
  exists map3 map4,
    lock_section (mk_pending (Ptr lk1 0) (Ptr lv1 0) false) w =
      Ok (Finished None) (set_cache (CacheMap map3) w) /\
    lock_section (mk_pending (Ptr lk2 0) (Ptr lv2 0) false) (set_cache (CacheMap map3) w) =
      Ok (Finished None) (set_cache (CacheMap map4) w) /\
    arp_inv (set_cache (CacheMap map4) w) (<[i := mk_cell lk1 lv2 m2]> A).
Proof.
  intros Hh Hmap Hinv Hnew Hi Hload Hk1 Hv1 Hm1 Hk2 Hv2 Hm2 Hown Hnd.
  rewrite !list.NoDup_cons, !not_elem_of_cons in Hnd.
  destruct Hnd as ((? & ? & ? & _) & (? & ? & _) & (? & _) & _).
  rewrite !list.Forall_cons in Hown. destruct Hown as (Ho1 & Ho2 & Ho3 & Ho4 & _).
  assert (Hfactor : forall w' A' map', w_cache w' = CacheMap map' -> arp_inv w' A' ->
    capacity map' = capacity map -> (size A' <= S (size A))%nat -> hashmap_load_factor map' <= 70).
  { intros w' A' map' Hmap' Hinv' Hcap Hsz. destruct (ai_map _ _ Hinv') as (map0 & Hmap0 & Hm).
    rewrite Hmap' in Hmap0. injection Hmap0 as <-. pose proof (inv_cap_pos _ _ Hm).
    rewrite (load_factor_div _ _ Hm), (inv_size _ _ _ _ Hm), map_size_fmap, Hcap.
    etrans; [|exact Hload]. apply Z.div_le_mono; lia. }
  destruct (lock_stores w A map lk1 lv1 i m1) as (map3 & Hrun3 & Hcap3 & Hinv3); try done.
  { eapply Hfactor; [exact Hmap|exact Hinv|done|lia]. }
  rewrite Hnew in Hinv3. set (A3 := <[i := mk_cell lk1 lv1 m1]> A) in Hinv3.
  set (w3 := set_cache (CacheMap map3) w) in *.
  assert (Hown3 : forall l, ~ owned A w l -> l <> lk1 -> l <> lv1 -> ~ owned A3 w3 l).
  { intros l Ho Hl1 Hl2 [Hr|(k & d & Hk & Hd)]; [apply Ho; by left|].
    apply lookup_insert_Some in Hk as [[<- <-]|[_ Hk]]; [by destruct Hd|].
    apply Ho. right. by exists k, d. }
  destruct (lock_stores w3 A3 map3 lk2 lv2 i m2) as (map4 & Hrun4 & Hcap4 & Hinv4); try done.
  { apply (Hfactor w3 A3); [done|exact Hinv3|done|]. unfold A3. by rewrite map_size_insert_None. }
  { by apply Hown3. } { by apply Hown3. }
  exists map3, map4. split_and!; [done|exact Hrun4|].
  unfold A3 in Hinv4. rewrite lookup_insert_eq, insert_insert_eq in Hinv4. exact Hinv4.
Qed.

Lemma new_cells_lookup w lk lv key mac l :
  w_mem (new_cells w lk lv key mac) !! l =
    if decide (l = lv) then Some mac else if decide (l = lk) then Some (le_store 8 key) else w_mem w !! l.
Proof.
  cbn. destruct (decide (l = lv)) as [->|]; [apply lookup_insert_eq|].
  rewrite lookup_insert_ne by done. destruct (decide (l = lk)) as [->|]; [apply lookup_insert_eq|].
  by apply lookup_insert_ne.
Qed.

(** The schedule: both check, both prepare, both store. *)
Lemma double_schedule w w1 w2 w3 w4 j1 j2 p1 p2 :
  check_section j1 w = Ok Unknown w -> check_section j2 w = Ok Unknown w ->
  thread_step j1 Unknown w = Ok (Storing p1) w1 -> thread_step j2 Unknown w1 = Ok (Storing p2) w2 ->
  lock_section p1 w2 = Ok (Finished None) w3 -> lock_section p2 w3 = Ok (Finished None) w4 ->
  rtc step (start w [j1; j2]) (mk_system w4 [(j1, Finished None); (j2, Finished None)]).
Proof.
  intros Hc1 Hc2 Hp1 Hp2 Hs1 Hs2.
  eapply rtc_l; [eapply (step_run _ _ 0 j1); [done|intros []|exact Hc1]|].
  eapply rtc_l; [eapply (step_run _ _ 1 j2); [done|intros []|exact Hc2]|].
  eapply rtc_l; [eapply (step_run _ _ 0 j1); [done|intros []|exact Hp1]|].
  eapply rtc_l; [eapply (step_run _ _ 1 j2); [done|intros []|exact Hp2]|].
  eapply rtc_l; [eapply (step_run _ _ 0 j1); [done|intros []|exact Hs1]|].
  eapply rtc_l; [eapply (step_run _ _ 1 j2); [done|intros []|exact Hs2]|]. done.
Qed.

(** C35 Two frames from one host that is new leak: when both threads find the host unknown
    before either of them adds it, the address of the second one is recorded under the
    key of the first one, and the address cell of the first and the key cell of the
    second, allocated by [add_to_arp_cache], belong to nobody: [arp_destroy] will not free them. *)
Theorem double_learning_leaks mac w A map pt ip src1 bs1 src2 bs2 :
  net_inv mac w -> arp_inv w A -> w_cache w = CacheMap map ->
  (Z.of_nat (size A) + 1) * 100 / capacity map <= 70 -> A !! to_key pt ip = None ->
  in_block w src1 6 bs1 -> in_block w src2 6 bs2 ->
  exists s lk lv, rtc step (start w [Learn pt ip src1; Learn pt ip src2]) s /\
    s_threads s = [(Learn pt ip src1, Finished None); (Learn pt ip src2, Finished None)] /\
    exists A' c, arp_inv (s_world s) A' /\ A' = <[to_key pt ip := c]> A /\
      c_mac c = bytes_at bs2 src2 6 /\ lk <> lv /\
      forall l, l = lk \/ l = lv ->
        w_mem w !! l = None /\ is_Some (w_mem (s_world s) !! l) /\ ~ owned A' (s_world s) l.
Proof.
  intros Hnet Hinv Hmap Hload Hnew Hb1 Hb2. set (i := to_key pt ip). pose proof (ni_held _ _ Hnet) as Hh.
  destruct (prepare_run w pt ip src1 bs1 Hb1) as (lk1 & lv1 & Hlk1 & Hlv1 & Hne1 & Hp1). fold i in Hp1.
  set (w1 := new_cells _ _ _ _ _) in Hp1.
  assert (Hb2' : in_block w1 src2 6 bs2).
  { destruct Hb2 as [Hb2 Hbounds]. repeat apply in_block_upd; [by split|congruence|congruence]. }
  destruct (prepare_run w1 pt ip src2 bs2 Hb2') as (lk2 & lv2 & Hlk2 & Hlv2 & Hne2 & Hp2). fold i in Hp2.
  set (w2 := new_cells _ _ _ _ _) in Hp2. subst w1. rewrite new_cells_lookup in Hlk2, Hlv2.
  repeat case_decide; try done.
  assert (Hfresh : forall l, w_mem w !! l = None -> ~ owned A w l).
  { intros l Hl [Hr|Ha]; [by eapply fresh_not_reserved|by eapply fresh_not_arp]. }
  destruct (two_stores w2 A map i lk1 lv1 (bytes_at bs1 src1 6) lk2 lv2 (bytes_at bs2 src2 6))
    as (map3 & map4 & Hrun3 & Hrun4 & Hinv4); try done.
  { repeat apply arp_inv_upd; try done; by eapply fresh_not_arp. }
  { apply to_key_range. }
  all: try (subst w2; rewrite !new_cells_lookup; repeat case_decide; congruence).
  { by erewrite length_bytes_at. } { by erewrite length_bytes_at. }
  { rewrite !list.Forall_cons. split_and!; try by apply Hfresh. done. }
  { rewrite !list.NoDup_cons, !not_elem_of_cons. split_and!; try done; try apply not_elem_of_nil.
    apply NoDup_nil_2. }
  pose proof (check_run w A (Learn pt ip src1) Hinv Hh) as Hc1.
  pose proof (check_run w A (Learn pt ip src2) Hinv Hh) as Hc2.
  change (job_key _) with (to_key pt ip) in Hc1. change (job_key _) with (to_key pt ip) in Hc2.
  rewrite decide_False in Hc1 by (rewrite Hnew; by intros []).
  rewrite decide_False in Hc2 by (rewrite Hnew; by intros []).
  set (j1 := Learn pt ip src1) in *. set (j2 := Learn pt ip src2) in *.
  set (w4 := set_cache (CacheMap map4) w2) in *.
  exists (mk_system w4 [(j1, Finished None); (j2, Finished None)]), lk2, lv1. split_and!; [|done|].
  - by eapply (double_schedule w _ w2 _ w4 j1 j2).
  - exists (<[i := mk_cell lk1 lv2 (bytes_at bs2 src2 6)]> A), (mk_cell lk1 lv2 (bytes_at bs2 src2 6)).
    split_and!; [done|done|done|done|].
    intros l Hl. assert (Hn : w_mem w !! l = None) by by destruct Hl as [-> | ->].
    split_and!; [done| |].
    + cbn [s_world]. change (w_mem w4) with (w_mem w2). subst w2. rewrite !new_cells_lookup.
      destruct Hl as [-> | ->]; repeat case_decide; by eauto || congruence.
    + intros [Hr|(k & d & [[<- <-]|[_ Hk]]%lookup_insert_Some & Hd)].
      * eapply Hfresh; [exact Hn|by left].
      * cbn in Hd. destruct Hl as [-> | ->], Hd; congruence.
      * eapply Hfresh; [exact Hn|]. right. by exists k, d.
Qed.

(** ** Witnesses *)

Lemma request_buffer w A :
  steps ∅ request_world A w -> in_block w (Ptr 5 22) 6 request.
Proof.
  intros Hs. assert (Hl : length request = 100%nat) by (vm_compute; reflexivity).
  split_and!; cbn [p_blk p_off]; [|lia|lia|rewrite Hl; lia].
  apply (s_mem _ _ _ _ Hs); [reflexivity|apply request_free].
Qed.

(** Hosts 1 to [n], numbered by [ip], are added from the address in the buffer of a received
    request. *)
Section Crowd.
Context (ip : nat -> Z) (Hrange : forall n, (n <= 100)%nat -> 0 <= ip n < 2 ^ 32).
Context (Hinj : forall m n, (m <= 100)%nat -> (n <= 100)%nat -> ip m = ip n -> m = n).

Fixpoint crowd (n : nat) : M unit :=
  match n with
  | O => mret tt
  | S n => crowd n;; add_to_arp_cache ARP_IPV4 (ip (S n)) (Ptr 5 22)
  end.

Lemma crowd_learned n :
  (n <= 100)%nat -> wp (crowd n) request_world (fun _ w => exists A, net_inv [2; 0; 0; 0; 0; 1] w /\
    arp_inv w A /\ steps ∅ request_world A w /\
    (forall m, (m <= 100)%nat -> is_Some (A !! to_key ARP_IPV4 (ip m)) <-> (1 <= m <= n)%nat) /\
    size A = n /\
    forall i, is_Some (A !! i) -> exists m, (m <= 100)%nat /\ i = to_key ARP_IPV4 (ip m)).
Proof using Hrange Hinj.
  induction n as [|n IH]; intros Hn; cbn [crowd].
  - exists ∅. split_and!; [apply request_inv|apply request_inv|apply steps_refl| |done|].
    + intros m _. rewrite lookup_empty. split; [by intros []|lia].
    + intros i. rewrite lookup_empty. by intros [].
  - apply wp_bind. eapply wp_mono; [apply IH; lia|]. intros _ w (A & Hnet & Hinv & Hs & Hk & Hsz & Hall).
    assert (Hnew : A !! to_key ARP_IPV4 (ip (S n)) = None)
      by (apply eq_None_not_Some; rewrite Hk by lia; lia).
    eapply (wp_add_to_arp_cache _ w A); [done|done|done|by apply request_buffer in Hs|].
    intros w' lk lv A' Hnet' Hinv' Hs' _. exists A'.
    split_and!; [done|done|by eapply steps_trans| |unfold A'; by rewrite map_size_insert_None, Hsz|].
    2: { intros i [c [[<- _]|[_ Hi]]%lookup_insert_Some]; [by exists (S n)|]. apply Hall. by exists c. }
    intros m Hm. unfold A'. destruct (decide (m = S n)) as [->|Hne].
    + rewrite lookup_insert_eq. split; [lia|by eexists].
    + rewrite lookup_insert_ne, Hk by (lia || (intros Heq; apply Hne; symmetry; apply Hinj; try lia;
        apply (to_key_inj ARP_IPV4 _ ARP_IPV4 _); [done|by apply Hrange; lia|done|
        by apply Hrange; lia|exact Heq])). lia.
Qed.
End Crowd.

Lemma growth_aborts_learning_witness :
  exists w A s, crowd Z.of_nat 12 request_world = Ok tt w /\ arp_inv w A /\
    rtc step (start w [Learn ARP_IPV4 13 (Ptr 5 22); Learn ARP_IPV4 1 (Ptr 5 22); Resolve 2]) s /\
    exists w', thread_step (Learn ARP_IPV4 1 (Ptr 5 22)) Known (s_world s) = Aborted w'.
Proof.
  destruct (wp_run _ _ _ (crowd_learned Z.of_nat ltac:(lia) ltac:(lia) 12 ltac:(lia))) as ([] & w & Hrun & A & Hnet & Hinv & Hs & Hk & _).
  destruct (ai_map _ _ Hinv) as (map & Hmap & _).
  assert (Hload : match crowd Z.of_nat 12 request_world with
    | Ok _ w => match w_cache w with CacheMap map => 70 <? hashmap_load_factor map | _ => false end
    | _ => false end = true) by (vm_compute; reflexivity).
  rewrite Hrun, Hmap in Hload. apply Z.ltb_lt in Hload.
  destruct (growth_aborts_learning w A map ARP_IPV4 13 (Ptr 5 22) request ARP_IPV4 1 (Ptr 5 22) 2
    Hinv (ni_held _ _ Hnet) Hmap Hload) as (s & rest & p & Hsteps & _ & Hab & _).
  - by apply request_buffer in Hs.
  - apply eq_None_not_Some. rewrite (Hk 13%nat) by lia. lia.
  - apply (Hk 1%nat); lia.
  - apply (Hk 2%nat); lia.
  - exists w, A, s. split_and!; [exact Hrun|exact Hinv|exact Hsteps|exact Hab].
Defined.

Lemma double_learning_leaks_witness :
  exists s lk lv, rtc step (start request_world
      [Learn ARP_IPV4 13 (Ptr 5 22); Learn ARP_IPV4 13 (Ptr 5 6)]) s /\
    lk <> lv /\ w_mem request_world !! lk = None /\ is_Some (w_mem (s_world s) !! lk).
Proof.
  destruct (double_learning_leaks [2; 0; 0; 0; 0; 1] request_world ∅ empty_cache ARP_IPV4 13
    (Ptr 5 22) request (Ptr 5 6) request (proj1 request_inv) (proj2 request_inv) eq_refl
    ltac:(vm_compute; done) eq_refl) as (s & lk & lv & Hsteps & _ & A' & c & _ & _ & _ & Hne & Hl).
  - by apply (request_buffer request_world ∅ (steps_refl _ _)).
  - assert (Hlen : length request = 100%nat) by (vm_compute; reflexivity).
    split_and!; cbn [p_blk p_off]; [reflexivity|lia|lia|rewrite Hlen; lia].
  - exists s, lk, lv. destruct (Hl lk (or_introl eq_refl)) as (Hn & Hx & _).
    split_and!; [exact Hsteps|exact Hne|exact Hn|exact Hx].
Defined.

End ArpRaces.
