(* ===== verification/Ip.v ===== *)
(** * IPv4: header and output (src/src/protocols/ip.h and ip.c)

    The accessors of ip.h are functions on the byte they unpack; the header lives in
    memory at the pointer [h].  [ip_receive] needs the protocols above and is in
    Stack.v. *)

From S2P Require Import Prelude Words Format Checksum HashMap World Tun NetInterface Arp.
Import Format Checksum World Tun Ethernet NetInterface Arp.

Module Ip.

(** [DEBUG] of ip.c. *)
Definition debug : bool := false.

Definition PROTOCOL_ICMP : Z := 1.
Definition PROTOCOL_TCP : Z := 6.
Definition PROTOCOL_UDP : Z := 16.

(** [struct ip_header] *)
Definition sizeof_ip_header : Z := 20.
Definition version_and_header_len (h : ptr) : ptr := h.
Definition service_type (h : ptr) : ptr := ptr_add h 1.
Definition ip_len (h : ptr) : ptr := ptr_add h 2.
Definition index (h : ptr) : ptr := ptr_add h 4.
Definition flags_and_fragment_offset (h : ptr) : ptr := ptr_add h 6.
Definition ttl (h : ptr) : ptr := ptr_add h 8.
Definition protocol (h : ptr) : ptr := ptr_add h 9.
Definition ip_checksum (h : ptr) : ptr := ptr_add h 10.
Definition src_addr (h : ptr) : ptr := ptr_add h 12.
Definition dst_addr (h : ptr) : ptr := ptr_add h 16.
Definition ip_payload (h : ptr) : ptr := ptr_add h 20.

(** ** Getters and setters

    Of the packed byte [b = version_and_header_len]; a store cuts to 8 bits. *)
Definition ip_header_get_version (b : Z) : Z := Z.land (Z.shiftr b 4) 0xf.
Definition ip_header_get_header_length (b : Z) : Z := Z.land b 0xf.
Definition ip_header_set_version (b version : Z) : Z :=
  u8 (Z.shiftl version 4 + ip_header_get_header_length b).
Definition ip_header_set_header_length (b ihl : Z) : Z :=
  u8 (Z.shiftl (ip_header_get_version b) 4 + ihl).

(** [header->len - sizeof(struct ip_header)], a [size_t]. *)
Definition ip_header_get_payload_length (h : ptr) : M Z :=
  len ← load16 (ip_len h); mret (u64 (len - sizeof_ip_header)).

(** [sum16] and [internet_checksum] of [count] bytes of memory. *)
Definition sum16_at (p : ptr) (count : Z) : M Z :=
  bs ← load_bytes p count; mret (sum16 bs).
Definition checksum_at (p : ptr) (count : Z) : M Z :=
  bs ← load_bytes p count; mret (internet_checksum bs).

Definition ip_header_alloc (len : Z) : M ptr :=
  h ← calloc (sizeof_ip_header + len);
  store8 (version_and_header_len h) (Z.shiftl 4 4 + 5);;
  store8 (service_type h) 0;;
  store16 (ip_len h) (sizeof_ip_header + len);;
  store16 (index h) 7;;
  store16 (flags_and_fragment_offset h) 0;;
  store8 (ttl h) 64;;
  store8 (protocol h) 0;;
  store16 (ip_checksum h) 0;;
  store32 (src_addr h) 0;;
  store32 (dst_addr h) 0;;
  c ← checksum_at h sizeof_ip_header;
  store16 (ip_checksum h) c;;
  mret h.

Definition ip_header_update_checksum (h : ptr) : M unit :=
  store16 (ip_checksum h) 0;;
  c ← checksum_at h sizeof_ip_header;
  store16 (ip_checksum h) c.

Definition ip_header_check (h : ptr) : M bool :=
  c ← checksum_at h sizeof_ip_header;
  mret (0 =? c).

Definition ip_header_fprint (h : ptr) : M string :=
  v ← load8 (version_and_header_len h);
  tos ← load8 (service_type h);
  len ← load16 (ip_len h);
  idx ← load16 (index h);
  fl ← load16 (flags_and_fragment_offset h);
  t ← load8 (ttl h);
  pr ← load8 (protocol h);
  ck ← load16 (ip_checksum h);
  s ← load32 (src_addr h);
  d ← load32 (dst_addr h);
  mret ("IP header [version=" +:+ fmt_u (ip_header_get_version v) +:+
        ", header_length=" +:+ fmt_u (ip_header_get_header_length v) +:+
        ", tos=" +:+ fmt_u tos +:+
        ", length=" +:+ fmt_lu (len - sizeof_ip_header) +:+ "(" +:+ fmt_u len +:+
        "), index=" +:+ fmt_u idx +:+
        ", flags=" +:+ fmt_u (Z.land (Z.shiftr fl 12) 0xf) +:+
        ", fragment_offset=" +:+ fmt_u (Z.land fl 0xfff) +:+
        ", ttl=" +:+ fmt_u t +:+ ", protocol=" +:+ fmt_u pr +:+
        ", checksum=" +:+ fmt_u ck +:+ ", src=" +:+ ipv4_fprint s +:+
        ", dst=" +:+ ipv4_fprint d +:+ "]").

(** ** Byte order *)

Definition ip_header_ntoh (h : ptr) : M unit :=
  s ← load32 (src_addr h); store32 (src_addr h) (ntohl s);;
  d ← load32 (dst_addr h); store32 (dst_addr h) (ntohl d);;
  l ← load16 (ip_len h); store16 (ip_len h) (ntohs l).

Definition ip_header_hton (h : ptr) : M unit :=
  s ← load32 (src_addr h); store32 (src_addr h) (htonl s);;
  d ← load32 (dst_addr h); store32 (dst_addr h) (htonl d);;
  l ← load16 (ip_len h); store16 (ip_len h) (htons l).

(** ** Sending *)

Definition ip_send_packet (h : ptr) : M unit :=
  d ← load32 (dst_addr h);
  let net_dst_addr := htonl d in
  real_len ← load16 (ip_len h);
  dst_mac ← arp_resolve_ipv4 net_dst_addr;
  match dst_mac with
  | None =>
      ERROR "IPv4: Could not resolve MAC address for ";;
      d ← load32 (dst_addr h);
      eprintf (ipv4_fprint d);;
      printf "
";;
      exit_ 1
  | Some dst_mac =>
      debug_only debug (
        printf "[DEBUG] [IPv4] Sent ";;
        s ← ip_header_fprint h;
        printf s;;
        printf "
");;
      ip_header_hton h;;
      ip_header_update_checksum h;;
      net_interface_send h real_len dst_mac ETH_P_IP
  end.

Definition ip_send (dst : Z) (payload : ptr) (len proto : Z) : M unit :=
  h ← ip_header_alloc (u16 len);
  store8 (protocol h) proto;;
  ip ← net_interface_get_ip;
  store32 (src_addr h) (ntohl ip);;
  store32 (dst_addr h) dst;;
  memcpy (ip_payload h) payload len;;
  ip_send_packet h;;
  free_ (Some h).

End Ip.
