(* ===== verification/IpFacts.v ===== *)
(** * Rules for IPv4 headers in memory

    [ip_block]: a block with an IPv4 header between what precedes it and its
    payload.  The rules read and write the header field by field. *)

From S2P Require Import Prelude Words Format Checksum HashMap World Wp Tun NetInterface.
From S2P Require Import NetFacts Arp ArpFacts ArpSpec Ip.
Import Format Checksum World Wp Tun Ethernet NetInterface NetFacts Arp ArpFacts ArpSpec Ip.

Module IpFacts.

Implicit Types (w : world) (l : loc) (pre post x : list Z).

Record ip_hdr := mk_ip_hdr {
  h_vihl : Z; h_tos : Z; h_len : list Z; h_index : list Z; h_flags : list Z;
  h_ttl : Z; h_proto : Z; h_ck : list Z; h_src : list Z; h_dst : list Z
}.

Definition ip_bytes (h : ip_hdr) : list Z :=
  [h_vihl h; h_tos h] ++ h_len h ++ h_index h ++ h_flags h ++ [h_ttl h; h_proto h] ++
  h_ck h ++ h_src h ++ h_dst h.

Record hdr_wf (h : ip_hdr) : Prop := {
  hw_len : length (h_len h) = 2%nat;
  hw_index : length (h_index h) = 2%nat;
  hw_flags : length (h_flags h) = 2%nat;
  hw_ck : length (h_ck h) = 2%nat;
  hw_src : length (h_src h) = 4%nat;
  hw_dst : length (h_dst h) = 4%nat;
  hw_bytes : bytes_ok (ip_bytes h)
}.

Definition ip_decode (x : list Z) : ip_hdr :=
  mk_ip_hdr (nth 0 x 0) (nth 1 x 0) (slice 2 2 x) (slice 4 2 x) (slice 6 2 x)
    (nth 8 x 0) (nth 9 x 0) (slice 10 2 x) (slice 12 4 x) (slice 16 4 x).

Lemma ip_decode_bytes x : length x = 20%nat -> ip_bytes (ip_decode x) = x.
Proof. intros Hx. explode x. reflexivity. Qed.

Lemma ip_decode_wf x : length x = 20%nat -> bytes_ok x -> hdr_wf (ip_decode x).
Proof.
  intros Hx Hb. split; try (cbn; apply length_slice; lia). by rewrite ip_decode_bytes.
Qed.

Lemma length_ip_bytes h : hdr_wf h -> length (ip_bytes h) = 20%nat.
Proof. intros []. unfold ip_bytes. rewrite !length_app. cbn. lia. Qed.

Definition set_len x h := mk_ip_hdr (h_vihl h) (h_tos h) x (h_index h) (h_flags h)
  (h_ttl h) (h_proto h) (h_ck h) (h_src h) (h_dst h).
Definition set_ck x h := mk_ip_hdr (h_vihl h) (h_tos h) (h_len h) (h_index h) (h_flags h)
  (h_ttl h) (h_proto h) x (h_src h) (h_dst h).
Definition set_src x h := mk_ip_hdr (h_vihl h) (h_tos h) (h_len h) (h_index h) (h_flags h)
  (h_ttl h) (h_proto h) (h_ck h) x (h_dst h).
Definition set_dst x h := mk_ip_hdr (h_vihl h) (h_tos h) (h_len h) (h_index h) (h_flags h)
  (h_ttl h) (h_proto h) (h_ck h) (h_src h) x.

Definition set_proto v h := mk_ip_hdr (h_vihl h) (h_tos h) (h_len h) (h_index h) (h_flags h)
  (h_ttl h) v (h_ck h) (h_src h) (h_dst h).

(** Break a well-formed header into its bytes. *)
Ltac hdr_of h :=
  let H := fresh in
  intros H; destruct h as [v t ln ix fl tt pr ck sr ds], H; cbn in *;
  explode ln; explode ix; explode fl; explode ck; explode sr; explode ds.

Lemma hslice_len h : hdr_wf h -> slice 2 2 (ip_bytes h) = h_len h.
Proof. by hdr_of h. Qed.
Lemma hslice_proto h : hdr_wf h -> slice 9 1 (ip_bytes h) = [h_proto h].
Proof. by hdr_of h. Qed.
Lemma hslice_ck h : hdr_wf h -> slice 10 2 (ip_bytes h) = h_ck h.
Proof. by hdr_of h. Qed.
Lemma hslice_src h : hdr_wf h -> slice 12 4 (ip_bytes h) = h_src h.
Proof. by hdr_of h. Qed.
Lemma hslice_dst h : hdr_wf h -> slice 16 4 (ip_bytes h) = h_dst h.
Proof. by hdr_of h. Qed.

Ltac hspliced h x := intros Hx; hdr_of h; explode x; unfold splice; cbn; by rewrite ?drop_0.

Lemma hsplice_len x h : length x = 2%nat -> hdr_wf h ->
  splice 2 x (ip_bytes h) = ip_bytes (set_len x h).
Proof. hspliced h x. Qed.
Lemma hsplice_ck x h : length x = 2%nat -> hdr_wf h ->
  splice 10 x (ip_bytes h) = ip_bytes (set_ck x h).
Proof. hspliced h x. Qed.
Lemma hsplice_src x h : length x = 4%nat -> hdr_wf h ->
  splice 12 x (ip_bytes h) = ip_bytes (set_src x h).
Proof. hspliced h x. Qed.
Lemma hsplice_dst x h : length x = 4%nat -> hdr_wf h ->
  splice 16 x (ip_bytes h) = ip_bytes (set_dst x h).
Proof. hspliced h x. Qed.

Lemma hsplice_proto pv h : hdr_wf h ->
  splice 9 (le_store 1 pv) (ip_bytes h) = ip_bytes (set_proto (u8 pv) h).
Proof. by hdr_of h. Qed.

#[global] Arguments ip_bytes : simpl never.

Ltac set_wf lem :=
  intros Hl Hb Hwf; pose proof (hw_bytes _ Hwf) as Hby; pose proof (lem _ _ Hl Hwf) as He;
  destruct Hwf; split; cbn; try done; rewrite <- He; by apply Forall_splice.

Lemma set_len_wf x h : length x = 2%nat -> bytes_ok x -> hdr_wf h -> hdr_wf (set_len x h).
Proof. set_wf hsplice_len. Qed.
Lemma set_ck_wf x h : length x = 2%nat -> bytes_ok x -> hdr_wf h -> hdr_wf (set_ck x h).
Proof. set_wf hsplice_ck. Qed.
Lemma set_src_wf x h : length x = 4%nat -> bytes_ok x -> hdr_wf h -> hdr_wf (set_src x h).
Proof. set_wf hsplice_src. Qed.
Lemma set_dst_wf x h : length x = 4%nat -> bytes_ok x -> hdr_wf h -> hdr_wf (set_dst x h).
Proof. set_wf hsplice_dst. Qed.

Lemma set_proto_wf v h : hdr_wf h -> hdr_wf (set_proto (u8 v) h).
Proof.
  intros Hwf. pose proof (hw_bytes _ Hwf) as Hby. pose proof (hsplice_proto v h Hwf) as He.
  destruct Hwf; split; cbn; try done; rewrite <- He. apply Forall_splice; [apply le_store_bytes|done].
Qed.

Lemma hdr_field_bytes h :
  hdr_wf h -> bytes_ok (h_len h) /\ bytes_ok (h_src h) /\ bytes_ok (h_dst h) /\ bytes_ok (h_ck h).
Proof.
  intros Hwf. rewrite <- (hslice_len h), <- (hslice_src h), <- (hslice_dst h), <- (hslice_ck h) by done.
  destruct Hwf. split_and!; by apply Forall_slice.
Qed.

Create HintDb ip.
#[export] Hint Resolve set_proto_wf set_len_wf set_ck_wf set_src_wf set_dst_wf : ip.
#[export] Hint Resolve le_store_bytes be_store_bytes length_le_store length_be_store : ip.

(** ** Slices inside a block *)

Lemma slice_inside pre x post (o n : nat) :
  (o + n <= length x)%nat -> slice (length pre + o) n (pre ++ x ++ post) = slice o n x.
Proof.
  intros H. unfold slice. rewrite drop_app_add, drop_app_le by lia.
  rewrite take_app_le; [done|]. rewrite length_drop. lia.
Qed.

Lemma splice_inside pre x post (o : nat) bs :
  (o + length bs <= length x)%nat ->
  splice (length pre + o) bs (pre ++ x ++ post) = pre ++ splice o bs x ++ post.
Proof.
  intros H. unfold splice. rewrite take_app_add, take_app_le by lia.
  rewrite <- Nat.add_assoc, drop_app_add, drop_app_le by lia. by rewrite <- !app_assoc.
Qed.

Lemma slice_after pre x post (n : nat) :
  slice (length (pre ++ x)) n (pre ++ x ++ post) = take n post.
Proof. unfold slice. by rewrite app_assoc, drop_app_length. Qed.

(** ** Access to a header *)

Section Access.
Context (w : world) (l : loc) (pre x post : list Z) (h : ptr).
Context (Hl : w_mem w !! l = Some (pre ++ x ++ post)) (Hh : h = Ptr l (Z.of_nat (length pre))).

Lemma inside_block (o n : nat) (p : ptr) :
  p = ptr_add h (Z.of_nat o) -> (o + n <= length x)%nat ->
  in_block w p (Z.of_nat n) (pre ++ x ++ post) /\
  p_blk p = l /\ Z.to_nat (p_off p) = (length pre + o)%nat.
Proof.
  intros -> Ho. subst h. unfold ptr_add. cbn [p_blk p_off]. split_and!; try done; try lia.
  split_and!; cbn; [done|lia|lia|]. rewrite !length_app. lia.
Qed.

Lemma wp_read_field (o n : nat) p (Q : list Z -> world -> Prop) :
  p = ptr_add h (Z.of_nat o) -> (o + n <= length x)%nat ->
  Q (slice o n x) w -> wp (load_bytes p (Z.of_nat n)) w Q.
Proof.
  intros Hp Ho HQ. destruct (inside_block o n p Hp Ho) as (Hin & _ & Hoff).
  eapply wp_load_bytes; [exact Hin|]. by rewrite Hoff, Nat2Z.id, slice_inside.
Qed.

Lemma wp_write_field (o : nat) bs p (Q : unit -> world -> Prop) :
  p = ptr_add h (Z.of_nat o) -> (o + length bs <= length x)%nat ->
  Q tt (upd_mem w l (pre ++ splice o bs x ++ post)) -> wp (store_bytes p bs) w Q.
Proof.
  intros Hp Ho HQ. destruct (inside_block o (length bs) p Hp Ho) as (Hin & Hb & Hoff).
  eapply wp_store_bytes; [exact Hin|]. by rewrite Hoff, Hb, splice_inside.
Qed.
End Access.

(** A header [hd] at [h], after [pre] and before [post]. *)
Definition ip_block (pre : list Z) (hd : ip_hdr) (post : list Z) : list Z :=
  pre ++ ip_bytes hd ++ post.

Definition hdr_at (w : world) (h : ptr) pre hd post : Prop :=
  w_mem w !! p_blk h = Some (ip_block pre hd post) /\ p_off h = Z.of_nat (length pre) /\ hdr_wf hd.

Lemma hdr_at_ptr w h pre hd post :
  hdr_at w h pre hd post -> h = Ptr (p_blk h) (Z.of_nat (length pre)).
Proof. intros (_ & <- & _). by destruct h. Qed.

Lemma wp_hdr_load w h pre hd post (o n : nat) p (Q : Z -> world -> Prop) :
  hdr_at w h pre hd post -> p = ptr_add h (Z.of_nat o) -> (o + n <= 20)%nat ->
  Q (le_load (slice o n (ip_bytes hd))) w ->
  wp (bs ← load_bytes p (Z.of_nat n); mret (le_load bs)) w Q.
Proof.
  intros Hat Hp Ho HQ. pose proof (hdr_at_ptr _ _ _ _ _ Hat) as Hh. destruct Hat as (Hl & _ & Hwf).
  apply wp_bind. eapply (wp_read_field w _ pre (ip_bytes hd) post h Hl Hh); [exact Hp| |exact HQ].
  by rewrite length_ip_bytes.
Qed.

Lemma wp_load_len w h pre hd post (Q : Z -> world -> Prop) :
  hdr_at w h pre hd post -> Q (le_load (h_len hd)) w -> wp (load16 (ip_len h)) w Q.
Proof.
  intros Hat HQ. eapply (wp_hdr_load _ _ _ _ _ 2 2); [exact Hat|done|lia|].
  by rewrite hslice_len by apply Hat.
Qed.
Lemma wp_load_proto w h pre hd post (Q : Z -> world -> Prop) :
  hdr_at w h pre hd post -> Q (h_proto hd) w -> wp (load8 (protocol h)) w Q.
Proof.
  intros Hat HQ. eapply (wp_hdr_load _ _ _ _ _ 9 1); [exact Hat|done|lia|].
  by rewrite hslice_proto, le_load_1 by apply Hat.
Qed.
Lemma wp_load_ck w h pre hd post (Q : Z -> world -> Prop) :
  hdr_at w h pre hd post -> Q (le_load (h_ck hd)) w -> wp (load16 (ip_checksum h)) w Q.
Proof.
  intros Hat HQ. eapply (wp_hdr_load _ _ _ _ _ 10 2); [exact Hat|done|lia|].
  by rewrite hslice_ck by apply Hat.
Qed.
Lemma wp_load_src w h pre hd post (Q : Z -> world -> Prop) :
  hdr_at w h pre hd post -> Q (le_load (h_src hd)) w -> wp (load32 (src_addr h)) w Q.
Proof.
  intros Hat HQ. eapply (wp_hdr_load _ _ _ _ _ 12 4); [exact Hat|done|lia|].
  by rewrite hslice_src by apply Hat.
Qed.
Lemma wp_load_dst w h pre hd post (Q : Z -> world -> Prop) :
  hdr_at w h pre hd post -> Q (le_load (h_dst hd)) w -> wp (load32 (dst_addr h)) w Q.
Proof.
  intros Hat HQ. eapply (wp_hdr_load _ _ _ _ _ 16 4); [exact Hat|done|lia|].
  by rewrite hslice_dst by apply Hat.
Qed.

(** [w] with the bytes [b] in the block of [h]. *)
Abbreviation put w h b := (upd_mem w (p_blk h) b).

Lemma hdr_at_put w h pre hd post b hd' post' :
  hdr_at w h pre hd post -> b = ip_block pre hd' post' -> hdr_wf hd' ->
  hdr_at (put w h b) h pre hd' post'.
Proof. intros (_ & Ho & _) -> Hwf. split_and!; [apply lookup_upd_mem_eq|done|done]. Qed.

Lemma wp_hdr_store w h pre hd post hd' (o : nat) bs p (Q : unit -> world -> Prop) :
  hdr_at w h pre hd post -> p = ptr_add h (Z.of_nat o) -> (o + length bs <= 20)%nat ->
  splice o bs (ip_bytes hd) = ip_bytes hd' ->
  Q tt (put w h (ip_block pre hd' post)) -> wp (store_bytes p bs) w Q.
Proof.
  intros Hat Hp Ho Hs HQ. pose proof (hdr_at_ptr _ _ _ _ _ Hat) as Hh. destruct Hat as (Hl & _ & Hwf).
  eapply (wp_write_field w _ pre (ip_bytes hd) post h Hl Hh); [exact Hp| |].
  - by rewrite length_ip_bytes.
  - by rewrite Hs.
Qed.

(** Store a field at offset [o] of the header: [lem] is the effect on the header's bytes. *)
Ltac hdr_store o lem :=
  let Hat := fresh "Hat" in
  let HQ := fresh "HQ" in
  intros Hat HQ;
  eapply (wp_hdr_store _ _ _ _ _ _ o);
    [exact Hat|done|rewrite length_le_store; lia|apply lem; solve [done|apply Hat]|exact HQ].

Lemma wp_store_proto w h pre hd post v (Q : unit -> world -> Prop) :
  hdr_at w h pre hd post ->
  Q tt (put w h (ip_block pre (set_proto (u8 v) hd) post)) -> wp (store8 (protocol h) v) w Q.
Proof. hdr_store 9%nat hsplice_proto. Qed.
Lemma wp_store_len w h pre hd post v (Q : unit -> world -> Prop) :
  hdr_at w h pre hd post ->
  Q tt (put w h (ip_block pre (set_len (le_store 2 v) hd) post)) -> wp (store16 (ip_len h) v) w Q.
Proof. hdr_store 2%nat hsplice_len. Qed.
Lemma wp_store_ck w h pre hd post v (Q : unit -> world -> Prop) :
  hdr_at w h pre hd post ->
  Q tt (put w h (ip_block pre (set_ck (le_store 2 v) hd) post)) ->
  wp (store16 (ip_checksum h) v) w Q.
Proof. hdr_store 10%nat hsplice_ck. Qed.
Lemma wp_store_src w h pre hd post v (Q : unit -> world -> Prop) :
  hdr_at w h pre hd post ->
  Q tt (put w h (ip_block pre (set_src (le_store 4 v) hd) post)) ->
  wp (store32 (src_addr h) v) w Q.
Proof. hdr_store 12%nat hsplice_src. Qed.
Lemma wp_store_dst w h pre hd post v (Q : unit -> world -> Prop) :
  hdr_at w h pre hd post ->
  Q tt (put w h (ip_block pre (set_dst (le_store 4 v) hd) post)) ->
  wp (store32 (dst_addr h) v) w Q.
Proof. hdr_store 16%nat hsplice_dst. Qed.

(** ** Checksum and byte order *)

Lemma wp_header_checksum w h pre hd post (Q : Z -> world -> Prop) :
  hdr_at w h pre hd post -> Q (internet_checksum (ip_bytes hd)) w ->
  wp (checksum_at h sizeof_ip_header) w Q.
Proof.
  intros Hat HQ. pose proof (hdr_at_ptr _ _ _ _ _ Hat) as Hh. destruct Hat as (Hl & _ & Hwf).
  pose proof (length_ip_bytes _ Hwf) as Hlen. unfold checksum_at. wp_step.
  eapply (wp_read_field w _ pre (ip_bytes hd) post h Hl Hh 0 20).
  - rewrite Hh. unfold ptr_add. cbn. f_equal. lia.
  - lia.
  - wp_step. unfold slice. by rewrite drop_0, take_ge by lia.
Qed.

Lemma wp_header_check w h pre hd post (Q : bool -> world -> Prop) :
  hdr_at w h pre hd post -> Q (0 =? internet_checksum (ip_bytes hd)) w ->
  wp (ip_header_check h) w Q.
Proof. intros Hat HQ. unfold ip_header_check. wp_step. by eapply wp_header_checksum. Qed.

Definition hdr_swapped (hd : ip_hdr) : ip_hdr :=
  mk_ip_hdr (h_vihl hd) (h_tos hd) (reverse (h_len hd)) (h_index hd) (h_flags hd)
    (h_ttl hd) (h_proto hd) (h_ck hd) (reverse (h_src hd)) (reverse (h_dst hd)).

Lemma swap_bytes_n n x :
  bytes_ok x -> length x = n -> le_store n (bswap n (le_load x)) = reverse x.
Proof. intros Hb Hl. rewrite le_store_bswap. unfold be_store. by rewrite le_store_load_n. Qed.

Lemma hdr_swapped_wf hd : hdr_wf hd -> hdr_wf (hdr_swapped hd).
Proof.
  intros Hwf. destruct (hdr_field_bytes _ Hwf) as (Hl & Hs & Hd & _).
  change (hdr_swapped hd) with
    (set_len (reverse (h_len hd)) (set_dst (reverse (h_dst hd)) (set_src (reverse (h_src hd)) hd))).
  pose proof Hwf as [].
  apply set_len_wf; [by rewrite length_reverse|by apply Forall_reverse|].
  apply set_dst_wf; [by rewrite length_reverse|by apply Forall_reverse|].
  apply set_src_wf; [by rewrite length_reverse|by apply Forall_reverse|done].
Qed.

Lemma wp_header_hton w h pre hd post (Q : unit -> world -> Prop) :
  hdr_at w h pre hd post -> Q tt (put w h (ip_block pre (hdr_swapped hd) post)) ->
  wp (ip_header_hton h) w Q.
Proof.
  intros Hat HQ. pose proof Hat as (_ & _ & Hwf).
  destruct (hdr_field_bytes _ Hwf) as (Hl & Hs & Hd & _). pose proof Hwf as [].
  unfold ip_header_hton, htonl, htons. wp_step. eapply wp_load_src; [exact Hat|].
  wp_step. eapply wp_store_src; [exact Hat|]. rewrite swap_bytes_n by done.
  set (h1 := set_src (reverse (h_src hd)) hd).
  assert (Hwf1 : hdr_wf h1)
    by (apply set_src_wf; [by rewrite length_reverse|by apply Forall_reverse|done]).
  assert (Hat1 : hdr_at (put w h (ip_block pre h1 post)) h pre h1 post)
    by by eapply hdr_at_put.
  wp_step. eapply wp_load_dst; [exact Hat1|]. wp_step. eapply wp_store_dst; [exact Hat1|].
  change (h_dst h1) with (h_dst hd). rewrite swap_bytes_n, upd_mem_upd_mem by done.
  set (h2 := set_dst (reverse (h_dst hd)) h1).
  assert (Hwf2 : hdr_wf h2)
    by (apply set_dst_wf; [by rewrite length_reverse|by apply Forall_reverse|done]).
  assert (Hat2 : hdr_at (put w h (ip_block pre h2 post)) h pre h2 post)
    by by eapply hdr_at_put.
  wp_step. eapply wp_load_len; [exact Hat2|]. eapply wp_store_len; [exact Hat2|].
  change (h_len h2) with (h_len hd). rewrite swap_bytes_n, upd_mem_upd_mem by done. exact HQ.
Qed.

Lemma wp_header_ntoh w h pre hd post (Q : unit -> world -> Prop) :
  hdr_at w h pre hd post -> Q tt (put w h (ip_block pre (hdr_swapped hd) post)) ->
  wp (ip_header_ntoh h) w Q.
Proof. apply wp_header_hton. Qed.

(** The header with its checksum filled in. *)
Definition sealed (hd : ip_hdr) : ip_hdr :=
  set_ck (le_store 2 (internet_checksum (ip_bytes (set_ck (le_store 2 0) hd)))) hd.

Lemma sealed_wf hd : hdr_wf hd -> hdr_wf (sealed hd).
Proof. intros Hwf. unfold sealed. auto with ip. Qed.

Lemma sealed_verifies hd : hdr_wf hd -> internet_checksum (ip_bytes (sealed hd)) = 0.
Proof.
  intros Hwf. pose proof (length_ip_bytes _ Hwf) as Hlen.
  pose proof (checksum_fill 10 (ip_bytes hd) (hw_bytes _ Hwf)) as Hck. cbv zeta in Hck.
  rewrite (hsplice_ck _ _ (length_le_store 2 0) Hwf) in Hck.
  rewrite hsplice_ck in Hck by (auto with ip). apply Hck; [unfold max_count; lia|by exists 5%nat|lia].
Qed.

Lemma wp_update_checksum w h pre hd post (Q : unit -> world -> Prop) :
  hdr_at w h pre hd post -> Q tt (put w h (ip_block pre (sealed hd) post)) ->
  wp (ip_header_update_checksum h) w Q.
Proof.
  intros Hat HQ. pose proof Hat as (_ & _ & Hwf). unfold ip_header_update_checksum.
  wp_step. eapply wp_store_ck; [exact Hat|].
  set (h1 := set_ck (le_store 2 0) hd).
  assert (Hat1 : hdr_at (put w h (ip_block pre h1 post)) h pre h1 post)
    by (eapply hdr_at_put; [done|done|]; subst h1; auto with ip).
  wp_step. eapply wp_header_checksum; [exact Hat1|].
  eapply wp_store_ck; [exact Hat1|]. by rewrite upd_mem_upd_mem.
Qed.

(** ** ip_send_packet *)

Lemma htonl_load x : bytes_ok x -> length x = 4%nat -> htonl (le_load x) = le_load (reverse x).
Proof.
  intros Hb Hl. unfold htonl, bswap, be_store. by rewrite le_store_load_n.
Qed.

Lemma hdr_at_mem w w' h pre hd post :
  w_mem w' !! p_blk h = w_mem w !! p_blk h -> hdr_at w h pre hd post -> hdr_at w' h pre hd post.
Proof. intros Hm (Hl & ? & ?). split; [by rewrite Hm|done]. Qed.

Lemma put_invs mac w A l b :
  net_inv mac w -> arp_inv w A -> ~ owned A w l ->
  net_inv mac (upd_mem w l b) /\ arp_inv (upd_mem w l b) A.
Proof.
  intros Hnet Harp Ho. split.
  - apply net_inv_upd; [done|]. intros ?. apply Ho. by left.
  - apply arp_inv_upd; [done|]. intros ?. apply Ho. by right.
Qed.

(** The frame that [ip_send_packet] makes of a packet in host order. *)
Definition ip_frame (mac dst : list Z) (hd : ip_hdr) (post : list Z) : list Z :=
  eth_frame dst mac ETH_P_IP
    (take (Z.to_nat (le_load (h_len hd))) (ip_bytes (sealed (hdr_swapped hd)) ++ post)).

Lemma wp_ip_send_packet mac w A fi h pre hd post c (Q : unit -> world -> Prop) :
  net_inv mac w -> arp_inv w A -> first_free (w_busy w) = Some fi ->
  hdr_at w h pre hd post -> ~ owned A w (p_blk h) ->
  A !! to_key ARP_IPV4 (le_load (reverse (h_dst hd))) = Some c ->
  le_load (h_len hd) <= 20 + Z.of_nat (length post) ->
  (forall w', net_inv mac w' -> arp_inv w' A ->
    steps A (put w h (ip_block pre (sealed (hdr_swapped hd)) post)) A w' ->
    w_tx w' = w_tx w ++ [(Z.of_nat fi, ip_frame mac (c_mac c) hd post)] -> Q tt w') ->
  wp (ip_send_packet h) w Q.
Proof.
  intros Hnet Harp Hfree Hat Ho Hc Hlen HQ. pose proof Hat as (_ & Hoff & Hwf).
  destruct (hdr_field_bytes _ Hwf) as (Hbl & _ & Hbd & _). pose proof Hwf as [].
  unfold ip_send_packet. wp_step. eapply wp_load_dst; [exact Hat|].
  wp_step. eapply wp_load_len; [exact Hat|].
  wp_step. eapply (wp_arp_resolve mac w A fi); [done|done|done|].
  rewrite htonl_load, Hc by done. unfold debug, debug_only. wp_step. wp_step.
  wp_step. eapply wp_header_hton; [exact Hat|].
  set (h1 := hdr_swapped hd). assert (Hwf1 : hdr_wf h1) by by apply hdr_swapped_wf.
  wp_step. eapply wp_update_checksum; [by eapply hdr_at_put|]. rewrite upd_mem_upd_mem.
  set (h2 := sealed h1). assert (Hwf2 : hdr_wf h2) by by apply sealed_wf.
  set (w2 := put w h (ip_block pre h2 post)).
  destruct (put_invs mac w A (p_blk h) (ip_block pre h2 post) Hnet Harp Ho) as [Hnet2 Harp2].
  fold w2 in Hnet2, Harp2.
  pose proof (le_load_bounds _ Hbl) as Hlb. rewrite hw_len0 in Hlb.
  destruct (ai_val _ _ Harp2 _ _ Hc) as [Hval Hvl].
  assert (Hin : in_block w2 h (le_load (h_len hd)) (ip_block pre h2 post)).
  { split_and!; [apply lookup_upd_mem_eq|lia|lia|]. unfold ip_block.
    rewrite Hoff, !length_app, length_ip_bytes by done. lia. }
  assert (Hpriv : ~ reserved w2 (c_val c)).
  { apply (ai_private _ _ Harp2). eexists _, c. split; [exact Hc|by right]. }
  eapply (wp_net_interface_send mac w2 fi h _ (ip_block pre h2 post) _ (c_mac c));
    [done|done|exact Hin| | | |cbn in *; lia|].
  { split_and!; cbn; [done|lia|lia|lia]. }
  { intros Htx. apply Ho. left. right. by right. }
  { intros Htx. apply Hpriv. right. by right. }
  intros w' Hnet' Hk Htx. apply HQ; [done|by eapply (arp_inv_keeps mac w2)| |].
  - by apply (keeps_steps mac w2).
  - rewrite Htx. unfold ip_frame. do 3 f_equal. unfold eth_frame, bytes_at.
    unfold slice at 1. cbn [p_off]. change (Z.to_nat 0) with 0%nat. rewrite drop_0, take_ge by lia.
    do 3 f_equal. rewrite Hoff, Nat2Z.id. unfold ip_block, slice. by rewrite drop_app_length.
Qed.

Lemma ip_send_packet_unresolved mac w A fi h pre hd post :
  net_inv mac w -> arp_inv w A -> first_free (w_busy w) = Some fi ->
  hdr_at w h pre hd post -> ~ owned A w (p_blk h) ->
  A !! to_key ARP_IPV4 (le_load (reverse (h_dst hd))) = None ->
  exists w', ip_send_packet h w = Exited 1 w' /\ net_inv mac w' /\ arp_inv w' A /\
    steps A w A w' /\ w_tx w' = w_tx w ++ [(Z.of_nat fi,
      request_frame mac (le_store 4 (w_ip w)) (reverse (h_dst hd)))].
Proof.
  intros Hnet Harp Hfree Hat Ho Hc. pose proof Hat as (Hl & Hoff & Hwf).
  destruct (hdr_field_bytes _ Hwf) as (_ & _ & Hbd & _). pose proof Hwf as [].
  unfold ip_send_packet. apply (wp_then _ _ _ (fun o => exists w', o = Exited 1 w' /\ _)).
  eapply wp_load_dst; [exact Hat|].
  apply (wp_then _ _ _ (fun o => exists w', o = Exited 1 w' /\ _)).
  eapply wp_load_len; [exact Hat|].
  apply (wp_then _ _ _ (fun o => exists w', o = Exited 1 w' /\ _)).
  eapply (wp_arp_resolve mac w A fi); [done|done|done|].
  rewrite htonl_load, Hc by done. intros w1 Hnet1 Harp1 Hs Htx.
  rewrite le_store_load_n in Htx by first [by apply Forall_reverse | by rewrite length_reverse].
  destruct (packet_kept _ _ _ _ _ _ Hl Ho Hs) as [Hl1 _].
  assert (Hat1 : hdr_at w1 h pre hd post) by done.
  apply (wp_then _ _ _ (fun o => exists w', o = Exited 1 w' /\ _)). unfold ERROR. wp_quiet idtac.
  apply (wp_then _ _ _ (fun o => exists w', o = Exited 1 w' /\ _)).
  eapply wp_load_dst; [exact Hat1|].
  apply (wp_then _ _ _ (fun o => exists w', o = Exited 1 w' /\ _)). wp_quiet idtac.
  apply (wp_then _ _ _ (fun o => exists w', o = Exited 1 w' /\ _)). wp_quiet idtac.
  eexists. split; [reflexivity|]. split_and!.
  - by apply (net_inv_fields mac w1).
  - eapply arp_inv_frame; [exact Harp1|done|done|]. apply (ai_private _ _ Harp1).
  - eapply steps_trans; [exact Hs|]. by split; auto.
  - exact Htx.
Qed.

End IpFacts.
