(* ===== verification/IpSpec.v ===== *)
(** * The contract of IPv4 output

    The accessors of ip.h, the packet that [ip_send] puts on the wire, and what
    happens to payloads that do not fit. *)

From S2P Require Import Prelude Words Format Checksum HashMap World Wp Tun NetInterface.
From S2P Require Import NetFacts NetSpec Arp ArpFacts ArpSpec Ip IpFacts.
Import Format Checksum World Wp Tun Ethernet NetInterface NetFacts NetSpec Arp ArpFacts ArpSpec
  Ip IpFacts.

Module IpSpec.

(** ** The packed first byte *)

Lemma version_div b : is_byte b -> ip_header_get_version b = b / 16.
Proof.
  intros Hb. unfold is_byte in Hb. unfold ip_header_get_version. change 0xf with (2 ^ 4 - 1).
  rewrite land_mask, Z.shiftr_div_pow2 by lia. change (2 ^ 4) with 16.
  apply Z.mod_small. pose proof (Z.div_pos b 16). pose proof (Z.div_lt_upper_bound b 16 16). lia.
Qed.

Lemma header_length_mod b : ip_header_get_header_length b = b mod 16.
Proof.
  unfold ip_header_get_header_length. change 0xf with (2 ^ 4 - 1). by rewrite land_mask by lia.
Qed.

Lemma packed_byte v n : 0 <= v < 16 -> 0 <= n < 16 ->
  u8 (Z.shiftl v 4 + n) = 16 * v + n /\ (16 * v + n) / 16 = v /\ (16 * v + n) mod 16 = n.
Proof.
  intros Hv Hn. rewrite Z.shiftl_mul_pow2 by lia. change (2 ^ 4) with 16. unfold u8. split_and!.
  - rewrite Z.mod_small; lia.
  - apply (div_of_eq _ n); lia.
  - apply (mod_of_eq _ _ _ v); lia.
Qed.

(** The setters of the packed byte: what is set to a value of four bits is read back,
    the other half of the byte keeps its value, and setting what is there already
    changes nothing. *)
Theorem header_byte_roundtrip b v :
  is_byte b -> 0 <= v < 16 ->
  ip_header_get_version (ip_header_set_version b v) = v /\
  ip_header_get_header_length (ip_header_set_version b v) = ip_header_get_header_length b /\
  ip_header_get_header_length (ip_header_set_header_length b v) = v /\
  ip_header_get_version (ip_header_set_header_length b v) = ip_header_get_version b /\
  ip_header_set_version b (ip_header_get_version b) = b /\
  ip_header_set_header_length b (ip_header_get_header_length b) = b.
Proof.
  intros Hb Hv. unfold ip_header_set_version, ip_header_set_header_length.
  rewrite (version_div b Hb), !header_length_mod. unfold is_byte in *.
  assert (Hq : 0 <= b / 16 < 16).
  { split; [apply Z.div_pos; lia|apply Z.div_lt_upper_bound; lia]. }
  pose proof (Z.mod_pos_bound b 16 ltac:(lia)) as Hr. pose proof (Z.div_mod b 16 ltac:(lia)) as Hdm.
  destruct (packed_byte v (b mod 16)) as (-> & E1 & E2); [lia|lia|].
  destruct (packed_byte (b / 16) v) as (-> & E3 & E4); [lia|lia|].
  destruct (packed_byte (b / 16) (b mod 16)) as (-> & _ & _); [lia|lia|].
  rewrite !version_div by (unfold is_byte; lia). split_and!; lia.
Qed.

Lemma header_byte_roundtrip_witness :
  ip_header_get_version (ip_header_set_version 0x25 4) = 4 /\
  ip_header_set_version 0x25 4 = 0x45.
Proof.
  split; [|vm_compute; reflexivity].
  apply (header_byte_roundtrip 0x25 4); [split; lia|lia].
Defined.

(** A version or header length of more than four bits spills over: [set_version]
    loses it, [set_header_length] adds its upper half to the version. *)
Theorem header_length_spills b n :
  is_byte b -> 16 <= n < 256 ->
  ip_header_get_header_length (ip_header_set_header_length b n) = n mod 16 /\
  ip_header_get_version (ip_header_set_header_length b n) =
    (ip_header_get_version b + n / 16) mod 16 /\
  ip_header_get_version (ip_header_set_version b n) = n mod 16.
Proof.
  intros Hb Hn. unfold ip_header_set_version, ip_header_set_header_length.
  rewrite (version_div b Hb), !header_length_mod. unfold is_byte in *.
  pose proof (Z.mod_pos_bound b 16 ltac:(lia)) as Hr.
  pose proof (Z.mod_pos_bound n 16 ltac:(lia)) as Hr'. pose proof (Z.div_mod n 16 ltac:(lia)) as Hdm'.
  rewrite !Z.shiftl_mul_pow2 by lia. change (2 ^ 4) with 16. unfold u8. change (2 ^ 8) with 256.
  set (q := (b / 16 + n / 16) mod 16).
  assert (Hq : 0 <= q < 16) by (apply Z.mod_pos_bound; lia).
  pose proof (Z.div_mod (b / 16 + n / 16) 16 ltac:(lia)) as Hdq. fold q in Hdq.
  assert (H1 : (b / 16 * 16 + n) mod 256 = 16 * q + n mod 16)
    by (apply (mod_of_eq _ _ _ ((b / 16 + n / 16) / 16)); lia).
  assert (H2 : (n * 16 + b mod 16) mod 256 = 16 * (n mod 16) + b mod 16)
    by (apply (mod_of_eq _ _ _ (n / 16)); lia).
  rewrite H1, H2, !version_div by (unfold is_byte; lia). split_and!.
  - apply (mod_of_eq _ _ _ q); lia.
  - apply (div_of_eq _ (n mod 16)); lia.
  - apply (div_of_eq _ (b mod 16)); lia.
Qed.

Lemma header_length_spills_witness :
  ip_header_get_version (ip_header_set_header_length 0x45 21) = 5.
Proof.
  destruct (header_length_spills 0x45 21) as (_ & H & _); [split; lia|lia|].
  rewrite H. vm_compute. reflexivity.
Defined.

(** ** A fresh packet *)

Definition blank_hdr (n : Z) : ip_hdr :=
  mk_ip_hdr 69 0 (le_store 2 (sizeof_ip_header + n)) [7; 0] [0; 0] 64 0 [0; 0]
    [0; 0; 0; 0] [0; 0; 0; 0].

Lemma hdr_wf_intro v t ln ix fl tt pr ck sr ds :
  Forall is_byte [v; t; tt; pr] -> Forall bytes_ok [ln; ix; fl; ck; sr; ds] ->
  length ln = 2%nat -> length ix = 2%nat -> length fl = 2%nat -> length ck = 2%nat ->
  length sr = 4%nat -> length ds = 4%nat -> hdr_wf (mk_ip_hdr v t ln ix fl tt pr ck sr ds).
Proof.
  intros H1 H2 ? ? ? ? ? ?.
  repeat match goal with H : Forall _ (_ :: _) |- _ => apply Forall_cons_iff in H as [? H] end.
  split; try done. unfold ip_bytes.
  cbn [h_vihl h_tos h_len h_index h_flags h_ttl h_proto h_ck h_src h_dst].
  rewrite !Forall_app, !Forall_cons_iff. by split_and!.
Qed.

(** Well-formedness of a header whose fields are literals or stored words. *)
Ltac hdr_fields :=
  apply hdr_wf_intro;
  rewrite ?length_le_store; try reflexivity;
  repeat first [apply le_store_bytes | apply Forall_nil_2 | apply Forall_cons_2 | assumption
               | (split; lia)].

Lemma blank_hdr_wf n : hdr_wf (blank_hdr n).
Proof. unfold blank_hdr. hdr_fields. Qed.

(** A store into a header that starts its block. *)
Lemma wp_init w0 l hd post hd' (o : nat) bs p (Q : unit -> world -> Prop) :
  hdr_wf hd -> p = ptr_add (Ptr l 0) (Z.of_nat o) -> (o + length bs <= 20)%nat ->
  splice o bs (ip_bytes hd) = ip_bytes hd' ->
  Q tt (upd_mem w0 l (ip_block [] hd' post)) ->
  wp (store_bytes p bs) (upd_mem w0 l (ip_block [] hd post)) Q.
Proof.
  intros Hwf Hp Ho Hs HQ. eapply (wp_hdr_store _ (Ptr l 0) [] hd post hd' o); try done.
  - split_and!; [apply lookup_upd_mem_eq|done|done].
  - cbn [p_blk]. by rewrite upd_mem_upd_mem.
Qed.

(** Store a field: [hd] is the header afterwards. *)
Ltac init hd o :=
  eapply (wp_init _ _ _ _ hd o); [hdr_fields|done|rewrite ?length_le_store; cbn; lia|reflexivity|].

(** The packet of [ip_header_alloc]: every field but the checksum is stored with the
    value that it has from the start, or is zero. *)
Lemma wp_ip_header_alloc w n (Q : ptr -> world -> Prop) :
  0 <= n ->
  (forall l, w_mem w !! l = None ->
    Q (Ptr l 0) (upd_mem w l (ip_block [] (sealed (blank_hdr n)) (replicate (Z.to_nat n) 0)))) ->
  wp (ip_header_alloc n) w Q.
Proof.
  intros Hn HQ. unfold ip_header_alloc, calloc. wp_step. apply wp_alloc_block. intros l Hl.
  specialize (HQ l Hl). set (post := replicate (Z.to_nat n) 0) in *.
  pose proof (blank_hdr_wf n) as Hwf. unfold blank_hdr in Hwf, HQ.
  replace (replicate (Z.to_nat (sizeof_ip_header + n)) 0)
    with (ip_block [] (mk_ip_hdr 0 0 [0; 0] [0; 0] [0; 0] 0 0 [0; 0] [0; 0; 0; 0] [0; 0; 0; 0]) post).
  2:{ unfold sizeof_ip_header. rewrite Z2Nat.inj_add, replicate_add by lia. reflexivity. }
  unfold store8, store16, store32.
  pose proof (length_le_store 2 (sizeof_ip_header + n)) as Hx.
  generalize dependent (le_store 2 (sizeof_ip_header + n)). intros x HQ Hwf Hx. explode x.
  assert (Hbb : bytes_ok [b; b0]) by apply (hdr_field_bytes _ Hwf).
  apply Forall_cons_iff in Hbb as [Hb Hbb]. apply Forall_cons_iff in Hbb as [Hb0 _].
  set (z := [0; 0; 0; 0]) in *.
  wp_step. init (mk_ip_hdr 69 0 [0; 0] [0; 0] [0; 0] 0 0 [0; 0] z z) 0%nat.
  wp_step. init (mk_ip_hdr 69 0 [0; 0] [0; 0] [0; 0] 0 0 [0; 0] z z) 1%nat.
  wp_step. init (mk_ip_hdr 69 0 [b; b0] [0; 0] [0; 0] 0 0 [0; 0] z z) 2%nat.
  wp_step. init (mk_ip_hdr 69 0 [b; b0] [7; 0] [0; 0] 0 0 [0; 0] z z) 4%nat.
  wp_step. init (mk_ip_hdr 69 0 [b; b0] [7; 0] [0; 0] 0 0 [0; 0] z z) 6%nat.
  wp_step. init (mk_ip_hdr 69 0 [b; b0] [7; 0] [0; 0] 64 0 [0; 0] z z) 8%nat.
  wp_step. init (mk_ip_hdr 69 0 [b; b0] [7; 0] [0; 0] 64 0 [0; 0] z z) 9%nat.
  wp_step. init (mk_ip_hdr 69 0 [b; b0] [7; 0] [0; 0] 64 0 [0; 0] z z) 10%nat.
  wp_step. init (mk_ip_hdr 69 0 [b; b0] [7; 0] [0; 0] 64 0 [0; 0] z z) 12%nat.
  wp_step. init (mk_ip_hdr 69 0 [b; b0] [7; 0] [0; 0] 64 0 [0; 0] z z) 16%nat.
  assert (Hat : hdr_at (upd_mem w l (ip_block [] (mk_ip_hdr 69 0 [b; b0] [7; 0] [0; 0] 64 0 [0; 0] z z) post))
    (Ptr l 0) [] (mk_ip_hdr 69 0 [b; b0] [7; 0] [0; 0] 64 0 [0; 0] z z) post)
    by (split_and!; [apply lookup_upd_mem_eq|done|done]).
  wp_step. eapply wp_header_checksum; [exact Hat|].
  wp_step. eapply wp_store_ck; [exact Hat|]. cbn [p_blk]. rewrite upd_mem_upd_mem. wp_step. exact HQ.
Qed.

(** ** ip_send *)

(** The header of [ip_send], in host order, for an address [ip] of the interface in
    network order and [n] bytes of payload. *)
Definition send_hdr (ip dst n proto : Z) : ip_hdr :=
  set_dst (le_store 4 dst) (set_src (le_store 4 (ntohl ip))
    (set_proto (u8 proto) (sealed (blank_hdr n)))).

Lemma send_hdr_wf ip dst n proto : hdr_wf (send_hdr ip dst n proto).
Proof.
  unfold send_hdr. apply set_dst_wf; [apply length_le_store|apply le_store_bytes|].
  apply set_src_wf; [apply length_le_store|apply le_store_bytes|].
  apply set_proto_wf, sealed_wf, blank_hdr_wf.
Qed.

(** What is left of [ip_send] once the header is filled in. *)
Definition send_rest (h payload : ptr) (len : Z) : M unit :=
  memcpy (ip_payload h) payload len;; ip_send_packet h;; free_ (Some h).

Lemma ip_send_prefix w dst payload len proto :
  0 <= len ->
  exists l, w_mem w !! l = None /\
    ip_send dst payload len proto w =
    send_rest (Ptr l 0) payload len (upd_mem w l
      (ip_block [] (send_hdr (w_ip w) dst (u16 len) proto) (replicate (Z.to_nat (u16 len)) 0))).
Proof.
  intros Hlen. set (n := u16 len). assert (Hn : 0 <= n) by (apply Z.mod_pos_bound; lia).
  set (P := fun o : outcome unit => exists l, w_mem w !! l = None /\ o =
    send_rest (Ptr l 0) payload len (upd_mem w l
      (ip_block [] (send_hdr (w_ip w) dst n proto) (replicate (Z.to_nat n) 0)))).
  change (P (ip_send dst payload len proto w)). unfold ip_send. fold n.
  apply wp_then. apply wp_ip_header_alloc; [done|]. intros l Hl. set (post := replicate _ 0).
  assert (Hat : forall hd, hdr_wf hd ->
    hdr_at (upd_mem w l (ip_block [] hd post)) (Ptr l 0) [] hd post)
    by (intros hd Hwf; split_and!; [apply lookup_upd_mem_eq|done|done]).
  pose proof (sealed_wf _ (blank_hdr_wf n)) as Hwf. pose proof (set_proto_wf proto _ Hwf) as Hwf1.
  pose proof (set_src_wf _ _ (length_le_store 4 (ntohl (w_ip w))) (le_store_bytes _ _) Hwf1) as Hwf2.
  apply wp_then. eapply (wp_store_proto _ _ _ _ _ _ _ (Hat _ Hwf)). rewrite upd_mem_upd_mem.
  apply wp_then. apply wp_get.
  apply wp_then. eapply (wp_store_src _ _ _ _ _ _ _ (Hat _ Hwf1)). rewrite upd_mem_upd_mem.
  apply wp_then. eapply (wp_store_dst _ _ _ _ _ _ _ (Hat _ Hwf2)). rewrite upd_mem_upd_mem.
  by exists l.
Qed.

(** The datagram of a payload [data]: RFC 791, addresses in network order. *)
Definition ipv4_header (src dst : list Z) (proto len : Z) (ck : list Z) : list Z :=
  [0x45; 0] ++ be_store 2 len ++ [7; 0] ++ [0; 0] ++ [64; proto] ++ ck ++ src ++ dst.
Definition ipv4_packet (src dst : list Z) (proto : Z) (data : list Z) : list Z :=
  let len := 20 + Z.of_nat (length data) in
  ipv4_header src dst proto len
    (le_store 2 (internet_checksum (ipv4_header src dst proto len [0; 0]))) ++ data.

Lemma send_hdr_packet ip dst proto data :
  ip_bytes (sealed (hdr_swapped (send_hdr ip dst (Z.of_nat (length data)) proto))) ++ data =
  ipv4_packet (le_store 4 ip) (be_store 4 dst) (u8 proto) data.
Proof.
  unfold ipv4_packet, ipv4_header, sealed, send_hdr, hdr_swapped, blank_hdr, ip_bytes, set_ck.
  cbn [h_vihl h_tos h_len h_index h_flags h_ttl h_proto h_ck h_src h_dst set_dst set_src set_proto].
  unfold ntohl. rewrite le_store_bswap. unfold be_store. rewrite reverse_involutive. reflexivity.
Qed.

Lemma length_ipv4_packet ip dst proto data :
  length (ipv4_packet (le_store 4 ip) (be_store 4 dst) proto data) = (20 + length data)%nat.
Proof.
  unfold ipv4_packet, ipv4_header.
  rewrite !length_app, !length_le_store, !length_be_store. cbn. lia.
Qed.

(** A block of the callers's own, allocated before and freed after [w2] was reached. *)
Lemma freed_invs mac w A l b w2 :
  net_inv mac w -> arp_inv w A -> w_mem w !! l = None ->
  net_inv mac w2 -> arp_inv w2 A -> steps A (upd_mem w l b) A w2 ->
  let w3 := set_mem (delete l (w_mem w2)) w2 in
  w_mem w2 !! l = Some b -> net_inv mac w3 /\ arp_inv w3 A /\ steps A w A w3.
Proof.
  intros Hnet Harp Hl Hnet2 Harp2 Hs w3 Hl2.
  assert (Hno : ~ owned A (upd_mem w l b) l).
  { intros [Hr|Ha]; [by apply (fresh_not_reserved mac w l)|by apply (fresh_not_arp w A l)]. }
  destruct (packet_kept A (upd_mem w l b) A w2 l b) as [_ Hno2];
    [apply lookup_upd_mem_eq|done|done|]. subst w3. split_and!.
  - apply net_inv_other; [done|]. intros l' Hr. rewrite lookup_delete_ne; [done|].
    intros ->. apply Hno2. by left.
  - eapply arp_inv_frame; [exact Harp2|done| |].
    + intros l' Ha. apply lookup_delete_ne. intros ->. apply Hno2. by right.
    + intros l'. apply (ai_private _ _ Harp2).
  - by eapply steps_freed.
Qed.

Lemma send_rest_run mac w A fi l hd payload b c :
  let n := le_load (h_len hd) in
  net_inv mac w -> arp_inv w A -> first_free (w_busy w) = Some fi -> hdr_wf hd ->
  w_mem w !! l = None ->
  A !! to_key ARP_IPV4 (le_load (reverse (h_dst hd))) = Some c ->
  forall len, in_block w payload len b -> n <= 20 + len ->
  wp (send_rest (Ptr l 0) payload len)
    (upd_mem w l (ip_block [] hd (replicate (Z.to_nat len) 0))) (fun _ w' =>
      net_inv mac w' /\ arp_inv w' A /\ steps A w A w' /\
      w_tx w' = w_tx w ++ [(Z.of_nat fi, ip_frame mac (c_mac c) hd (bytes_at b payload len))]).
Proof.
  intros n Hnet Harp Hfree Hwf Hl Hc len Hin Hn. pose proof Hin as (Hpl & _ & Hlen & _).
  set (data := bytes_at b payload len).
  assert (Hld : length data = Z.to_nat len) by by eapply length_bytes_at.
  set (w1 := upd_mem w l _). set (w2 := upd_mem w l (ip_block [] hd data)).
  assert (Hno : ~ owned A w l).
  { intros [Hr|Ha]; [by apply (fresh_not_reserved mac w l)|by apply (fresh_not_arp w A l)]. }
  destruct (put_invs mac w A l (ip_block [] hd data) Hnet Harp Hno) as [Hnet2 Harp2].
  fold w2 in Hnet2, Harp2.
  assert (Hne : p_blk payload <> l) by congruence.
  unfold send_rest. wp_step. subst w1.
  eapply (wp_memcpy _ _ _ b (ip_block [] hd (replicate (Z.to_nat len) 0))).
  { by apply in_block_upd. }
  { split_and!; [apply lookup_upd_mem_eq|done|done|]. unfold ip_block, ip_payload, ptr_add.
    cbn [p_off]. rewrite !length_app, length_ip_bytes, length_replicate by done. cbn. lia. }
  assert (Hcopy : splice (Z.to_nat (p_off (ip_payload (Ptr l 0)))) data
      (ip_block [] hd (replicate (Z.to_nat len) 0)) = ip_block [] hd data).
  { unfold ip_block. cbn [app]. change (Z.to_nat (p_off (ip_payload (Ptr l 0)))) with 20%nat.
    pose proof (length_ip_bytes hd Hwf) as H20. unfold splice. rewrite Hld.
    rewrite take_app_le, take_ge, drop_ge, app_nil_r by (rewrite ?length_app, ?length_replicate; lia).
    done. }
  fold (bytes_at b payload len). fold data. rewrite Hcopy, upd_mem_upd_mem. cbn [p_blk ip_payload ptr_add].
  fold w2. wp_step.
  eapply (wp_ip_send_packet mac w2 A fi (Ptr l 0) [] hd data c); try done.
  { split_and!; [apply lookup_upd_mem_eq|done|done]. }
  { fold n. lia. }
  intros w3 Hnet3 Harp3 Hs3 Htx3. subst w2. rewrite upd_mem_upd_mem in Hs3. cbn [p_blk] in Hs3.
  set (b3 := ip_block [] _ data) in Hs3.
  destruct (packet_kept A (upd_mem w l b3) A w3 l b3) as [Hl3 _];
    [apply lookup_upd_mem_eq|done|done|].
  eapply wp_free; [exact Hl3|].
  destruct (freed_invs mac w A l b3 w3) as (H1 & H2 & H3); done.
Qed.

(** C11 [ip_send] of a payload of at most 65515 bytes to a host in the ARP cache returns
    after it sent exactly one frame to the cached address, on the first free queue: an
    IPv4 datagram of RFC 791 with the payload bit for bit, the two addresses in network
    order, the full length and a checksum that verifies.  The packet it allocated is
    freed, nothing else changes. *)
Theorem ip_send_correct (mac : list Z) (w : world) (A : gmap Z cell) (T : table) (fi : nat)
    (dst : Z) (payload : ptr) (len proto : Z) (b sha : list Z) :
  net_inv mac w -> arp_inv w A -> represents A T -> first_free (w_busy w) = Some fi ->
  in_block w payload len b -> len <= 65515 -> T !! (ARP_IPV4, be_store 4 dst) = Some sha ->
  let packet := ipv4_packet (le_store 4 (w_ip w)) (be_store 4 dst) (u8 proto)
    (bytes_at b payload len) in
  exists w', ip_send dst payload len proto w = Ok tt w' /\
    net_inv mac w' /\ arp_inv w' A /\ steps A w A w' /\
    w_tx w' = w_tx w ++ [(Z.of_nat fi, eth_frame sha mac ETH_P_IP packet)] /\
    internet_checksum (take 20 packet) = 0.
Proof.
  intros Hnet Harp Hrep Hfree Hin Hmax HT packet. pose proof Hin as (_ & _ & Hlen & _).
  destruct (ip_send_prefix w dst payload len proto Hlen) as (l & Hl & Hrun). rewrite Hrun.
  replace (u16 len) with len by (unfold u16; rewrite Z.mod_small; lia).
  rewrite Hrep in HT by (apply be_store_bytes || apply length_be_store || (unfold ARP_IPV4; lia)).
  destruct (A !! _) as [c|] eqn:HA; [|done]. injection HT as <-.
  set (hd := send_hdr (w_ip w) dst len proto).
  pose proof (send_hdr_wf (w_ip w) dst len proto) as Hwf. fold hd in Hwf.
  assert (Hn : le_load (h_len hd) = 20 + len).
  { change (h_len hd) with (le_store 2 (sizeof_ip_header + len)). rewrite le_load_store.
    unfold sizeof_ip_header. apply Z.mod_small. lia. }
  pose proof (length_bytes_at _ _ _ _ Hin) as Hld.
  assert (Hpk : ip_bytes (sealed (hdr_swapped hd)) ++ bytes_at b payload len = packet).
  { subst hd packet. rewrite <- send_hdr_packet, Hld, Z2Nat.id by done. done. }
  destruct (wp_run _ _ _ (send_rest_run mac w A fi l hd payload b c Hnet Harp Hfree Hwf Hl HA len Hin
    ltac:(lia))) as ([] & w' & Hw' & H1 & H2 & H3 & H4).
  exists w'. split_and!; try done.
  - rewrite H4. unfold ip_frame. rewrite Hpk, Hn, take_ge; [done|].
    subst packet. rewrite length_ipv4_packet, Hld. lia.
  - rewrite <- Hpk. rewrite take_app_le, take_ge;
      [apply sealed_verifies; by apply hdr_swapped_wf| |];
      rewrite length_ip_bytes by (by apply sealed_wf, hdr_swapped_wf); lia.
Qed.

(** From 65516 to 65535 bytes of payload the 16-bit length of the header wraps: the
    frame that [ip_send] puts on the wire ends [len - 65516] bytes into the IPv4 header
    itself, and no byte of the payload is sent. *)
Theorem ip_send_length_wraps (mac : list Z) (w : world) (A : gmap Z cell) (T : table) (fi : nat)
    (dst : Z) (payload : ptr) (len proto : Z) (b sha : list Z) :
  net_inv mac w -> arp_inv w A -> represents A T -> first_free (w_busy w) = Some fi ->
  in_block w payload len b -> 65516 <= len <= 65535 -> T !! (ARP_IPV4, be_store 4 dst) = Some sha ->
  exists w' frame, ip_send dst payload len proto w = Ok tt w' /\
    w_tx w' = w_tx w ++ [(Z.of_nat fi, frame)] /\ length sha = 6%nat /\
    Z.of_nat (length frame) = 14 + (len - 65516) /\ len - 65516 < 20.
Proof.
  intros Hnet Harp Hrep Hfree Hin Hmax HT. pose proof Hin as (_ & _ & Hlen & _).
  destruct (ip_send_prefix w dst payload len proto Hlen) as (l & Hl & Hrun). rewrite Hrun.
  replace (u16 len) with len by (unfold u16; rewrite Z.mod_small; lia).
  rewrite Hrep in HT by (apply be_store_bytes || apply length_be_store || (unfold ARP_IPV4; lia)).
  destruct (A !! _) as [c|] eqn:HA; [|done]. injection HT as <-.
  set (hd := send_hdr (w_ip w) dst len proto).
  pose proof (send_hdr_wf (w_ip w) dst len proto) as Hwf. fold hd in Hwf.
  assert (Hn : le_load (h_len hd) = len - 65516).
  { change (h_len hd) with (le_store 2 (sizeof_ip_header + len)). rewrite le_load_store.
    unfold sizeof_ip_header. apply (mod_of_eq _ _ _ 1); lia. }
  destruct (wp_run _ _ _ (send_rest_run mac w A fi l hd payload b c Hnet Harp Hfree Hwf Hl HA len Hin
    ltac:(lia))) as ([] & w' & Hw' & _ & _ & _ & H4).
  destruct (ai_val _ _ Harp _ _ HA) as [_ Hsha]. destruct (ni_mac _ _ Hnet) as (_ & Hmac & _).
  eexists w', _. split_and!; [exact Hw'|exact H4|done| |lia].
  unfold ip_frame, eth_frame. rewrite Hn, !length_app, length_be_store, length_take, length_app,
    length_ip_bytes by (by apply sealed_wf, hdr_swapped_wf). lia.
Qed.

(** C37 For a payload of 65536 bytes or more [ip_send] allocates room for the length cut
    to 16 bits, and then copies the whole payload over the end of the block. *)
Theorem ip_send_overflows w dst payload len proto b :
  in_block w payload len b -> 65536 <= len -> ip_send dst payload len proto w = Undefined OutOfBounds.
Proof.
  intros Hin Hlen. destruct (ip_send_prefix w dst payload len proto) as (l & Hl & Hrun); [lia|].
  rewrite Hrun. unfold send_rest. set (hd := send_hdr _ _ _ _). set (n := u16 len) in *.
  assert (Hn : 0 <= n < 65536) by (apply Z.mod_pos_bound; lia).
  assert (Hwf : hdr_wf hd) by apply send_hdr_wf.
  set (w1 := upd_mem w l _).
  assert (Hcp : memcpy (ip_payload (Ptr l 0)) payload len w1 = Undefined OutOfBounds).
  { unfold memcpy. apply (wp_then _ _ _ (fun o => o = Undefined OutOfBounds)).
    destruct Hin as (Hb & H1 & H2 & H3).
    eapply (wp_load_bytes _ _ b);
      [by apply in_block_upd; [|intros Heq; rewrite <- Heq, Hb in Hl]|].
    unfold store_bytes, ip_payload, ptr_add. cbn [p_blk p_off]. subst w1.
    rewrite lookup_upd_mem_eq. rewrite (length_slice _ _ b) by lia. rewrite (Z2Nat.id len) by lia.
    unfold ip_block. rewrite !length_app, length_ip_bytes, length_replicate by done. cbn [length].
    destruct (Z.leb_spec (0 + 20 + len) (Z.of_nat (0 + (20 + (Z.to_nat n))))); [lia|done]. }
  unfold mbind at 1, M_bind. by rewrite Hcp.
Qed.

(** ** Witnesses: a thread that knows 10.0.0.9 *)

Definition known_world (data : list Z) : world :=
  upd_mem (set_cache (CacheMap empty_cache) payload_world) 3%positive data.

Lemma known_host data :
  exists w A T, net_inv [2; 0; 0; 0; 0; 1] w /\ arp_inv w A /\ represents A T /\
    first_free (w_busy w) = Some O /\ T !! (ARP_IPV4, [10; 0; 0; 9]) = Some [2; 0; 0; 0; 0; 9] /\
    w_mem w !! 3%positive = Some data /\ w_ip w = 67108874 /\ w_tx w = [].
Proof.
  set (w0 := set_cache (CacheMap empty_cache) payload_world).
  assert (Hnet0 : net_inv [2; 0; 0; 0; 0; 1] w0)
    by by apply (net_inv_fields _ payload_world), payload_inv.
  assert (Harp0 : arp_inv w0 ∅) by by eapply empty_cache_inv, payload_inv.
  assert (Hno : forall l, l <> mac_loc -> l <> broadcast_loc -> ~ owned ∅ w0 l).
  { intros l H1 H2 [[|[|Htx]]|(i & c & Hi & _)]; try done. by apply (payload_no_tx l). }
  destruct (put_invs _ w0 ∅ 3%positive data Hnet0 Harp0) as [Hnet Harp]; [by apply Hno|].
  fold (known_world data) in Hnet, Harp.
  pose (T := <[(ARP_IPV4, [10; 0; 0; 9]) := [2; 0; 0; 0; 0; 9]]> (∅ : table)).
  destruct (wp_run (add_to_arp_cache ARP_IPV4 (le_load [10; 0; 0; 9]) (Ptr 4 0)) (known_world data)
    (fun _ w => exists A, net_inv [2; 0; 0; 0; 0; 1] w /\ arp_inv w A /\ represents A T /\
      steps ∅ (known_world data) A w /\ w_tx w = [])) as ([] & w & _ & A & H1 & H2 & H3 & H4 & H5).
  { eapply (wp_add_to_arp_cache _ _ ∅ _ _ _ [2; 0; 0; 0; 0; 9]); [exact Hnet|exact Harp|done| |].
    - split_and!; cbn; [reflexivity|lia|lia|lia].
    - intros w lk lv A' H1 H2 H3 H4. exists A'. split_and!; try done.
      apply (represents_insert ∅ ∅ ARP_IPV4 [10; 0; 0; 9] (mk_cell lk lv [2; 0; 0; 0; 0; 9]));
        [by intros ? ? ? ? ?|unfold ARP_IPV4; lia|repeat constructor; done|done]. }
  exists w, A, T. split_and!; try done.
  - by rewrite (s_busy _ _ _ _ H4).
  - apply (s_mem _ _ _ _ H4); [apply lookup_upd_mem_eq|]. by apply (Hno 3%positive).
  - by rewrite (s_ip _ _ _ _ H4).
Qed.

Lemma ip_send_correct_witness :
  exists w w', ip_send 0x0a000009 (Ptr 3 0) 2 17 w = Ok tt w' /\
    w_tx w' = [(0, [2; 0; 0; 0; 0; 9; 2; 0; 0; 0; 0; 1; 8; 0;
      0x45; 0; 0; 22; 7; 0; 0; 0; 64; 17; 95; 203; 10; 0; 0; 4; 10; 0; 0; 9; 0xaa; 0xbb])].
Proof.
  destruct (known_host [0xaa; 0xbb; 0xcc]) as (w & A & T & H1 & H2 & H3 & H4 & H5 & H6 & H7 & H8).
  destruct (ip_send_correct [2; 0; 0; 0; 0; 1] w A T 0 0x0a000009 (Ptr 3 0) 2 17 [0xaa; 0xbb; 0xcc]
    [2; 0; 0; 0; 0; 9] H1 H2 H3 H4) as (w' & Hrun & _ & _ & _ & Htx & _).
  - split_and!; cbn; [exact H6|lia|lia|lia].
  - lia.
  - exact H5.
  - exists w, w'. split; [exact Hrun|]. rewrite Htx, H7, H8. vm_compute. reflexivity.
Defined.

Lemma ip_send_length_wraps_witness :
  exists w w' frame, ip_send 0x0a000009 (Ptr 3 0) 65516 17 w = Ok tt w' /\
    w_tx w' = [(0, frame)] /\ Z.of_nat (length frame) = 14.
Proof.
  destruct (known_host (replicate (Z.to_nat 65516) 7)) as (w & A & T & H1 & H2 & H3 & H4 & H5 & H6 & H7 & H8).
  destruct (ip_send_length_wraps [2; 0; 0; 0; 0; 1] w A T 0 0x0a000009 (Ptr 3 0) 65516 17
    (replicate (Z.to_nat 65516) 7) [2; 0; 0; 0; 0; 9] H1 H2 H3 H4)
    as (w' & frame & Hrun & Htx & _ & Hl & _).
  - split_and!; cbn [p_blk p_off]; [exact H6|lia|lia|]. rewrite length_replicate. lia.
  - lia.
  - exact H5.
  - exists w, w', frame. rewrite H8 in Htx. split_and!; done.
Defined.

Lemma ip_send_overflows_witness :
  ip_send 0x0a000009 (Ptr 3 0) 65536 17 (known_world (replicate (Z.to_nat 65536) 7)) =
    Undefined OutOfBounds.
Proof.
  apply (ip_send_overflows _ _ _ _ _ (replicate (Z.to_nat 65536) 7)); [|lia].
  split_and!; cbn [p_blk p_off]; [apply lookup_upd_mem_eq|lia|lia|]. rewrite length_replicate. lia.
Defined.

End IpSpec.
