(* ===== verification/Icmp.v ===== *)
(** * ICMP (src/src/protocols/icmp.c) *)

From S2P Require Import Prelude Words Format Checksum HashMap World NetInterface Ip.
Import Format Checksum World NetInterface Ip.

Module Icmp.

(** [DEBUG] of icmp.c. *)
Definition debug : bool := false.

(** [struct icmp_v4]; [struct icmp_v4_echo] follows in [data]. *)
Definition sizeof_icmp_v4 : Z := 4.
Definition sizeof_icmp_v4_echo : Z := 4.
Definition icmp_type (h : ptr) : ptr := h.
Definition icmp_code (h : ptr) : ptr := ptr_add h 1.
Definition icmp_checksum (h : ptr) : ptr := ptr_add h 2.
Definition icmp_data (h : ptr) : ptr := ptr_add h 4.
Definition echo_id (e : ptr) : ptr := e.
Definition echo_seq (e : ptr) : ptr := ptr_add e 2.

Definition ICMP_ECHO_REPLY : Z := 0.
Definition ICMP_ECHO_REQUEST : Z := 8.
Definition ICMP_DESTINATION_UNREACHABLE : Z := 3.

Definition icmp_fprint (h : ptr) (len : Z) : M string :=
  t ← load8 (icmp_type h);
  c ← load8 (icmp_code h);
  k ← load16 (icmp_checksum h);
  mret ("ICMPv4 header [type=" +:+ fmt_u t +:+ ", code=" +:+ fmt_u c +:+ ", checksum=" +:+
        fmt_u k +:+ ", length=" +:+ fmt_lu (len - sizeof_icmp_v4) +:+ "(" +:+ fmt_u len +:+ ")]").

Definition icmp_check (h : ptr) (len : Z) : M bool :=
  c ← checksum_at h len; mret (0 =? c).

Definition receive_echo_request (ip_header header : ptr) : M unit :=
  plen ← ip_header_get_payload_length ip_header;
  let len := u32 plen in
  store8 (icmp_type header) ICMP_ECHO_REPLY;;
  store16 (icmp_checksum header) 0;;
  c ← checksum_at header len;
  store16 (icmp_checksum header) c;;
  debug_only debug (
    LOG_DEBUG debug "[ICMPv4] Sent ";;
    s ← icmp_fprint header len;
    printf s;;
    id ← load16 (echo_id (icmp_data header));
    seq ← load16 (echo_seq (icmp_data header));
    printf (" ECHO (id=" +:+ fmt_u (ntohs id) +:+ ", seq=" +:+ fmt_u (ntohs seq) +:+
            ", length=" +:+ fmt_lu (len - sizeof_icmp_v4 - sizeof_icmp_v4_echo) +:+ "(" +:+
            fmt_lu (len - sizeof_icmp_v4) +:+ "))");;
    printf "
");;
  s ← load32 (src_addr ip_header);
  store32 (dst_addr ip_header) s;;
  ip ← net_interface_get_ip;
  store32 (src_addr ip_header) (ntohl ip);;
  ip_send_packet ip_header.

Definition icmp_receive (ip_header : ptr) : M unit :=
  let header := ip_payload ip_header in
  plen ← ip_header_get_payload_length ip_header;
  ok ← icmp_check header (u32 plen);
  if negb ok then
    ERROR "ICMPv4: Invalid packet checksum
"
  else
    debug_only debug (
      LOG_DEBUG debug "[ICMPv4] Received ";;
      plen ← ip_header_get_payload_length ip_header;
      s ← icmp_fprint header (u32 plen);
      printf s;;
      printf "
");;
    t ← load8 (icmp_type header);
    if t =? ICMP_ECHO_REPLY then
      ERROR "ICMPv4: Unsupported message type: ECHO reply
"
    else if t =? ICMP_ECHO_REQUEST then
      LOG_DEBUG debug "[ICMPv4] Received ECHO request.
";;
      receive_echo_request ip_header header
    else if t =? ICMP_DESTINATION_UNREACHABLE then
      ERROR "ICMPv4: Unsupported message type: destination unreachable
"
    else
      t ← load8 (icmp_type header);
      ERROR ("ICMPv4: Unsupported message type " +:+ fmt_u t +:+ "
").

End Icmp.
