(* ===== verification/Transport.v ===== *)
(** * TCP (src/src/protocols/tcp.h, tcp.c) and UDP (udp.h, udp.c) *)

From S2P Require Import Prelude Words Format Checksum HashMap World NetInterface Ip.
Import Format Checksum World NetInterface Ip.

Module Tcp.

(** [DEBUG] of tcp.c. *)
Definition debug : bool := true.

Definition TCP_CONTROL_FIN : Z := 1.
Definition TCP_CONTROL_SYN : Z := 32.
Definition TCP_CONTROL_RST : Z := 4.
Definition TCP_CONTROL_PSH : Z := 8.
Definition TCP_CONTROL_ACK : Z := 16.
Definition TCP_CONTROL_URG : Z := 2.

(** [struct tcp_header] *)
Definition sizeof_tcp_header : Z := 24.
Definition tcp_src_port (h : ptr) : ptr := h.
Definition tcp_dst_port (h : ptr) : ptr := ptr_add h 2.
Definition seq_num (h : ptr) : ptr := ptr_add h 4.
Definition ack_num (h : ptr) : ptr := ptr_add h 8.
Definition tcp_reserved (h : ptr) : ptr := ptr_add h 12.
Definition window (h : ptr) : ptr := ptr_add h 14.
Definition tcp_checksum (h : ptr) : ptr := ptr_add h 16.
Definition urgent_ptr (h : ptr) : ptr := ptr_add h 18.
Definition options_and_padding (h : ptr) : ptr := ptr_add h 20.
Definition tcp_header_payload (h : ptr) : ptr := ptr_add h sizeof_tcp_header.

(** Of the word [r = reserved]. *)
Definition tcp_header_get_data_offset (r : Z) : Z := Z.land (Z.shiftr r 12) 0xf.
Definition tcp_header_get_control_bits (r : Z) : Z := Z.land r 63.

Definition tcp_header_fprint (h : ptr) : M string :=
  sp ← load16 (tcp_src_port h);
  dp ← load16 (tcp_dst_port h);
  sq ← load32 (seq_num h);
  ak ← load32 (ack_num h);
  r ← load16 (tcp_reserved h);
  wd ← load16 (window h);
  ck ← load16 (tcp_checksum h);
  up ← load16 (urgent_ptr h);
  op ← load32 (options_and_padding h);
  mret ("TCP header [src_port=" +:+ fmt_u sp +:+ ", dst_port=" +:+ fmt_u dp +:+
        ", seq_num=" +:+ fmt_u sq +:+ ", ack_num=" +:+ fmt_u ak +:+
        ", data_offset=" +:+ fmt_u (Z.land (Z.shiftr r 12) 0xf) +:+
        ", reserved=" +:+ fmt_u (Z.land (Z.shiftr r 6) 63) +:+
        ", control_bits=" +:+ fmt_u (Z.land r 63) +:+ ", window=" +:+ fmt_u wd +:+
        ", checksum=" +:+ fmt_u ck +:+ ", urgent_ptr=" +:+ fmt_u up +:+
        ", options=" +:+ fmt_u (Z.shiftr op 8) +:+ "]").

(** The [uint32_t] that [tcp_header_check] sums: [seg] is [sum16] of the segment,
    [len] its length, [src] and [dst] the addresses in host order. *)
Definition tcp_sum (seg len src dst : Z) : Z :=
  u32 (u32 (seg + htons (u16 len) + htons PROTOCOL_TCP + htonl src) + htonl dst).

Definition tcp_header_check (ip_header header : ptr) : M bool :=
  plen ← ip_header_get_payload_length ip_header;
  let len := u32 plen in
  seg ← sum16_at header len;
  src ← load32 (src_addr ip_header);
  dst ← load32 (dst_addr ip_header);
  mret (internet_checksum (le_store 4 (tcp_sum seg len src dst)) =? 0).

(** [htons] and [ntohs] take a [uint16_t]: the 32-bit fields are cut. *)
Definition tcp_header_ntoh (h : ptr) : M unit :=
  sq ← load32 (seq_num h); store32 (seq_num h) (ntohs (u16 sq));;
  ak ← load32 (ack_num h); store32 (ack_num h) (ntohs (u16 ak));;
  dp ← load16 (tcp_dst_port h); store16 (tcp_dst_port h) (ntohs dp);;
  sp ← load16 (tcp_src_port h); store16 (tcp_src_port h) (ntohs sp).

Definition tcp_header_hton (h : ptr) : M unit :=
  sq ← load32 (seq_num h); store32 (seq_num h) (htons (u16 sq));;
  ak ← load32 (ack_num h); store32 (ack_num h) (htons (u16 ak));;
  dp ← load16 (tcp_dst_port h); store16 (tcp_dst_port h) (htons dp);;
  sp ← load16 (tcp_src_port h); store16 (tcp_src_port h) (htons sp).

Definition tcp_receive (ip_header : ptr) : M unit :=
  let header := ip_payload ip_header in
  ok ← tcp_header_check ip_header header;
  if negb ok then
    ERROR "TCP: Invalid checksum for packet : ";;
    s ← tcp_header_fprint header;
    eprintf s;;
    eprintf "
"
  else
    tcp_header_ntoh header;;
    debug_only debug (
      LOG_DEBUG debug "[TCP] Received ";;
      s ← tcp_header_fprint header;
      printf s;;
      printf "
");;
    r ← load16 (tcp_reserved header);
    if tcp_header_get_control_bits r =? TCP_CONTROL_SYN then
      LOG_DEBUG debug "[TCP] SYN attempt recorded.
"
    else mret tt.

End Tcp.

Module Udp.

(** [DEBUG] of udp.c. *)
Definition debug : bool := true.

(** [struct udp_header] *)
Definition sizeof_udp_header : Z := 8.
Definition udp_src_port (h : ptr) : ptr := h.
Definition udp_dst_port (h : ptr) : ptr := ptr_add h 2.
Definition udp_len (h : ptr) : ptr := ptr_add h 4.
Definition udp_checksum (h : ptr) : ptr := ptr_add h 6.

Definition udp_header_fprint (h : ptr) : M string :=
  sp ← load16 (udp_src_port h);
  dp ← load16 (udp_dst_port h);
  ln ← load16 (udp_len h);
  ck ← load16 (udp_checksum h);
  mret ("UDP header [src_port=" +:+ fmt_u sp +:+ ", dst_port=" +:+ fmt_u dp +:+
        ", len=" +:+ fmt_lu (ln - sizeof_udp_header) +:+ "(" +:+ fmt_u ln +:+
        "), checksum=" +:+ fmt_u ck +:+ "]").

Definition udp_receive (ip_header : ptr) : M unit :=
  let header := ip_payload ip_header in
  debug_only debug (
    LOG_DEBUG debug "[UDP] Received ";;
    s ← udp_header_fprint header;
    printf s;;
    printf "
").

End Udp.
