(* ===== verification/TunSetup.v ===== *)
(** * Creating the TAP device (src/src/tun_device.c, src/src/utils/runtime_utils.c)

    [open], [ioctl] and [system] are parameters: the kernel's answers.  [k_open i] is
    the result of the [i]-th [open] (negative: failure), [k_ioctl i] the result of the
    [i]-th [ioctl] and [k_name] the interface name it leaves in [ifr]. *)

From S2P Require Import Prelude Words Format HashMap World Tun.
Import World Tun.

Module TunSetup.

Record kernel := mk_kernel {
  k_open : nat -> Z;
  k_ioctl : nat -> Z;
  k_name : string;
  k_system : string -> Z
}.

Section Setup.
Context (k : kernel).

(** ** Commands *)

Definition CMDBUFLEN : Z := 100.

(** [vsnprintf(buf, CMDBUFLEN, ...)]: at most [CMDBUFLEN - 1] characters of [s]. *)
Definition cmd_buffer (s : string) : string := String.substring 0 (Z.to_nat (CMDBUFLEN - 1)) s.

Definition run_cmd (cmd : string) : Z := k_system k (cmd_buffer cmd).

Definition set_interface_route (dev cidr : string) : Z :=
  run_cmd ("ip route add dev " +:+ dev +:+ " " +:+ cidr).
Definition set_interface_up (dev : string) : Z :=
  run_cmd ("ip link set dev " +:+ dev +:+ " up").

(** ** Queues *)

(** The loop of [tun_alloc] from queue [i]: the descriptors stored so far in [fds],
    those that are open, and [err].  The first component says whether the loop ended
    ([None]) or jumped to the label [err] at index [Some i]. *)
Fixpoint alloc_loop (n i : nat) (err : Z) (fds : list Z) (opened : list Z)
    : option nat * Z * list Z * list Z :=
  match n with
  | O => (None, err, fds, opened)
  | S n =>
      let fd := k_open k i in
      if fd <? 0 then (Some i, err, fds, opened)
      else
        let err := k_ioctl k i in
        if negb (err =? 0) then (Some i, err, fds, opened)
        else alloc_loop n (S i) err (<[i := fd]> fds) (opened ++ [fd])
  end.

(** [for (--i; i >= 0; i--) close(fds\[i\]);] *)
Fixpoint close_loop (i : nat) (fds : list Z) (opened : list Z) : list Z :=
  match i with
  | O => opened
  | S i => close_loop i fds (filter (fun fd => Some fd <> fds !! i) opened)
  end.

(** [dev] is [NULL] or an array of [dev_size] characters, into which [strcpy] copies the
    name.  The result is the returned code, the descriptors that are open and the contents of
    [dev]; the uninitialised [err] has the value [w_junk]. *)
Definition tun_alloc (dev_size : Z) (dev : option string) (queues : nat)
    : M (Z * list Z * option string) :=
  match dev with
  | None => mret (-1, [], None)
  | Some dev =>
  junk ← get w_junk;
  fds ← get w_fds;
  match alloc_loop queues 0 junk fds [] with
  | (None, _, fds, opened) =>
      modify (set_fds fds);;
      if dev_size <=? Z.of_nat (String.length (k_name k)) then undefined OutOfBounds
      else mret (0, opened, Some (k_name k))
  | (Some i, err, fds, opened) =>
      modify (set_fds fds);;
      e ← get w_errno;
      ERROR ("TUN: Could not ioctl tun: " +:+ e +:+ "
");;
      mret (err, close_loop i fds opened, Some dev)
  end
  end.

(** The result is the contents of [dev] and the descriptors that are open. *)
Definition tun_init (dev_size : Z) (dev : string) : M (string * list Z) :=
  r ← tun_alloc dev_size (Some dev) (Z.to_nat TUN_QUEUES);
  match r with
  | (err, opened, written) =>
      let dev := default dev written in
      if negb (err =? 0) then
        ERROR "TUN: Failed allocation
";;
        abort_
      else if negb (set_interface_up dev =? 0) then
        ERROR ("TUN: Failed setting up interface: " +:+ dev +:+ "
");;
        abort_
      else if negb (set_interface_route dev "10.0.0.0/24" =? 0) then
        ERROR "TUN: Failed setting route for interface
";;
        abort_
      else mret (dev, opened)
  end.

End Setup.

End TunSetup.
