(* ===== verification/Stack.v ===== *)
(** * Reception: ip_receive (src/src/protocols/ip.c) and main.c

    The path of a frame from the device to the protocols, the loop of a thread, the
    start-up and the exit of the process.  The loop runs for as many rounds as its
    fuel says; Threads.v has what the threads do to each other. *)

From S2P Require Import Prelude Words Format Checksum HashMap World Tun TunSetup.
From S2P Require Import NetInterface Arp Ip Icmp Transport.
Import Format Checksum World Tun TunSetup Ethernet NetInterface Arp Ip Icmp Tcp Udp.

Module Stack.

(** [DEBUG] of main.c. *)
Definition main_debug : bool := false.

(** ** ip_receive *)

Definition ip_receive (eth_header : ptr) : M unit :=
  let header := eth_payload eth_header in
  ok ← ip_header_check header;
  if negb ok then
    ck ← load16 (ip_checksum header);
    c ← checksum_at header sizeof_ip_header;
    ERROR ("IPv4: invalid checksum: " +:+ fmt_u ck +:+ " " +:+ fmt_u c +:+ "
")
  else
    ip_header_ntoh header;;
    debug_only Ip.debug (
      printf "[DEBUG] [IPv4] Received ";;
      s ← ip_header_fprint header;
      printf s;;
      printf "
");;
    proto ← load8 (protocol header);
    if proto =? PROTOCOL_TCP then
      LOG_DEBUG Ip.debug "[IPv4] Received TCP packet.
";;
      tcp_receive header
    else if proto =? PROTOCOL_UDP then
      LOG_DEBUG Ip.debug "[IPv4] Received UDP packet.
";;
      udp_receive header
    else if proto =? PROTOCOL_ICMP then
      LOG_DEBUG Ip.debug "[IPv4] Received ICMP packet.
";;
      icmp_receive header
    else
      proto ← load8 (protocol header);
      ERROR ("IPv4: Unsupported protocol : " +:+ fmt_u proto +:+ "
").

(** ** main.c *)

Definition BUFLEN : Z := 100.

Definition handle_frame (header : ptr) : M bool :=
  t ← load16 (ether_type header);
  if t =? ETH_P_ARP then
    debug_only main_debug (
      printf "[DEBUG] [ETH] Received (ARP) ";;
      s ← ethernet_fprint header;
      printf s;;
      printf "
");;
    arp_receive header;;
    mret true
  else if t =? ETH_P_IP then
    debug_only main_debug (
      printf "[DEBUG] [ETH] Received (IP) ";;
      s ← ethernet_fprint header;
      printf s;;
      printf "
");;
    ip_receive header;;
    mret false
  else mret false.

(** One round of the [while (1)] loop of [process_io]. *)
Definition process_frame (buffer : ptr) : M unit :=
  n ← net_interface_read buffer BUFLEN;
  (if n <? 0 then
     e ← get w_errno;
     ERROR ("Read from tun_fd: " +:+ e +:+ "
")
   else mret tt);;
  eth_header_ntoh buffer;;
  handle_frame buffer;;
  mret tt.

(** [process_io], for [rounds] rounds. *)
Fixpoint process_io (rounds : nat) (buffer : ptr) : M unit :=
  match rounds with
  | O => mret tt
  | S rounds => process_frame buffer;; process_io rounds buffer
  end.

Definition destroy (past : option bool) : M unit :=
  arp_destroy past;;
  net_interface_destroy.

(** [exit] runs the handler that [atexit] registered. *)
Definition run_atexit {A} (past : option bool) (o : outcome A) : outcome unit :=
  match o with
  | Exited c w => destroy past w
  | Ok _ w => Ok tt w
  | Aborted w => Aborted w
  | Blocked w => Blocked w
  | Undefined f => Undefined f
  end.

Definition THREADS : Z := 10.

Fixpoint alloc_buffers (n : nat) : M (list ptr) :=
  match n with
  | O => mret []
  | S n => p ← calloc BUFLEN; ps ← alloc_buffers n; mret (p :: ps)
  end.

(** [main] up to the creation of the threads: their buffers. *)
Definition main_init (k : kernel) (inet_pton : string -> option Z) : M (list ptr) :=
  r ← tun_init k 10 "";
  INFO ("Created TUN interface : " +:+ fst r +:+ "
");;
  net_interface_init inet_pton "10.0.0.4" (chars "00:0c:29:6d:50:25");;
  arp_init;;
  INFO "Init successful
";;
  alloc_buffers (Z.to_nat THREADS).

End Stack.
