(* ===== verification/StackFacts.v ===== *)
(** * The path of a received frame: rules

    Execution of [ip_receive] and of the protocols above it on a frame in a buffer,
    branch by branch. *)

From S2P Require Import Prelude Words Format Checksum HashMap World Wp Tun NetInterface.
From S2P Require Import NetFacts Arp ArpFacts ArpSpec Ip IpFacts Icmp Transport Stack.
Import Format Checksum World Wp Tun Ethernet NetInterface NetFacts Arp ArpFacts ArpSpec Ip IpFacts
  Icmp Tcp Udp Stack.

Module StackFacts.

Implicit Types (w : world) (l : loc) (pre post : list Z) (h : ptr) (hd : ip_hdr).

(** ** The payload of an IPv4 packet *)

Lemma payload_block w h pre hd post :
  hdr_at w h pre hd post ->
  w_mem w !! p_blk h = Some ((pre ++ ip_bytes hd) ++ post ++ []) /\
  ip_payload h = Ptr (p_blk h) (Z.of_nat (length (pre ++ ip_bytes hd))).
Proof.
  intros (Hl & Ho & Hwf). rewrite app_nil_r, <- app_assoc. split; [exact Hl|].
  unfold ip_payload, ptr_add. rewrite Ho, length_app, length_ip_bytes by done. f_equal. lia.
Qed.

Lemma wp_payload_read w h pre hd post (o n : nat) p (Q : list Z -> world -> Prop) :
  hdr_at w h pre hd post -> p = ptr_add (ip_payload h) (Z.of_nat o) ->
  (o + n <= length post)%nat -> Q (slice o n post) w -> wp (load_bytes p (Z.of_nat n)) w Q.
Proof.
  intros Hat Hp Ho HQ. destruct (payload_block _ _ _ _ _ Hat) as [Hl Hh].
  by eapply (wp_read_field w _ _ post [] (ip_payload h) Hl Hh).
Qed.

Lemma wp_payload_load w h pre hd post (o n : nat) p (Q : Z -> world -> Prop) :
  hdr_at w h pre hd post -> p = ptr_add (ip_payload h) (Z.of_nat o) ->
  (o + n <= length post)%nat -> Q (le_load (slice o n post)) w ->
  wp (bs ← load_bytes p (Z.of_nat n); mret (le_load bs)) w Q.
Proof. intros. apply wp_bind. by eapply wp_payload_read. Qed.

Lemma wp_payload_store w h pre hd post (o : nat) bs p (Q : unit -> world -> Prop) :
  hdr_at w h pre hd post -> p = ptr_add (ip_payload h) (Z.of_nat o) ->
  (o + length bs <= length post)%nat ->
  Q tt (upd_mem w (p_blk h) (ip_block pre hd (splice o bs post))) -> wp (store_bytes p bs) w Q.
Proof.
  intros Hat Hp Ho HQ. destruct (payload_block _ _ _ _ _ Hat) as [Hl Hh].
  eapply (wp_write_field w _ _ post [] (ip_payload h) Hl Hh); [done|done|].
  by rewrite app_nil_r, <- app_assoc.
Qed.

Lemma payload_overrun w h pre hd post n :
  hdr_at w h pre hd post -> Z.of_nat (length post) < n ->
  load_bytes (ip_payload h) n w = Undefined OutOfBounds.
Proof.
  intros Hat Hn. destruct (payload_block _ _ _ _ _ Hat) as [Hl ->].
  unfold load_bytes. cbn [p_blk p_off]. rewrite Hl.
  rewrite (proj2 (Z.leb_gt (_ + n) _)); [by rewrite andb_false_r|].
  rewrite app_nil_r, length_app. lia.
Qed.

Lemma ptr_add_0 p : p = ptr_add p 0.
Proof. destruct p. unfold ptr_add. cbn. f_equal. lia. Qed.

(** [uint32_t len = ip_header_get_payload_length(...)] for the length [L] of the
    header. *)
Definition plen (L : Z) : Z := u32 (u64 (L - 20)).

Lemma plen_ok L : 20 <= L < 65536 -> plen L = L - 20.
Proof. intros H. unfold plen, u64, u32. rewrite !(Z.mod_small (L - 20)) by lia. done. Qed.

Lemma plen_wraps L : 0 <= L < 20 -> plen L = 2 ^ 32 + L - 20.
Proof.
  intros H. unfold plen, u64, u32. apply (mod_of_eq _ _ _ 4294967295); [lia|].
  change (2 ^ 32) with 4294967296. apply (mod_of_eq _ _ _ (-1)); lia.
Qed.

Lemma wp_payload_length w h pre hd post (Q : Z -> world -> Prop) :
  hdr_at w h pre hd post -> Q (u64 (le_load (h_len hd) - 20)) w ->
  wp (ip_header_get_payload_length h) w Q.
Proof.
  intros Hat HQ. unfold ip_header_get_payload_length. wp_step.
  eapply wp_load_len; [exact Hat|]. by wp_step.
Qed.

(** ** ICMP echo *)

(** The payload of the echo reply to the [n]-byte request in [post]. *)
Definition icmp_zeroed post : list Z := splice 2 (le_store 2 0) (splice 0 (le_store 1 0) post).
Definition icmp_reply (n : nat) post : list Z :=
  splice 2 (le_store 2 (internet_checksum (take n (icmp_zeroed post)))) (icmp_zeroed post).

Lemma length_icmp_zeroed post : (4 <= length post)%nat -> length (icmp_zeroed post) = length post.
Proof.
  intros Hl. unfold icmp_zeroed.
  pose proof (length_le_store 2 0). pose proof (length_le_store 1 0). slen.
Qed.

Lemma length_icmp_reply n post : (4 <= length post)%nat -> length (icmp_reply n post) = length post.
Proof.
  intros Hl. unfold icmp_reply. rewrite length_splice; rewrite length_icmp_zeroed by done; [done|].
  rewrite length_le_store. lia.
Qed.

Definition echo_hdr (ip : Z) hd : ip_hdr := set_src (le_store 4 (ntohl ip)) (set_dst (h_src hd) hd).

Lemma wp_store_dst_word w h pre hd post (Q : unit -> world -> Prop) :
  hdr_at w h pre hd post ->
  Q tt (upd_mem w (p_blk h) (ip_block pre (set_dst (h_src hd) hd) post)) ->
  wp (s ← load32 (src_addr h); store32 (dst_addr h) s) w Q.
Proof.
  intros Hat HQ. pose proof Hat as (_ & _ & Hwf). destruct (hdr_field_bytes _ Hwf) as (_ & Hs & _).
  wp_step. eapply wp_load_src; [exact Hat|]. eapply wp_store_dst; [exact Hat|].
  by rewrite le_store_load_n by (done || apply Hwf).
Qed.

(** [receive_echo_request] up to the call of [ip_send_packet]. *)
Lemma run_echo_request w h pre hd post n (P : outcome unit -> Prop) :
  hdr_at w h pre hd post -> plen (le_load (h_len hd)) = Z.of_nat n ->
  (n <= length post)%nat -> (4 <= length post)%nat ->
  P (ip_send_packet h (upd_mem w (p_blk h)
       (ip_block pre (echo_hdr (w_ip w) hd) (icmp_reply n post)))) ->
  P (receive_echo_request h (ip_payload h) w).
Proof.
  intros Hat Hn Hnl H4 HP. pose proof Hat as (_ & _ & Hwf).
  destruct (hdr_field_bytes _ Hwf) as (_ & Hsb & _). pose proof Hwf as [].
  assert (Hput : forall hd' post', hdr_wf hd' ->
    hdr_at (upd_mem w (p_blk h) (ip_block pre hd' post')) h pre hd' post')
    by (intros; by eapply hdr_at_put).
  unfold receive_echo_request. apply wp_then. eapply wp_payload_length; [exact Hat|].
  change (u32 (u64 (le_load (h_len hd) - 20))) with (plen (le_load (h_len hd))). rewrite Hn.
  apply wp_then. eapply (wp_payload_store _ _ _ _ _ 0); [exact Hat|apply ptr_add_0|rewrite length_le_store; lia|].
  set (p1 := splice 0 _ post).
  assert (Hl1 : length p1 = length post) by (apply length_splice; rewrite length_le_store; lia).
  apply wp_then. eapply (wp_payload_store _ _ _ _ _ 2);
    [by apply Hput|done|rewrite Hl1, length_le_store; lia|]. rewrite upd_mem_upd_mem.
  change (splice 2 (le_store 2 0) _) with (icmp_zeroed post).
  pose proof (length_icmp_zeroed post H4) as Hl2.
  apply wp_then. unfold checksum_at. wp_step.
  eapply (wp_payload_read _ _ _ _ _ 0 n); [by apply Hput|apply ptr_add_0|lia|]. wp_step.
  apply wp_then. eapply (wp_payload_store _ _ _ _ _ 2);
    [by apply Hput|done|rewrite Hl2, length_le_store; lia|]. rewrite upd_mem_upd_mem.
  change (splice 2 _ (icmp_zeroed post)) with (icmp_reply n post).
  unfold debug_only, Icmp.debug. apply wp_then. wp_step.
  apply wp_then. eapply wp_load_src; [by apply Hput|].
  apply wp_then. eapply wp_store_dst; [by apply Hput|].
  rewrite le_store_load_n, upd_mem_upd_mem by done.
  assert (Hwf3 : hdr_wf (set_dst (h_src hd) hd)) by by apply set_dst_wf.
  apply wp_then. unfold net_interface_get_ip. wp_step.
  apply wp_then. eapply wp_store_src; [by apply Hput|]. rewrite upd_mem_upd_mem. exact HP.
Qed.

Lemma echo_hdr_wf ip hd : hdr_wf hd -> hdr_wf (echo_hdr ip hd).
Proof.
  intros Hwf. destruct (hdr_field_bytes _ Hwf) as (_ & Hs & _). pose proof Hwf as [].
  unfold echo_hdr. apply set_src_wf; [done|apply le_store_bytes|]. by apply set_dst_wf.
Qed.

(** ** Reading for the output *)

Lemma payload_in_block w h pre hd post (o : nat) n p :
  hdr_at w h pre hd post -> p = ptr_add (ip_payload h) (Z.of_nat o) -> 0 <= n ->
  Z.of_nat o + n <= Z.of_nat (length post) -> in_block w p n (ip_block pre hd post).
Proof.
  intros Hat -> H0 Hn. pose proof Hat as (Hl & Ho & Hwf).
  split_and!; cbn [p_blk p_off ptr_add ip_payload]; [exact Hl|lia|lia|].
  unfold ip_block. rewrite !length_app, length_ip_bytes by done. lia.
Qed.

(** The side condition of a read at offset [o] of the payload. *)
Ltac payload_side Hat o :=
  eapply (payload_in_block _ _ _ _ _ o);
  [exact Hat|first [reflexivity|apply ptr_add_0]|lia|cbn; lia].

(** Printing one layer of output keeps a header where it was. *)
Lemma hdr_at_out o e w h pre hd post : hdr_at w h pre hd post -> hdr_at (set_out o e w) h pre hd post.
Proof. done. Qed.

(** ** icmp_receive *)

Definition icmp_valid (n : nat) post : bool := 0 =? internet_checksum (take n post).

Lemma wp_icmp_check w h pre hd post n (Q : bool -> world -> Prop) :
  hdr_at w h pre hd post -> (n <= length post)%nat -> Q (icmp_valid n post) w ->
  wp (icmp_check (ip_payload h) (Z.of_nat n)) w Q.
Proof.
  intros Hat Hn HQ. unfold icmp_check, checksum_at. wp_step. wp_step.
  eapply (wp_payload_read _ _ _ _ _ 0 n); [exact Hat|apply ptr_add_0|lia|]. by wp_step.
Qed.

Lemma wp_icmp_type w h pre hd post (Q : Z -> world -> Prop) :
  hdr_at w h pre hd post -> (1 <= length post)%nat -> Q (nth 0 post 0) w ->
  wp (load8 (icmp_type (ip_payload h))) w Q.
Proof.
  intros Hat Hn HQ. eapply (wp_payload_load _ _ _ _ _ 0 1); [exact Hat|apply ptr_add_0|lia|].
  destruct post; [cbn in Hn; lia|]. unfold slice. cbn [drop take]. by rewrite le_load_1.
Qed.

Definition is_echo (n : nat) post : bool := icmp_valid n post && (nth 0 post 0 =? ICMP_ECHO_REQUEST).

Lemma icmp_other w h pre hd post n :
  hdr_at w h pre hd post -> plen (le_load (h_len hd)) = Z.of_nat n ->
  (n <= length post)%nat -> (1 <= length post)%nat -> is_echo n post = false ->
  quiet (icmp_receive h) w.
Proof.
  intros Hat Hn Hnl H1 Hecho Q HQ. unfold icmp_receive. wp_step.
  eapply wp_payload_length; [exact Hat|].
  change (u32 (u64 (le_load (h_len hd) - 20))) with (plen (le_load (h_len hd))). rewrite Hn.
  wp_step. eapply wp_icmp_check; [exact Hat|done|]. unfold is_echo in Hecho.
  destruct (icmp_valid n post); cbn [negb]; [|wp_quiet idtac; apply HQ].
  cbn [andb] in Hecho. unfold debug_only, Icmp.debug. wp_step. wp_step.
  wp_step. eapply wp_icmp_type; [exact Hat|done|]. rewrite Hecho.
  destruct (_ =? ICMP_ECHO_REPLY); [wp_quiet idtac; apply HQ|].
  destruct (_ =? ICMP_DESTINATION_UNREACHABLE); [wp_quiet idtac; apply HQ|].
  wp_step. eapply wp_icmp_type; [exact Hat|done|]. wp_quiet idtac. apply HQ.
Qed.

Lemma run_icmp_echo w h pre hd post n (P : outcome unit -> Prop) :
  hdr_at w h pre hd post -> plen (le_load (h_len hd)) = Z.of_nat n ->
  (n <= length post)%nat -> (4 <= length post)%nat -> is_echo n post = true ->
  P (ip_send_packet h (upd_mem w (p_blk h)
       (ip_block pre (echo_hdr (w_ip w) hd) (icmp_reply n post)))) ->
  P (icmp_receive h w).
Proof.
  intros Hat Hn Hnl H4 Hecho HP. apply andb_true_iff in Hecho as [Hv Ht].
  unfold icmp_receive. apply wp_then. eapply wp_payload_length; [exact Hat|].
  change (u32 (u64 (le_load (h_len hd) - 20))) with (plen (le_load (h_len hd))). rewrite Hn.
  apply wp_then. eapply wp_icmp_check; [exact Hat|done|]. rewrite Hv. cbn [negb].
  unfold debug_only, Icmp.debug. apply wp_then. wp_step.
  apply wp_then. eapply wp_icmp_type; [exact Hat|lia|]. rewrite Ht.
  apply Z.eqb_eq in Ht as ->. cbn [Z.eqb ICMP_ECHO_REQUEST ICMP_ECHO_REPLY].
  unfold LOG_DEBUG. apply wp_then. wp_step. by eapply run_echo_request.
Qed.

Lemma icmp_overrun w h pre hd post :
  hdr_at w h pre hd post -> Z.of_nat (length post) < plen (le_load (h_len hd)) ->
  icmp_receive h w = Undefined OutOfBounds.
Proof.
  intros Hat Hn. unfold icmp_receive.
  apply (wp_then _ _ _ (fun o => o = Undefined OutOfBounds)).
  eapply wp_payload_length; [exact Hat|].
  change (u32 (u64 (le_load (h_len hd) - 20))) with (plen (le_load (h_len hd))).
  unfold icmp_check, checksum_at, mbind, M_bind.
  by rewrite (payload_overrun _ _ _ _ _ _ Hat Hn).
Qed.

(** ** tcp_receive and udp_receive *)

Lemma tcp_overrun w h pre hd post :
  hdr_at w h pre hd post -> Z.of_nat (length post) < plen (le_load (h_len hd)) ->
  tcp_receive h w = Undefined OutOfBounds.
Proof.
  intros Hat Hn. unfold tcp_receive, tcp_header_check.
  apply (wp_then _ _ _ (fun o => (match o with Ok a w' => _ | Exited c w' => _ | Aborted w' => _
    | Blocked w' => _ | Undefined f => _ end) = Undefined OutOfBounds)).
  eapply wp_payload_length; [exact Hat|].
  change (u32 (u64 (le_load (h_len hd) - 20))) with (plen (le_load (h_len hd))).
  unfold sum16_at, mbind, M_bind. by rewrite (payload_overrun _ _ _ _ _ _ Hat Hn).
Qed.

Lemma tcp_print w h pre hd post (k : string -> M unit) :
  hdr_at w h pre hd post -> (24 <= length post)%nat -> (forall s, quiet (k s) w) ->
  quiet (s ← tcp_header_fprint (ip_payload h); k s) w.
Proof.
  intros Hat Hl Hk. apply quiet_read. unfold tcp_header_fprint.
  wp_step. wp_step; [payload_side Hat 0%nat|]. wp_step. wp_step; [payload_side Hat 2%nat|].
  wp_step. wp_step; [payload_side Hat 4%nat|]. wp_step. wp_step; [payload_side Hat 8%nat|].
  wp_step. wp_step; [payload_side Hat 12%nat|]. wp_step. wp_step; [payload_side Hat 14%nat|].
  wp_step. wp_step; [payload_side Hat 16%nat|]. wp_step. wp_step; [payload_side Hat 18%nat|].
  wp_step. wp_step; [payload_side Hat 20%nat|]. wp_step. split; [done|apply Hk].
Qed.

Lemma udp_quiet w h pre hd post :
  hdr_at w h pre hd post -> (8 <= length post)%nat -> quiet (udp_receive h) w.
Proof.
  intros Hat Hl. unfold udp_receive, debug_only, Udp.debug.
  apply quiet_seq; [quiet_run idtac|intros o e].
  apply hdr_at_out with (o := o) (e := e) in Hat. apply quiet_read. unfold udp_header_fprint.
  wp_step. wp_step; [payload_side Hat 0%nat|]. wp_step. wp_step; [payload_side Hat 2%nat|].
  wp_step. wp_step; [payload_side Hat 4%nat|]. wp_step. wp_step; [payload_side Hat 6%nat|].
  wp_step. split; [done|]. quiet_run idtac.
Qed.

Definition tcp_valid (n : nat) hd post : bool :=
  internet_checksum (le_store 4 (tcp_sum (sum16 (take n post)) (Z.of_nat n)
    (le_load (h_src hd)) (le_load (h_dst hd)))) =? 0.

Lemma tcp_valid_eq n hd post :
  tcp_valid n hd post = (internet_checksum (le_store 4 (tcp_sum (sum16 (take n post)) (Z.of_nat n)
    (le_load (h_src hd)) (le_load (h_dst hd)))) =? 0).
Proof. reflexivity. Qed.

Lemma wp_tcp_check w h pre hd post n (Q : bool -> world -> Prop) :
  hdr_at w h pre hd post -> plen (le_load (h_len hd)) = Z.of_nat n ->
  (n <= length post)%nat -> Q (tcp_valid n hd post) w ->
  wp (tcp_header_check h (ip_payload h)) w Q.
Proof.
  intros Hat Hn Hnl HQ. unfold tcp_header_check. wp_step. eapply wp_payload_length; [exact Hat|].
  change (u32 (u64 (le_load (h_len hd) - 20))) with (plen (le_load (h_len hd))). rewrite Hn.
  wp_step. unfold sum16_at. wp_step.
  eapply (wp_payload_read _ _ _ _ _ 0 n); [exact Hat|apply ptr_add_0|lia|]. wp_step.
  wp_step. eapply wp_load_src; [exact Hat|]. wp_step. eapply wp_load_dst; [exact Hat|].
  wp_step. unfold slice. rewrite drop_0. rewrite tcp_valid_eq in HQ. exact HQ.
Qed.

(** The segment after [tcp_header_ntoh]. *)
Definition word_at (o n : nat) post : Z := le_load (slice o n post).
Definition tcp_host post : list Z :=
  let p1 := splice 4 (le_store 4 (ntohs (u16 (word_at 4 4 post)))) post in
  let p2 := splice 8 (le_store 4 (ntohs (u16 (word_at 8 4 p1)))) p1 in
  let p3 := splice 2 (le_store 2 (ntohs (word_at 2 2 p2))) p2 in
  splice 0 (le_store 2 (ntohs (word_at 0 2 p3))) p3.

Lemma wp_payload_update w h pre hd post (o n : nat) (f : Z -> Z) p (rest : M unit)
    (Q : unit -> world -> Prop) :
  hdr_at w h pre hd post -> p = ptr_add (ip_payload h) (Z.of_nat o) ->
  (o + n <= length post)%nat ->
  (forall post', post' = splice o (le_store n (f (word_at o n post))) post ->
    length post' = length post ->
    hdr_at (upd_mem w (p_blk h) (ip_block pre hd post')) h pre hd post' ->
    wp rest (upd_mem w (p_blk h) (ip_block pre hd post')) Q) ->
  wp (v ← (bs ← load_bytes p (Z.of_nat n); mret (le_load bs));
      store_bytes p (le_store n (f v));; rest) w Q.
Proof.
  intros Hat Hp Ho HQ. wp_step. eapply (wp_payload_load _ _ _ _ _ o n); [exact Hat|exact Hp|done|].
  wp_step. eapply (wp_payload_store _ _ _ _ _ o); [exact Hat|exact Hp|rewrite length_le_store; lia|].
  apply HQ; [done|apply length_splice; rewrite length_le_store; lia|].
  eapply hdr_at_put; [exact Hat|done|apply Hat].
Qed.

Lemma wp_tcp_ntoh w h pre hd post (Q : unit -> world -> Prop) :
  hdr_at w h pre hd post -> (24 <= length post)%nat ->
  (length (tcp_host post) = length post ->
   Q tt (upd_mem w (p_blk h) (ip_block pre hd (tcp_host post)))) ->
  wp (tcp_header_ntoh (ip_payload h)) w Q.
Proof.
  intros Hat Hl HQ. unfold tcp_header_ntoh.
  eapply (wp_payload_update _ _ _ _ _ 4 4 (fun v => ntohs (u16 v))); [exact Hat|done|lia|].
  intros p1 E1 L1 Hat1.
  eapply (wp_payload_update _ _ _ _ _ 8 4 (fun v => ntohs (u16 v))); [exact Hat1|done|lia|].
  intros p2 E2 L2 Hat2. rewrite upd_mem_upd_mem in *.
  eapply (wp_payload_update _ _ _ _ _ 2 2 ntohs); [exact Hat2|done|lia|].
  intros p3 E3 L3 Hat3. rewrite upd_mem_upd_mem in *.
  wp_step. eapply (wp_payload_load _ _ _ _ _ 0 2); [exact Hat3|apply ptr_add_0|lia|].
  eapply (wp_payload_store _ _ _ _ _ 0);
    [exact Hat3|apply ptr_add_0|rewrite length_le_store; lia|]. rewrite upd_mem_upd_mem.
  assert (Hh : splice 0 (le_store 2 (ntohs (le_load (slice 0 2 p3)))) p3 = tcp_host post)
    by by subst.
  rewrite Hh. apply HQ. rewrite <- Hh, length_splice; [congruence|rewrite length_le_store; lia].
Qed.

Lemma wp_tcp_receive w h pre hd post n (Q : unit -> world -> Prop) :
  hdr_at w h pre hd post -> plen (le_load (h_len hd)) = Z.of_nat n ->
  (n <= length post)%nat -> (24 <= length post)%nat ->
  (forall o e post', length post' = length post ->
    post' = (if tcp_valid n hd post then tcp_host post else post) ->
    Q tt (set_out o e (upd_mem w (p_blk h) (ip_block pre hd post')))) ->
  wp (tcp_receive h) w Q.
Proof.
  intros Hat Hn Hnl Hl HQ. unfold tcp_receive. wp_step. eapply wp_tcp_check; [exact Hat|done|done|].
  destruct (tcp_valid n hd post); cbn [negb].
  - wp_step. eapply wp_tcp_ntoh; [exact Hat|done|]. intros Hl'.
    assert (Hat' : hdr_at (upd_mem w (p_blk h) (ip_block pre hd (tcp_host post))) h pre hd
      (tcp_host post)) by (eapply hdr_at_put; [exact Hat|done|apply Hat]).
    set (w1 := upd_mem _ _ _) in *. wp_step. unfold debug_only, Tcp.debug.
    assert (Hq : quiet (LOG_DEBUG true "[TCP] Received ";;
      s ← tcp_header_fprint (ip_payload h); printf s;; printf "
") w1).
    { apply quiet_seq; [quiet_run idtac|intros o e]. eapply tcp_print; [by apply hdr_at_out|lia|].
      intros s. quiet_run idtac. }
    apply Hq. intros o e. apply hdr_at_out with (o := o) (e := e) in Hat'.
    wp_step. eapply (wp_payload_load _ _ _ _ _ 12 2); [exact Hat'|done|lia|].
    destruct (_ =? TCP_CONTROL_SYN).
    + wp_quiet idtac. by apply HQ.
    + wp_step. by apply HQ.
  - assert (Hq : quiet (ERROR "TCP: Invalid checksum for packet : ";;
      s ← tcp_header_fprint (ip_payload h); eprintf s;; eprintf "
") w).
    { apply quiet_seq; [quiet_run idtac|intros o e]. eapply tcp_print; [by apply hdr_at_out|lia|].
      intros s. quiet_run idtac. }
    apply Hq. intros o e. specialize (HQ o e post eq_refl eq_refl).
    unfold upd_mem, set_out, set_mem in *. cbn -[ip_block] in HQ.
    rewrite insert_id in HQ by apply Hat. exact HQ.
Qed.

(** ** ip_receive *)

Definition ip_valid hd : bool := 0 =? internet_checksum (ip_bytes hd).

Lemma ip_bad_checksum w l pre hd post :
  hdr_at w (Ptr l 14) pre hd post -> ip_valid hd = false -> quiet (ip_receive (Ptr l 0)) w.
Proof.
  intros Hat Hv Q HQ. unfold ip_receive. change (eth_payload (Ptr l 0)) with (Ptr l 14).
  wp_step. eapply wp_header_check; [exact Hat|]. unfold ip_valid in Hv. rewrite Hv. cbn [negb].
  wp_step. eapply wp_load_ck; [exact Hat|]. wp_step. eapply wp_header_checksum; [exact Hat|].
  wp_quiet idtac. apply HQ.
Qed.

(** The call that [ip_receive] makes for a valid header. *)
Definition ip_dispatch (proto : Z) (h : ptr) : M unit :=
  if proto =? PROTOCOL_TCP then tcp_receive h
  else if proto =? PROTOCOL_UDP then udp_receive h
  else if proto =? PROTOCOL_ICMP then icmp_receive h
  else ERROR ("IPv4: Unsupported protocol : " +:+ fmt_u proto +:+ "
").

Lemma run_ip_receive w l pre hd post (P : outcome unit -> Prop) :
  hdr_at w (Ptr l 14) pre hd post -> ip_valid hd = true ->
  P (ip_dispatch (h_proto hd) (Ptr l 14)
       (upd_mem w l (ip_block pre (hdr_swapped hd) post))) ->
  P (ip_receive (Ptr l 0) w).
Proof.
  intros Hat Hv HP. unfold ip_receive. change (eth_payload (Ptr l 0)) with (Ptr l 14).
  apply wp_then. eapply wp_header_check; [exact Hat|]. unfold ip_valid in Hv. rewrite Hv.
  cbn [negb]. apply wp_then. eapply wp_header_ntoh; [exact Hat|]. cbn [p_blk].
  set (w1 := upd_mem w l _) in *.
  assert (Hat1 : hdr_at w1 (Ptr l 14) pre (hdr_swapped hd) post).
  { eapply (hdr_at_put w (Ptr l 14)); [exact Hat|done|]. apply hdr_swapped_wf, Hat. }
  apply wp_then. unfold debug_only, Ip.debug. wp_step.
  apply wp_then. eapply wp_load_proto; [exact Hat1|]. change (h_proto (hdr_swapped hd)) with (h_proto hd).
  unfold ip_dispatch in HP.
  destruct (h_proto hd =? PROTOCOL_TCP); [apply wp_then; unfold LOG_DEBUG; by wp_step|].
  destruct (h_proto hd =? PROTOCOL_UDP); [apply wp_then; unfold LOG_DEBUG; by wp_step|].
  destruct (h_proto hd =? PROTOCOL_ICMP); [apply wp_then; unfold LOG_DEBUG; by wp_step|].
  apply wp_then. eapply wp_load_proto; [exact Hat1|]. exact HP.
Qed.

(** ** A buffer with an Ethernet frame *)

Definition b_pre (b : list Z) : list Z := take 14 b.
Definition b_hdr (b : list Z) : ip_hdr := ip_decode (slice 14 20 b).
Definition b_post (b : list Z) : list Z := drop 34 b.

Lemma buffer_block b :
  (34 <= length b)%nat -> ip_block (b_pre b) (b_hdr b) (b_post b) = b.
Proof.
  intros Hl. unfold ip_block, b_pre, b_hdr, b_post.
  rewrite ip_decode_bytes by (apply length_slice; lia). unfold slice.
  replace (drop 34 b) with (drop 20 (drop 14 b)) by (rewrite drop_drop; f_equal; lia).
  by rewrite !take_drop.
Qed.

Lemma buffer_at w l b :
  w_mem w !! l = Some b -> (34 <= length b)%nat -> bytes_ok b ->
  hdr_at w (Ptr l 14) (b_pre b) (b_hdr b) (b_post b).
Proof.
  intros Hl Hlen Hb. split_and!; cbn [p_blk p_off].
  - by rewrite buffer_block.
  - unfold b_pre. rewrite length_take. lia.
  - apply ip_decode_wf; [apply length_slice; lia|by apply Forall_slice].
Qed.

Lemma length_ip_block pre hd post :
  hdr_wf hd -> length (ip_block pre hd post) = (length pre + 20 + length post)%nat.
Proof. intros Hwf. unfold ip_block. rewrite !length_app, length_ip_bytes by done. lia. Qed.

(** The state in which a thread handles the frame [b] in its buffer [l]. *)
Record ready (mac : list Z) w (A : gmap Z cell) (T : table) l (b : list Z) : Prop := {
  rd_net : net_inv mac w;
  rd_arp : arp_inv w A;
  rd_table : represents A T;
  rd_ip : 0 <= w_ip w < 2 ^ 32;
  rd_free : ~ owned A w l;
  rd_mem : w_mem w !! l = Some b;
  rd_length : length b = 100%nat;
  rd_bytes : bytes_ok b
}.

(** What handling the frame in block [l] does: everything is ready for the next one,
    with the translation table [T'], the frames [out] were sent on queue [fi], only the
    buffer and the blocks of the two layers below have changed, and the buffer keeps the
    bytes [t] at the place of the ether type. *)
Definition handled (mac : list Z) (A : gmap Z cell) w l (fi : nat) (t : list Z) (T' : table)
    (out : list (list Z)) w' : Prop :=
  exists A' b', ready mac w' A' T' l b' /\ slice 12 2 b' = t /\ steps A (upd_mem w l b') A' w' /\
    w_tx w' = w_tx w ++ ((fun fr => (Z.of_nat fi, fr)) <$> out).

Lemma handled_intro mac w A T l b fi t A' T' out b' w' :
  ready mac w A T l b -> net_inv mac w' -> arp_inv w' A' -> represents A' T' ->
  steps A (upd_mem w l b') A' w' -> length b' = 100%nat -> bytes_ok b' -> slice 12 2 b' = t ->
  w_tx w' = w_tx w ++ ((fun fr => (Z.of_nat fi, fr)) <$> out) ->
  handled mac A w l fi t T' out w'.
Proof.
  intros Hrd Hnet Harp Hrep Hs Hl Hb Ht Htx. exists A', b'. split_and!; [|done|done|done].
  destruct (packet_kept A (upd_mem w l b') A' w' l b') as [Hm Ho];
    [apply lookup_upd_mem_eq|apply Hrd|done|].
  split; try done. rewrite (s_ip _ _ _ _ Hs). apply Hrd.
Qed.

Lemma handled_out mac w A T l b fi b' o e :
  ready mac w A T l b -> length b' = 100%nat -> bytes_ok b' ->
  handled mac A w l fi (slice 12 2 b') T [] (set_out o e (upd_mem w l b')).
Proof.
  intros Hrd Hn Hb.
  destruct (put_invs mac w A l b' (rd_net _ _ _ _ _ _ Hrd) (rd_arp _ _ _ _ _ _ Hrd)
    (rd_free _ _ _ _ _ _ Hrd)) as [Hnet' Harp'].
  eapply (handled_intro mac w A T l b fi _ A T [] b'); try done.
  - by apply (net_inv_fields mac (upd_mem w l b')).
  - eapply arp_inv_frame; [exact Harp'|done|done|]. apply (ai_private _ _ Harp').
  - apply Hrd.
  - by split; auto.
  - cbn. by rewrite app_nil_r.
Qed.

Lemma ip_block_bytes pre hd post :
  bytes_ok pre -> hdr_wf hd -> bytes_ok post -> bytes_ok (ip_block pre hd post).
Proof. intros H1 H2 H3. unfold ip_block. rewrite !Forall_app. split_and!; [done|apply H2|done]. Qed.

Lemma icmp_reply_bytes n post : bytes_ok post -> bytes_ok (icmp_reply n post).
Proof. intros H. unfold icmp_reply, icmp_zeroed. auto using Forall_splice, le_store_bytes. Qed.

Lemma tcp_host_bytes post : bytes_ok post -> bytes_ok (tcp_host post).
Proof. intros H. unfold tcp_host. auto 10 using Forall_splice, le_store_bytes. Qed.

End StackFacts.
