(* ===== verification/StackSpec.v ===== *)
(** * What a received frame does to the process

    [frame_verdict] says, for any contents of a 100-byte receive buffer, which of
    three things handling it does: it is processed, it ends the process, or it
    reads past the buffer.  The echo reply is specified byte by byte. *)

From S2P Require Import Prelude Words Format Checksum HashMap World Wp Tun NetInterface.
From S2P Require Import NetFacts NetSpec Arp ArpFacts ArpSpec Ip IpFacts Icmp Transport.
From S2P Require Import Stack StackFacts.
Import Format Checksum World Wp Tun Ethernet NetInterface NetFacts NetSpec Arp ArpFacts ArpSpec
  Ip IpFacts Icmp Tcp Udp Stack StackFacts.

Module StackSpec.

Implicit Types (w : world) (l : loc) (b : list Z).

(** The total length of the packet in the buffer. *)
Definition packet_length b : Z := be_load (h_len (b_hdr b)).

(** The frame that answers the echo request in the buffer [b], to the hardware address
    [sha]. *)
Definition echo_reply_frame (mac ip sha : list Z) b : list Z :=
  let hd := b_hdr b in
  let L := Z.to_nat (packet_length b) in
  eth_frame sha mac ETH_P_IP
    (take L (ip_bytes (sealed (set_src ip (set_dst (h_src hd) hd))) ++
             icmp_reply (L - 20) (b_post b))).

(** What the stack does with a frame of ether type [type] in the buffer [b], from the
    translation table [T]: go on with a new table after sending [out], end the process
    after sending [out], or read past the end of the buffer. *)
Inductive reaction :=
| Continue (T : table) (out : list (list Z))
| Exit (out : list (list Z))
| ReadPast.

Definition react (mac ip : list Z) (T : table) (type : Z) b : reaction :=
  let hd := b_hdr b in
  let L := packet_length b in
  if type =? ETH_P_ARP then
    let r := rfc826 mac ip T (arp_decode b) in Continue (fst r) (option_list (snd r))
  else if negb (type =? ETH_P_IP) then Continue T []
  else if negb (ip_valid hd) then Continue T []
  else if negb ((h_proto hd =? PROTOCOL_TCP) || (h_proto hd =? PROTOCOL_ICMP)) then Continue T []
  else if negb ((20 <=? L) && (L <=? 20 + Z.of_nat (length (b_post b)))) then ReadPast
  else if (h_proto hd =? PROTOCOL_ICMP) && is_echo (Z.to_nat (L - 20)) (b_post b) then
    match T !! (ARP_IPV4, h_src hd) with
    | Some sha => Continue T [echo_reply_frame mac ip sha b]
    | None => Exit [request_frame mac ip (h_src hd)]
    end
  else Continue T [].

(** The outcome of a call is the reaction [r]; [t] is the ether type in the buffer after it. *)
Definition follows {R} (mac : list Z) (A : gmap Z cell) w l (fi : nat) (t : list Z)
    (r : reaction) (o : outcome R) : Prop :=
  match r with
  | Continue T' out => exists a w', o = Ok a w' /\ handled mac A w l fi t T' out w'
  | Exit out => exists w' T', o = Exited 1 w' /\ handled mac A w l fi t T' out w'
  | ReadPast => o = Undefined OutOfBounds
  end.

(** ** Reading the header of a received packet *)

Lemma packet_length_bounds w l b :
  hdr_at w (Ptr l 14) (b_pre b) (b_hdr b) (b_post b) -> 0 <= packet_length b < 65536.
Proof.
  intros (_ & _ & Hwf). destruct (hdr_field_bytes _ Hwf) as (Hl & _).
  pose proof (be_load_bounds _ Hl) as H. by rewrite (hw_len _ Hwf) in H.
Qed.

(** ** Execution of the IPv4 branch *)

Section Ipv4.
Context (mac : list Z) (w : world) (A : gmap Z cell) (T : table) (fi : nat) (l : loc) (b : list Z).
Context (Hrd : ready mac w A T l b) (Hfree : first_free (w_busy w) = Some fi).

Let Hnet : net_inv mac w := rd_net _ _ _ _ _ _ Hrd.
Let Harp : arp_inv w A := rd_arp _ _ _ _ _ _ Hrd.
Let Hrep : represents A T := rd_table _ _ _ _ _ _ Hrd.
Let Hown : ~ owned A w l := rd_free _ _ _ _ _ _ Hrd.
Let Hl : w_mem w !! l = Some b := rd_mem _ _ _ _ _ _ Hrd.
Let Hlen : length b = 100%nat := rd_length _ _ _ _ _ _ Hrd.
Let Hb : bytes_ok b := rd_bytes _ _ _ _ _ _ Hrd.

Let hd := b_hdr b.
Let post := b_post b.
Let h := Ptr l 14.
Let w1 := upd_mem w l (ip_block (b_pre b) (hdr_swapped hd) post).

Lemma at0 : hdr_at w h (b_pre b) hd post.
Proof. apply buffer_at; [done|lia|done]. Qed.

Lemma hd_wf : hdr_wf hd.
Proof. apply at0. Qed.

Lemma at1 : hdr_at w1 h (b_pre b) (hdr_swapped hd) post.
Proof. eapply (hdr_at_put w h); [apply at0|done|]. apply hdr_swapped_wf, hd_wf. Qed.

Lemma post_length : length post = 66%nat.
Proof. subst post. unfold b_post. rewrite length_drop. lia. Qed.

Lemma block_length hd' post' :
  hdr_wf hd' -> length post' = 66%nat -> length (ip_block (b_pre b) hd' post') = 100%nat.
Proof.
  intros Hwf Hp. rewrite length_ip_block by done. unfold b_pre. rewrite length_take. lia.
Qed.

Lemma block_bytes hd' post' :
  hdr_wf hd' -> bytes_ok post' -> bytes_ok (ip_block (b_pre b) hd' post').
Proof. intros Hwf Hp. apply ip_block_bytes; [|done|done]. by apply Forall_take. Qed.

Lemma block_type hd' post' : slice 12 2 (ip_block (b_pre b) hd' post') = slice 12 2 b.
Proof.
  unfold slice, ip_block, b_pre. assert (Hp : length (take 14 b) = 14%nat) by (rewrite length_take; lia).
  rewrite drop_app_le, take_app_le by (rewrite ?length_drop; lia).
  change 14%nat with (12 + 2)%nat. by rewrite <- take_drop_commute, take_take.
Qed.

Lemma post_bytes : bytes_ok post.
Proof. by apply Forall_drop. Qed.

Lemma kept1 post' o e :
  length post' = 66%nat -> bytes_ok post' ->
  handled mac A w l fi (slice 12 2 b) T []
    (set_out o e (upd_mem w1 l (ip_block (b_pre b) (hdr_swapped hd) post'))).
Proof.
  intros Hp Hpb. pose proof (hdr_swapped_wf _ hd_wf) as Hwf. subst w1. rewrite upd_mem_upd_mem.
  rewrite <- (block_type (hdr_swapped hd) post').
  eapply handled_out; [exact Hrd|by apply block_length|by apply block_bytes].
Qed.

Lemma plen_of L : packet_length b = L -> 20 <= L < 65536 ->
  plen (le_load (h_len (hdr_swapped hd))) = Z.of_nat (Z.to_nat (L - 20)).
Proof.
  intros HL Hb'. change (le_load (h_len (hdr_swapped hd))) with (packet_length b).
  rewrite HL, plen_ok by lia. lia.
Qed.

Lemma plen_bad :
  packet_length b < 20 \/ 86 < packet_length b ->
  Z.of_nat (length post) < plen (le_load (h_len (hdr_swapped hd))).
Proof.
  intros HL. change (le_load (h_len (hdr_swapped hd))) with (packet_length b).
  rewrite post_length.
  pose proof (packet_length_bounds _ _ _ at0) as HB.
  destruct (decide (packet_length b < 20)); [rewrite plen_wraps by lia|rewrite plen_ok by lia]; lia.
Qed.

(** The source of an echo request is looked up under its network-order bytes. *)
Lemma source_cell :
  A !! to_key ARP_IPV4 (le_load (reverse (h_dst (echo_hdr (w_ip w) (hdr_swapped hd))))) =
  A !! to_key ARP_IPV4 (le_load (h_src hd)).
Proof. cbn -[reverse to_key]. by rewrite reverse_involutive. Qed.

Lemma source_known : T !! (ARP_IPV4, h_src hd) = c_mac <$> A !! to_key ARP_IPV4 (le_load (h_src hd)).
Proof.
  destruct (hdr_field_bytes _ hd_wf) as (_ & Hs & _).
  apply Hrep; [unfold ARP_IPV4; lia|done|apply hd_wf].
Qed.

(** The header of the reply, back in network order. *)
Lemma echo_hdr_network :
  hdr_swapped (echo_hdr (w_ip w) (hdr_swapped hd)) =
  set_src (le_store 4 (w_ip w)) (set_dst (h_src hd) hd).
Proof.
  unfold echo_hdr, hdr_swapped, set_src, set_dst. cbn -[reverse].
  rewrite !reverse_involutive. f_equal.
  unfold ntohl. rewrite le_store_bswap. unfold be_store. apply reverse_involutive.
Qed.

(** The state in which the reply is handed to [ip_send_packet]. *)
Let n := Z.to_nat (packet_length b - 20).
Let w2 := upd_mem w1 l (ip_block (b_pre b) (echo_hdr (w_ip w) (hdr_swapped hd)) (icmp_reply n post)).

Lemma reply_length : length (icmp_reply n post) = 66%nat.
Proof. rewrite length_icmp_reply; rewrite post_length; lia. Qed.

Lemma at2 : hdr_at w2 h (b_pre b) (echo_hdr (w_ip w) (hdr_swapped hd)) (icmp_reply n post).
Proof.
  eapply (hdr_at_put w1 h); [apply at1|done|].
  apply echo_hdr_wf, hdr_swapped_wf, hd_wf.
Qed.

Lemma invs2 : net_inv mac w2 /\ arp_inv w2 A.
Proof. subst w2 w1. rewrite upd_mem_upd_mem. by apply put_invs. Qed.

Lemma run_echo (P : outcome unit -> Prop) :
  ip_valid hd = true -> h_proto hd = PROTOCOL_ICMP -> 20 <= packet_length b <= 86 ->
  is_echo n post = true -> P (ip_send_packet h w2) -> P (ip_receive (Ptr l 0) w).
Proof.
  intros Hv Hp HL He HP. pose proof post_length as Hpl.
  eapply run_ip_receive; [apply at0|done|]. fold h w1. change (b_hdr b) with hd. rewrite Hp.
  change (ip_dispatch PROTOCOL_ICMP h) with (icmp_receive h).
  eapply (run_icmp_echo w1 h _ _ post n); [apply at1| |lia|lia|done|exact HP].
  apply plen_of; [done|lia].
Qed.

Lemma echo_resolved sha :
  ip_valid hd = true -> h_proto hd = PROTOCOL_ICMP -> 20 <= packet_length b <= 86 ->
  is_echo n post = true -> T !! (ARP_IPV4, h_src hd) = Some sha ->
  exists w', ip_receive (Ptr l 0) w = Ok tt w' /\
    handled mac A w l fi (slice 12 2 b) T [echo_reply_frame mac (le_store 4 (w_ip w)) sha b] w'.
Proof.
  intros Hv Hp HL He HT. rewrite source_known in HT. apply fmap_Some in HT as (c & Hc & ->).
  apply (run_echo (fun o => exists w', o = Ok tt w' /\ _)); try done.
  destruct invs2 as [Hnet2 Harp2]. pose proof at2 as Hat2. pose proof reply_length as Hrl.
  destruct (wp_run (ip_send_packet h) w2 (fun _ w' =>
    handled mac A w l fi (slice 12 2 b) T [echo_reply_frame mac (le_store 4 (w_ip w)) (c_mac c) b] w'))
    as ([] & w' & Hrun & Hw'); [|by exists w'].
  assert (Hc2 : A !! to_key ARP_IPV4 (le_load (reverse
    (h_dst (echo_hdr (w_ip w) (hdr_swapped hd))))) = Some c) by by rewrite source_cell.
  eapply (wp_ip_send_packet mac w2 A fi h _ _ _ c _ Hnet2 Harp2 Hfree Hat2); [done|exact Hc2| |].
  - change (le_load (h_len _)) with (packet_length b). lia.
  - intros w' Hnet' Harp' Hs Htx.
    assert (Hwf : hdr_wf (sealed (hdr_swapped (echo_hdr (w_ip w) (hdr_swapped hd)))))
      by apply sealed_wf, hdr_swapped_wf, at2.
    subst w2 w1. rewrite !upd_mem_upd_mem in Hs.
    eapply handled_intro; [exact Hrd|done|done|exact Hrep|exact Hs|by apply block_length| | |].
    + apply block_bytes; [done|]. apply icmp_reply_bytes, post_bytes.
    + apply block_type.
    + rewrite Htx. cbn [fmap list_fmap]. unfold ip_frame, echo_reply_frame. rewrite echo_hdr_network.
      change (le_load (h_len _)) with (packet_length b). fold hd post.
      replace (Z.to_nat (packet_length b) - 20)%nat with n by (subst n; lia). done.
Qed.

Lemma echo_unresolved :
  ip_valid hd = true -> h_proto hd = PROTOCOL_ICMP -> 20 <= packet_length b <= 86 ->
  is_echo n post = true -> T !! (ARP_IPV4, h_src hd) = None ->
  exists w', ip_receive (Ptr l 0) w = Exited 1 w' /\
    handled mac A w l fi (slice 12 2 b) T [request_frame mac (le_store 4 (w_ip w)) (h_src hd)] w'.
Proof.
  intros Hv Hp HL He HT. rewrite source_known in HT. apply fmap_None in HT.
  apply (run_echo (fun o => exists w', o = Exited 1 w' /\ _)); try done.
  destruct invs2 as [Hnet2 Harp2]. pose proof at2 as Hat2.
  assert (Hc2 : A !! to_key ARP_IPV4 (le_load (reverse
    (h_dst (echo_hdr (w_ip w) (hdr_swapped hd))))) = None) by by rewrite source_cell.
  destruct (ip_send_packet_unresolved mac w2 A fi h _ _ _ Hnet2 Harp2 Hfree Hat2 Hown Hc2)
    as (w' & Hrun & Hnet' & Harp' & Hs & Htx).
  exists w'. split; [done|].
  pose proof at2 as (_ & _ & Hwf). pose proof reply_length as Hrl.
  subst w2 w1. rewrite !upd_mem_upd_mem in Hs.
  eapply handled_intro; [exact Hrd|done|done|exact Hrep|exact Hs|by apply block_length| | |].
  - apply block_bytes; [done|]. apply icmp_reply_bytes, post_bytes.
  - apply block_type.
  - rewrite Htx. cbn -[reverse request_frame]. by rewrite reverse_involutive.
Qed.

(** A header that is not TCP or ICMP, or not valid, only prints. *)
Lemma receive_ignored :
  ip_valid hd = false \/ (h_proto hd =? PROTOCOL_TCP) || (h_proto hd =? PROTOCOL_ICMP) = false ->
  exists w', ip_receive (Ptr l 0) w = Ok tt w' /\ handled mac A w l fi (slice 12 2 b) T [] w'.
Proof.
  intros Hign. destruct (ip_valid hd) eqn:Hv.
  - destruct Hign as [?|Hp]; [done|]. apply orb_false_iff in Hp as [Ht Hi].
    eapply run_ip_receive; [apply at0|done|]. fold h w1. change (b_hdr b) with hd.
    unfold ip_dispatch. rewrite Ht, Hi.
    assert (Hq : forall m : M unit, quiet m w1 ->
      exists w', m w1 = Ok tt w' /\ handled mac A w l fi (slice 12 2 b) T [] w').
    { intros m Hm. destruct (wp_run m w1 (fun _ w' => handled mac A w l fi (slice 12 2 b) T [] w'))
        as ([] & w' & ? & ?); [|by exists w'].
      apply Hm. intros o e. pose proof (kept1 post o e post_length post_bytes) as Hk.
      subst w1. by rewrite upd_mem_upd_mem in Hk. }
    destruct (h_proto hd =? PROTOCOL_UDP); apply Hq.
    + eapply udp_quiet; [apply at1|]. rewrite post_length. lia.
    + quiet_run idtac.
  - destruct (wp_run (ip_receive (Ptr l 0)) w (fun _ w' => handled mac A w l fi (slice 12 2 b) T [] w'))
      as ([] & w' & ? & ?); [|by exists w'].
    eapply ip_bad_checksum; [apply at0|done|]. intros o e.
    pose proof (handled_out mac w A T l b fi b o e Hrd Hlen Hb) as Hk.
    by rewrite (upd_mem_id w l b Hl) in Hk.
Qed.

End Ipv4.

Lemma tcp_icmp_cases proto :
  (proto =? PROTOCOL_TCP) || (proto =? PROTOCOL_ICMP) = true ->
  proto = PROTOCOL_TCP \/ proto = PROTOCOL_ICMP.
Proof. intros [?%Z.eqb_eq|?%Z.eqb_eq]%orb_true_iff; auto. Qed.

Lemma follows_ok mac A w l fi t T (m : M unit) :
  (exists w', m w = Ok tt w' /\ handled mac A w l fi t T [] w') ->
  follows mac A w l fi t (Continue T []) (m w).
Proof. intros (w' & ? & ?). by exists tt, w'. Qed.

(** A length field that does not fit the frame: the checksum of the payload runs over. *)
Lemma bad_length_overruns mac w A T l b :
  ready mac w A T l b -> ip_valid (b_hdr b) = true ->
  h_proto (b_hdr b) = PROTOCOL_TCP \/ h_proto (b_hdr b) = PROTOCOL_ICMP ->
  packet_length b < 20 \/ 86 < packet_length b ->
  ip_receive (Ptr l 0) w = Undefined OutOfBounds.
Proof.
  intros Hrd Hv Hp HL. pose proof (at0 mac w A T l b Hrd) as Hat0.
  pose proof (at1 mac w A T l b Hrd) as Hat1. pose proof (plen_bad mac w A T l b Hrd HL) as Hbad.
  eapply (run_ip_receive _ _ _ _ _ (fun o => o = Undefined OutOfBounds)); [exact Hat0|done|].
  destruct Hp as [Hp|Hp]; rewrite Hp.
  - change (ip_dispatch PROTOCOL_TCP (Ptr l 14)) with (tcp_receive (Ptr l 14)).
    eapply tcp_overrun; [exact Hat1|exact Hbad].
  - change (ip_dispatch PROTOCOL_ICMP (Ptr l 14)) with (icmp_receive (Ptr l 14)).
    eapply icmp_overrun; [exact Hat1|exact Hbad].
Qed.

(** [ip_receive] follows [react]. *)
Lemma ip_receive_follows mac w A T fi l b :
  ready mac w A T l b -> first_free (w_busy w) = Some fi ->
  follows mac A w l fi (slice 12 2 b) (react mac (le_store 4 (w_ip w)) T ETH_P_IP b) (ip_receive (Ptr l 0) w).
Proof.
  intros Hrd Hfree. unfold react. cbn [ETH_P_IP ETH_P_ARP Z.eqb Pos.eqb negb].
  pose proof (post_length mac w A T l b Hrd) as Hpl. pose proof (post_bytes mac w A T l b Hrd) as Hpb.
  pose proof (at0 mac w A T l b Hrd) as Hat0. pose proof (at1 mac w A T l b Hrd) as Hat1.
  destruct (ip_valid (b_hdr b)) eqn:Hv; cbn [negb];
    [|by apply (follows_ok mac A w l fi (slice 12 2 b) T); eapply receive_ignored; eauto].
  destruct ((h_proto (b_hdr b) =? PROTOCOL_TCP) || (h_proto (b_hdr b) =? PROTOCOL_ICMP)) eqn:Hp;
    cbn [negb];
    [|by apply (follows_ok mac A w l fi (slice 12 2 b) T); eapply receive_ignored; eauto].
  apply tcp_icmp_cases in Hp. rewrite Hpl.
  destruct ((20 <=? packet_length b) && (packet_length b <=? 20 + Z.of_nat 66)) eqn:HL; cbn [negb].
  - assert (HL' : 20 <= packet_length b <= 86) by blia.
    assert (Hn : plen (le_load (h_len (hdr_swapped (b_hdr b)))) =
      Z.of_nat (Z.to_nat (packet_length b - 20))) 
      by (apply (plen_of mac w A T l b Hrd (packet_length b)); [done|lia]).
    destruct Hp as [Hp|Hp]; rewrite Hp; cbn [Z.eqb PROTOCOL_TCP PROTOCOL_ICMP Pos.eqb andb].
    + eapply run_ip_receive; [exact Hat0|done|]. rewrite Hp.
      change (ip_dispatch PROTOCOL_TCP (Ptr l 14)) with (tcp_receive (Ptr l 14)).
      destruct (wp_run (tcp_receive (Ptr l 14)) (upd_mem w l (ip_block (b_pre b)
        (hdr_swapped (b_hdr b)) (b_post b))) (fun _ w' => handled mac A w l fi (slice 12 2 b) T [] w'))
        as ([] & w' & ? & ?); [|by exists tt, w'].
      eapply wp_tcp_receive; [exact Hat1|exact Hn|lia|lia|]. intros o e post' Hpost' Heq.
      cbn [p_blk]. eapply kept1; [exact Hrd|lia|]. subst post'.
      destruct (tcp_valid _ _ _); [by apply tcp_host_bytes|done].
    + destruct (is_echo (Z.to_nat (packet_length b - 20)) (b_post b)) eqn:He; cbn [andb].
      * destruct (T !! (ARP_IPV4, h_src (b_hdr b))) as [sha|] eqn:HT.
        -- destruct (echo_resolved mac w A T fi l b Hrd Hfree sha Hv Hp HL' He HT)
             as (w' & ? & ?). by exists tt, w'.
        -- destruct (echo_unresolved mac w A T fi l b Hrd Hfree Hv Hp HL' He HT)
             as (w' & ? & ?). by exists w', T.
      * eapply run_ip_receive; [exact Hat0|done|]. rewrite Hp.
        change (ip_dispatch PROTOCOL_ICMP (Ptr l 14)) with (icmp_receive (Ptr l 14)).
        destruct (wp_run (icmp_receive (Ptr l 14)) (upd_mem w l (ip_block (b_pre b)
          (hdr_swapped (b_hdr b)) (b_post b))) (fun _ w' => handled mac A w l fi (slice 12 2 b) T [] w'))
          as ([] & w' & ? & ?); [|by exists tt, w'].
        eapply icmp_other; [exact Hat1|exact Hn|lia|lia|done|]. intros o e.
        pose proof (kept1 mac w A T fi l b Hrd (b_post b) o e Hpl Hpb) as Hk.
        by rewrite upd_mem_upd_mem in Hk.
  - assert (HL' : packet_length b < 20 \/ 86 < packet_length b)
      by (apply andb_false_iff in HL as [?|?]; blia).
    by eapply bad_length_overruns.
Qed.

(** ** One round of [process_io] *)

(** The buffer after [eth_header_ntoh]. *)
Definition typed b : list Z := splice 12 (reverse (slice 12 2 b)) b.

Lemma length_typed b : (34 <= length b)%nat -> length (typed b) = length b.
Proof.
  intros Hl. unfold typed. apply length_splice. rewrite length_reverse, length_slice by lia. lia.
Qed.

Lemma typed_bytes b : bytes_ok b -> bytes_ok (typed b).
Proof. intros Hb. apply Forall_splice; [|done]. apply Forall_reverse. by apply Forall_slice. Qed.

Lemma typed_fields b :
  (34 <= length b)%nat -> slice 12 2 (typed b) = reverse (slice 12 2 b) /\
  b_hdr (typed b) = b_hdr b /\ b_post (typed b) = b_post b.
Proof.
  intros Hl. assert (Hr : length (reverse (slice 12 2 b)) = 2%nat)
    by (rewrite length_reverse; apply length_slice; lia).
  unfold b_hdr, b_post, typed. split_and!.
  - apply slice_splice_same; lia.
  - by rewrite slice_splice_disjoint by lia.
  - unfold splice. rewrite Hr. rewrite !drop_app, !drop_drop, length_take, Hr.
    rewrite (drop_ge (take 12 b)) by (rewrite length_take; lia).
    rewrite (drop_ge (reverse _)) by (rewrite Hr; lia). cbn [app].
    f_equal. lia.
Qed.

Lemma wp_eth_swap w l b (Q : unit -> world -> Prop) :
  w_mem w !! l = Some b -> (34 <= length b)%nat -> bytes_ok b ->
  Q tt (upd_mem w l (typed b)) -> wp (eth_header_ntoh (Ptr l 0)) w Q.
Proof.
  intros Hl Hlen Hb HQ. unfold eth_header_ntoh, ether_type, ptr_add. cbn [p_blk p_off Z.add].
  wp_step. wp_step; [split_and!; cbn; [exact Hl|lia|lia|lia]|].
  wp_step; [split_and!; cbn; [exact Hl|lia|lia|lia]|]. cbn [p_blk p_off].
  change (Z.to_nat 12) with 12%nat. unfold ntohs.
  rewrite swap_bytes_n; [exact HQ|by apply Forall_slice|apply length_slice; lia].
Qed.

(** What the round does once the buffer holds [b]. *)
Lemma run_round w l b (P : outcome unit -> Prop) :
  w_mem w !! l = Some b -> (34 <= length b)%nat -> bytes_ok b ->
  P ((handle_frame (Ptr l 0);; mret tt) (upd_mem w l (typed b))) ->
  P ((eth_header_ntoh (Ptr l 0);; handle_frame (Ptr l 0);; mret tt) w).
Proof. intros Hl Hlen Hb HP. apply wp_then. by eapply wp_eth_swap. Qed.

(** The buffer and the state after a read of the frame [bs]. *)
Definition received (bs b0 : list Z) : list Z := splice 0 (take 100 bs) b0.

Lemma received_ok bs b0 :
  length b0 = 100%nat -> bytes_ok b0 -> bytes_ok bs ->
  length (received bs b0) = 100%nat /\ bytes_ok (received bs b0).
Proof.
  intros Hl Hb Hbs. split.
  - unfold received. rewrite length_splice; [done|]. rewrite length_take. lia.
  - apply Forall_splice; [by apply Forall_take|done].
Qed.

Lemma run_process_frame mac w fi l b0 bs rx (P : outcome unit -> Prop) :
  net_inv mac w -> first_free (w_busy w) = Some fi ->
  w_mem w !! l = Some b0 -> length b0 = 100%nat -> bytes_ok b0 -> bytes_ok bs ->
  w_rx w = RxFrame bs :: rx ->
  P ((handle_frame (Ptr l 0);; mret tt)
       (upd_mem (set_rx (w_errno w) rx w) l (typed (received bs b0)))) ->
  P (process_frame (Ptr l 0) w).
Proof.
  intros Hnet Hfree Hl Hlen Hb Hbs Hrx HP. destruct (received_ok bs b0 Hlen Hb Hbs) as [Hrl Hrb].
  pose proof (net_interface_read_run mac w fi (Ptr l 0) BUFLEN b0 Hnet Hfree) as Hread.
  rewrite Hrx in Hread. unfold process_frame. apply wp_then. unfold wp. rewrite Hread; clear Hread.
  2: { unfold BUFLEN. split_and!; cbn; [done|lia|lia|lia]. }
  2: done.
  cbn [after_read fst snd p_blk p_off]. unfold BUFLEN.
  destruct (Z.ltb_spec (Z.min 100 (Z.of_nat (length bs))) 0); [lia|].
  apply wp_then. wp_step. change (splice (Z.to_nat 0) (take (Z.to_nat 100) bs) b0) with (received bs b0).
  eapply run_round; [apply lookup_upd_mem_eq|lia|done|]. by rewrite upd_mem_upd_mem.
Qed.

(** ** handle_frame *)

Lemma follows_bind {R S} mac A w l fi t r (m : M R) (k : R -> M S) w1 :
  follows mac A w l fi t r (m w1) -> (forall a w', exists c, k a w' = Ok c w') ->
  follows mac A w l fi t r ((m ≫= k) w1).
Proof.
  intros Hf Hk. unfold mbind, M_bind. destruct r; cbn in *.
  - destruct Hf as (a & w' & -> & Hh). destruct (Hk a w') as [c ->]. by exists c, w'.
  - destruct Hf as (w' & T' & -> & Hh). by exists w', T'.
  - by rewrite Hf.
Qed.

Lemma follows_base {R} mac A w w1 l fi t r (o : outcome R) :
  follows mac A w l fi t r o ->
  (forall T' out w', handled mac A w l fi t T' out w' -> handled mac A w1 l fi t T' out w') ->
  follows mac A w1 l fi t r o.
Proof.
  intros Hf Hh. destruct r; cbn in *.
  - destruct Hf as (a & w' & ? & ?). exists a, w'. auto.
  - destruct Hf as (w' & T' & ? & ?). exists w', T'. auto.
  - done.
Qed.

Lemma arp_receive_follows mac w A T fi l b :
  ready mac w A T l b -> first_free (w_busy w) = Some fi ->
  follows mac A w l fi (slice 12 2 b) (react mac (le_store 4 (w_ip w)) T ETH_P_ARP b) (arp_receive (Ptr l 0) w).
Proof.
  intros Hrd Hfree. pose proof Hrd as [Hnet Harp Hrep Hip Hown Hl Hlen Hb].
  assert (H42 : (42 <= length b)%nat) by lia.
  pose proof (decode_ok _ H42 Hb) as Hwp. pose proof (decode_layout _ H42) as Hd.
  set (r := rfc826 mac (le_store 4 (w_ip w)) T (arp_decode b)).
  destruct (wp_run (arp_receive (Ptr l 0)) w (fun _ w' =>
    handled mac A w l fi (slice 12 2 b) (fst r) (option_list (snd r)) w')) as ([] & w' & Hrun & Hh);
    [|by exists tt, w'].
  eapply (wp_arp_receive mac w A fi l (arp_decode b) T); rewrite ?Hd; eauto.
  intros w' A' b' (Hl' & Hb' & Ht') [H1 H2 H3 H4 H5]. rewrite Hd in Hl', Hb', Ht'.
  eapply handled_intro; [exact Hrd|done|done|exact H3|exact H4|congruence|auto|exact Ht'|done].
Qed.

Lemma handle_frame_follows mac w A T fi l b :
  ready mac w A T l b -> first_free (w_busy w) = Some fi ->
  follows mac A w l fi (slice 12 2 b) (react mac (le_store 4 (w_ip w)) T (le_load (slice 12 2 b)) b)
    (handle_frame (Ptr l 0) w).
Proof.
  intros Hrd Hfree. pose proof Hrd as [Hnet Harp Hrep Hip Hown Hl Hlen Hb].
  unfold handle_frame, ether_type, ptr_add. cbn [p_blk p_off Z.add].
  apply (wp_then _ _ _ (follows mac A w l fi _ _)). eapply wp_load16;
    [split_and!; cbn; [exact Hl|lia|lia|lia]|]. cbn [p_off]. change (Z.to_nat (0 + 12)) with 12%nat.
  set (t := le_load (slice 12 2 b)). destruct (Z.eqb_spec t ETH_P_ARP) as [->|Hna].
  - apply (wp_then _ _ _ (follows mac A w l fi _ _)). unfold debug_only, main_debug. wp_step.
    apply follows_bind; [by apply arp_receive_follows|]. by eexists.
  - destruct (Z.eqb_spec t ETH_P_IP) as [->|Hni].
    + apply (wp_then _ _ _ (follows mac A w l fi _ _)). unfold debug_only, main_debug. wp_step.
      apply follows_bind; [by apply ip_receive_follows|]. by eexists.
    + assert (Hr : react mac (le_store 4 (w_ip w)) T t b = Continue T []).
      { unfold react. by rewrite (proj2 (Z.eqb_neq _ _) Hna), (proj2 (Z.eqb_neq _ _) Hni). }
      rewrite Hr. exists false, w. split; [done|].
      pose proof (handled_out mac w A T l b fi b (w_stdout w) (w_stderr w) Hrd Hlen Hb) as Hk.
      rewrite (upd_mem_id w l b Hl) in Hk. by destruct w.
Qed.

(** ** The reaction does not depend on the byte order of the ether type *)

Lemma decode_typed b :
  (42 <= length b)%nat -> bytes_ok b ->
  forall mac ip T, rfc826 mac ip T (arp_decode (typed b)) = rfc826 mac ip T (arp_decode b).
Proof.
  intros Hl _ mac ip T.
  assert (He : exists e, arp_decode (typed b) = mk_arp_frame e (f_ht (arp_decode b))
    (f_pt (arp_decode b)) (f_hs (arp_decode b)) (f_ps (arp_decode b)) (f_op (arp_decode b))
    (f_sha (arp_decode b)) (f_spa (arp_decode b)) (f_tha (arp_decode b)) (f_tpa (arp_decode b))
    (f_tail (arp_decode b))).
  { do 42 (destruct b as [|? b]; [cbn in Hl; lia|]). eexists. reflexivity. }
  destruct He as [e ->]. reflexivity.
Qed.

Lemma react_typed mac ip T type b :
  length b = 100%nat -> bytes_ok b -> react mac ip T type (typed b) = react mac ip T type b.
Proof.
  intros Hl Hb. destruct (typed_fields b ltac:(lia)) as (_ & Hh & Hp).
  unfold react, echo_reply_frame, packet_length. by rewrite Hh, Hp, decode_typed by (done || lia).
Qed.

(** Making room for a frame does not change what the thread relies on. *)
Lemma ready_received mac w A T l b b' err rx :
  ready mac w A T l b -> length b' = 100%nat -> bytes_ok b' ->
  ready mac (upd_mem (set_rx err rx w) l b') A T l b'.
Proof.
  intros [Hnet Harp Hrep Hip Hown Hl Hlen Hb] Hl' Hb'.
  assert (Hnet' : net_inv mac (set_rx err rx w)) by by apply (net_inv_fields mac w).
  assert (Harp' : arp_inv (set_rx err rx w) A)
    by (eapply arp_inv_frame; [exact Harp|done|done|]; apply (ai_private _ _ Harp)).
  destruct (put_invs mac (set_rx err rx w) A l b' Hnet' Harp' Hown) as [? ?].
  split; try done. apply lookup_upd_mem_eq.
Qed.

(** Nor does output. *)
Lemma ready_out mac w A T l b o e : ready mac w A T l b -> ready mac (set_out o e w) A T l b.
Proof.
  intros [Hnet Harp Hrep Hip Hown Hl Hlen Hb]. split; try done; [by apply (net_inv_fields mac w)|].
  eapply arp_inv_frame; [exact Harp|done|done|]. apply (ai_private _ _ Harp).
Qed.

(** Handling the frame [b] in the buffer, once [eth_header_ntoh] has run. *)
Lemma round_follows mac w A T fi l b0 b err rx :
  ready mac w A T l b0 -> first_free (w_busy w) = Some fi ->
  length b = 100%nat -> bytes_ok b ->
  follows mac A (set_rx err rx w) l fi (reverse (slice 12 2 b))
    (react mac (le_store 4 (w_ip w)) T (be_load (slice 12 2 b)) b)
    ((handle_frame (Ptr l 0);; mret tt) (upd_mem (set_rx err rx w) l (typed b))).
Proof.
  intros Hrd Hfree Hrl Hrb. destruct (typed_fields b ltac:(lia)) as (Ht & _).
  assert (Htl : length (typed b) = 100%nat) by (rewrite length_typed; lia).
  pose proof (typed_bytes b Hrb) as Htb.
  apply follows_bind; [|by eexists]. set (w0 := set_rx err rx w).
  pose proof (ready_received mac w A T l b0 (typed b) err rx Hrd Htl Htb) as Hrd'.
  fold w0 in Hrd'. pose proof (handle_frame_follows _ _ _ _ fi _ _ Hrd' Hfree) as Hf.
  rewrite Ht, react_typed in Hf by done.
  change (le_load (reverse (slice 12 2 b))) with (be_load (slice 12 2 b)) in Hf.
  change (w_ip (upd_mem w0 l (typed b))) with (w_ip w) in Hf.
  eapply follows_base; [exact Hf|]. intros T' out w' (A' & b' & H1 & Hty & H2 & H3). exists A', b'.
  by rewrite upd_mem_upd_mem in H2.
Qed.

Lemma process_frame_reacts mac w A T fi l b0 bs rx :
  ready mac w A T l b0 -> first_free (w_busy w) = Some fi ->
  w_rx w = RxFrame bs :: rx -> bytes_ok bs ->
  follows mac A (set_rx (w_errno w) rx w) l fi (reverse (slice 12 2 (received bs b0)))
    (react mac (le_store 4 (w_ip w)) T (be_load (slice 12 2 (received bs b0))) (received bs b0))
    (process_frame (Ptr l 0) w).
Proof.
  intros Hrd Hfree Hrx Hbs. pose proof Hrd as [Hnet Harp Hrep Hip Hown Hl Hlen Hb].
  destruct (received_ok bs b0 Hlen Hb Hbs) as [Hrl Hrb].
  eapply (run_process_frame mac w fi l b0 bs rx); try done. by eapply round_follows.
Qed.

(** C1 The top-level contract: one round of the loop of [process_io] on a received frame
    (cut to the 100 bytes of the buffer, over what the last frame left there) follows
    [react]: it leaves the translation table and sends the frames that [react] says and
    is ready for the next round, the ether type in the buffer left in host order; or it ends the process, when an echo request comes from
    an address that is not in the table; or it reads past the buffer, when the length
    field of a TCP or ICMP packet is not between 20 and 86.  Nothing else can happen. *)
Theorem process_frame_follows mac w A T fi l b0 bs rx :
  ready mac w A T l b0 -> first_free (w_busy w) = Some fi ->
  w_rx w = RxFrame bs :: rx -> bytes_ok bs ->
  let b := received bs b0 in
  follows mac A (set_rx (w_errno w) rx w) l fi (reverse (slice 12 2 b))
    (react mac (le_store 4 (w_ip w)) T (be_load (slice 12 2 b)) b)
    (process_frame (Ptr l 0) w).
Proof.
  intros Hrd Hfree Hrx Hbs b. by eapply process_frame_reacts.
Qed.

(** A failing read. *)
Lemma run_process_error mac w fi l b0 msg rx (P : outcome unit -> Prop) :
  net_inv mac w -> first_free (w_busy w) = Some fi ->
  w_mem w !! l = Some b0 -> length b0 = 100%nat -> bytes_ok b0 ->
  w_rx w = RxError msg :: rx ->
  (forall o e, P ((handle_frame (Ptr l 0);; mret tt)
       (upd_mem (set_rx msg rx (set_out o e w)) l (typed b0)))) ->
  P (process_frame (Ptr l 0) w).
Proof.
  intros Hnet Hfree Hl Hlen Hb Hrx HP.
  pose proof (net_interface_read_run mac w fi (Ptr l 0) BUFLEN b0 Hnet Hfree) as Hread.
  rewrite Hrx in Hread. unfold process_frame. apply wp_then. unfold wp. rewrite Hread; clear Hread.
  2: { unfold BUFLEN. split_and!; cbn; [done|lia|lia|lia]. }
  2: done.
  cbn [after_read fst snd Z.ltb Z.compare]. apply wp_then. wp_step. wp_step. wp_quiet idtac.
  eapply (run_round _ l b0); [exact Hl|lia|done|].
  exact (HP (w_stdout (set_out o e (set_rx msg rx w))) (w_stderr (set_out o e (set_rx msg rx w)))).
Qed.

(** A failing [read] does not skip the round: what is in the buffer is handled, with its
    ether type swapped once more. *)
Lemma read_error_reacts mac w A T fi l b0 msg rx :
  ready mac w A T l b0 -> first_free (w_busy w) = Some fi ->
  w_rx w = RxError msg :: rx ->
  follows mac A (set_rx msg rx w) l fi (reverse (slice 12 2 b0))
    (react mac (le_store 4 (w_ip w)) T (be_load (slice 12 2 b0)) b0)
    (process_frame (Ptr l 0) w).
Proof.
  intros Hrd Hfree Hrx. pose proof Hrd as [Hnet Harp Hrep Hip Hown Hl Hlen Hb].
  eapply (run_process_error mac w fi l b0 msg rx); try done. intros o e.
  pose proof (ready_out _ _ _ _ _ _ o e Hrd) as Hrd'.
  eapply follows_base; [by eapply (round_follows mac (set_out o e w))|].
  intros T' out w' (A' & b' & H1 & Hty & H2 & H3). exists A', b'. split_and!; [done|done| |done].
  exact (steps_out o e _ (upd_mem (set_rx msg rx w) l b') _ _ H2).
Qed.

(** With another type than ARP and IPv4 only the swap and the output remain. *)
Lemma read_error_dropped mac w A T fi l b0 msg rx :
  ready mac w A T l b0 -> first_free (w_busy w) = Some fi -> w_rx w = RxError msg :: rx ->
  be_load (slice 12 2 b0) <> ETH_P_ARP -> be_load (slice 12 2 b0) <> ETH_P_IP ->
  exists o e, process_frame (Ptr l 0) w =
    Ok tt (set_out o e (upd_mem (set_rx msg rx w) l (typed b0))).
Proof.
  intros Hrd Hfree Hrx Ha Hi. pose proof Hrd as [Hnet Harp Hrep Hip Hown Hl Hlen Hb].
  eapply (run_process_error mac w fi l b0 msg rx (fun r => exists o e, r = Ok tt (set_out o e _)));
    try done.
  intros o e. exists o, e. unfold handle_frame, ether_type, ptr_add. cbn [p_blk p_off Z.add].
  set (w1 := upd_mem (set_rx msg rx (set_out o e w)) l (typed b0)).
  destruct (wp_run (load16 (Ptr l (0 + 12))) w1
    (fun t w' => t = be_load (slice 12 2 b0) /\ w' = w1)) as (t & w' & Hrun & -> & ->).
  { eapply wp_load16; [split_and!; cbn; [apply lookup_upd_mem_eq|lia|lia|]|].
    - rewrite length_typed; lia.
    - cbn [p_off]. change (Z.to_nat (0 + 12)) with 12%nat.
      by rewrite (proj1 (typed_fields b0 ltac:(lia))). }
  rewrite M_bind_assoc, (M_bind_run _ _ _ _ _ Hrun).
  by rewrite (proj2 (Z.eqb_neq _ _) Ha), (proj2 (Z.eqb_neq _ _) Hi).
Qed.

(** The two ether types of the dispatch, read in the other byte order, are neither. *)
Lemma type_swapped x :
  length x = 2%nat -> bytes_ok x -> be_load x = ETH_P_ARP \/ be_load x = ETH_P_IP ->
  le_load x <> ETH_P_ARP /\ le_load x <> ETH_P_IP.
Proof.
  intros Hl Hb. explode x. rewrite !Forall_cons_iff in Hb. unfold is_byte in Hb.
  change (be_load [b; b0]) with (le_load [b0; b]). rewrite !le_load2. unfold ETH_P_ARP, ETH_P_IP. lia.
Qed.

(** C30 A failing [read] does not skip the round, and the ether type in the buffer is swapped
    every time.  After an ARP or IPv4 frame was handled, the first failure turns its type
    back into network order, which is none of the known types, so nothing is handled;
    the second failure in a row makes it the type of the frame again, and what handling
    has left of the frame in the buffer, [b1], is handled once more as a frame of that
    type, against the table of that moment. *)
Theorem read_error_handles_stale_frame mac w A T fi l b0 bs msg1 msg2 rx T1 out :
  ready mac w A T l b0 -> first_free (w_busy w) = Some fi ->
  w_rx w = RxFrame bs :: RxError msg1 :: RxError msg2 :: rx -> bytes_ok bs ->
  let ip := le_store 4 (w_ip w) in
  let b := received bs b0 in
  let type := be_load (slice 12 2 b) in
  type = ETH_P_ARP \/ type = ETH_P_IP -> react mac ip T type b = Continue T1 out ->
  exists w1 w2 A1 b1, process_frame (Ptr l 0) w = Ok tt w1 /\
    ready mac w1 A1 T1 l b1 /\ le_load (slice 12 2 b1) = type /\
    process_frame (Ptr l 0) w1 = Ok tt w2 /\
    ready mac w2 A1 T1 l (typed b1) /\ w_tx w2 = w_tx w1 /\
    follows mac A1 (set_rx msg2 rx w2) l fi (slice 12 2 b1) (react mac ip T1 type b1)
      (process_frame (Ptr l 0) w2).
Proof.
  intros Hrd Hfree Hrx Hbs ip b type Htype Hr. pose proof Hrd as [_ _ _ _ _ _ Hlen Hb0].
  destruct (received_ok bs b0 Hlen Hb0 Hbs) as [Hlb Hbb]. fold b in Hlb, Hbb.
  pose proof (process_frame_reacts mac w A T fi l b0 bs _ Hrd Hfree Hrx Hbs) as Hf.
  fold b ip type in Hf. rewrite Hr in Hf.
  destruct Hf as ([] & w1 & Hrun1 & A1 & b1 & Hrd1 & Hty & Hs & _).
  pose proof Hrd1 as [_ _ _ _ _ _ Hl1 Hb1]. destruct (s_rx _ _ _ _ Hs) as [Hrx1 _]. cbn in Hrx1.
  assert (Hfree1 : first_free (w_busy w1) = Some fi) by by rewrite (s_busy _ _ _ _ Hs).
  assert (Hip1 : w_ip w1 = w_ip w) by by rewrite (s_ip _ _ _ _ Hs).
  assert (Hbe : be_load (slice 12 2 b1) = le_load (slice 12 2 b))
    by (rewrite Hty; unfold be_load; by rewrite reverse_involutive).
  destruct (type_swapped (slice 12 2 b)) as [Ha Hi];
    [apply length_slice; lia|by apply Forall_slice|done|].
  destruct (read_error_dropped mac w1 A1 T1 fi l b1 msg1 (RxError msg2 :: rx) Hrd1 Hfree1 Hrx1)
    as (o & e & Hrun2); [by rewrite Hbe..|]. set (w2 := set_out _ _ _) in Hrun2.
  assert (Hrd2 : ready mac w2 A1 T1 l (typed b1)).
  { apply ready_out. eapply ready_received; [exact Hrd1|rewrite length_typed; lia|by apply typed_bytes]. }
  exists w1, w2, A1, b1. split_and!; try done; [by rewrite Hty|].
  pose proof (read_error_reacts mac w2 A1 T1 fi l (typed b1) msg2 rx Hrd2 Hfree1 eq_refl) as Hf.
  rewrite (proj1 (typed_fields b1 ltac:(lia))), reverse_involutive, react_typed in Hf by done.
  change (w_ip w2) with (w_ip w1) in Hf. rewrite Hip1, Hty in Hf.
  unfold be_load in Hf. rewrite reverse_involutive in Hf. by rewrite Hty.
Qed.

(** ** The thread's loop *)

(** The table after the frames [bss] arrived, and what was sent for them; the old
    contents [b0] of the buffer matter behind a short frame. *)
Inductive serves (mac ip : list Z) : table -> list (list Z) -> table -> list (list Z) -> Prop :=
| serves_nil T : serves mac ip T [] T []
| serves_cons T b0 bs T1 out1 bss T2 out2 :
    length b0 = 100%nat -> bytes_ok b0 ->
    react mac ip T (be_load (slice 12 2 (received bs b0))) (received bs b0) = Continue T1 out1 ->
    serves mac ip T1 bss T2 out2 -> serves mac ip T (bs :: bss) T2 (out1 ++ out2).

(** None of the frames ends the process or makes it read past the buffer, when they arrive
    in this order at the table [T]. *)
Fixpoint harmless (mac ip : list Z) T (bss : list (list Z)) : Prop :=
  match bss with
  | [] => True
  | bs :: bss => forall b0, length b0 = 100%nat -> bytes_ok b0 -> exists T' out,
      react mac ip T (be_load (slice 12 2 (received bs b0))) (received bs b0) = Continue T' out /\
      harmless mac ip T' bss
  end.

(** The loop of [process_io] serves any harmless sequence of frames: it returns to
    [read] after each, the table and the frames sent are those that [react] composes,
    and the state is ready for the next frame. *)
Theorem process_io_serves bss mac w A T fi l b0 rx :
  ready mac w A T l b0 -> first_free (w_busy w) = Some fi ->
  w_rx w = (RxFrame <$> bss) ++ rx -> Forall (fun bs => bytes_ok bs) bss ->
  harmless mac (le_store 4 (w_ip w)) T bss ->
  exists w' A' T' b' out, process_io (length bss) (Ptr l 0) w = Ok tt w' /\
    serves mac (le_store 4 (w_ip w)) T bss T' out /\ ready mac w' A' T' l b' /\
    w_rx w' = rx /\ w_tx w' = w_tx w ++ ((fun fr => (Z.of_nat fi, fr)) <$> out).
Proof.
  revert w A T b0. induction bss as [|bs bss IH]; intros w A T b0 Hrd Hfree Hrx Hbs Hok.
  - exists w, A, T, b0, []. cbn in *. rewrite app_nil_r. split_and!; try done. constructor.
  - apply Forall_cons_iff in Hbs as [Hb Hbs].
    destruct (Hok b0 (rd_length _ _ _ _ _ _ Hrd) (rd_bytes _ _ _ _ _ _ Hrd))
      as (T1 & out1 & Hr & Hok').
    pose proof (process_frame_reacts mac w A T fi l b0 bs _ Hrd Hfree Hrx Hb) as Hf.
    rewrite Hr in Hf. destruct Hf as ([] & w1 & Hrun & A1 & b1 & Hrd1 & _ & Hs & Htx).
    assert (Hip : w_ip w1 = w_ip w) by apply (s_ip _ _ _ _ Hs).
    destruct (IH w1 A1 T1 b1) as (w' & A' & T' & b' & out & Hrun' & Hsv & Hrd' & Hrx' & Htx').
    + done.
    + by rewrite (s_busy _ _ _ _ Hs).
    + by rewrite (proj1 (s_rx _ _ _ _ Hs)).
    + done.
    + by rewrite Hip.
    + exists w', A', T', b', (out1 ++ out). rewrite Hip in Hsv. split_and!; try done.
      * cbn [length process_io]. unfold mbind, M_bind. by rewrite Hrun.
      * econstructor; [apply Hrd|apply Hrd|exact Hr|done].
      * rewrite Htx', Htx, fmap_app. by rewrite app_assoc.
Qed.

(** ** The echo reply *)

Lemma icmp_reply_split n post :
  (4 <= n <= length post)%nat ->
  take n (icmp_reply n post) =
    splice 2 (le_store 2 (internet_checksum (icmp_zeroed (take n post)))) (icmp_zeroed (take n post)).
Proof.
  intros Hn. pose proof (length_le_store 2 0) as H2. pose proof (length_le_store 1 0) as H1.
  assert (Hz : take n (icmp_zeroed post) = icmp_zeroed (take n post)).
  { unfold icmp_zeroed. rewrite !take_splice by slen. done. }
  unfold icmp_reply. rewrite take_splice; [by rewrite Hz|rewrite length_le_store; lia|].
  rewrite length_icmp_zeroed, length_le_store by lia. lia.
Qed.

Lemma icmp_zeroed_bytes post : bytes_ok post -> bytes_ok (icmp_zeroed post).
Proof. intros H. unfold icmp_zeroed. auto using Forall_splice, le_store_bytes. Qed.

Lemma icmp_reply_valid n post :
  bytes_ok post -> (4 <= n <= length post)%nat -> Z.of_nat n <= max_count ->
  internet_checksum (take n (icmp_reply n post)) = 0.
Proof.
  intros Hb Hn Hmax. rewrite icmp_reply_split by done.
  set (z := take n post). assert (Hz : length z = n) by (subst z; rewrite length_take; lia).
  assert (Hzb : bytes_ok z) by by apply Forall_take.
  pose proof (length_icmp_zeroed z ltac:(lia)) as Hlz.
  pose proof (checksum_fill 2 (icmp_zeroed z) (icmp_zeroed_bytes z Hzb)) as Hc.
  cbv zeta in Hc. rewrite Hlz, Hz in Hc.
  assert (Hidem : splice 2 (le_store 2 0) (icmp_zeroed z) = icmp_zeroed z).
  { unfold icmp_zeroed at 2. unfold icmp_zeroed. apply list_eq. intros i.
    pose proof (length_le_store 2 0). pose proof (length_le_store 1 0).
    rewrite !lookup_splice by slen. by repeat case_decide. }
  rewrite Hidem in Hc. apply Hc; [done|by exists 1%nat|lia].
Qed.

Lemma icmp_reply_fields n post :
  (4 <= length post)%nat ->
  nth 0 (icmp_reply n post) 0 = ICMP_ECHO_REPLY /\ nth 1 (icmp_reply n post) 0 = nth 1 post 0 /\
  drop 4 (icmp_reply n post) = drop 4 post.
Proof.
  intros Hl. destruct post as [|a [|b [|c [|d rest]]]]; cbn in Hl; try lia.
  unfold icmp_reply, icmp_zeroed, splice. generalize (internet_checksum
    (take n (take 2 (take 0 (a :: b :: c :: d :: rest) ++ le_store 1 0 ++
       drop (0 + length (le_store 1 0)) (a :: b :: c :: d :: rest)) ++ le_store 2 0 ++
     drop (2 + length (le_store 2 0)) (take 0 (a :: b :: c :: d :: rest) ++ le_store 1 0 ++
       drop (0 + length (le_store 1 0)) (a :: b :: c :: d :: rest))))).
  intros ck. pose proof (length_le_store 2 ck) as H2. rewrite !length_le_store.
  generalize dependent (le_store 2 ck). intros x Hx. explode x. cbn. done.
Qed.

(** [frame] is a valid answer to the echo request in [b]: addresses exchanged, header and
    message with valid checksums, type echo reply, and the code, identifier, sequence
    number and data of the request, bit for bit; the other header fields are those of
    the request. *)
Definition answers_echo (mac ip sha : list Z) b (frame : list Z) : Prop :=
  let n := Z.to_nat (packet_length b - 20) in
  exists hd msg, frame = eth_frame sha mac ETH_P_IP (ip_bytes hd ++ msg) /\
    internet_checksum (ip_bytes hd) = 0 /\
    h_src hd = ip /\ h_dst hd = h_src (b_hdr b) /\
    set_ck (h_ck (b_hdr b)) (set_src (h_src (b_hdr b)) (set_dst (h_dst (b_hdr b)) hd)) = b_hdr b /\
    length msg = n /\ internet_checksum msg = 0 /\ nth 0 msg 0 = ICMP_ECHO_REPLY /\
    nth 1 msg 0 = nth 1 (b_post b) 0 /\ drop 4 msg = drop 4 (take n (b_post b)).

Lemma echo_reply_valid mac ip sha b :
  length b = 100%nat -> bytes_ok b -> length ip = 4%nat -> bytes_ok ip ->
  24 <= packet_length b <= 86 -> answers_echo mac ip sha b (echo_reply_frame mac ip sha b).
Proof.
  intros Hl Hb Hil Hib HL. set (n := Z.to_nat (packet_length b - 20)).
  assert (Hwf : hdr_wf (b_hdr b))
    by (apply ip_decode_wf; [apply length_slice; lia|by apply Forall_slice]).
  destruct (hdr_field_bytes _ Hwf) as (_ & Hsb & _).
  assert (Hpl : length (b_post b) = 66%nat) by (unfold b_post; rewrite length_drop; lia).
  assert (Hpb : bytes_ok (b_post b)) by by apply Forall_drop.
  set (hd := set_src ip (set_dst (h_src (b_hdr b)) (b_hdr b))).
  assert (Hwf' : hdr_wf hd) by (apply set_src_wf; try done; apply set_dst_wf; try done; apply Hwf).
  pose proof (sealed_wf _ Hwf') as Hws.
  pose proof (length_icmp_reply n (b_post b) ltac:(lia)) as Hrl.
  destruct (icmp_reply_fields n (b_post b) ltac:(lia)) as (H0 & H1 & H4).
  assert (Htake : forall i, (i < n)%nat -> nth i (take n (icmp_reply n (b_post b))) 0 =
    nth i (icmp_reply n (b_post b)) 0).
  { intros i Hi. rewrite !nth_lookup. by rewrite lookup_take_lt. }
  unfold answers_echo. fold n. exists (sealed hd), (take n (icmp_reply n (b_post b))). split_and!.
  - unfold echo_reply_frame. fold hd. f_equal.
    replace (Z.to_nat (packet_length b) - 20)%nat with n by lia.
    rewrite take_app, length_ip_bytes by done. rewrite take_ge by (rewrite length_ip_bytes by done; lia).
    do 2 f_equal. lia.
  - by apply sealed_verifies.
  - done.
  - done.
  - subst hd. by destruct (b_hdr b).
  - rewrite length_take. lia.
  - apply icmp_reply_valid; [done|lia|unfold max_count; lia].
  - rewrite Htake by lia. exact H0.
  - rewrite Htake by lia. exact H1.
  - by rewrite !skipn_firstn_comm, H4.
Qed.

(** The echo requests that the stack answers: IPv4, both checksums valid, and a length that
    covers the ICMP header and fits the buffer. *)
Record echo_request b : Prop := {
  er_type : be_load (slice 12 2 b) = ETH_P_IP;
  er_header : ip_valid (b_hdr b) = true;
  er_protocol : h_proto (b_hdr b) = PROTOCOL_ICMP;
  er_length : 24 <= packet_length b <= 86;
  er_message : is_echo (Z.to_nat (packet_length b - 20)) (b_post b) = true
}.

Lemma length_b_post bs b0 :
  length b0 = 100%nat -> bytes_ok b0 -> bytes_ok bs -> length (b_post (received bs b0)) = 66%nat.
Proof.
  intros Hl Hb Hbs. destruct (received_ok bs b0 Hl Hb Hbs) as [Hr _].
  unfold b_post. rewrite length_drop. lia.
Qed.

Lemma react_echo (mac ip : list Z) (T : table) b :
  echo_request b -> length (b_post b) = 66%nat ->
  react mac ip T (be_load (slice 12 2 b)) b =
    match T !! (ARP_IPV4, h_src (b_hdr b)) with
    | Some sha => Continue T [echo_reply_frame mac ip sha b]
    | None => Exit [request_frame mac ip (h_src (b_hdr b))]
    end.
Proof.
  intros [Ht Hv Hp HL He] Hpost. unfold react. rewrite Ht, Hv, Hp, He, Hpost.
  rewrite (proj2 (Z.leb_le 20 (packet_length b))), (proj2 (Z.leb_le (packet_length b) _)) by lia.
  reflexivity.
Qed.

(** C12 An echo request from a host in the translation table is answered: the round returns,
    sends exactly one frame, which is a valid answer, to the hardware address in the
    table, and is ready for the next frame with the table as it was. *)
Theorem ping_answered mac w A T fi l b0 bs rx sha :
  ready mac w A T l b0 -> first_free (w_busy w) = Some fi ->
  w_rx w = RxFrame bs :: rx -> bytes_ok bs ->
  let b := received bs b0 in
  echo_request b -> T !! (ARP_IPV4, h_src (b_hdr b)) = Some sha ->
  exists w' frame, process_frame (Ptr l 0) w = Ok tt w' /\
    answers_echo mac (le_store 4 (w_ip w)) sha b frame /\
    handled mac A (set_rx (w_errno w) rx w) l fi (reverse (slice 12 2 b)) T [frame] w'.
Proof.
  intros Hrd Hfree Hrx Hbs b Her HT.
  destruct (received_ok bs b0 (rd_length _ _ _ _ _ _ Hrd) (rd_bytes _ _ _ _ _ _ Hrd) Hbs) as [Hl Hb].
  pose proof (length_b_post bs b0 (rd_length _ _ _ _ _ _ Hrd) (rd_bytes _ _ _ _ _ _ Hrd) Hbs) as Hpost.
  pose proof (process_frame_reacts mac w A T fi l b0 bs rx Hrd Hfree Hrx Hbs) as Hf.
  fold b in Hl, Hb, Hpost, Hf. rewrite react_echo, HT in Hf by done.
  destruct Hf as ([] & w' & Hrun & Hh). exists w'. eexists. split_and!; [done| |exact Hh].
  apply echo_reply_valid; [done|done|apply length_le_store|apply le_store_bytes|apply Her].
Qed.

(** ** Concrete frames *)

(** An ICMP packet from 10.0.0.9 whose length field says 65535. *)
Definition forged : list Z :=
  [2; 0; 0; 0; 0; 1; 2; 0; 0; 0; 0; 9; 8; 0] ++
  [69; 0; 255; 255; 0; 7; 0; 0; 64; 1; 102; 234; 10; 0; 0; 9; 10; 0; 0; 4].

(** A ping of 10.0.0.4 from 10.0.0.9. *)
Definition ping : list Z :=
  [2; 0; 0; 0; 0; 1; 2; 0; 0; 0; 0; 9; 8; 0] ++
  [69; 0; 0; 28; 0; 7; 0; 0; 64; 1; 102; 206; 10; 0; 0; 9; 10; 0; 0; 4] ++
  [8; 0; 229; 202; 18; 52; 0; 1].

Lemma ping_bytes : bytes_ok ping.
Proof. unfold ping. repeat constructor; done. Qed.

Lemma ping_request b0 : echo_request (received ping b0).
Proof. split; [..|vm_compute; split; discriminate|]; vm_compute; reflexivity. Qed.

Lemma react_ping (mac ip : list Z) (T : table) b0 :
  length b0 = 100%nat -> bytes_ok b0 ->
  react mac ip T (be_load (slice 12 2 (received ping b0))) (received ping b0) =
    match T !! (ARP_IPV4, [10; 0; 0; 9]) with
    | Some sha => Continue T [echo_reply_frame mac ip sha (received ping b0)]
    | None => Exit [request_frame mac ip [10; 0; 0; 9]]
    end.
Proof.
  intros Hl Hb. rewrite react_echo; [reflexivity|apply ping_request|].
  apply length_b_post; [done|done|apply ping_bytes].
Qed.

(** C28 The length field of the IP header is never compared with what was received: for
    every TCP or ICMP packet with a valid header whose length is less than its 20 bytes
    of header or more than the buffer holds, the checksum runs over the end of the
    receive buffer, in whatever state the thread is. *)
Theorem forged_length_reads_past mac w A T fi l b0 bs rx :
  ready mac w A T l b0 -> first_free (w_busy w) = Some fi ->
  w_rx w = RxFrame bs :: rx -> bytes_ok bs ->
  let b := received bs b0 in
  be_load (slice 12 2 b) = ETH_P_IP -> ip_valid (b_hdr b) = true ->
  h_proto (b_hdr b) ∈ [PROTOCOL_TCP; PROTOCOL_ICMP] ->
  (packet_length b < 20 \/ 86 < packet_length b) ->
  process_frame (Ptr l 0) w = Undefined OutOfBounds.
Proof.
  intros Hrd Hfree Hrx Hbs b Ht Hv Hp HL.
  pose proof (process_frame_reacts mac w A T fi l b0 bs rx Hrd Hfree Hrx Hbs) as Hf. fold b in Hf.
  pose proof (length_b_post bs b0 (rd_length _ _ _ _ _ _ Hrd) (rd_bytes _ _ _ _ _ _ Hrd) Hbs) as Hpost.
  fold b in Hpost. replace (react _ _ _ _ _) with ReadPast in Hf; [exact Hf|]. symmetry.
  unfold react. rewrite Ht, Hv, Hpost.
  assert (Hc : (20 <=? packet_length b) && (packet_length b <=? 20 + Z.of_nat 66) = false)
    by (destruct (Z.leb_spec 20 (packet_length b)),
          (Z.leb_spec (packet_length b) (20 + Z.of_nat 66)); done || lia).
  rewrite Hc.
  rewrite elem_of_cons, list_elem_of_singleton in Hp. by destruct Hp as [-> | ->].
Qed.

(** C29 A correct echo request from a host that is not in the table ends the whole process
    with status 1, after one ARP request for the host. *)
Theorem ping_from_unknown_host_exits mac w A T fi l b0 bs rx :
  ready mac w A T l b0 -> first_free (w_busy w) = Some fi ->
  w_rx w = RxFrame bs :: rx -> bytes_ok bs ->
  let b := received bs b0 in
  echo_request b -> T !! (ARP_IPV4, h_src (b_hdr b)) = None ->
  exists w', process_frame (Ptr l 0) w = Exited 1 w' /\
    w_tx w' = w_tx w ++
      [(Z.of_nat fi, request_frame mac (le_store 4 (w_ip w)) (h_src (b_hdr b)))].
Proof.
  intros Hrd Hfree Hrx Hbs b Her HT.
  pose proof (process_frame_reacts mac w A T fi l b0 bs rx Hrd Hfree Hrx Hbs) as Hf. fold b in Hf.
  pose proof (length_b_post bs b0 (rd_length _ _ _ _ _ _ Hrd) (rd_bytes _ _ _ _ _ _ Hrd) Hbs) as Hpost.
  fold b in Hpost. rewrite react_echo, HT in Hf by done.
  destruct Hf as (w' & T' & Hrun & A' & b' & _ & _ & _ & Htx). by exists w'.
Qed.

(** ** Witnesses: a thread with an empty buffer and an empty cache *)

Definition own_mac : list Z := [2; 0; 0; 0; 0; 1].
Definition thread_world (rx : list rx_event) : world :=
  upd_mem (set_rx "" rx (set_cache (CacheMap empty_cache) payload_world)) 5%positive (replicate 100 0).

Lemma thread_ready rx : ready own_mac (thread_world rx) ∅ ∅ 5%positive (replicate 100 0).
Proof.
  set (w := set_rx "" rx (set_cache (CacheMap empty_cache) payload_world)).
  assert (Hnet : net_inv own_mac w) by by apply (net_inv_fields _ payload_world), payload_inv.
  assert (Harp : arp_inv w ∅).
  { eapply arp_inv_frame; [by eapply empty_cache_inv, payload_inv|done|done|].
    by intros l (i & c & Hi & _). }
  assert (Hown : ~ owned ∅ w 5%positive) by exact request_free.
  destruct (put_invs own_mac w ∅ 5%positive (replicate 100 0) Hnet Harp Hown) as [? ?].
  split; try done. by apply Forall_replicate.
Qed.

Definition reply_to_request : list Z :=
  [2; 0; 0; 0; 0; 9] ++ [2; 0; 0; 0; 0; 1] ++ [8; 6] ++ [0; 1; 8; 0; 6; 4; 0; 2] ++
  [2; 0; 0; 0; 0; 1] ++ [10; 0; 0; 4] ++ [2; 0; 0; 0; 0; 9] ++ [10; 0; 0; 9].

Lemma react_request :
  react own_mac (le_store 4 67108874) ∅
    (be_load (slice 12 2 (received request (replicate 100 0)))) (received request (replicate 100 0)) =
  Continue (<[(ARP_IPV4, [10; 0; 0; 9]) := [2; 0; 0; 0; 0; 9]]> ∅) [reply_to_request].
Proof. vm_compute. reflexivity. Qed.

Lemma process_frame_follows_witness :
  follows own_mac ∅ (set_rx "" [] (thread_world [RxFrame request])) 5%positive 0 [6; 8]
    (Continue (<[(ARP_IPV4, [10; 0; 0; 9]) := [2; 0; 0; 0; 0; 9]]> ∅) [reply_to_request])
    (process_frame (Ptr 5 0) (thread_world [RxFrame request])).
Proof.
  pose proof (process_frame_follows own_mac (thread_world [RxFrame request]) ∅ ∅ 0 5%positive
    (replicate 100 0) request [] (thread_ready _) eq_refl eq_refl request_bytes) as H.
  cbv zeta in H. change (w_ip (thread_world _)) with 67108874 in H. rewrite react_request in H.
  exact H.
Defined.

(** A request is answered; of two failing reads after it, the second handles what the
    reply has left in the buffer. *)
Lemma read_error_handles_stale_frame_witness :
  exists w1 w2 A1 b1,
    process_frame (Ptr 5 0) (thread_world [RxFrame request; RxError "EIO"; RxError "EIO"]) = Ok tt w1 /\
    ready own_mac w1 A1 (<[(ARP_IPV4, [10; 0; 0; 9]) := [2; 0; 0; 0; 0; 9]]> ∅) 5%positive b1 /\
    le_load (slice 12 2 b1) = ETH_P_ARP /\
    process_frame (Ptr 5 0) w1 = Ok tt w2 /\
    ready own_mac w2 A1 (<[(ARP_IPV4, [10; 0; 0; 9]) := [2; 0; 0; 0; 0; 9]]> ∅) 5%positive (typed b1) /\
    w_tx w2 = w_tx w1 /\
    follows own_mac A1 (set_rx "EIO" [] w2) 5%positive 0 (slice 12 2 b1)
      (react own_mac [10; 0; 0; 4] (<[(ARP_IPV4, [10; 0; 0; 9]) := [2; 0; 0; 0; 0; 9]]> ∅) ETH_P_ARP b1)
      (process_frame (Ptr 5 0) w2).
Proof.
  apply (read_error_handles_stale_frame own_mac
    (thread_world [RxFrame request; RxError "EIO"; RxError "EIO"]) ∅ ∅ 0 5%positive
    (replicate 100 0) request "EIO" "EIO" [] _ [reply_to_request] (thread_ready _) eq_refl eq_refl
    request_bytes).
  - left. vm_compute. reflexivity.
  - exact react_request.
Defined.

(** A request for our address, then a ping from the host that sent it. *)
Lemma request_then_ping mac : harmless mac (le_store 4 67108874) ∅ [request; ping].
Proof.
  intros b0 Hl Hb. unfold react.
  assert (Ht : be_load (slice 12 2 (received request b0)) = ETH_P_ARP) by (vm_compute; reflexivity).
  rewrite Ht. cbn [Z.eqb ETH_P_ARP]. eexists _, _. split; [reflexivity|].
  intros b1 Hl1 Hb1. rewrite react_ping by done.
  match goal with |- context [?T !! (ARP_IPV4, [10; 0; 0; 9])] =>
    assert (Hk : T !! (ARP_IPV4, [10; 0; 0; 9]) = Some [2; 0; 0; 0; 0; 9])
      by (vm_compute; reflexivity) end.
  rewrite Hk. eexists _, _. by split.
Qed.

Lemma process_io_serves_witness :
  exists w' A' T' b' out, process_io 2 (Ptr 5 0) (thread_world [RxFrame request; RxFrame ping]) =
      Ok tt w' /\
    serves own_mac (le_store 4 67108874) ∅ [request; ping] T' out /\
    ready own_mac w' A' T' 5%positive b' /\ w_rx w' = [] /\
    w_tx w' = ((fun fr => (0, fr)) <$> out).
Proof.
  apply (process_io_serves [request; ping] own_mac
    (thread_world [RxFrame request; RxFrame ping]) ∅ ∅ 0 5%positive (replicate 100 0) []
    (thread_ready _) eq_refl eq_refl).
  - constructor; [exact request_bytes|constructor; [exact ping_bytes|constructor]].
  - apply request_then_ping.
Defined.

(** The ping comes after a request that put its sender in the table. *)
Lemma ping_answered_witness :
  exists w1 w2 A1 b1 frame,
    process_frame (Ptr 5 0) (thread_world [RxFrame request; RxFrame ping]) = Ok tt w1 /\
    process_frame (Ptr 5 0) w1 = Ok tt w2 /\
    answers_echo own_mac [10; 0; 0; 4] [2; 0; 0; 0; 0; 9] (received ping b1) frame /\
    handled own_mac A1 (set_rx "" [] w1) 5%positive 0 [0; 8]
      (<[(ARP_IPV4, [10; 0; 0; 9]) := [2; 0; 0; 0; 0; 9]]> ∅) [frame] w2.
Proof.
  pose proof (process_frame_reacts own_mac (thread_world [RxFrame request; RxFrame ping]) ∅ ∅ 0
    5%positive (replicate 100 0) request [RxFrame ping] (thread_ready _) eq_refl eq_refl
    request_bytes) as H.
  change (w_ip (thread_world _)) with 67108874 in H. rewrite react_request in H.
  destruct H as ([] & w1 & Hrun & A1 & b1 & Hrd & _ & Hs & _).
  destruct (s_rx _ _ _ _ Hs) as [Hrx Herr]. cbn in Hrx, Herr.
  destruct (ping_answered own_mac w1 A1 _ 0 5%positive b1 ping [] [2; 0; 0; 0; 0; 9] Hrd)
    as (w2 & frame & Hrun2 & Ha & Hh).
  - by rewrite (s_busy _ _ _ _ Hs).
  - exact Hrx.
  - exact ping_bytes.
  - apply ping_request.
  - apply lookup_insert_eq.
  - rewrite (s_ip _ _ _ _ Hs) in Ha. rewrite Herr in Hh.
    exists w1, w2, A1, b1, frame. split_and!; [exact Hrun|exact Hrun2|exact Ha|exact Hh].
Defined.

Lemma forged_bytes : bytes_ok forged.
Proof. unfold forged. repeat constructor; done. Qed.

Lemma forged_length_reads_past_witness :
  process_frame (Ptr 5 0) (thread_world [RxFrame forged]) = Undefined OutOfBounds.
Proof.
  apply (forged_length_reads_past own_mac _ ∅ ∅ 0 5%positive (replicate 100 0) forged []
    (thread_ready _) eq_refl eq_refl forged_bytes).
  - vm_compute. reflexivity.
  - vm_compute. reflexivity.
  - right. left.
  - right. vm_compute. reflexivity.
Defined.

Lemma ping_from_unknown_host_exits_witness :
  exists w', process_frame (Ptr 5 0) (thread_world [RxFrame ping]) = Exited 1 w' /\
    w_tx w' = [(0, request_frame own_mac (le_store 4 67108874) [10; 0; 0; 9])].
Proof.
  exact (ping_from_unknown_host_exits own_mac _ ∅ ∅ 0 5%positive (replicate 100 0) ping []
    (thread_ready _) eq_refl eq_refl ping_bytes (ping_request _) eq_refl).
Defined.

End StackSpec.
