(* ===== verification/TransportSpec.v ===== *)
(** * TCP checks and conversions

    [tcp_header_check] against the checksum of RFC 793, and what [tcp_header_ntoh] and
    the control bits make of a segment. *)

From S2P Require Import Prelude Words Format Checksum HashMap World NetInterface NetSpec Ip.
From S2P Require Import IpFacts Transport Stack StackFacts Wp.
Import Format Checksum World Wp NetInterface Ip IpFacts Tcp Udp Stack StackFacts.

Module TransportSpec.

(** ** The checksum *)

(** The pseudo header of RFC 793 for addresses in network order. *)
Definition pseudo_header (src dst : list Z) (len : Z) : list Z :=
  src ++ dst ++ [0; PROTOCOL_TCP] ++ be_store 2 len.

(** RFC 793: the one's complement sum of pseudo header and segment is all ones. *)
Definition rfc793_valid (src dst seg : list Z) : bool :=
  internet_checksum (pseudo_header src dst (Z.of_nat (length seg)) ++ seg) =? 0.

(** The sum that [tcp_header_check] forms, before it is cut to 32 bits. *)
Definition tcp_total (src dst seg : list Z) : Z :=
  sum16 seg + htons (Z.of_nat (length seg)) + htons PROTOCOL_TCP + le_load src + le_load dst.

Lemma le_load4 a b c d : le_load [a; b; c; d] = (a + 256 * b) + 65536 * (c + 256 * d).
Proof. cbn. lia. Qed.

Lemma length_word n : htons n = total (be_store 2 n).
Proof.
  unfold htons, bswap. pose proof (length_be_store 2 n) as Hl.
  generalize dependent (be_store 2 n). intros x Hx. explode x. cbn. lia.
Qed.

Lemma total_four x : length x = 4%nat -> total x mod 65535 = le_load x mod 65535.
Proof.
  intros Hx. explode x. rewrite le_load4. cbn [total]. rewrite !le_load2.
  replace (b + 256 * b0 + 65536 * (b1 + 256 * b2)) with
    (b + 256 * b0 + (b1 + 256 * b2 + 0) + (b1 + 256 * b2) * 65535) by ring.
  by rewrite Z.mod_add by lia.
Qed.

(** The total of pseudo header and segment, and the sum of the code, agree modulo
    65535, and are zero together. *)
Lemma tcp_total_rfc src dst seg :
  length src = 4%nat -> length dst = 4%nat -> bytes_ok src -> bytes_ok dst -> bytes_ok seg ->
  Z.of_nat (length seg) < 65536 ->
  let t := total (pseudo_header src dst (Z.of_nat (length seg)) ++ seg) in
  t mod 65535 = tcp_total src dst seg mod 65535 /\ 0 < t /\ 0 < tcp_total src dst seg < 3 * 2 ^ 32.
Proof.
  intros Hs Hd Hsb Hdb Hgb Hn t.
  assert (Ht : t = total src + total dst + htons PROTOCOL_TCP +
    htons (Z.of_nat (length seg)) + total seg).
  { subst t. unfold pseudo_header. rewrite <- !app_assoc.
    rewrite total_app by (rewrite Hs; by exists 2%nat).
    rewrite total_app by (rewrite Hd; by exists 2%nat).
    rewrite (total_app [0; PROTOCOL_TCP]) by by exists 1%nat.
    rewrite total_app by (rewrite length_be_store; by exists 1%nat).
    rewrite <- length_word. change (total [0; PROTOCOL_TCP]) with (htons PROTOCOL_TCP). lia. }
  pose proof (total_four _ Hs) as Hs4. pose proof (total_four _ Hd) as Hd4.
  pose proof (total_nonneg _ Hsb). pose proof (total_nonneg _ Hdb). pose proof (total_nonneg _ Hgb).
  pose proof (le_load_bounds _ Hsb) as Hls. pose proof (le_load_bounds _ Hdb) as Hld.
  rewrite Hs in Hls. rewrite Hd in Hld. cbn in Hls, Hld.
  pose proof (htons_bounds (Z.of_nat (length seg))). pose proof (sum16_bounds seg).
  change (htons PROTOCOL_TCP) with 1536 in *.
  assert (Hg : total seg mod 65535 = sum16 seg mod 65535).
  { rewrite sum16_closed by (done || unfold max_count; lia). destruct (decide (total seg = 0)) as [->|].
    - done.
    - destruct (ones_norm_witness (total seg)) as (q & Hq & _); [lia|].
      rewrite Hq at 1. rewrite Z.mul_comm. by rewrite Z.mod_add by lia. }
  unfold tcp_total. change (htons PROTOCOL_TCP) with 1536. rewrite Ht. split_and!; [|lia|lia|lia].
  rewrite (Z.add_mod (total src + total dst + 1536 + _) (total seg)) by lia. rewrite Hg.
  rewrite <- Z.add_mod by lia.
  replace (total src + total dst + 1536 + htons (Z.of_nat (length seg)) + sum16 seg)
    with (total src + (total dst + (1536 + htons (Z.of_nat (length seg)) + sum16 seg))) by ring.
  rewrite Z.add_mod, Hs4, <- Z.add_mod by lia.
  rewrite Z.add_comm, <- Z.add_assoc. rewrite Z.add_mod, Hd4, <- Z.add_mod by lia. f_equal. ring.
Qed.

Lemma le_store_test v :
  0 <= v < 2 ^ 32 -> (internet_checksum (le_store 4 v) =? 0) = (0 <? v) && (v mod 65535 =? 0).
Proof.
  intros Hv. pose proof (le_store_bytes 4 v) as Hb. pose proof (length_le_store 4 v) as Hl.
  assert (Hload : le_load (le_store 4 v) = v) by (rewrite le_load_store; by apply Z.mod_small).
  pose proof (total_four _ Hl) as Hm. rewrite Hload in Hm.
  assert (Hpos : 0 < total (le_store 4 v) <-> 0 < v).
  { rewrite <- Hload at 2. generalize dependent (le_store 4 v). intros x Hb Hl _ _.
    explode x. rewrite !Forall_cons_iff in Hb. unfold is_byte in Hb. rewrite le_load4. cbn [total].
    rewrite !le_load2. lia. }
  destruct (checksum_test (le_store 4 v)) as [H1 H2]; [done|unfold max_count; lia|].
  rewrite Hm, Hpos in *. apply eq_true_iff_eq. rewrite andb_true_iff, !Z.eqb_eq, Z.ltb_lt. tauto.
Qed.

(** The check on a segment of [n] bytes, from the header in host order. *)
Lemma tcp_valid_total n hd post :
  hdr_wf hd -> (n <= length post)%nat -> Z.of_nat n < 65536 ->
  tcp_valid n hd post = (internet_checksum (le_store 4 (u32 (tcp_total
    (reverse (h_src hd)) (reverse (h_dst hd)) (take n post)))) =? 0).
Proof.
  intros Hwf Hn Hlt. destruct (hdr_field_bytes _ Hwf) as (_ & Hs & Hd & _). pose proof Hwf as [].
  rewrite tcp_valid_eq. unfold tcp_sum, tcp_total. rewrite !htonl_load by done.
  rewrite length_take, Nat.min_l by done.
  replace (u16 (Z.of_nat n)) with (Z.of_nat n) by (unfold u16; rewrite Z.mod_small; lia).
  do 3 f_equal. unfold u32. by rewrite Zplus_mod_idemp_l.
Qed.

(** When the sum fits in 32 bits, the check is the one of RFC 793. *)
Lemma tcp_valid_rfc793 n hd post :
  hdr_wf hd -> (n <= length post)%nat -> Z.of_nat n < 65536 -> bytes_ok post ->
  let src := reverse (h_src hd) in
  let dst := reverse (h_dst hd) in
  tcp_total src dst (take n post) < 2 ^ 32 ->
  tcp_valid n hd post = rfc793_valid src dst (take n post).
Proof.
  intros Hwf Hn Hlt Hb src dst Hfit. rewrite tcp_valid_total by done. fold src dst.
  destruct (hdr_field_bytes _ Hwf) as (_ & Hs & Hd & _). pose proof Hwf as [].
  assert (Hseg : bytes_ok (take n post)) by by apply Forall_take.
  assert (Hlseg : length (take n post) = n) by (rewrite length_take; lia).
  destruct (tcp_total_rfc src dst (take n post)) as (Hm & Ht & Hp); subst src dst;
    rewrite ?length_reverse, ?Forall_reverse, ?Hlseg; try done.
  set (src := reverse (h_src hd)) in *. set (dst := reverse (h_dst hd)) in *.
  unfold u32. rewrite Z.mod_small by lia. rewrite le_store_test by lia. unfold rfc793_valid.
  set (all := pseudo_header src dst _ ++ _) in *.
  assert (Hall : bytes_ok all /\ Z.of_nat (length all) <= max_count).
  { subst all src dst. unfold pseudo_header, max_count.
    rewrite !length_app, length_be_store, !length_reverse, !Forall_app, !Forall_reverse, Hlseg.
    split; [|cbn; lia]. split_and!; try done; [|apply be_store_bytes].
    repeat constructor; done. }
  destruct (checksum_test all) as [H1 H2]; [apply Hall|apply Hall|].
  apply eq_true_iff_eq. rewrite andb_true_iff, !Z.eqb_eq, Z.ltb_lt, <- Hm. tauto.
Qed.

(** When it does not, the carry is lost. *)
Lemma tcp_valid_loses_carry n hd post :
  hdr_wf hd -> (n <= length post)%nat -> Z.of_nat n < 65536 -> bytes_ok post ->
  let src := reverse (h_src hd) in
  let dst := reverse (h_dst hd) in
  2 ^ 32 <= tcp_total src dst (take n post) ->
  rfc793_valid src dst (take n post) = true -> tcp_valid n hd post = false.
Proof.
  intros Hwf Hn Hlt Hb src dst Hfit Hval. rewrite tcp_valid_total by done. fold src dst.
  destruct (hdr_field_bytes _ Hwf) as (_ & Hs & Hd & _). pose proof Hwf as [].
  assert (Hseg : bytes_ok (take n post)) by by apply Forall_take.
  assert (Hlseg : length (take n post) = n) by (rewrite length_take; lia).
  destruct (tcp_total_rfc src dst (take n post)) as (Hm & Ht & Hp); subst src dst;
    rewrite ?length_reverse, ?Forall_reverse, ?Hlseg; try done.
  set (src := reverse (h_src hd)) in *. set (dst := reverse (h_dst hd)) in *.
  unfold rfc793_valid in Hval. set (all := pseudo_header src dst _ ++ _) in *.
  assert (Hall : bytes_ok all /\ Z.of_nat (length all) <= max_count).
  { subst all src dst. unfold pseudo_header, max_count.
    rewrite !length_app, length_be_store, !length_reverse, !Forall_app, !Forall_reverse, Hlseg.
    split; [|cbn; lia]. split_and!; try done; [|apply be_store_bytes].
    repeat constructor; done. }
  apply Z.eqb_eq, checksum_test in Hval as [_ Hz]; [|apply Hall|apply Hall].
  rewrite Hz in Hm. set (S := tcp_total src dst (take n post)) in *.
  assert (Hu : exists k, (k = 1 \/ k = 2) /\ u32 S = S - k * 2 ^ 32).
  { destruct (decide (S < 2 * 2 ^ 32)); [exists 1|exists 2]; (split; [lia|]);
      unfold u32; [apply (mod_of_eq _ _ _ 1)|apply (mod_of_eq _ _ _ 2)]; lia. }
  destruct Hu as (k & Hk & Hu).
  assert (Hb32 : 0 <= u32 S < 2 ^ 32) by (apply Z.mod_pos_bound; lia).
  rewrite le_store_test by done. rewrite Hu. change (2 ^ 32) with 4294967296 in *.
  apply andb_false_iff. right. apply Z.eqb_neq. intros Hbad.
  pose proof (Z.div_mod S 65535 ltac:(lia)).
  pose proof (Z.div_mod (S - k * 4294967296) 65535 ltac:(lia)). destruct Hk; subst k; lia.
Qed.

Lemma tcp_check_run w h pre hd post n :
  hdr_at w h pre hd post -> plen (le_load (h_len hd)) = Z.of_nat n -> (n <= length post)%nat ->
  tcp_header_check h (ip_payload h) w = Ok (tcp_valid n hd post) w.
Proof.
  intros Hat Hn Hl.
  destruct (wp_run (tcp_header_check h (ip_payload h)) w (fun v w' => v = tcp_valid n hd post /\ w' = w))
    as (v & w' & Hrun & -> & ->); [by eapply wp_tcp_check|done].
Qed.

(** C22 [tcp_header_check] on a segment of [n] bytes [seg] behind its IP header (in host
    order, of total length [n + 20]): it returns, changes nothing, and when its sum fits
    in 32 bits its answer is the test of RFC 793: true exactly when the checksum over
    pseudo header and segment is valid.  When the sum does not fit, the carry is lost and
    a valid segment is rejected. *)
Theorem tcp_check_correct w h pre hd post n :
  hdr_at w h pre hd post -> plen (le_load (h_len hd)) = Z.of_nat n -> (n <= length post)%nat ->
  Z.of_nat n < 65536 -> bytes_ok post ->
  let src := reverse (h_src hd) in
  let dst := reverse (h_dst hd) in
  let seg := take n post in
  (tcp_total src dst seg < 2 ^ 32 ->
   tcp_header_check h (ip_payload h) w = Ok (rfc793_valid src dst seg) w) /\
  (2 ^ 32 <= tcp_total src dst seg -> rfc793_valid src dst seg = true ->
   tcp_header_check h (ip_payload h) w = Ok false w).
Proof.
  intros Hat Hn Hl Hlt Hb src dst seg. rewrite (tcp_check_run w h pre hd post n) by done.
  pose proof (proj2 (proj2 Hat)) as Hwf. split; intros Hsum.
  - by rewrite tcp_valid_rfc793.
  - intros Hv. by rewrite tcp_valid_loses_carry.
Qed.

(** A sum of more than 32 bits is no rarity: with the pseudo header of two addresses
    whose last bytes add up to 256 or more, no valid segment is accepted. *)
Theorem tcp_check_loses_carry w h pre hd post n :
  hdr_at w h pre hd post -> plen (le_load (h_len hd)) = Z.of_nat n -> (n <= length post)%nat ->
  Z.of_nat n < 65536 -> bytes_ok post -> 256 <= nth 3 (reverse (h_src hd)) 0 + nth 3 (reverse (h_dst hd)) 0 ->
  rfc793_valid (reverse (h_src hd)) (reverse (h_dst hd)) (take n post) = true ->
  tcp_header_check h (ip_payload h) w = Ok false w.
Proof.
  intros Hat Hn Hl Hlt Hb Hlast Hv. rewrite (tcp_check_run w h pre hd post n) by done.
  pose proof (proj2 (proj2 Hat)) as Hwf. rewrite tcp_valid_loses_carry; try done.
  destruct (hdr_field_bytes _ Hwf) as (_ & Hs & Hd & _). pose proof Hwf as [].
  assert (Hload : forall x, bytes_ok x -> length x = 4%nat ->
    2 ^ 24 * nth 3 (reverse x) 0 <= le_load (reverse x)).
  { intros x Hx Hlx. explode x. rewrite !Forall_cons_iff in Hx. unfold is_byte in Hx.
    change (reverse [b; b0; b1; b2]) with [b2; b1; b0; b]. rewrite le_load4. cbn [nth]. lia. }
  pose proof (Hload _ Hs ltac:(done)). pose proof (Hload _ Hd ltac:(done)).
  pose proof (sum16_bounds (take n post)). pose proof (htons_bounds (Z.of_nat (length (take n post)))).
  unfold tcp_total. change (htons PROTOCOL_TCP) with 1536. lia.
Qed.

(** ** Conversion to host order *)

Lemma ntohs_low x : bytes_ok x -> length x = 4%nat -> ntohs (u16 (le_load x)) = be_load (take 2 x).
Proof.
  intros Hb Hl. explode x. rewrite !Forall_cons_iff in Hb. unfold is_byte in Hb.
  cbn [take]. unfold u16. rewrite (mod_of_eq _ (le_load [b; b0]) _ (b1 + 256 * b2));
    [|rewrite le_load2; lia|rewrite le_load4, le_load2; lia].
  unfold ntohs. apply bswap_le_load; [|done]. repeat constructor; unfold is_byte; lia.
Qed.

Lemma be_load_upper x : bytes_ok x -> length x = 4%nat -> be_load (take 2 x) = be_load x / 2 ^ 16.
Proof.
  intros Hb Hl. explode x. rewrite !Forall_cons_iff in Hb. unfold is_byte in Hb.
  cbn [take]. unfold be_load. cbn [reverse rev_append]. unfold reverse. cbn [rev_append].
  rewrite le_load4, le_load2. symmetry. apply (div_of_eq _ (b2 + 256 * b1)); lia.
Qed.

Lemma word_same o n v post :
  0 <= v < 256 ^ Z.of_nat n -> (o + n <= length post)%nat ->
  word_at o n (splice o (le_store n v) post) = v.
Proof.
  intros Hv Hl. unfold word_at. rewrite slice_splice_same by (done || apply length_le_store).
  rewrite le_load_store. by apply Z.mod_small.
Qed.

Lemma word_other o n o' n' v post :
  (o' + n' <= length post)%nat -> (o + n <= o' \/ o' + n' <= o)%nat ->
  word_at o n (splice o' (le_store n' v) post) = word_at o n post.
Proof.
  intros Hl Hd. unfold word_at. by rewrite slice_splice_disjoint by (rewrite length_le_store; lia).
Qed.

(** [tcp_header_ntoh] converts the ports correctly, but it applies [ntohs] to the 32-bit
    sequence and acknowledgement numbers: what is left of each is its upper 16 bits, as
    a number below 65536. *)
Theorem tcp_ntoh_truncates post :
  bytes_ok post -> (24 <= length post)%nat ->
  word_at 0 2 (tcp_host post) = be_load (slice 0 2 post) /\
  word_at 2 2 (tcp_host post) = be_load (slice 2 2 post) /\
  word_at 4 4 (tcp_host post) = be_load (slice 4 4 post) / 2 ^ 16 /\
  word_at 8 4 (tcp_host post) = be_load (slice 8 4 post) / 2 ^ 16.
Proof.
  intros Hb Hl.
  assert (H32 : forall o, (o + 4 <= length post)%nat ->
    ntohs (u16 (word_at o 4 post)) = be_load (slice o 4 post) / 2 ^ 16 /\
    0 <= ntohs (u16 (word_at o 4 post)) < 256 ^ Z.of_nat 4).
  { intros o Ho. unfold word_at.
    rewrite ntohs_low, be_load_upper by first [by apply Forall_slice | apply length_slice; lia].
    split; [done|]. pose proof (be_load_bounds _ (Forall_slice is_byte o 4 post Hb)) as Hbd.
    rewrite length_slice in Hbd by lia. change (256 ^ Z.of_nat 4) with 4294967296 in *.
    change (2 ^ 16) with 65536.
    split; [apply Z.div_pos; lia|apply Z.div_lt_upper_bound; lia]. }
  assert (H16 : forall o, (o + 2 <= length post)%nat ->
    ntohs (word_at o 2 post) = be_load (slice o 2 post)).
  { intros o Ho. unfold word_at, ntohs.
    apply bswap_le_load; [by apply Forall_slice|apply length_slice; lia]. }
  assert (Hbd : forall v, 0 <= ntohs v < 256 ^ Z.of_nat 2) by apply (bswap_bounds 2).
  destruct (H32 4%nat) as [E4 B4]; [lia|]. destruct (H32 8%nat) as [E8 B8]; [lia|].
  unfold tcp_host.
  set (p1 := splice 4 _ post). set (p2 := splice 8 _ p1). set (p3 := splice 2 _ p2).
  assert (L1 : length p1 = length post) by (apply length_splice; rewrite length_le_store; lia).
  assert (L2 : length p2 = length p1) by (apply length_splice; rewrite length_le_store; lia).
  assert (L3 : length p3 = length p2) by (apply length_splice; rewrite length_le_store; lia).
  assert (W8 : word_at 8 4 p1 = word_at 8 4 post) by (apply word_other; lia).
  assert (W2 : word_at 2 2 p2 = word_at 2 2 post)
    by (subst p2 p1; rewrite !word_other by lia; done).
  assert (W0 : word_at 0 2 p3 = word_at 0 2 post)
    by (subst p3 p2 p1; rewrite !word_other by lia; done).
  rewrite W0. split_and!.
  - rewrite word_same by (done || lia). apply H16. lia.
  - rewrite word_other by lia. subst p3. rewrite W2, word_same by (done || lia). apply H16. lia.
  - rewrite !word_other by lia. subst p3. rewrite !word_other by lia.
    subst p2. rewrite word_other by lia. subst p1. by rewrite word_same by (done || lia).
  - rewrite word_other by lia. subst p3. rewrite word_other by lia.
    subst p2. rewrite W8. by rewrite word_same by (done || lia).
Qed.

(** [tcp_receive] takes the control bits from the wrong byte: of the two bytes of
    [reserved] as they arrive, the data offset [a] and the flags [f], the code masks the
    first.  Whether a segment counts as SYN does not depend on its flags, but only on the
    data offset being 2, 6, 10 or 14 words. *)
Theorem syn_test_ignores_flags a f :
  is_byte a -> is_byte f ->
  tcp_header_get_control_bits (le_load [a; f]) = a mod 64 /\
  tcp_header_get_data_offset (le_load [a; f]) = f / 16 /\
  (tcp_header_get_control_bits (le_load [a; f]) = TCP_CONTROL_SYN <->
   (a / 16) mod 4 = 2 /\ a mod 16 = 0).
Proof.
  intros Ha Hf. unfold is_byte in *. rewrite le_load2.
  assert (Hc : tcp_header_get_control_bits (a + 256 * f) = a mod 64).
  { unfold tcp_header_get_control_bits. change 63 with (2 ^ 6 - 1). rewrite land_mask by lia.
    change (2 ^ 6) with 64. replace (a + 256 * f) with (a + (4 * f) * 64) by ring.
    by rewrite Z.mod_add by lia. }
  split_and!; [done| |].
  - unfold tcp_header_get_data_offset. change 0xf with (2 ^ 4 - 1). rewrite land_mask by lia.
    rewrite Z.shiftr_div_pow2 by lia. change (2 ^ 12) with 4096. change (2 ^ 4) with 16.
    assert (Hd : (a + 256 * f) / 4096 = f / 16).
    { pose proof (Z.div_mod f 16). pose proof (Z.mod_pos_bound f 16).
      apply (div_of_eq _ (a + 256 * (f mod 16))); lia. }
    rewrite Hd. apply Z.mod_small. pose proof (Z.div_pos f 16).
    pose proof (Z.div_lt_upper_bound f 16 16). lia.
  - rewrite Hc. unfold TCP_CONTROL_SYN.
    pose proof (Z.div_mod a 64). pose proof (Z.mod_pos_bound a 64).
    pose proof (Z.div_mod a 16). pose proof (Z.mod_pos_bound a 16).
    pose proof (Z.div_mod (a / 16) 4). pose proof (Z.mod_pos_bound (a / 16) 4). lia.
Qed.

(** ** Dispatch *)

(** A UDP datagram, IP protocol 17, is not recognised: [ip_receive] reports an
    unsupported protocol, and [udp_receive] is not called; apart from the output and
    the byte order of three header fields nothing changes. *)
Theorem udp_is_unsupported w l pre hd post :
  hdr_at w (Ptr l 14) pre hd post -> ip_valid hd = true -> h_proto hd = 17 ->
  ip_receive (Ptr l 0) w = Ok tt (set_out (w_stdout w)
    ((w_stderr w +:+ "[ERROR] ") +:+ "IPv4: Unsupported protocol : 17
") (upd_mem w l (ip_block pre (hdr_swapped hd) post))).
Proof.
  intros Hat Hv Hp.
  apply (run_ip_receive w l pre hd post (fun o => o = Ok tt _)); [done|done|]. rewrite Hp.
  assert (Hf : fmt_u 17 = "17") by (vm_compute; reflexivity). unfold ip_dispatch. cbn [Z.eqb Pos.eqb].
  change (17 =? PROTOCOL_TCP) with false. change (17 =? PROTOCOL_UDP) with false.
  change (17 =? PROTOCOL_ICMP) with false. cbv iota. rewrite Hf. reflexivity.
Qed.

(** What does reach [udp_receive] is IP protocol 16. *)
Theorem protocol_16_is_taken_for_udp w l pre hd post :
  hdr_at w (Ptr l 14) pre hd post -> ip_valid hd = true -> h_proto hd = 16 ->
  ip_receive (Ptr l 0) w =
    udp_receive (Ptr l 14) (upd_mem w l (ip_block pre (hdr_swapped hd) post)).
Proof.
  intros Hat Hv Hp. apply (run_ip_receive w l pre hd post (fun o => o = _)); [done|done|].
  by rewrite Hp.
Qed.

(** ** Witnesses *)

(** The header of a segment of 24 bytes from 10.0.0.[x] to 10.0.0.4, in host order, and
    the segment, with the checksum [ck]. *)
Definition tcp_hdr (x : Z) : ip_hdr :=
  mk_ip_hdr 69 0 [44; 0] [0; 7] [0; 0] 64 6 [0; 0] [x; 0; 0; 10] [4; 0; 0; 10].
Definition syn_segment (ck : list Z) : list Z :=
  [18; 52; 0; 80; 1; 2; 3; 4; 0; 0; 0; 0; 96; 2; 255; 255] ++ ck ++ [0; 0; 2; 4; 5; 180].

Lemma tcp_hdr_wf x : is_byte x -> hdr_wf (tcp_hdr x).
Proof. intros Hx. split; try done. unfold ip_bytes. cbn. unfold is_byte in *. repeat constructor; lia. Qed.

Lemma syn_segment_ok ck :
  length ck = 2%nat -> bytes_ok ck -> length (syn_segment ck) = 24%nat /\ bytes_ok (syn_segment ck).
Proof.
  intros Hl Hb. explode ck. rewrite !Forall_cons_iff in Hb. unfold is_byte in Hb.
  split; [done|]. repeat constructor; unfold is_byte; lia.
Qed.

(** A received segment in memory. *)
Definition tcp_world (x : Z) (ck : list Z) : world :=
  upd_mem (NetSpec.ready_world [2; 0; 0; 0; 0; 1] 67108874 []) 5%positive
    (ip_block (replicate 14 0) (tcp_hdr x) (syn_segment ck)).

Lemma tcp_world_at x ck :
  is_byte x -> hdr_at (tcp_world x ck) (Ptr 5 14) (replicate 14 0) (tcp_hdr x) (syn_segment ck).
Proof. intros Hx. split_and!; [apply lookup_upd_mem_eq|done|by apply tcp_hdr_wf]. Qed.

Lemma tcp_check_correct_witness :
  tcp_header_check (Ptr 5 14) (Ptr 5 34) (tcp_world 9 [109; 144]) =
    Ok (rfc793_valid [10; 0; 0; 9] [10; 0; 0; 4] (syn_segment [109; 144])) (tcp_world 9 [109; 144]) /\
  rfc793_valid [10; 0; 0; 9] [10; 0; 0; 4] (syn_segment [109; 144]) = true.
Proof.
  destruct (syn_segment_ok [109; 144]) as [Hl Hb]; [done|repeat constructor; done|].
  split; [|vm_compute; reflexivity].
  assert (Hsum : tcp_total [10; 0; 0; 9] [10; 0; 0; 4] (syn_segment [109; 144]) < 2 ^ 32)
    by (vm_compute; reflexivity).
  apply (tcp_check_correct (tcp_world 9 [109; 144]) (Ptr 5 14) (replicate 14 0) (tcp_hdr 9)
    (syn_segment [109; 144]) 24); [by apply tcp_world_at|done|by rewrite Hl|lia|done|exact Hsum].
Defined.

Lemma tcp_check_loses_carry_witness :
  rfc793_valid [10; 0; 0; 252] [10; 0; 0; 4] (syn_segment [108; 157]) = true /\
  tcp_header_check (Ptr 5 14) (Ptr 5 34) (tcp_world 252 [108; 157]) = Ok false (tcp_world 252 [108; 157]).
Proof.
  destruct (syn_segment_ok [108; 157]) as [Hl Hb]; [done|repeat constructor; done|].
  split; [vm_compute; reflexivity|].
  apply (tcp_check_loses_carry (tcp_world 252 [108; 157]) (Ptr 5 14) (replicate 14 0) (tcp_hdr 252)
    (syn_segment [108; 157]) 24);
    [by apply tcp_world_at|done|by rewrite Hl|lia|done|cbn; lia|vm_compute; reflexivity].
Defined.

Lemma tcp_ntoh_truncates_witness :
  word_at 4 4 (tcp_host (syn_segment [0; 0])) = 0x0102 /\
  be_load (slice 4 4 (syn_segment [0; 0])) = 0x01020304.
Proof.
  destruct (syn_segment_ok [0; 0]) as [Hl Hb]; [done|repeat constructor; done|].
  destruct (tcp_ntoh_truncates (syn_segment [0; 0]) Hb) as (_ & _ & H & _); [by rewrite Hl|].
  split; [rewrite H; vm_compute; reflexivity|vm_compute; reflexivity].
Defined.

Lemma syn_test_ignores_flags_witness :
  tcp_header_get_control_bits (le_load [0xa0; 0x10]) = TCP_CONTROL_SYN /\
  tcp_header_get_control_bits (le_load [0x50; 0x02]) <> TCP_CONTROL_SYN.
Proof.
  split.
  - by apply (syn_test_ignores_flags 0xa0 0x10).
  - intros [H _]%(syn_test_ignores_flags 0x50 0x02); done.
Defined.

(** A received UDP datagram without payload, and the same with protocol 16. *)
Definition udp_frame_hdr (proto ck : Z) : ip_hdr :=
  mk_ip_hdr 69 0 [0; 28] [0; 7] [0; 0] 64 proto [102; ck] [10; 0; 0; 9] [10; 0; 0; 4].
Definition udp_world (proto ck : Z) : world :=
  upd_mem (NetSpec.ready_world [2; 0; 0; 0; 0; 1] 67108874 []) 5%positive (ip_block (replicate 14 0) (udp_frame_hdr proto ck) (replicate 66 0)).

Lemma udp_world_at proto ck :
  is_byte proto -> is_byte ck ->
  hdr_at (udp_world proto ck) (Ptr 5 14) (replicate 14 0) (udp_frame_hdr proto ck) (replicate 66 0).
Proof.
  intros Hp Hc. split_and!; [apply lookup_upd_mem_eq|done|]. split; try done.
  unfold ip_bytes. cbn. repeat constructor; try done; apply Hp || apply Hc.
Qed.

Lemma udp_is_unsupported_witness :
  exists w', ip_receive (Ptr 5 0) (udp_world 17 190) = Ok tt w' /\
    w_stderr w' = "[ERROR] IPv4: Unsupported protocol : 17
" /\ w_stdout w' = "".
Proof.
  eexists. split.
  - apply (udp_is_unsupported (udp_world 17 190) 5%positive (replicate 14 0) (udp_frame_hdr 17 190)
      (replicate 66 0)); [apply udp_world_at; split; lia|vm_compute; reflexivity|reflexivity].
  - split; reflexivity.
Defined.

Lemma protocol_16_is_taken_for_udp_witness :
  ip_receive (Ptr 5 0) (udp_world 16 191) = udp_receive (Ptr 5 14)
    (upd_mem (udp_world 16 191) 5%positive
      (ip_block (replicate 14 0) (hdr_swapped (udp_frame_hdr 16 191)) (replicate 66 0))).
Proof.
  apply (protocol_16_is_taken_for_udp (udp_world 16 191) 5%positive (replicate 14 0)
    (udp_frame_hdr 16 191) (replicate 66 0));
    [apply udp_world_at; split; lia|vm_compute; reflexivity|reflexivity].
Defined.

End TransportSpec.
