(* ===== verification/Shutdown.v ===== *)
(** * Shutting down: arp_destroy and the exit handler

    [arp_destroy] walks the cache with the iterator of hashmap.c and frees the two cells
    of every entry; the handler [destroy] of main.c then frees the buffers of the
    network interface. *)

From S2P Require Import Prelude Words Format HashMap HashMapFacts HashMapIter World Wp Tun.
From S2P Require Import NetInterface NetFacts NetSpec Arp ArpFacts ArpSpec Ip IpFacts.
From S2P Require Import IpSpec Stack.
Import Format HashMap HashMapFacts HashMapIter World Wp Tun NetInterface NetFacts NetSpec
  Arp ArpFacts ArpSpec IpFacts IpSpec Stack.

Module Shutdown.

Implicit Types (w : world) (A : gmap Z cell) (l : loc) (c : cell) (cs : list cell).

(** ** The cells of the cache *)

Definition blocks_of (cs : list cell) : list loc := cs ≫= (fun c => [c_key c; c_val c]).

(** The cells still to free: allocated, with the sizes that the debug output reads. *)
Definition live w cs : Prop :=
  NoDup (blocks_of cs) /\
  Forall (fun c => (exists b, w_mem w !! c_key c = Some b /\ length b = 8%nat) /\
                   (exists b, w_mem w !! c_val c = Some b /\ length b = 6%nat)) cs.

Lemma elem_of_blocks l cs : l ∈ blocks_of cs <-> exists c, c ∈ cs /\ (l = c_key c \/ l = c_val c).
Proof.
  unfold blocks_of. rewrite list_elem_of_bind. split; intros (c & H1 & H2); exists c;
    rewrite !elem_of_cons, elem_of_nil in *; tauto.
Qed.

Lemma key_cells_differ w A i j c c' :
  arp_inv w A -> A !! i = Some c -> A !! j = Some c' -> c_key c = c_key c' -> i = j.
Proof.
  intros Hinv Hi Hj Heq. destruct (ai_key _ _ Hinv _ _ Hi) as (b & Hb & _ & <-).
  destruct (ai_key _ _ Hinv _ _ Hj) as (b' & Hb' & _ & <-). congruence.
Qed.

Lemma cells_live w A cs :
  arp_inv w A -> cs ≡ₚ (map_to_list A).*2 ->
  live w cs /\ forall l, l ∈ blocks_of cs <-> arp_block A l.
Proof.
  intros Hinv Hp.
  assert (Hin : forall c, c ∈ cs <-> exists i, A !! i = Some c).
  { intros c. rewrite Hp, list_elem_of_fmap. split.
    - intros ([i c'] & -> & Hi%elem_of_map_to_list). by exists i.
    - intros [i Hi]. exists (i, c). by rewrite elem_of_map_to_list. }
  split.
  - split.
    + assert (Hnd : NoDup (blocks_of (map_to_list A).*2)).
      { unfold blocks_of. rewrite list_fmap_bind. apply NoDup_bind.
        - intros [i c] [j c'] l Hi%elem_of_map_to_list Hj%elem_of_map_to_list. cbn.
          rewrite !elem_of_cons, !elem_of_nil. intros Hl Hl'.
          pose proof (key_cells_differ w A i j c c' Hinv Hi Hj) as Hk.
          pose proof (ai_val_inj _ _ Hinv _ _ _ _ Hi Hj) as Hv.
          pose proof (ai_key_val _ _ Hinv _ _ _ _ Hi Hj) as Hkv.
          pose proof (ai_key_val _ _ Hinv _ _ _ _ Hj Hi) as Hvk.
          assert (i = j) as <- by (destruct Hl as [->|[->|[]]], Hl' as [?|[?|[]]]; auto; congruence).
          congruence.
        - intros [i c] Hi%elem_of_map_to_list. cbn.
          pose proof (ai_key_val _ _ Hinv _ _ _ _ Hi Hi). constructor; [|apply NoDup_singleton].
          by rewrite list_elem_of_singleton.
        - apply NoDup_map_to_list. }
      unfold blocks_of in *. by rewrite Hp.
    + apply list.Forall_forall. intros c [i Hi]%Hin. split.
      * destruct (ai_key _ _ Hinv _ _ Hi) as (b & Hb & Hl & _). by exists b.
      * destruct (ai_val _ _ Hinv _ _ Hi) as [Hb Hl]. by eexists.
  - intros l. rewrite elem_of_blocks. split.
    + intros (c & [i Hi]%Hin & Hl). by exists i, c.
    + intros (i & c & Hi & Hl). exists c. split; [|done]. apply Hin. by exists i.
Qed.

(** The used slots of the map, as cells. *)
Lemma cache_cells w A map :
  arp_inv w A -> hm_inv (ident_in (w_mem w)) id map (entry <$> A) ->
  exists cs, used_entries (array map) = entry <$> cs /\ cs ≡ₚ (map_to_list A).*2.
Proof.
  intros Hinv Hm. pose proof (used_entries_map map (entry <$> A) Hm) as Hp.
  rewrite map_to_list_fmap, <- list_fmap_compose in Hp.
  change (snd ∘ prod_map id entry) with (entry ∘ snd (A := Z) (B := cell)) in Hp.
  rewrite list_fmap_compose in Hp.
  destruct (Permutation_map_inv _ _ Hp) as (cs & Heq & Hcs). exists cs. split; [exact Heq|].
  by symmetry.
Qed.

(** ** The loop *)

(** [w] after [ls] were freed, and some output. *)
Definition without (ls : list loc) w w' : Prop :=
  exists m o e, w' = set_out o e (set_mem m w) /\
    forall l, m !! l = if decide (l ∈ ls) then None else w_mem w !! l.

Lemma quiet_entry w c :
  (exists b, w_mem w !! c_key c = Some b /\ length b = 8%nat) ->
  (exists b, w_mem w !! c_val c = Some b /\ length b = 6%nat) ->
  quiet (debug_only debug (
    m ← get w_mem;
    ip_and_pro ← lift (read_u64 m (Some (Ptr (c_key c) 0)));
    LOG_DEBUG debug "[ARP] [CACHE] IP=";;
    printf (ipv4_fprint (u32 ip_and_pro));;
    printf " MAC=";;
    c ← deref (Some (Ptr (c_val c) 0));
    mac ← load_bytes c 6;
    printf (mac_fprint mac);;
    printf "
")) w.
Proof.
  intros (b & Hb & Hl) (b' & Hb' & Hl'). unfold debug, debug_only.
  apply quiet_read, wp_get. split; [done|].
  apply quiet_read. eapply wp_lift.
  { unfold read_u64. cbn [p_blk p_off]. rewrite Hb, Hl. reflexivity. }
  split; [done|]. unfold LOG_DEBUG.
  repeat (apply quiet_seq; [quiet_run idtac|intros ? ?]).
  apply quiet_read, wp_deref. split; [done|].
  quiet_run ltac:(split_and!; cbn; [exact Hb'|lia|lia|lia]).
Qed.

Lemma free_cell_pair w k v b b' (Q : unit -> world -> Prop) :
  w_mem w !! k = Some b -> w_mem w !! v = Some b' -> k <> v ->
  Q tt (set_mem (delete v (delete k (w_mem w))) w) ->
  wp (free_ (Some (Ptr k 0));; free_ (Some (Ptr v 0))) w Q.
Proof.
  intros Hk Hv Hne HQ. wp_step. eapply wp_free; [exact Hk|].
  eapply wp_free; [|exact HQ]. cbn. by rewrite lookup_delete_ne.
Qed.

(** The blocks [ls] are gone, after the pair [k], [v] has been freed. *)
Lemma without_pair (m : gmap loc (list Z)) k v ls l :
  (if decide (l ∈ ls) then None else delete v (delete k m) !! l) =
  (if decide (l ∈ k :: v :: ls) then None else m !! l).
Proof.
  destruct (decide (l = k)) as [->|Hk].
  { rewrite (decide_True (P := k ∈ _ :: _)) by left. case_decide; [done|].
    destruct (decide (v = k)) as [->|]; [apply lookup_delete_eq|].
    rewrite lookup_delete_ne by done. apply lookup_delete_eq. }
  destruct (decide (l = v)) as [->|Hv].
  { rewrite (decide_True (P := v ∈ _ :: _ :: _)) by (right; left). case_decide; [done|].
    apply lookup_delete_eq. }
  rewrite !lookup_delete_ne by done. apply decide_ext. rewrite !elem_of_cons. tauto.
Qed.

Lemma destroy_loop_run past map fuel it i cs w :
  w_cache w = CacheMap map -> Z.of_nat (length (array map)) = capacity map ->
  at_position map 1 it i -> (i <= length (array map))%nat -> (length (array map) - i < fuel)%nat ->
  used_entries (drop i (array map)) = entry <$> cs -> live w cs ->
  match past with
  | Some _ => exists w', destroy_loop fuel past it w = Ok tt w' /\ without (blocks_of cs) w w'
  | None => destroy_loop fuel past it w = Undefined OutOfBounds
  end.
Proof.
  intros Hc Hlen. revert it i cs w Hc. induction fuel as [|fuel IH];
    intros it i cs w Hc Hat Hi Hf Hcs Hlive; [lia|].
  pose proof (turn_spec past map {[1%positive := map]} 1 it i (lookup_singleton_eq _ _) Hlen Hat) as Hturn.
  rewrite Hcs in Hturn. cbn [destroy_loop].
  set (P := fun o : outcome unit => match past with
    | Some _ => exists w', o = Ok tt w' /\ without (blocks_of cs) w w'
    | None => o = Undefined OutOfBounds end).
  match goal with |- context [the_cache ≫= ?k] => change (P ((the_cache ≫= k) w)) end.
  apply wp_then. eapply wp_the_cache; [exact Hc|].
  destruct cs as [|c cs].
  - cbn [fmap list_fmap] in Hturn. subst P. unfold lift. unfold mbind at 1, M_bind.
    destruct past as [b|]; rewrite Hturn; [|done]. cbn. eexists. split; [reflexivity|].
    exists (w_mem w), (w_stdout w), (w_stderr w). split; [by destruct w|done].
  - destruct Hturn as (it1 & it2 & i' & H1 & H2 & Hat' & Hi' & Hrest).
    apply wp_then. eapply wp_lift; [exact H1|]. cbn [fst snd].
    apply wp_then. eapply wp_lift; [exact H2|]. cbn [fst snd entry].
    destruct Hlive as [Hnd Hall]. apply Forall_cons_iff in Hall as [[Hk Hv] Hall].
    destruct Hk as (bk & Hbk & Hlk). destruct Hv as (bv & Hbv & Hlv).
    change (blocks_of (c :: cs)) with (c_key c :: c_val c :: blocks_of cs) in *.
    apply list.NoDup_cons in Hnd as [Hk Hnd]. apply list.NoDup_cons in Hnd as [Hv Hnd].
    rewrite elem_of_cons in Hk.
    apply wp_then, wp_bind. eapply quiet_entry; [by exists bk|by exists bv|]. intros o e.
    eapply free_cell_pair; [exact Hbk|exact Hbv|tauto|].
    set (w1 := set_mem _ (set_out o e w)).
    assert (Hw1 : forall l, l <> c_key c -> l <> c_val c -> w_mem w1 !! l = w_mem w !! l)
      by (intros l H3 H4; cbn; by rewrite !lookup_delete_ne).
    assert (Hlive1 : live w1 cs).
    { split; [done|]. rewrite list.Forall_forall in Hall |- *. intros c' Hc'.
      rewrite !Hw1; [by apply Hall| | | |]; intros Heq;
        [apply Hk; right; rewrite <- Heq|apply Hv; rewrite <- Heq
        |apply Hk; right; rewrite <- Heq|apply Hv; rewrite <- Heq];
        apply elem_of_blocks; eauto. }
    specialize (IH it2 i' cs w1 Hc Hat' ltac:(lia) ltac:(lia) Hrest Hlive1).
    subst P. cbn beta. destruct past; [|exact IH]. destruct IH as (w' & -> & m & o' & e' & -> & Hm).
    eexists. split; [reflexivity|]. exists m, o', e'. split; [done|]. intros l. rewrite Hm.
    apply without_pair.
Qed.

(** [w] after the cache [A] was destroyed. *)
Definition cache_destroyed A w w' : Prop :=
  exists m o e, w' = set_cache CacheFreed (set_out o e (set_mem m w)) /\
    (forall l, arp_block A l -> m !! l = None) /\
    (forall l, ~ arp_block A l -> m !! l = w_mem w !! l).

Lemma arp_destroy_run past w A :
  arp_inv w A ->
  match past with
  | Some _ => exists w', arp_destroy past w = Ok tt w' /\ cache_destroyed A w w'
  | None => arp_destroy past w = Undefined OutOfBounds
  end.
Proof.
  intros Hinv. destruct (ai_map _ _ Hinv) as (map & Hc & Hm).
  destruct (cache_cells w A map Hinv Hm) as (cs & Hcs & Hp).
  destruct (cells_live w A cs Hinv Hp) as [Hlive Hb].
  pose proof (inv_cap_pos _ _ Hm) as Hpos. pose proof (inv_length _ _ _ _ Hm) as Hlen.
  set (P := fun o : outcome unit => match past with
    | Some _ => exists w', o = Ok tt w' /\ cache_destroyed A w w'
    | None => o = Undefined OutOfBounds end).
  change (P (arp_destroy past w)). unfold arp_destroy.
  apply wp_then. eapply wp_the_cache; [exact Hc|]. apply wp_then. wp_quiet idtac.
  set (w0 := set_out o e w). unfold hashmap_capacity, P.
  pose proof (destroy_loop_run past map (S (Z.to_nat (capacity map)))
    (hashmap_it_set_map hashmap_it_alloc 1) 0 cs w0 Hc Hlen (at_start map 1 _ ltac:(lia))
    ltac:(lia) ltac:(lia)) as Hloop.
  rewrite drop_0 in Hloop. specialize (Hloop Hcs Hlive). unfold mbind, M_bind.
  destruct past; [|by rewrite Hloop]. destruct Hloop as (w' & -> & m & o' & e' & -> & Hm').
  unfold free_hashmap, the_cache, get, mbind, M_bind. cbn [w_cache set_out set_mem w0]. rewrite Hc.
  eexists. split; [reflexivity|]. exists m, o', e'. split; [done|]. split; intros l Hl; rewrite Hm'.
  - by rewrite decide_True by by apply Hb.
  - rewrite decide_False; [done|]. by rewrite Hb.
Qed.

(** [arp_destroy] frees the two cells of every cache entry, each exactly once, and
    nothing else, as long as the byte behind the array of the hash map can be read. *)
Theorem arp_destroy_frees_cache w A b :
  arp_inv w A -> exists w', arp_destroy (Some b) w = Ok tt w' /\ cache_destroyed A w w'.
Proof. apply (arp_destroy_run (Some b)). Qed.

(** Every run of the exit handler ends in an access out of bounds: [arp_destroy] walks
    the cache to its end, whatever it holds, and the iterator reads behind the array
    before it notices the end. *)
Theorem exit_handler_reads_past_end w A code :
  arp_inv w A -> run_atexit None (Exited (A := unit) code w) = Undefined OutOfBounds.
Proof.
  intros Hinv. unfold run_atexit, destroy, mbind, M_bind.
  by rewrite (arp_destroy_run None w A Hinv).
Qed.

Lemma destroyed_inv mac w A w' :
  net_inv mac w -> arp_inv w A -> cache_destroyed A w w' -> net_inv mac w'.
Proof.
  intros Hnet Harp (m & o & e & -> & _ & Hm).
  apply (net_inv_fields mac (set_mem m w)); try done. apply net_inv_other; [done|].
  intros l Hl. apply Hm. intros Ha. by apply (ai_private _ _ Harp l).
Qed.

(** C23 Where that read does no harm the exit handler frees everything the program owns:
    the cells of the cache and the buffers of the queues, each once; what is not owned
    keeps its contents, and no frame is sent. *)
Theorem exit_handler_frees_all mac w A b code :
  net_inv mac w -> arp_inv w A ->
  exists w', run_atexit (Some b) (Exited (A := unit) code w) = Ok tt w' /\
    (forall l, arp_block A l \/ tx_block w l -> w_mem w' !! l = None) /\
    (forall l, ~ arp_block A l -> ~ tx_block w l -> w_mem w' !! l = w_mem w !! l) /\
    w_tx w' = w_tx w.
Proof.
  intros Hnet Harp. destruct (arp_destroy_run (Some b) w A Harp) as (w1 & Hrun & Hd).
  pose proof (destroyed_inv mac w A w1 Hnet Harp Hd) as Hnet1.
  destruct (net_interface_destroy_run mac w1 Hnet1) as (m' & Hrun' & Hm').
  destruct Hd as (m & o & e & -> & Hfreed & Hkept).
  assert (Hown : forall l, owns (w_buffers w) l = true <-> tx_block w l).
  { intros l. rewrite owns_elem. unfold tx_block. split.
    - intros (p & (i & Hi)%list_elem_of_lookup & Hp). by exists i, p.
    - intros (i & p & Hi & Hp). exists p. split; [apply list_elem_of_lookup; by exists i|done]. }
  assert (Hfin : forall l, m' !! l = if owns (w_buffers w) l then None else m !! l) by exact Hm'.
  eexists. split_and!.
  - unfold run_atexit, destroy, mbind, M_bind. rewrite Hrun. exact Hrun'.
  - intros l Hl. cbn [w_mem set_mem]. rewrite Hfin. destruct (owns (w_buffers w) l) eqn:E; [done|].
    destruct Hl as [Hl|Hl%Hown]; [by apply Hfreed|congruence].
  - intros l Ha Ht. cbn [w_mem set_mem]. rewrite Hfin. destruct (owns (w_buffers w) l) eqn:E.
    + by apply Hown in E.
    + by apply Hkept.
  - done.
Qed.

(** ** Witnesses: a cache that knows 10.0.0.9 *)

Lemma known_entry w A (T : table) :
  represents A T -> T !! (ARP_IPV4, [10; 0; 0; 9]) = Some [2; 0; 0; 0; 0; 9] ->
  exists l, arp_block A l.
Proof.
  intros Hrep HT. rewrite Hrep in HT by (done || (unfold ARP_IPV4; lia) || (repeat constructor; done)).
  destruct (A !! _) as [c|] eqn:HA; [|done]. exists (c_key c). by eexists _, c; split; [exact HA|left].
Qed.

Lemma arp_destroy_frees_cache_witness :
  exists w A w' l, arp_destroy (Some true) w = Ok tt w' /\ cache_destroyed A w w' /\ arp_block A l.
Proof.
  destruct (known_host []) as (w & A & T & H1 & H2 & H3 & H4 & H5 & _).
  destruct (known_entry w A T H3 H5) as [l Hl].
  destruct (arp_destroy_frees_cache w A true H2) as (w' & Hrun & Hd). by exists w, A, w', l.
Defined.

Lemma exit_handler_reads_past_end_witness :
  run_atexit None (Exited (A := unit) 1 request_world) = Undefined OutOfBounds.
Proof. exact (exit_handler_reads_past_end request_world ∅ 1 (proj2 request_inv)). Defined.

Lemma exit_handler_frees_all_witness :
  exists w A w' l, run_atexit (Some false) (Exited (A := unit) 1 w) = Ok tt w' /\
    arp_block A l /\ w_mem w' !! l = None.
Proof.
  destruct (known_host []) as (w & A & T & H1 & H2 & H3 & H4 & H5 & _).
  destruct (known_entry w A T H3 H5) as [l Hl].
  destruct (exit_handler_frees_all _ w A false 1 H1 H2) as (w' & Hrun & Hf & _).
  exists w, A, w', l. split_and!; [done|done|]. apply Hf. by left.
Defined.

End Shutdown.
