(* ===== verification/InitSpec.v ===== *)
(** * Start-up

    [tun_alloc] and [run_cmd] against the kernel's answers, and the state that [main]
    hands to the threads. *)

From S2P Require Import Prelude Words Format HashMap World Wp Tun NetInterface NetFacts.
From S2P Require Import NetSpec Arp ArpFacts ArpSpec Ip IpFacts TunSetup Stack StackFacts.
Import Format World Wp Tun NetInterface NetFacts NetSpec Arp ArpFacts ArpSpec IpFacts TunSetup
  Stack StackFacts.

Module InitSpec.

Implicit Types (k : kernel) (w : world) (fds : list Z).

(** ** Commands *)

Lemma substring_prefix n s :
  exists rest, s = String.substring 0 n s +:+ rest /\
    (rest = "" \/ String.length (String.substring 0 n s) = n).
Proof.
  revert s. induction n as [|n IH]; intros s.
  { exists s. split; [by destruct s|]. right. by destruct s. }
  destruct s as [|c s]; [exists ""; split; [done|by left]|].
  destruct (IH s) as (rest & Heq & Hor). exists rest. split.
  - cbn [String.substring]. change (String c s = String c (String.substring 0 n s +:+ rest)).
    by rewrite <- Heq.
  - destruct Hor as [?|Hl]; [by left|right]. cbn. by rewrite Hl.
Qed.

(** [run_cmd] runs a command of at most 99 characters as it is, and cuts a longer one
    to its first 99 characters without telling the caller. *)
Theorem run_cmd_truncates k cmd :
  exists rest, cmd = cmd_buffer cmd +:+ rest /\ run_cmd k cmd = k_system k (cmd_buffer cmd) /\
    (String.length (cmd_buffer cmd) <= 99)%nat /\
    ((String.length cmd <= 99)%nat <-> rest = "").
Proof.
  destruct (substring_prefix 99 cmd) as (rest & Heq & Hor). exists rest.
  change (String.substring 0 99 cmd) with (cmd_buffer cmd) in *.
  assert (Hlen : String.length cmd = (String.length (cmd_buffer cmd) + String.length rest)%nat).
  { rewrite Heq at 1. clear. generalize (cmd_buffer cmd). intros s. induction s as [|c s IH]; [done|].
    change (S (String.length (s +:+ rest)) = S (String.length s + String.length rest)). by rewrite IH. }
  assert (Hcut : (String.length (cmd_buffer cmd) <= 99)%nat).
  { unfold cmd_buffer. change (Z.to_nat (CMDBUFLEN - 1)) with 99%nat. clear. generalize 99%nat.
    intros n. revert cmd. induction n; intros [|c cmd]; cbn; try lia. pose proof (IHn cmd). lia. }
  split_and!; [done|done|done|]. split; [|intros ->; cbn in Hlen; lia].
  intros Hl. destruct Hor as [|Hn]; [done|]. destruct rest; [done|]. cbn in Hlen. lia.
Qed.

(** ** Queues *)

(** Queue [j] opens: both calls succeed. *)
Definition opens k (j : nat) : Prop := 0 <= k_open k j /\ k_ioctl k j = 0.

Definition opened_fds k (n : nat) : list Z := k_open k <$> seq 0 n.

Lemma alloc_loop_opens k n m i err fds opened :
  (forall j, (i <= j < i + n)%nat -> opens k j) ->
  alloc_loop k (n + m) i err fds opened =
  alloc_loop k m (i + n) (if n is O then err else 0)
    (foldl (fun f j => <[j := k_open k j]> f) fds (seq i n)) (opened ++ (k_open k <$> seq i n)).
Proof.
  revert i err fds opened. induction n as [|n IH]; intros i err fds opened Hok.
  - cbn. by rewrite Nat.add_0_r, app_nil_r.
  - destruct (Hok i ltac:(lia)) as [Ho Hi]. cbn [Nat.add alloc_loop]. cbv zeta.
    destruct (Z.ltb_spec (k_open k i) 0); [lia|]. rewrite Hi. cbn [Z.eqb negb].
    rewrite IH by (intros j Hj; apply Hok; lia). cbn [seq foldl fmap list_fmap].
    rewrite <- Nat.add_succ_comm, <- app_assoc. by destruct n.
Qed.

Lemma fold_insert_lookup k fds i n j :
  (i + n <= length fds)%nat ->
  foldl (fun f j => <[j := k_open k j]> f) fds (seq i n) !! j =
    if decide (i <= j < i + n)%nat then Some (k_open k j) else fds !! j.
Proof.
  revert i fds. induction n as [|n IH]; intros i fds Hl.
  - cbn. by rewrite decide_False by lia.
  - cbn [seq foldl]. rewrite IH by (rewrite length_insert; lia).
    destruct (decide (S i <= j < S i + n)%nat); [by rewrite decide_True by lia|].
    destruct (decide (j = i)) as [->|].
    + rewrite decide_True by lia. apply list_lookup_insert_eq. lia.
    + rewrite decide_False by lia. by apply list_lookup_insert_ne.
Qed.

Lemma length_opened_fds k n : length (opened_fds k n) = n.
Proof. unfold opened_fds. by rewrite length_fmap, length_seq. Qed.

Lemma lookup_opened_fds k n j : (j < n)%nat -> opened_fds k n !! j = Some (k_open k j).
Proof. intros Hj. unfold opened_fds. rewrite list_lookup_fmap, lookup_seq_lt by done. done. Qed.

Lemma fold_insert_all k fds n :
  (n <= length fds)%nat ->
  foldl (fun f j => <[j := k_open k j]> f) fds (seq 0 n) = opened_fds k n ++ drop n fds.
Proof.
  intros Hn. apply list_eq. intros j. rewrite fold_insert_lookup by lia. case_decide.
  - by rewrite lookup_app_l, lookup_opened_fds by (rewrite ?length_opened_fds; lia).
  - rewrite lookup_app_r, lookup_drop, length_opened_fds by (rewrite length_opened_fds; lia).
    f_equal. lia.
Qed.

Lemma close_loop_all i fds opened :
  Forall (fun fd => exists j, (j < i)%nat /\ fds !! j = Some fd) opened ->
  close_loop i fds opened = [].
Proof.
  revert opened. induction i as [|i IH]; intros opened Hall; cbn [close_loop].
  - destruct opened as [|fd ?]; [done|]. apply Forall_cons_iff in Hall as [(j & Hj & _) _]. lia.
  - apply IH. rewrite list.Forall_forall in Hall |- *. intros fd [Hne Hin]%list_elem_of_filter.
    destruct (Hall fd Hin) as (j & Hj & Heq). exists j. split; [|done].
    destruct (decide (j = i)) as [->|]; [by symmetry in Heq|lia].
Qed.

(** When every [open] and [ioctl] succeeds, [tun_alloc] returns 0 with one open
    descriptor per queue, in order, in [tun_fds], and the interface name in [dev]. *)
Lemma tun_alloc_run k dev_size dev n w :
  (forall j, (j < n)%nat -> opens k j) -> (n <= length (w_fds w))%nat ->
  Z.of_nat (String.length (k_name k)) < dev_size ->
  tun_alloc k dev_size (Some dev) n w =
    Ok (0, opened_fds k n, Some (k_name k)) (set_fds (opened_fds k n ++ drop n (w_fds w)) w).
Proof.
  intros Hok Hn Hname. unfold tun_alloc, mbind, M_bind. cbn [get].
  replace (alloc_loop k n) with (alloc_loop k (n + 0)) by (f_equal; lia).
  rewrite alloc_loop_opens by (intros j Hj; apply Hok; lia). cbn [alloc_loop].
  rewrite fold_insert_all by done. cbn [modify].
  destruct (Z.leb_spec dev_size (Z.of_nat (String.length (k_name k)))); [lia|]. done.
Qed.

(** The code [tun_alloc] returns when queue [i] is the first that does not open. *)
Definition failure_code k (junk : Z) (i : nat) : Z :=
  if k_open k i <? 0 then (if i is O then junk else 0) else k_ioctl k i.

Lemma tun_alloc_failed k dev_size dev n i w :
  (i < n <= length (w_fds w))%nat -> (forall j, (j < i)%nat -> opens k j) -> ~ opens k i ->
  exists w', tun_alloc k dev_size (Some dev) n w = Ok (failure_code k (w_junk w) i, [], Some dev) w' /\
    w_fds w' = opened_fds k i ++ drop i (w_fds w).
Proof.
  intros Hi Hok Hno. unfold tun_alloc, mbind, M_bind. cbn [get].
  replace (alloc_loop k n) with (alloc_loop k (i + S (n - S i))) by (f_equal; lia).
  rewrite alloc_loop_opens by (intros j Hj; apply Hok; lia). rewrite fold_insert_all by lia.
  cbn [alloc_loop Nat.add]. fold (opened_fds k i). cbn [app].
  set (fds := opened_fds k i ++ drop i (w_fds w)). unfold failure_code.
  assert (Hclosed : close_loop i fds (opened_fds k i) = []).
  { apply close_loop_all, list.Forall_forall. intros fd (j & Hj)%list_elem_of_lookup. exists j.
    apply lookup_lt_Some in Hj as Hlt. split; [by rewrite length_opened_fds in Hlt|].
    subst fds. by rewrite lookup_app_l. }
  destruct (Z.ltb_spec (k_open k i) 0).
  - rewrite Hclosed. destruct i; eexists; (split; [reflexivity|done]).
  - destruct (Z.eqb_spec (k_ioctl k i) 0); [by destruct Hno|]. cbn [negb]. rewrite Hclosed.
    eexists. split; [reflexivity|done].
Qed.

(** When queue [i] fails, [tun_alloc] leaves no descriptor open.  A failing [ioctl] is
    reported with its code. *)
Theorem tun_alloc_failure_closes k dev_size dev n i w :
  (i < n <= length (w_fds w))%nat -> (forall j, (j < i)%nat -> opens k j) ->
  0 <= k_open k i -> k_ioctl k i <> 0 ->
  exists w', tun_alloc k dev_size (Some dev) n w = Ok (k_ioctl k i, [], Some dev) w'.
Proof.
  intros Hi Hok Ho Hio.
  destruct (tun_alloc_failed k dev_size dev n i w Hi Hok) as (w' & Hrun & _); [by intros []|].
  exists w'. rewrite Hrun. unfold failure_code. by destruct (Z.ltb_spec (k_open k i) 0); [lia|].
Qed.

(** C38 A failing [open] is not reported: from the second queue on [tun_alloc] returns 0,
    the code of the last [ioctl], though every descriptor is closed and [tun_fds] still
    holds the closed ones; for the first queue it returns an uninitialised variable. *)
Theorem tun_alloc_failed_open_is_success k dev_size dev n i w :
  (i < n <= length (w_fds w))%nat -> (forall j, (j < i)%nat -> opens k j) -> k_open k i < 0 ->
  exists w', tun_alloc k dev_size (Some dev) n w = Ok (if i is O then w_junk w else 0, [], Some dev) w' /\
    take i (w_fds w') = opened_fds k i.
Proof.
  intros Hi Hok Ho.
  destruct (tun_alloc_failed k dev_size dev n i w Hi Hok) as (w' & Hrun & Hfds);
    [unfold opens; lia|].
  exists w'. rewrite Hrun, Hfds. unfold failure_code.
  rewrite (proj2 (Z.ltb_lt _ _) Ho). split; [done|].
  rewrite take_app_le, take_ge; rewrite ?length_opened_fds; lia || done.
Qed.

(** ** main *)

Lemma alloc_buffers_run n w :
  exists ps m, alloc_buffers n w = Ok ps (set_mem m w) /\ length ps = n /\
    NoDup (p_blk <$> ps) /\ (forall l b, w_mem w !! l = Some b -> m !! l = Some b) /\
    Forall (fun p => p_off p = 0 /\ w_mem w !! p_blk p = None /\
                     m !! p_blk p = Some (replicate 100 0)) ps.
Proof.
  revert w. induction n as [|n IH]; intros w.
  - exists [], (w_mem w). split_and!; [by destruct w|done|constructor|done|constructor].
  - set (l := fresh (dom (w_mem w))).
    assert (Hl : w_mem w !! l = None) by apply not_elem_of_dom, is_fresh.
    set (m1 := <[l := replicate 100 0]> (w_mem w)).
    destruct (IH (set_mem m1 w)) as (ps & m & Hrun & Hlen & Hnd & Hk & Hall).
    exists (Ptr l 0 :: ps), m. split_and!.
    + cbn [alloc_buffers]. unfold mbind, M_bind, calloc, alloc_block. fold l.
      change (Z.to_nat BUFLEN) with 100%nat. fold m1. by rewrite Hrun.
    + cbn. by rewrite Hlen.
    + cbn. constructor; [|done]. intros (p & Heq & Hp)%list_elem_of_fmap.
      rewrite list.Forall_forall in Hall. destruct (Hall p Hp) as (_ & Hn & _). cbn in Hn.
      rewrite <- Heq in Hn. subst m1. by rewrite lookup_insert_eq in Hn.
    + intros l' b Hb. apply Hk. cbn. subst m1. by rewrite lookup_insert_ne by congruence.
    + constructor.
      * split_and!; [done|done|]. apply Hk. apply lookup_insert_eq.
      * rewrite list.Forall_forall in Hall |- *. intros p Hp.
        destruct (Hall p Hp) as (H1 & H2 & H3). cbn in H2. subst m1.
        by apply lookup_insert_None in H2 as [H2 _].
Qed.

Definition main_mac : list Z := [0x30; 0x30; 0x3a; 0x30; 0x63; 0x3a].

Lemma tun_init_run k dev_size dev w :
  (forall j, (j < Z.to_nat TUN_QUEUES)%nat -> opens k j) ->
  Z.of_nat (String.length (k_name k)) < dev_size -> (forall c, k_system k c = 0) ->
  length (w_fds w) = Z.to_nat TUN_QUEUES ->
  tun_init k dev_size dev w = Ok (k_name k, opened_fds k 10) (set_fds (opened_fds k 10) w).
Proof.
  intros Hok Hname Hsys Hlen. change (Z.to_nat TUN_QUEUES) with 10%nat in *.
  unfold tun_init, mbind at 1, M_bind. change (Z.to_nat TUN_QUEUES) with 10%nat.
  rewrite tun_alloc_run by (done || lia). cbn [Z.eqb negb].
  unfold set_interface_up, set_interface_route, run_cmd. rewrite !Hsys. cbn [Z.eqb negb].
  rewrite <- Hlen, drop_all, app_nil_r. done.
Qed.

(** The kernel and the C library do what [main] asks for. *)
Record grants k (inet_pton : string -> option Z) (ip : Z) : Prop := {
  g_queues j : (j < Z.to_nat TUN_QUEUES)%nat -> opens k j;
  g_name : Z.of_nat (String.length (k_name k)) < 10;
  g_system c : k_system k c = 0;
  g_address : inet_pton "10.0.0.4" = Some ip;
  g_range : 0 <= ip < 2 ^ 32
}.

Definition initialised k (ip : Z) (rx : list rx_event) (o : outcome (list ptr)) : Prop :=
  exists ps w', o = Ok ps w' /\
    length ps = Z.to_nat THREADS /\ NoDup (p_blk <$> ps) /\
    Forall (fun p => p_off p = 0 /\ ready main_mac w' ∅ ∅ (p_blk p) (replicate 100 0)) ps /\
    w_ip w' = ip /\ w_fds w' = opened_fds k 10 /\ w_busy w' = replicate 10 false /\
    w_rx w' = rx /\ w_tx w' = [].

Lemma main_init_run k inet_pton ip junk rx :
  grants k inet_pton ip ->
  initialised k ip rx (main_init k inet_pton (static_world junk (replicate 10 0) rx)).
Proof.
  intros [Hok Hname Hsys Hip Hrange]. unfold main_init.
  apply wp_then. unfold wp. rewrite tun_init_run by done. cbv beta iota.
  apply wp_then. wp_quiet idtac.
  set (w1 := set_out o e (set_ip ip (upd_mem (static_world junk (opened_fds k 10) rx) mac_loc main_mac))).
  assert (Hinit : net_interface_init inet_pton "10.0.0.4" (chars "00:0c:29:6d:50:25")
    (set_out o e (set_fds (opened_fds k 10) (static_world junk (replicate 10 0) rx))) = Ok tt w1).
  { unfold net_interface_init. rewrite Hip. reflexivity. }
  apply wp_then. unfold wp. rewrite Hinit. cbv beta iota.
  assert (Hnet1 : net_inv main_mac w1).
  { apply (net_inv_fields main_mac (set_ip ip (upd_mem (static_world junk (opened_fds k 10) rx)
      mac_loc main_mac))); try done.
    apply started_inv; [done|repeat constructor; done|by rewrite length_opened_fds]. }
  apply wp_then. unfold wp. change (arp_init w1) with (Ok tt (set_cache (CacheMap empty_cache) w1)).
  cbv beta iota. apply wp_then. wp_quiet idtac. set (w2 := set_out o0 e0 _).
  assert (Hnet2 : net_inv main_mac w2) by by apply (net_inv_fields main_mac w1).
  assert (Harp2 : arp_inv w2 ∅).
  { eapply arp_inv_frame; [by eapply empty_cache_inv|done|done|]. by intros l (i & c & Hi & _). }
  destruct (alloc_buffers_run (Z.to_nat THREADS) w2) as (ps & m & Hrun & Hlen & Hnd & Hk & Hall).
  exists ps, (set_mem m w2). split_and!; try done. rewrite list.Forall_forall in Hall |- *.
  intros p Hp. destruct (Hall p Hp) as (H0 & Hfree & Hbuf). split; [done|].
  assert (Hno : ~ owned ∅ w2 (p_blk p)).
  { intros [Hr|Ha]; [by apply (fresh_not_reserved main_mac w2 (p_blk p))|].
    by apply (fresh_not_arp w2 ∅ (p_blk p)). }
  split; try done.
  - apply net_inv_other; [done|]. intros l [b Hl]%(reserved_alloc main_mac w2 l Hnet2).
    by rewrite Hl, (Hk l b Hl).
  - eapply arp_inv_frame; [exact Harp2|done| |]; by intros l (i & c & Hi & _).
  - by apply Forall_replicate.
Qed.

(** C14 [main] up to the loop that starts the threads: when the kernel plays along, every
    queue has its descriptor, none is busy, the cache is empty, and each of the ten
    threads gets a zeroed receive buffer of its own, in a state that is ready to handle
    frames with the address the C library parsed and the (mistaken) MAC address of
    [main]. *)
Theorem main_init_ready k inet_pton ip junk rx :
  grants k inet_pton ip ->
  initialised k ip rx (main_init k inet_pton (static_world junk (replicate 10 0) rx)).
Proof. apply main_init_run. Qed.

(** ** Witnesses: a kernel that grants everything, and one that fails *)

Definition good_kernel : kernel :=
  mk_kernel (fun i => 3 + Z.of_nat i) (fun _ => 0) "tap0" (fun _ => 0).
Definition bad_ioctl : kernel :=
  mk_kernel (fun i => 3 + Z.of_nat i) (fun i => if (i <? 2)%nat then 0 else -1) "tap0" (fun _ => 0).
Definition bad_open : kernel :=
  mk_kernel (fun i => if (i <? 2)%nat then 3 + Z.of_nat i else -1) (fun _ => 0) "tap0" (fun _ => 0).

Definition boot : world := static_world 77 (replicate 10 0) [].

Lemma tun_alloc_failure_closes_witness :
  exists w', tun_alloc bad_ioctl 10 (Some "") 10 boot = Ok (-1, [], Some "") w'.
Proof.
  apply (tun_alloc_failure_closes bad_ioctl 10 "" 10 2 boot); [cbn; lia| |cbn; lia|cbn; lia].
  intros [|[|j]] Hj; [split; cbn; lia|split; cbn; lia|lia].
Defined.

Lemma tun_alloc_failed_open_is_success_witness :
  exists w', tun_alloc bad_open 10 (Some "") 10 boot = Ok (0, [], Some "") w' /\ take 2 (w_fds w') = [3; 4].
Proof.
  apply (tun_alloc_failed_open_is_success bad_open 10 "" 10 2 boot); [cbn; lia| |cbn; lia].
  intros [|[|j]] Hj; [split; cbn; lia|split; cbn; lia|lia].
Defined.

Lemma good_grants : grants good_kernel (fun _ => Some 67108874) 67108874.
Proof. split; [intros j _; split; cbn; lia|cbn; lia|done|done|lia]. Qed.

Lemma main_init_ready_witness :
  exists ps w', main_init good_kernel (fun _ => Some 67108874) boot = Ok ps w' /\
    length ps = 10%nat /\
    Forall (fun p => p_off p = 0 /\ ready main_mac w' ∅ ∅ (p_blk p) (replicate 100 0)) ps.
Proof.
  destruct (main_init_ready good_kernel (fun _ => Some 67108874) 67108874 77 [])
    as (ps & w' & Hrun & Hlen & _ & Hall & _); [exact good_grants|by exists ps, w'].
Defined.

End InitSpec.
