(* ===== verification/Threads.v ===== *)
(** * The threads of main.c and the queues of tun_device.c

    [net_interface_read] and [net_interface_send] both take a queue in two steps:
    [available] looks for one that is free, and a later [set_busy] marks it.  Each step
    runs under the mutex, the pair does not.  [tstep] interleaves the steps of any
    number of threads on the shared [world]; the steps are the functions of Tun.v. *)

From stdpp Require Import relations.
From S2P Require Import Prelude Words Format HashMap World Wp Tun NetInterface NetFacts.
From S2P Require Import NetSpec.
Import World Wp Tun Ethernet NetInterface NetFacts NetSpec.

Module Threads.

(** Where a thread is: without a queue, after [available] returned [i], after it marked
    queue [i] as busy. *)
Inductive phase := Idle | Picked (i : nat) | Marked (i : nat).

Record system := mk_system { s_world : world; s_threads : list phase }.

Inductive tstep : system -> system -> Prop :=
| step_pick t i w w' ts :
    ts !! t = Some Idle -> available w = Ok (Z.of_nat i) w' ->
    tstep (mk_system w ts) (mk_system w' (<[t := Picked i]> ts))
| step_mark t i w w' ts :
    ts !! t = Some (Picked i) -> set_busy (Z.of_nat i) true w = Ok tt w' ->
    tstep (mk_system w ts) (mk_system w' (<[t := Marked i]> ts))
| step_release t i w w' ts :
    ts !! t = Some (Marked i) -> set_busy (Z.of_nat i) false w = Ok tt w' ->
    tstep (mk_system w ts) (mk_system w' (<[t := Idle]> ts)).

(** [n] threads on a device whose queues are free. *)
Definition quiet_device (w : world) : Prop :=
  w_busy w = replicate (Z.to_nat TUN_QUEUES) false /\ mut_status ∉ w_held w.

Definition start (w : world) (n : nat) : system := mk_system w (replicate n Idle).

(** ** The invariant *)

(** Every queue that is marked busy belongs to a thread that marked it. *)
Record threads_inv (s : system) : Prop := {
  ti_length : Z.of_nat (length (w_busy (s_world s))) = TUN_QUEUES;
  ti_held : mut_status ∉ w_held (s_world s);
  ti_range t i : s_threads s !! t = Some (Picked i) \/ s_threads s !! t = Some (Marked i) ->
    (i < length (w_busy (s_world s)))%nat;
  ti_owner i : w_busy (s_world s) !! i = Some true -> exists t, s_threads s !! t = Some (Marked i)
}.

Lemma set_busy_run w (i : nat) b :
  mut_status ∉ w_held w -> Z.of_nat (length (w_busy w)) = TUN_QUEUES -> (i < length (w_busy w))%nat ->
  set_busy (Z.of_nat i) b w = Ok tt (set_busy_status (<[i := b]> (w_busy w)) w).
Proof.
  intros Hm Hl Hi.
  destruct (wp_run (set_busy (Z.of_nat i) b) w (fun _ w' => w' = set_busy_status (<[i := b]> (w_busy w)) w))
    as ([] & w' & Hrun & ->); [by apply wp_set_busy|done].
Qed.

(** [available] either fails or returns the first free queue and changes nothing. *)
Lemma available_ok w i w' :
  mut_status ∉ w_held w -> Z.of_nat (length (w_busy w)) = TUN_QUEUES ->
  available w = Ok (Z.of_nat i) w' -> w' = w /\ first_free (w_busy w) = Some i.
Proof.
  intros Hm Hl Hrun. destruct (first_free (w_busy w)) as [j|] eqn:Hf.
  - rewrite (available_run w j Hm Hl Hf) in Hrun. split; congruence || (f_equal; injection Hrun; lia).
  - by rewrite (available_overrun w Hm Hl (first_free_None _ Hf)) in Hrun.
Qed.

Lemma start_inv w n : quiet_device w -> threads_inv (start w n).
Proof.
  intros [Hb Hm]. split; cbn; [by rewrite Hb|done| |].
  - by intros t i [[? _]%lookup_replicate_1|[? _]%lookup_replicate_1].
  - intros i Hi. rewrite Hb in Hi. by apply lookup_replicate_1 in Hi as [? _].
Qed.

Lemma tstep_inv s s' : threads_inv s -> tstep s s' -> threads_inv s'.
Proof.
  intros [Hl Hm Hr Ho] Hstep. inversion Hstep as [t i w w' ts Ht Hrun|t i w w' ts Ht Hrun|t i w w' ts Ht Hrun];
    subst; cbn in *; apply lookup_lt_Some in Ht as Htl.
  - apply available_ok in Hrun as [-> Hf]; [|done|done]. apply first_free_spec in Hf as [Hi _].
    split; cbn; [done|done| |].
    + intros t' j Hj. destruct (decide (t' = t)) as [->|].
      * rewrite list_lookup_insert_eq in Hj by done. destruct Hj; simplify_eq. by eapply lookup_lt_Some.
      * rewrite list_lookup_insert_ne in Hj by done. by eapply Hr.
    + intros j Hj. destruct (Ho j Hj) as [t' Ht']. exists t'.
      rewrite list_lookup_insert_ne; [done|]. intros <-. congruence.
  - rewrite set_busy_run in Hrun by (done || (eapply Hr; by left)). injection Hrun as <-.
    split; cbn; [by rewrite length_insert|done| |].
    + intros t' j Hj. rewrite length_insert. destruct (decide (t' = t)) as [->|].
      * rewrite list_lookup_insert_eq in Hj by done. destruct Hj; simplify_eq. eapply Hr. by left.
      * rewrite list_lookup_insert_ne in Hj by done. by eapply Hr.
    + intros j Hj. destruct (decide (j = i)) as [->|].
      { exists t. by apply list_lookup_insert_eq. }
      rewrite list_lookup_insert_ne in Hj by done. destruct (Ho j Hj) as [t' Ht'].
      exists t'. rewrite list_lookup_insert_ne; [done|]. intros <-. congruence.
  - rewrite set_busy_run in Hrun by (done || (eapply Hr; by right)). injection Hrun as <-.
    split; cbn; [by rewrite length_insert|done| |].
    + intros t' j Hj. rewrite length_insert. destruct (decide (t' = t)) as [->|].
      * rewrite list_lookup_insert_eq in Hj by done. by destruct Hj.
      * rewrite list_lookup_insert_ne in Hj by done. by eapply Hr.
    + intros j Hj. destruct (decide (j = i)) as [->|Hne].
      { apply lookup_lt_Some in Hj as Hjl. rewrite length_insert in Hjl.
        by rewrite list_lookup_insert_eq in Hj. }
      rewrite list_lookup_insert_ne in Hj by done. destruct (Ho j Hj) as [t' Ht'].
      exists t'. rewrite list_lookup_insert_ne; [done|]. intros <-. congruence.
Qed.

Lemma tstep_threads s s' : tstep s s' -> length (s_threads s') = length (s_threads s).
Proof. intros []; cbn; by rewrite length_insert. Qed.

Lemma reachable_inv w n s :
  quiet_device w -> rtc tstep (start w n) s ->
  threads_inv s /\ length (s_threads s) = n.
Proof.
  intros Hq Hsteps.
  assert (H0 : threads_inv (start w n) /\ length (s_threads (start w n)) = n)
    by (split; [by apply start_inv|apply length_replicate]).
  induction Hsteps as [|s1 s2 s3 Hstep _ IH]; [done|]. apply IH. destruct H0 as [Hi Hl].
  split; [by eapply tstep_inv|]. by rewrite (tstep_threads _ _ Hstep).
Qed.

(** ** Enough queues *)

(** The queue that a thread marked. *)
Definition marks (p : phase) : option nat := if p is Marked i then Some i else None.

Lemma omap_shorter {A B} (f : A -> option B) (l : list A) a :
  a ∈ l -> f a = None -> (length (omap f l) < length l)%nat.
Proof.
  intros Hin Ha. induction l as [|b l IH]; [by apply elem_of_nil in Hin|].
  assert (Hle : (length (omap f l) <= length l)%nat).
  { clear. induction l as [|c l IH]; cbn; [lia|]. destruct (f c); cbn; lia. }
  apply elem_of_cons in Hin as [->|Hin]; cbn.
  - rewrite Ha. lia.
  - specialize (IH Hin). destruct (f b); cbn; lia.
Qed.

(** A thread without a queue leaves one queue unmarked when there are no more threads
    than queues. *)
Lemma some_queue_free s t :
  threads_inv s -> (length (s_threads s) <= Z.to_nat TUN_QUEUES)%nat ->
  s_threads s !! t = Some Idle -> exists i, first_free (w_busy (s_world s)) = Some i.
Proof.
  intros [Hl _ _ Ho] Hn Ht. destruct (first_free (w_busy (s_world s))) as [i|] eqn:Hf; [by exists i|].
  apply first_free_None in Hf. exfalso.
  assert (Hsub : forall i, i ∈ seq 0 (Z.to_nat TUN_QUEUES) -> i ∈ omap marks (s_threads s)).
  { intros i Hi%elem_of_seq. destruct (lookup_lt_is_Some_2 (w_busy (s_world s)) i) as [b Hb]; [lia|].
    rewrite list.Forall_lookup in Hf. rewrite <- (Hf i b Hb) in Hb. destruct (Ho i Hb) as [t' Ht'].
    apply list_elem_of_omap. exists (Marked i). split; [by eapply list_elem_of_lookup_2|done]. }
  pose proof (NoDup_submseteq _ _ (NoDup_seq 0 (Z.to_nat TUN_QUEUES)) Hsub) as Hlen.
  apply submseteq_length in Hlen. rewrite length_seq in Hlen.
  pose proof (omap_shorter marks (s_threads s) Idle ltac:(by eapply list_elem_of_lookup_2) eq_refl). lia.
Qed.

(** C15 However the steps of at most ten threads interleave, a thread that looks for a queue
    finds one inside [busy_status]: no search runs over the end of the array. *)
Theorem ten_threads_never_overrun w n s t :
  quiet_device w -> (n <= Z.to_nat TUN_QUEUES)%nat -> rtc tstep (start w n) s ->
  s_threads s !! t = Some Idle ->
  exists i, available (s_world s) = Ok (Z.of_nat i) (s_world s) /\ Z.of_nat i < TUN_QUEUES /\
    w_busy (s_world s) !! i = Some false.
Proof.
  intros Hq Hn Hsteps Ht. destruct (reachable_inv w n s Hq Hsteps) as [Hinv Hlen].
  destruct (some_queue_free s t Hinv ltac:(lia) Ht) as [i Hf]. exists i.
  destruct Hinv as [Hl Hm _ _]. pose proof (first_free_spec _ _ Hf) as [Hi _].
  split_and!; [by apply available_run| |done]. apply lookup_lt_Some in Hi. lia.
Qed.

(** ** Schedules *)

(** The next step of thread [t], executable. *)
Definition advance (t : nat) (s : system) : option system :=
  match s_threads s !! t with
  | Some Idle =>
      match available (s_world s) with
      | Ok i w => if i <? 0 then None else Some (mk_system w (<[t := Picked (Z.to_nat i)]> (s_threads s)))
      | _ => None
      end
  | Some (Picked i) =>
      match set_busy (Z.of_nat i) true (s_world s) with
      | Ok _ w => Some (mk_system w (<[t := Marked i]> (s_threads s)))
      | _ => None
      end
  | Some (Marked i) =>
      match set_busy (Z.of_nat i) false (s_world s) with
      | Ok _ w => Some (mk_system w (<[t := Idle]> (s_threads s)))
      | _ => None
      end
  | None => None
  end.

Lemma advance_sound t s s' : advance t s = Some s' -> tstep s s'.
Proof.
  destruct s as [w ts]. unfold advance. cbn.
  destruct (ts !! t) as [[|i|i]|] eqn:Ht; [| | |done].
  - destruct (available w) as [j w'| | | |] eqn:Hrun; try done.
    destruct (Z.ltb_spec j 0) as [|Hj]; [done|]. intros [= <-].
    apply (step_pick t (Z.to_nat j)); [done|]. by rewrite Z2Nat.id.
  - destruct (set_busy _ _ _) as [[] w'| | | |] eqn:Hrun; try done. intros [= <-]. by eapply step_mark.
  - destruct (set_busy _ _ _) as [[] w'| | | |] eqn:Hrun; try done. intros [= <-]. by eapply step_release.
Qed.

Fixpoint run (schedule : list nat) (s : system) : option system :=
  match schedule with
  | [] => Some s
  | t :: schedule => s ← advance t s; run schedule s
  end.

Lemma run_sound schedule s s' : run schedule s = Some s' -> rtc tstep s s'.
Proof.
  revert s. induction schedule as [|t schedule IH]; intros s; cbn; [by intros [= ->]|].
  destruct (advance t s) as [s1|] eqn:Hs; [|done]. intros Hrun.
  eapply rtc_l; [by eapply advance_sound|]. by apply IH.
Qed.

(** Ten is the limit: with eleven threads, ten of which hold a queue, the search of the
    eleventh reads past the end of [busy_status]. *)
Theorem eleven_threads_overrun :
  exists s, rtc tstep (start payload_world 11) s /\ s_threads s !! 10%nat = Some Idle /\
    available (s_world s) = Undefined OutOfBounds.
Proof.
  set (schedule := seq 0 10 ≫= (fun t => [t; t])).
  destruct (run schedule (start payload_world 11)) as [s|] eqn:Hrun; [|by vm_compute in Hrun].
  exists s. split; [by eapply run_sound|]. revert Hrun.
  vm_compute. intros [= <-]. split; reflexivity.
Qed.

(** The search and the marking exclude nobody: two threads that search before either of
    them marks both take queue 0. *)
Theorem two_threads_share_a_queue :
  exists s, rtc tstep (start payload_world 2) s /\
    s_threads s = [Marked 0; Marked 0].
Proof.
  destruct (run [0; 1; 0; 1]%nat (start payload_world 2)) as [s|] eqn:Hrun; [|by vm_compute in Hrun].
  exists s. split; [by eapply run_sound|]. revert Hrun. vm_compute. by intros [= <-].
Qed.

(** ** Witness *)

Lemma ten_threads_never_overrun_witness :
  exists s i, rtc tstep (start payload_world 2) s /\ s_threads s !! 1%nat = Some Idle /\
    available (s_world s) = Ok (Z.of_nat i) (s_world s) /\ Z.of_nat i < TUN_QUEUES.
Proof.
  assert (Hq : quiet_device payload_world) by (split; [done|apply not_elem_of_nil]).
  destruct (run [0; 0]%nat (start payload_world 2)) as [s|] eqn:Hrun; [|by vm_compute in Hrun].
  assert (Ht : s_threads s !! 1%nat = Some Idle)
    by (revert Hrun; vm_compute; by intros [= <-]).
  destruct (ten_threads_never_overrun payload_world 2 s 1 Hq ltac:(unfold TUN_QUEUES; lia)
    (run_sound _ _ _ Hrun) Ht) as (i & Hi & Hl & _).
  exists s, i. split_and!; [by eapply run_sound|done|done|done].
Defined.

End Threads.
