(* ===== verification/Races.v ===== *)
(** * Two threads that send on one queue (net_interface.c)

    A queue is taken by the search of [available] and marked only when the frame is built
    (Threads.v), so two threads can build their frames in the one buffer of the queue.
    This file runs the sections of two [net_interface_send] in such an order. *)

From S2P Require Import Prelude Words Format HashMap World Wp Tun NetInterface NetFacts.
From S2P Require Import NetSpec Threads.
Import World Wp Tun Ethernet NetInterface NetFacts NetSpec Threads.

Module Races.

(** The sections of [net_interface_send] between which the threads can interleave: the
    search, the frame built in the buffer of the queue, the transmission. *)
Definition send_build (fi : Z) (content : ptr) (len : Z) (dst : ptr) (protocol : Z) : M ptr :=
  ensure_has_size fi (u32 (len + sizeof_eth_header));;
  bs ← get_buffer fi;
  eth ← deref (fst bs);
  store16 (ether_type eth) protocol;;
  memcpy (dst_mac eth) dst 6;;
  memcpy (src_mac eth) net_interface_get_mac 6;;
  memcpy (eth_payload eth) content len;;
  debug_only debug (
    s ← ethernet_fprint eth;
    printf ("[DEBUG] [NET-IF] {" +:+ Format.fmt_u fi +:+ "} Sent payload size=" +:+
            Format.fmt_u len +:+ " ");;
    printf s;;
    printf "
");;
  eth_header_hton eth;;
  mret eth.

Definition send_emit (fi : Z) (eth : ptr) (len : Z) : M unit :=
  set_busy fi true;;
  tun_write fi eth (u32 (len + sizeof_eth_header));;
  set_busy fi false.

(** The sections in a row are [net_interface_send]. *)
Lemma send_sections content len dst protocol w :
  net_interface_send content len dst protocol w =
  (fi ← available;
   if fi =? -1 then ERROR "NET-IF: No tun device available.";; abort_
   else eth ← send_build fi content len dst protocol; send_emit fi eth len) w.
Proof.
  unfold net_interface_send. apply M_bind_ext. intros fi w1. cbv zeta.
  destruct (fi =? -1); [done|]. unfold send_build.
  repeat (rewrite M_bind_assoc; apply M_bind_ext; intros ? ?). done.
Qed.

(** Two threads: both find a queue, both build their frame, both transmit. *)
Definition interleaved_sends (content1 : ptr) (len1 : Z) (dst1 : ptr) (protocol1 : Z)
    (content2 : ptr) (len2 : Z) (dst2 : ptr) (protocol2 : Z) : M unit :=
  f1 ← available;
  f2 ← available;
  e1 ← send_build f1 content1 len1 dst1 protocol1;
  e2 ← send_build f2 content2 len2 dst2 protocol2;
  send_emit f1 e1 len1;;
  send_emit f2 e2 len2.

(** ** The sections *)

Lemma drop_splice {A} off (s b : list A) n :
  (off + length s <= n)%nat -> (off <= length b)%nat -> drop n (splice off s b) = drop n b.
Proof.
  intros Hn Hb. unfold splice. rewrite !drop_app, length_take.
  rewrite (drop_ge (take off b)) by (rewrite length_take; lia). rewrite (drop_ge s) by lia.
  cbn [app]. rewrite drop_drop. f_equal. lia.
Qed.

(** A payload and a hardware address where a sender may have them, for a frame whose length
    is an [int] that [tun_write] takes. *)
Definition packet_at w content len bc dst bd : Prop :=
  in_block w content len bc /\ in_block w dst 6 bd /\
  ~ tx_block w (p_blk content) /\ ~ tx_block w (p_blk dst) /\ len + 14 < 2 ^ 31.

Lemma packet_at_keeps w w' content len bc dst bd :
  packet_at w content len bc dst bd -> keeps w w' -> packet_at w' content len bc dst bd.
Proof.
  intros (Hc & Hd & Hnc & Hnd & Hlen) Hk. split_and!; [by eapply in_block_keeps..| | |done].
  - by apply (not_tx_keeps _ _ _ _ (proj1 Hc) Hnc Hk).
  - by apply (not_tx_keeps _ _ _ _ (proj1 Hd) Hnd Hk).
Qed.

(** What [send_build] leaves in a buffer that held [b]. *)
Definition framed (len : Z) (frame b b' : list Z) : Prop :=
  length b' = length b /\ take (Z.to_nat (len + 14)) b' = frame /\
  drop (Z.to_nat (len + 14)) b' = drop (Z.to_nat (len + 14)) b.

Lemma framed_bytes len b d m protocol pay :
  length d = 6%nat -> length m = 6%nat -> Z.of_nat (length pay) = len ->
  14 + len <= Z.of_nat (length b) ->
  framed len (eth_frame d m protocol pay) b
    (splice 12 (be_store 2 protocol) (splice 14 pay (splice 6 m (splice 0 d
      (splice 12 (le_store 2 protocol) b))))).
Proof.
  intros Hd Hm Hp Hb. pose proof (length_le_store 2 protocol). pose proof (length_be_store 2 protocol).
  replace (Z.to_nat (len + 14)) with (14 + length pay)%nat by lia. split_and!.
  - slen.
  - replace (Z.to_nat (len + 14)) with (14 + length pay)%nat by lia. unfold eth_frame.
    rewrite <- (frame_bytes b d m (le_store 2 protocol) (be_store 2 protocol) pay) by lia.
    unfold slice. by rewrite drop_0.
  - rewrite !drop_splice by slen. done.
Qed.

(** The rest of [send_build], once the buffer has its size. *)
Lemma wp_build_frame mac w fi l b content len bc dst bd protocol fi' (Q : ptr -> world -> Prop) :
  net_inv mac w -> w_buffers w !! fi = Some (Some (Ptr l 0)) -> w_mem w !! l = Some b ->
  packet_at w content len bc dst bd -> 14 + len <= Z.of_nat (length b) ->
  (forall b' o e, framed len (eth_frame (bytes_at bd dst 6) mac protocol (bytes_at bc content len)) b b' ->
     Q (Ptr l 0) (set_out o e (upd_mem w l b'))) ->
  wp (store16 (ether_type (Ptr l 0)) protocol;;
      memcpy (dst_mac (Ptr l 0)) dst 6;;
      memcpy (src_mac (Ptr l 0)) net_interface_get_mac 6;;
      memcpy (eth_payload (Ptr l 0)) content len;;
      debug_only debug (
        s ← ethernet_fprint (Ptr l 0);
        printf ("[DEBUG] [NET-IF] {" +:+ Format.fmt_u fi' +:+ "} Sent payload size=" +:+
                Format.fmt_u len +:+ " ");;
        printf s;;
        printf "
");;
      eth_header_hton (Ptr l 0);;
      mret (Ptr l 0)) w Q.
Proof.
  intros Hinv Hp Hb (Hc & Hd & Hnc & Hnd & _) Hlen HQ.
  assert (Hlen0 : 0 <= len) by (destruct Hc as (_ & _ & ? & _); done).
  eapply (wp_fill_frame mac w fi l b); try done.
  pose proof (length_bytes_at _ _ _ _ Hd) as Hdl. pose proof (length_bytes_at _ _ _ _ Hc) as Hcl.
  pose proof (length_le_store 2 protocol) as Htl. pose proof (proj1 (proj2 (ni_mac _ _ Hinv))) as Hml.
  set (b4 := splice 14 _ _).
  assert (Hl4 : length b4 = length b) by (subst b4; slen).
  assert (Hty : slice 12 2 b4 = le_store 2 protocol) by (apply frame_type; lia).
  wp_step. unfold debug_only, debug. wp_step.
  eapply wp_ethernet_fprint; [apply lookup_upd_mem_eq|lia|]. intros str. do 6 wp_step.
  unfold eth_header_hton, ether_type, ptr_add. cbn [p_blk p_off Z.add].
  wp_step. wp_step; [split_and!; cbn; [apply lookup_insert_eq|lia|lia|lia]|].
  wp_step; [split_and!; cbn; [apply lookup_insert_eq|lia|lia|lia]|]. cbn [p_blk p_off]. wp_step.
  change (Z.to_nat (0 + 12)) with 12%nat. rewrite Hty. unfold htons.
  rewrite le_store_bswap, be_store_le_load.
  pose proof (framed_bytes len b (bytes_at bd dst 6) mac protocol (bytes_at bc content len)
    ltac:(lia) ltac:(lia) ltac:(lia) ltac:(lia)) as Hfr. fold b4 in Hfr.
  match goal with |- Q _ ?x =>
    replace x with (set_out (w_stdout x) (w_stderr x) (upd_mem w l (splice 12 (be_store 2 protocol) b4)))
  end; [by apply HQ|]. cbn. unfold upd_mem, set_mem, set_out. cbn. by rewrite insert_insert_eq.
Qed.

(** The frame is at the start of the buffer of the queue; [w1] is the state once the buffer
    had the size for it, [b1] what the buffer held then. *)
Record built mac w fi (len : Z) (frame : list Z) l b w' w1 b1 : Prop := {
  bt_inv : net_inv mac w';
  bt_keeps : keeps w w';
  bt_tx : w_tx w' = w_tx w;
  bt_buffer : w_buffers w' !! fi = Some (Some (Ptr l 0)) /\ w_mem w' !! l = Some b;
  bt_frame : framed len frame b1 b;
  bt_resized : resized w fi (len + 14) w1 b1;
  bt_before : w_buffers w1 !! fi = Some (Some (Ptr l 0)) /\ w_mem w1 !! l = Some b1;
  bt_room : len + 14 <= Z.of_nat (length b1);
  bt_other l' : l' <> l -> w_mem w' !! l' = w_mem w1 !! l'
}.

Lemma wp_send_build mac w fi content len bc dst bd protocol (Q : ptr -> world -> Prop) :
  net_inv mac w -> Z.of_nat fi < TUN_QUEUES -> packet_at w content len bc dst bd ->
  (forall l b w' w1 b1, built mac w fi len
     (eth_frame (bytes_at bd dst 6) mac protocol (bytes_at bc content len)) l b w' w1 b1 ->
     Q (Ptr l 0) w') ->
  wp (send_build (Z.of_nat fi) content len dst protocol) w Q.
Proof.
  intros Hinv Hfi Hpk HQ. pose proof Hpk as ((_ & _ & Hlen0 & _) & _ & _ & _ & Hlen).
  unfold send_build.
  replace (u32 (len + sizeof_eth_header)) with (len + 14)
    by (unfold u32, sizeof_eth_header; rewrite Z.mod_small; lia).
  wp_step. eapply wp_ensure_has_size; [done|lia|lia|].
  intros w1 p b Hinv1 Hk1 Htx1 Hp Hoff Hb Hlb Hres. destruct p as [l off]. cbn in Hoff, Hb. subst off.
  wp_step. unfold wp at 1, get_buffer.
  destruct (Z.ltb_spec (Z.of_nat fi) 0); [lia|]. rewrite Nat2Z.id, Hp.
  destruct (lookup_lt_is_Some_2 (w_sizes w1) fi) as [s Hs].
  { pose proof (ni_sizes _ _ Hinv1). unfold TUN_QUEUES in *. lia. }
  rewrite Hs. cbn [fst]. wp_step. wp_step.
  eapply (wp_build_frame mac w1 fi l b); [done|done|done|by eapply packet_at_keeps|lia|].
  intros b' o e Hfr. apply (HQ l b' _ w1 b). pose proof Hfr as (Hl' & _). split; try done.
  - eapply (net_inv_fields mac (upd_mem w1 l b')); try done. by eapply net_inv_write.
  - eapply (keeps_fields w (upd_mem w1 l b')); try done.
    eapply keeps_trans; [exact Hk1|]. by eapply keeps_write.
  - split; [done|apply lookup_insert_eq].
  - intros l' Hl''. cbn. by rewrite lookup_insert_ne.
Qed.

(** Marking the queue, as the first step of [send_emit]. *)
Lemma emit_marks mac w fi l len :
  net_inv mac w -> (fi < length (w_busy w))%nat ->
  send_emit (Z.of_nat fi) (Ptr l 0) len w =
    (tun_write (Z.of_nat fi) (Ptr l 0) (u32 (len + sizeof_eth_header));;
     set_busy (Z.of_nat fi) false) (set_busy_status (<[fi := true]> (w_busy w)) w) /\
  exists fd, w_fds w !! fi = Some fd.
Proof.
  intros Hinv Hfi. pose proof (ni_busy _ _ Hinv). pose proof (ni_fds _ _ Hinv). split.
  - unfold send_emit. erewrite (M_bind_run (set_busy _ _)); [reflexivity|].
    apply set_busy_run; [|done|done].
    rewrite (ni_held _ _ Hinv). apply not_elem_of_nil.
  - apply lookup_lt_is_Some_2. lia.
Qed.

Lemma send_emit_run mac w fi l b len :
  net_inv mac w -> w_busy w !! fi = Some false ->
  w_mem w !! l = Some b -> 0 <= len -> len + 14 < 2 ^ 31 -> len + 14 <= Z.of_nat (length b) ->
  send_emit (Z.of_nat fi) (Ptr l 0) len w =
    Ok tt (set_tx (w_tx w ++ [(Z.of_nat fi, take (Z.to_nat (len + 14)) b)]) w).
Proof.
  intros Hinv Hb Hl H0 Hlen Hroom. apply lookup_lt_Some in Hb as Hfi.
  destruct (emit_marks mac w fi l len Hinv Hfi) as [-> [fd Hfd]].
  replace (u32 (len + sizeof_eth_header)) with (len + 14)
    by (unfold u32, sizeof_eth_header; rewrite Z.mod_small; lia).
  set (w1 := set_busy_status _ w).
  assert (Hwr : tun_write (Z.of_nat fi) (Ptr l 0) (len + 14) w1 =
    Ok (len + 14) (set_tx (w_tx w ++ [(Z.of_nat fi, take (Z.to_nat (len + 14)) b)]) w1)).
  { rewrite tun_write_small by lia. unfold mbind, M_bind, tun_fd. destruct (Z.ltb_spec (Z.of_nat fi) 0); [lia|].
    cbn [w_fds w1 set_busy_status]. rewrite Nat2Z.id, Hfd. unfold load_bytes.
    cbn [w_mem w1 set_busy_status p_blk p_off]. rewrite Hl.
    rewrite (Z.leb_refl 0), (proj2 (Z.leb_le 0 (len + 14))) by lia.
    rewrite (proj2 (Z.leb_le (0 + (len + 14)) _)) by lia. cbn [andb].
    unfold slice. change (Z.to_nat 0) with 0%nat. by rewrite drop_0. }
  rewrite (M_bind_run _ _ _ _ _ Hwr). subst w1. pose proof (ni_busy _ _ Hinv).
  rewrite set_busy_run; cbn; rewrite ?length_insert; try done.
  - rewrite busy_restored by done. by destruct w.
  - rewrite (ni_held _ _ Hinv). apply not_elem_of_nil.
Qed.

Lemma send_emit_dangling mac w fi l len :
  net_inv mac w -> (fi < length (w_busy w))%nat -> w_mem w !! l = None ->
  0 <= len -> len + 14 < 2 ^ 31 -> send_emit (Z.of_nat fi) (Ptr l 0) len w = Undefined Dangling.
Proof.
  intros Hinv Hfi Hl H0 Hlen. destruct (emit_marks mac w fi l len Hinv Hfi) as [-> [fd Hfd]].
  rewrite tun_write_small by (unfold u32, sizeof_eth_header; rewrite Z.mod_small; lia).
  unfold mbind, M_bind, tun_fd. destruct (Z.ltb_spec (Z.of_nat fi) 0); [lia|].
  cbn [w_fds set_busy_status]. rewrite Nat2Z.id, Hfd. unfold load_bytes.
  cbn [w_mem set_busy_status p_blk]. by rewrite Hl.
Qed.

(** ** Both frames in one buffer *)

Section TwoSends.
Context (mac : list Z) (w : world) (fi : nat).
Context (content1 : ptr) (len1 : Z) (bc1 : list Z) (dst1 : ptr) (bd1 : list Z) (protocol1 : Z).
Context (content2 : ptr) (len2 : Z) (bc2 : list Z) (dst2 : ptr) (bd2 : list Z) (protocol2 : Z).
Context (Hinv : net_inv mac w) (Hfree : first_free (w_busy w) = Some fi).
Context (Hpk1 : packet_at w content1 len1 bc1 dst1 bd1).
Context (Hpk2 : packet_at w content2 len2 bc2 dst2 bd2).

Let frame1 := eth_frame (bytes_at bd1 dst1 6) mac protocol1 (bytes_at bc1 content1 len1).
Let frame2 := eth_frame (bytes_at bd2 dst2 6) mac protocol2 (bytes_at bc2 content2 len2).

(** The run up to the transmissions. *)
Lemma both_built (P : outcome unit -> Prop) :
  (forall l1 b1 v1 u1 c1 l2 b2 v2 u2 c2,
     built mac w fi len1 frame1 l1 b1 v1 u1 c1 -> built mac v1 fi len2 frame2 l2 b2 v2 u2 c2 ->
     P ((send_emit (Z.of_nat fi) (Ptr l1 0) len1;; send_emit (Z.of_nat fi) (Ptr l2 0) len2) v2)) ->
  P (interleaved_sends content1 len1 dst1 protocol1 content2 len2 dst2 protocol2 w).
Proof.
  intros HP. pose proof (first_free_spec _ _ Hfree) as [Hfi _]. apply lookup_lt_Some in Hfi.
  pose proof (ni_busy _ _ Hinv) as Hbl.
  assert (Hav : available w = Ok (Z.of_nat fi) w).
  { apply available_run; [|done|done]. rewrite (ni_held _ _ Hinv). apply not_elem_of_nil. }
  unfold interleaved_sends. rewrite !(M_bind_run _ _ _ _ _ Hav).
  apply wp_then. eapply wp_send_build; [done|lia|exact Hpk1|]. intros l1 b1 v1 u1 c1 H1.
  apply wp_then. eapply wp_send_build; [apply H1|lia|by eapply packet_at_keeps, H1|].
  intros l2 b2 v2 u2 c2 H2. by eapply HP.
Qed.

(** When the second frame fits, it is built over the first. *)
Lemma overwritten l1 b1 v1 u1 c1 l2 b2 v2 u2 c2 :
  built mac w fi len1 frame1 l1 b1 v1 u1 c1 -> built mac v1 fi len2 frame2 l2 b2 v2 u2 c2 ->
  len2 <= len1 -> l2 = l1 /\ length b2 = length b1 /\ len1 + 14 <= Z.of_nat (length b2) /\
    take (Z.to_nat (len1 + 14)) b2 =
      eth_frame (bytes_at bd2 dst2 6) mac protocol2
        (bytes_at bc2 content2 len2 ++ drop (Z.to_nat len2) (bytes_at bc1 content1 len1)).
Proof.
  intros H1 H2 Hle. destruct (bt_buffer _ _ _ _ _ _ _ _ _ _ H1) as [Hbf1 Hm1].
  destruct (bt_frame _ _ _ _ _ _ _ _ _ _ H1) as (Hl1 & Ht1 & _).
  destruct (bt_frame _ _ _ _ _ _ _ _ _ _ H2) as (Hl2 & Ht2 & Hd2).
  pose proof (bt_room _ _ _ _ _ _ _ _ _ _ H1) as Hroom.
  destruct (proj1 (bt_resized _ _ _ _ _ _ _ _ _ _ H2) _ _ Hbf1 Hm1) as [Hsame _].
  specialize (Hsame ltac:(lia)). subst u2.
  destruct (bt_before _ _ _ _ _ _ _ _ _ _ H2) as [Hbf2 Hm2].
  rewrite Hbf1 in Hbf2. injection Hbf2 as <-. rewrite Hm1 in Hm2. injection Hm2 as <-.
  assert (Hlen2 : 0 <= len2) by (destruct Hpk2 as ((_ & _ & ? & _) & _); done).
  split_and!; [done|done|lia|]. rewrite <- (take_drop (Z.to_nat (len2 + 14)) b2), Ht2, Hd2.
  assert (Hf2 : length frame2 = Z.to_nat (len2 + 14)).
  { rewrite <- Ht2, length_take. lia. }
  rewrite take_app_ge, Hf2 by lia.
  rewrite take_drop_commute.
  replace (Z.to_nat (len2 + 14) + (Z.to_nat (len1 + 14) - Z.to_nat (len2 + 14)))%nat
    with (Z.to_nat (len1 + 14)) by lia.
  rewrite Ht1. destruct Hpk1 as (_ & Hd1 & _). pose proof (length_bytes_at _ _ _ _ Hd1) as Hdl.
  pose proof (proj1 (proj2 (ni_mac _ _ Hinv))) as Hml.
  assert (Hdrop : drop (Z.to_nat (len2 + 14)) frame1 =
    drop (Z.to_nat len2) (bytes_at bc1 content1 len1)).
  { subst frame1. unfold eth_frame. pose proof (length_be_store 2 protocol1).
    replace (Z.to_nat (len2 + 14)) with (6 + (6 + (2 + Z.to_nat len2)))%nat by lia.
    rewrite <- !drop_drop, !drop_app_length' by lia. done. }
  rewrite Hdrop. subst frame2. unfold eth_frame. by rewrite <- !app_assoc.
Qed.

(** When it does not, the buffer is replaced and the first frame is freed. *)
Lemma replaced l1 b1 v1 u1 c1 l2 b2 v2 u2 c2 s :
  built mac w fi len1 frame1 l1 b1 v1 u1 c1 -> built mac v1 fi len2 frame2 l2 b2 v2 u2 c2 ->
  len1 < len2 -> w_sizes w !! fi = Some s -> s < len2 + 14 -> w_mem v2 !! l1 = None.
Proof.
  intros H1 H2 Hlt Hs Hsmall. destruct (bt_buffer _ _ _ _ _ _ _ _ _ _ H1) as [Hbf1 Hm1].
  destruct (bt_frame _ _ _ _ _ _ _ _ _ _ H1) as (Hl1 & _).
  pose proof (proj2 (bt_resized _ _ _ _ _ _ _ _ _ _ H1) s Hs) as Hlc.
  destruct (proj1 (bt_resized _ _ _ _ _ _ _ _ _ _ H2) _ _ Hbf1 Hm1) as [_ Hfreed].
  specialize (Hfreed ltac:(lia)). cbn [p_blk] in Hfreed.
  rewrite (bt_other _ _ _ _ _ _ _ _ _ _ H2); [done|]. intros ->.
  destruct (bt_before _ _ _ _ _ _ _ _ _ _ H2) as [_ Hm2]. congruence.
Qed.

End TwoSends.

(** C33 Two sends that share a queue mix their frames: when the second payload is not longer,
    the kernel is handed, for the first send, the header and the payload of the second
    followed by what is left of the first payload, and then the second frame.  The
    destination, the protocol and the start of the first packet never leave. *)
Theorem shared_queue_mixes_frames mac w fi content1 len1 bc1 dst1 bd1 protocol1
    content2 len2 bc2 dst2 bd2 protocol2 :
  net_inv mac w -> first_free (w_busy w) = Some fi ->
  packet_at w content1 len1 bc1 dst1 bd1 -> packet_at w content2 len2 bc2 dst2 bd2 ->
  len2 <= len1 ->
  exists w', interleaved_sends content1 len1 dst1 protocol1 content2 len2 dst2 protocol2 w = Ok tt w' /\
    w_tx w' = w_tx w ++
      [(Z.of_nat fi, eth_frame (bytes_at bd2 dst2 6) mac protocol2
         (bytes_at bc2 content2 len2 ++ drop (Z.to_nat len2) (bytes_at bc1 content1 len1)));
       (Z.of_nat fi, eth_frame (bytes_at bd2 dst2 6) mac protocol2 (bytes_at bc2 content2 len2))].
Proof.
  intros Hinv Hfree Hpk1 Hpk2 Hle. pose proof (first_free_spec _ _ Hfree) as [Hfi _].
  eapply (both_built mac w fi _ _ _ _ _ _ _ _ _ _ _ _ Hinv Hfree Hpk1 Hpk2).
  intros l1 b1 v1 u1 c1 l2 b2 v2 u2 c2 H1 H2.
  destruct (overwritten _ _ _ _ _ _ _ _ _ _ _ _ _ _ _ Hinv Hpk1 Hpk2 _ _ _ _ _ _ _ _ _ _ H1 H2 Hle)
    as (-> & Hl & Hroom & Hmix).
  destruct (bt_buffer _ _ _ _ _ _ _ _ _ _ H2) as [_ Hm2].
  destruct (bt_frame _ _ _ _ _ _ _ _ _ _ H2) as (_ & Ht2 & _).
  assert (Hbusy : w_busy v2 = w_busy w)
    by (rewrite (k_busy _ _ (bt_keeps _ _ _ _ _ _ _ _ _ _ H2)); apply H1).
  destruct Hpk1 as ((_ & _ & ? & _) & _ & _ & _ & ?). destruct Hpk2 as ((_ & _ & ? & _) & _).
  erewrite (M_bind_run (send_emit _ _ _)).
  2: { apply (send_emit_run mac v2 fi l1 b2); try done; [apply H2|by rewrite Hbusy]. }
  set (v3 := set_tx _ v2). exists (set_tx (w_tx v3 ++ [(Z.of_nat fi, take (Z.to_nat (len2 + 14)) b2)]) v3).
  split.
  - apply (send_emit_run mac v3 fi l1 b2); try done; [|by rewrite <- Hbusy in Hfi|lia|lia].
    apply (net_inv_fields mac v2); try done. apply H2.
  - cbn. rewrite Hmix, Ht2, (bt_tx _ _ _ _ _ _ _ _ _ _ H2), (bt_tx _ _ _ _ _ _ _ _ _ _ H1).
    by rewrite <- app_assoc.
Qed.

(** C34 When the second frame does not fit in the buffer that the first send made ready,
    [ensure_has_size] moves the buffer while the first thread still holds a pointer to
    the old block: its transmission reads freed memory. *)
Theorem shared_queue_reads_freed_buffer mac w fi content1 len1 bc1 dst1 bd1 protocol1
    content2 len2 bc2 dst2 bd2 protocol2 s :
  net_inv mac w -> first_free (w_busy w) = Some fi ->
  packet_at w content1 len1 bc1 dst1 bd1 -> packet_at w content2 len2 bc2 dst2 bd2 ->
  len1 < len2 -> w_sizes w !! fi = Some s -> s < len2 + 14 ->
  interleaved_sends content1 len1 dst1 protocol1 content2 len2 dst2 protocol2 w =
    Undefined Dangling.
Proof.
  intros Hinv Hfree Hpk1 Hpk2 Hlt Hs Hsmall. pose proof (first_free_spec _ _ Hfree) as [Hfi _].
  apply (both_built mac w fi _ _ _ _ _ _ _ _ _ _ _ _ Hinv Hfree Hpk1 Hpk2
    (fun o => o = Undefined Dangling)).
  intros l1 b1 v1 u1 c1 l2 b2 v2 u2 c2 H1 H2.
  assert (Hgone : w_mem v2 !! l1 = None)
    by (eapply replaced; [exact H1|exact H2|exact Hlt|exact Hs|exact Hsmall]).
  destruct Hpk1 as ((_ & _ & Hl0 & _) & _ & _ & _ & Hint).
  unfold mbind, M_bind. rewrite (send_emit_dangling mac v2 fi l1); [done|apply H2| |done|done|done].
  rewrite (k_busy _ _ (bt_keeps _ _ _ _ _ _ _ _ _ _ H2)), (k_busy _ _ (bt_keeps _ _ _ _ _ _ _ _ _ _ H1)).
  by eapply lookup_lt_Some.
Qed.

(** ** Witnesses *)

Lemma payload_packet off len dst bd :
  0 <= off -> 0 <= len -> off + len <= 3 -> in_block payload_world dst 6 bd ->
  packet_at payload_world (Ptr 3 off) len [0xaa; 0xbb; 0xcc] dst bd.
Proof.
  intros H0 H1 H2 Hd. split_and!; [|done|apply payload_no_tx|apply payload_no_tx|lia].
  split_and!; cbn; [reflexivity|lia|lia|lia].
Qed.

Lemma payload_dst : in_block payload_world (Ptr 4 0) 6 [2; 0; 0; 0; 0; 9].
Proof. split_and!; cbn; [reflexivity|lia|lia|lia]. Qed.

Lemma payload_broadcast : in_block payload_world BROADCAST 6 (replicate 6 255).
Proof. split_and!; cbn; [reflexivity|lia|lia|lia]. Qed.

Lemma shared_queue_mixes_frames_witness :
  exists w', interleaved_sends (Ptr 3 0) 3 (Ptr 4 0) ETH_P_IP (Ptr 3 1) 2 BROADCAST ETH_P_ARP
      payload_world = Ok tt w' /\
    w_tx w' = [(0, eth_frame (replicate 6 255) [2; 0; 0; 0; 0; 1] ETH_P_ARP [0xbb; 0xcc; 0xcc]);
               (0, eth_frame (replicate 6 255) [2; 0; 0; 0; 0; 1] ETH_P_ARP [0xbb; 0xcc])].
Proof.
  apply (shared_queue_mixes_frames [2; 0; 0; 0; 0; 1] payload_world 0 (Ptr 3 0) 3
    [0xaa; 0xbb; 0xcc] (Ptr 4 0) [2; 0; 0; 0; 0; 9] ETH_P_IP
    (Ptr 3 1) 2 [0xaa; 0xbb; 0xcc] BROADCAST (replicate 6 255) ETH_P_ARP payload_inv eq_refl).
  - apply payload_packet; [lia|lia|lia|exact payload_dst].
  - apply payload_packet; [lia|lia|lia|exact payload_broadcast].
  - lia.
Defined.

Lemma shared_queue_reads_freed_buffer_witness :
  interleaved_sends (Ptr 3 0) 1 (Ptr 4 0) ETH_P_IP (Ptr 3 0) 3 BROADCAST ETH_P_ARP payload_world =
    Undefined Dangling.
Proof.
  apply (shared_queue_reads_freed_buffer [2; 0; 0; 0; 0; 1] payload_world 0 (Ptr 3 0) 1
    [0xaa; 0xbb; 0xcc] (Ptr 4 0) [2; 0; 0; 0; 0; 9] ETH_P_IP
    (Ptr 3 0) 3 [0xaa; 0xbb; 0xcc] BROADCAST (replicate 6 255) ETH_P_ARP 0 payload_inv eq_refl).
  - apply payload_packet; [lia|lia|lia|exact payload_dst].
  - apply payload_packet; [lia|lia|lia|exact payload_broadcast].
  - lia.
  - reflexivity.
  - lia.
Defined.

End Races.
