(* ===== verification/Server.v ===== *)
(** * The program as a server: the ten threads of main.c

    A round of [process_io] is cut into the sections between which the threads interleave:
    the search for a queue, its marking, the [read], the release of the queue, the conversion
    of the header in the thread's own buffer, and [handle_frame].  A schedule says which thread
    runs its next section.  [handle_frame] itself is one section: the schedules considered,
    [plan], are those in which no other thread runs while one handles its frame (Races.v,
    ArpRaces.v and ArpAccess.v show what can happen in others).  The frames are handled in the
    order of these sections, which is not the order in which they were read. *)

From stdpp Require Import relations.
From S2P Require Import Prelude Words Format HashMap World Wp Tun TunSetup NetInterface NetFacts.
From S2P Require Import NetSpec Arp ArpFacts ArpSpec Ip IpFacts Stack StackFacts StackSpec.
From S2P Require Import InitSpec Threads.
Import World Wp Tun TunSetup Ethernet NetInterface NetFacts NetSpec Arp ArpFacts ArpSpec IpFacts Stack.
Import StackFacts StackSpec InitSpec Threads.

Module Server.

Implicit Types (w : world) (bufs : list ptr) (T : table) (A : gmap Z cell).

(** ** The sections of a round *)

(** Where a thread is in the round; [out] is what [tun_read] returned. *)
Inductive place :=
| Outside
| Found (i : nat)                (* after [available] *)
| Waiting (i : nat)              (* queue [i] is marked, in [read] *)
| Holding (i : nat) (out : Z)    (* [read] has returned *)
| Back (out : Z)                 (* after [net_interface_read] *)
| Typed.                         (* after [eth_header_ntoh] *)

Implicit Types (p : place) (ps : list place).

Definition section (buffer : ptr) p : M place :=
  match p with
  | Outside =>
      fi ← available;
      if fi =? -1 then
        LOG_DEBUG NetInterface.debug "[NET-IF] No tun device available.";;
        mret (Back (-1))
      else mret (Found (Z.to_nat fi))
  | Found i => set_busy (Z.of_nat i) true;; mret (Waiting i)
  | Waiting i => out ← tun_read (Z.of_nat i) buffer BUFLEN; mret (Holding i out)
  | Holding i out => set_busy (Z.of_nat i) false;; mret (Back out)
  | Back out =>
      (if out <? 0 then
         e ← get w_errno;
         ERROR ("Read from tun_fd: " +:+ e +:+ "
")
       else mret tt);;
      eth_header_ntoh buffer;;
      mret Typed
  | Typed => handle_frame buffer;; mret Outside
  end.

Fixpoint sections (n : nat) (buffer : ptr) p : M place :=
  match n with
  | O => mret p
  | S n => p ← section buffer p; sections n buffer p
  end.

Lemma M_ret_bind {R S} (a : R) (k : R -> M S) w : ((mret a : M R) ≫= k) w = k a w.
Proof. reflexivity. Qed.

(** The sections in a row are [process_frame]; the branch without a queue is never taken,
    by [available_correct]. *)
Lemma round_sections buffer w i w' :
  available w = Ok (Z.of_nat i) w' ->
  process_frame buffer w = (p ← sections 6 buffer Outside; mret tt) w.
Proof.
  assert (Hsplit : forall n p, sections (S n) buffer p = (p ← section buffer p; sections n buffer p)) by done.
  intros Hrun. unfold process_frame, net_interface_read.
  rewrite !M_bind_assoc, (M_bind_run _ _ _ _ _ Hrun), (proj2 (Z.eqb_neq (Z.of_nat i) (-1))) by lia.
  rewrite Hsplit. cbn [section]. rewrite !M_bind_assoc, (M_bind_run _ _ _ _ _ Hrun).
  rewrite (proj2 (Z.eqb_neq (Z.of_nat i) (-1))), Nat2Z.id, M_ret_bind by lia.
  rewrite Hsplit. cbn [section]. rewrite !M_bind_assoc. apply M_bind_ext. intros _ w1.
  rewrite M_ret_bind, Hsplit. cbn [section]. rewrite !M_bind_assoc. apply M_bind_ext. intros out w2.
  rewrite M_ret_bind, Hsplit. cbn [section]. rewrite !M_bind_assoc. apply M_bind_ext. intros _ w3.
  rewrite !M_ret_bind, Hsplit. cbn [section]. rewrite !M_bind_assoc. apply M_bind_ext. intros _ w4.
  rewrite !M_bind_assoc. apply M_bind_ext. intros _ w5.
  rewrite M_ret_bind, Hsplit. cbn [section]. rewrite !M_bind_assoc. apply M_bind_ext. intros b w6.
  reflexivity.
Qed.

(** ** Schedules *)

(** Thread [t] runs its next section. *)
Definition server_step bufs (t : nat) ps : M (list place) :=
  match ps !! t, bufs !! t with
  | Some p, Some buffer => p ← section buffer p; mret (<[t := p]> ps)
  | _, _ => mret ps
  end.

Fixpoint server_run bufs (schedule : list nat) ps : M (list place) :=
  match schedule with
  | [] => mret ps
  | t :: schedule => ps ← server_step bufs t ps; server_run bufs schedule ps
  end.

(** The place of a thread with the frame that it has read. *)
Inductive stage :=
| SOutside | SFound | SWaiting | SHolding (bs : list Z) | SBack (bs : list Z) | STyped (bs : list Z).

Implicit Types (s : stage) (ss : list stage).

Definition handles s : bool := if s is STyped _ then true else false.

(** No other thread than [t] is between [eth_header_ntoh] and the end of [handle_frame]. *)
Definition alone_at ss (t : nat) : bool :=
  match list_find (fun s => handles s = true) ss with
  | Some (u, _) => bool_decide (u = t)
  | None => true
  end.

(** The schedules in which each thread handles its frame undisturbed and every [read] finds
    a frame of [bss]: the frames in the order in which they are handled, and those left. *)
Fixpoint plan (schedule : list nat) (bss : list (list Z)) ss : option (list (list Z) * list (list Z)) :=
  match schedule with
  | [] => Some ([], bss)
  | t :: schedule =>
      if alone_at ss t then
        match ss !! t, bss with
        | Some SOutside, _ => plan schedule bss (<[t := SFound]> ss)
        | Some SFound, _ => plan schedule bss (<[t := SWaiting]> ss)
        | Some SWaiting, bs :: bss => plan schedule bss (<[t := SHolding bs]> ss)
        | Some (SHolding bs), _ => plan schedule bss (<[t := SBack bs]> ss)
        | Some (SBack bs), _ => plan schedule bss (<[t := STyped bs]> ss)
        | Some (STyped bs), _ =>
            r ← plan schedule bss (<[t := SOutside]> ss); Some (bs :: fst r, snd r)
        | _, _ => None
        end
      else None
  end.

(** ** The invariant *)

Definition phase_of p : phase :=
  match p with
  | Found i => Picked i
  | Waiting i | Holding i _ => Marked i
  | Outside | Back _ | Typed => Idle
  end.

(** The frame [bs], cut to the buffer, over something older. *)
Definition read_over (bs b : list Z) : Prop :=
  exists b0, length b0 = 100%nat /\ bytes_ok b0 /\ bytes_ok bs /\ b = received bs b0.

(** A thread in place [p] with the frame of [s] has [b] in its buffer. *)
Definition stage_ok p s (b : list Z) : Prop :=
  match p, s with
  | Outside, SOutside | Found _, SFound | Waiting _, SWaiting => True
  | Holding _ out, SHolding bs | Back out, SBack bs => 0 <= out /\ read_over bs b
  | Typed, STyped bs => exists r, read_over bs r /\ b = typed r
  | _, _ => False
  end.

Record thread_ok A w (buffer : ptr) p s : Prop := {
  tk_offset : p_off buffer = 0;
  tk_free : ~ owned A w (p_blk buffer);
  tk_buffer : exists b, w_mem w !! p_blk buffer = Some b /\ length b = 100%nat /\ bytes_ok b /\
    stage_ok p s b
}.

Record server_inv mac w A T bufs ps ss : Prop := {
  sv_net : net_inv mac w;
  sv_arp : arp_inv w A;
  sv_table : represents A T;
  sv_ip : 0 <= w_ip w < 2 ^ 32;
  sv_threads : threads_inv (mk_system w (phase_of <$> ps));
  sv_count : length ps = length bufs /\ length ss = length bufs /\ Z.of_nat (length bufs) <= TUN_QUEUES;
  sv_thread t buffer p s :
    bufs !! t = Some buffer -> ps !! t = Some p -> ss !! t = Some s -> thread_ok A w buffer p s;
  sv_distinct : NoDup (p_blk <$> bufs)
}.

Lemma net_inv_busy mac w busy :
  net_inv mac w -> length busy = length (w_busy w) -> net_inv mac (set_busy_status busy w).
Proof. intros Hinv Hl. split; try apply Hinv. cbn. rewrite Hl. apply Hinv. Qed.

Lemma arp_inv_busy w A busy : arp_inv w A -> arp_inv (set_busy_status busy w) A.
Proof.
  intros Harp. eapply arp_inv_frame; [exact Harp|done|done|]. apply (ai_private _ _ Harp).
Qed.

Lemma threads_inv_world w w' ts :
  threads_inv (mk_system w ts) -> w_busy w' = w_busy w -> w_held w' = w_held w ->
  threads_inv (mk_system w' ts).
Proof. intros [H1 H2 H3 H4] Hb Hh. by split; cbn in *; rewrite ?Hb, ?Hh. Qed.

Lemma tun_read_run w (i : nat) l b0 bs rx :
  (i < length (w_fds w))%nat -> w_mem w !! l = Some b0 -> length b0 = 100%nat ->
  w_rx w = RxFrame bs :: rx ->
  tun_read (Z.of_nat i) (Ptr l 0) BUFLEN w =
    Ok (Z.min BUFLEN (Z.of_nat (length bs)))
       (upd_mem (set_rx (w_errno w) rx w) l (received bs b0)).
Proof.
  intros Hi Hl Hlen Hrx. destruct (lookup_lt_is_Some_2 (w_fds w) i Hi) as [fd Hfd].
  unfold tun_read, mbind, M_bind, tun_fd. destruct (Z.ltb_spec (Z.of_nat i) 0); [lia|].
  rewrite Nat2Z.id, Hfd. unfold get. rewrite Hrx. change (i32 BUFLEN) with BUFLEN.
  change (BUFLEN <? 0) with false. cbv beta iota.
  unfold modify, store_bytes. cbn [w_mem set_rx p_blk p_off]. rewrite Hl.
  unfold BUFLEN. rewrite (Z.leb_refl 0).
  rewrite (proj2 (Z.leb_le _ (Z.of_nat (length b0)))) by (rewrite length_take; lia).
  reflexivity.
Qed.

(** A thread moves on: what has to hold of it and of the shared state. *)
Record moved mac A w A' T' w' (buffer : ptr) p' s' : Prop := {
  mv_net : net_inv mac w';
  mv_arp : arp_inv w' A';
  mv_table : represents A' T';
  mv_ip : w_ip w' = w_ip w;
  mv_others l b : w_mem w !! l = Some b -> ~ owned A w l -> l <> p_blk buffer ->
    w_mem w' !! l = Some b /\ ~ owned A' w' l;
  mv_thread : thread_ok A' w' buffer p' s'
}.

Section Move.
Context (mac : list Z) (w : world) (A : gmap Z cell) (T : table) (bufs : list ptr).
Context (ps : list place) (ss : list stage) (t : nat) (buffer : ptr) (p : place) (s : stage).
Context (Hinv : server_inv mac w A T bufs ps ss).
Context (Hbuf : bufs !! t = Some buffer) (Hp : ps !! t = Some p) (Hs : ss !! t = Some s).

Lemma move_inv w' A' T' p' s' :
  moved mac A w A' T' w' buffer p' s' ->
  threads_inv (mk_system w' (phase_of <$> <[t := p']> ps)) ->
  server_inv mac w' A' T' bufs (<[t := p']> ps) (<[t := s']> ss).
Proof.
  intros [Hnet Harp Hrep Hip Hother Hok] Hth. pose proof (sv_count _ _ _ _ _ _ _ Hinv) as (Hc1 & Hc2 & Hc3).
  apply lookup_lt_Some in Hp as Hpl. apply lookup_lt_Some in Hs as Hsl.
  split; try done.
  - rewrite Hip. apply Hinv.
  - by rewrite !length_insert.
  - intros u q pu su Hq Hpu Hsu. destruct (decide (u = t)) as [->|Hne].
    { rewrite list_lookup_insert_eq in Hpu by done. rewrite list_lookup_insert_eq in Hsu by done.
      by simplify_eq. }
    rewrite list_lookup_insert_ne in Hpu by done. rewrite list_lookup_insert_ne in Hsu by done.
    destruct (sv_thread _ _ _ _ _ _ _ Hinv u q pu su Hq Hpu Hsu) as [H0 Ho (b & Hb & Hl & Hbb & Hst)].
    destruct (Hother (p_blk q) b Hb Ho) as [Hm Ho'].
    { intros Heq. apply Hne. eapply (NoDup_lookup (p_blk <$> bufs)); [apply Hinv|..].
      - by rewrite list_lookup_fmap, Hq.
      - by rewrite list_lookup_fmap, Hbuf, Heq. }
    split; [done|done|]. by exists b.
  - apply Hinv.
Qed.

Lemma thread_phase : (phase_of <$> ps) !! t = Some (phase_of p).
Proof. by rewrite list_lookup_fmap, Hp. Qed.

Lemma queue_state :
  Z.of_nat (length (w_busy w)) = TUN_QUEUES /\ mut_status ∉ w_held w.
Proof. destruct (sv_threads _ _ _ _ _ _ _ Hinv) as [Hl Hm _ _]. done. Qed.

(** Outside a queue there is one that is free. *)
Lemma queue_free : phase_of p = Idle -> exists i, first_free (w_busy w) = Some i.
Proof.
  intros Hidle. pose proof (sv_count _ _ _ _ _ _ _ Hinv) as (Hc1 & _ & Hc3).
  apply (some_queue_free (mk_system w (phase_of <$> ps)) t); [apply Hinv| |].
  - cbn. rewrite length_fmap. lia.
  - cbn. by rewrite thread_phase, Hidle.
Qed.

Lemma this_thread : thread_ok A w buffer p s.
Proof. by eapply sv_thread. Qed.

(** The phase of the other threads does not move. *)
Lemma phases_insert p' : phase_of <$> <[t := p']> ps = <[t := phase_of p']> (phase_of <$> ps).
Proof. apply list_fmap_insert. Qed.

Lemma phases_same p' : phase_of p' = phase_of p -> phase_of <$> <[t := p']> ps = phase_of <$> ps.
Proof. intros Heq. rewrite phases_insert, Heq. apply list_insert_id, thread_phase. Qed.

(** A step that changes the state of the queues only. *)
Lemma moved_busy busy p' s' :
  length busy = length (w_busy w) ->
  (forall b, stage_ok p s b -> stage_ok p' s' b) ->
  moved mac A w A T (set_busy_status busy w) buffer p' s'.
Proof.
  intros Hl Hst. split; try done.
  - apply net_inv_busy; [apply Hinv|done].
  - apply arp_inv_busy, Hinv.
  - apply Hinv.
  - destruct this_thread as [H0 Ho (b & Hb & Hbl & Hbb & Hsb)]. split; [done|done|].
    exists b. auto.
Qed.

(** A step that changes the traffic, the output and the buffer of the thread only. *)
Lemma moved_buffer err rx o e b' p' s' :
  length b' = 100%nat -> bytes_ok b' -> stage_ok p' s' b' ->
  moved mac A w A T (set_out o e (upd_mem (set_rx err rx w) (p_blk buffer) b')) buffer p' s'.
Proof.
  intros Hl Hb Hst. destruct this_thread as [H0 Ho _].
  assert (Hnet : net_inv mac (set_rx err rx w)) by (apply (net_inv_fields mac w); try done; apply Hinv).
  assert (Harp : arp_inv (set_rx err rx w) A)
    by (eapply arp_inv_frame; [apply Hinv|done|done|]; apply (ai_private w A), Hinv).
  destruct (put_invs mac (set_rx err rx w) A (p_blk buffer) b' Hnet Harp Ho) as [Hnet' Harp'].
  split; try done.
  - by apply (net_inv_fields mac (upd_mem (set_rx err rx w) (p_blk buffer) b')).
  - eapply arp_inv_frame; [exact Harp'|done|done|]. apply (ai_private _ _ Harp').
  - apply Hinv.
  - intros l b Hm Hol Hne. split; [|done]. cbn. by rewrite lookup_insert_ne.
  - split; [done|done|]. exists b'. split_and!; [apply lookup_insert_eq|done..].
Qed.

End Move.

(** ** The sections *)

Section Step.
Context (mac : list Z) (w : world) (A : gmap Z cell) (T : table) (bufs : list ptr).
Context (ps : list place) (ss : list stage) (t : nat) (buffer : ptr).
Context (Hinv : server_inv mac w A T bufs ps ss) (Hbuf : bufs !! t = Some buffer).

Lemma search_step :
  ps !! t = Some Outside -> ss !! t = Some SOutside ->
  exists i, section buffer Outside w = Ok (Found i) w /\
    server_inv mac w A T bufs (<[t := Found i]> ps) (<[t := SFound]> ss).
Proof.
  intros Hp Hs. destruct (queue_free mac w A T bufs ps ss t Outside Hinv Hp eq_refl) as [i Hf].
  destruct (queue_state mac w A T bufs ps ss Hinv) as [Hl Hm].
  pose proof (available_run w i Hm Hl Hf) as Hav. exists i. split.
  - cbn [section]. rewrite (M_bind_run _ _ _ _ _ Hav).
    rewrite (proj2 (Z.eqb_neq (Z.of_nat i) (-1))) by lia. by rewrite Nat2Z.id.
  - pose proof (moved_busy mac w A T bufs ps ss t buffer Outside SOutside Hinv Hbuf Hp Hs
      (w_busy w) (Found i) SFound eq_refl ltac:(done)) as Hmv.
    replace (set_busy_status (w_busy w) w) with w in Hmv by by destruct w.
    eapply move_inv; try done. rewrite phases_insert by done.
    eapply (tstep_inv (mk_system w (phase_of <$> ps))); [apply Hinv|]. constructor; [|done].
    by apply (thread_phase ps t Outside).
Qed.

(** The steps that set the mark of a queue. *)
Lemma mark_step p s i b p' s' :
  ps !! t = Some p -> ss !! t = Some s -> (i < length (w_busy w))%nat ->
  tstep (mk_system w (phase_of <$> ps))
    (mk_system (set_busy_status (<[i := b]> (w_busy w)) w) (<[t := phase_of p']> (phase_of <$> ps))) ->
  (forall c, stage_ok p s c -> stage_ok p' s' c) ->
  server_inv mac (set_busy_status (<[i := b]> (w_busy w)) w) A T bufs
    (<[t := p']> ps) (<[t := s']> ss).
Proof.
  intros Hp Hs Hi Hstep Hst.
  pose proof (moved_busy mac w A T bufs ps ss t buffer p s Hinv Hbuf Hp Hs
    (<[i := b]> (w_busy w)) p' s' (length_insert _ _ _) Hst) as Hmv.
  eapply move_inv; try done. rewrite phases_insert by done.
  eapply tstep_inv; [apply Hinv|exact Hstep].
Qed.

Lemma in_range p i :
  ps !! t = Some p -> phase_of p = Picked i \/ phase_of p = Marked i -> (i < length (w_busy w))%nat.
Proof.
  intros Hp Hph. pose proof (sv_threads _ _ _ _ _ _ _ Hinv) as [_ _ Hr _]. apply (Hr t i).
  cbn. rewrite (thread_phase ps t p Hp). destruct Hph as [-> | ->]; auto.
Qed.

Lemma enter_step i :
  ps !! t = Some (Found i) -> ss !! t = Some SFound ->
  exists w', section buffer (Found i) w = Ok (Waiting i) w' /\
    server_inv mac w' A T bufs (<[t := Waiting i]> ps) (<[t := SWaiting]> ss) /\
    w_rx w' = w_rx w /\ w_ip w' = w_ip w /\ w_tx w' = w_tx w.
Proof.
  intros Hp Hs. destruct (queue_state mac w A T bufs ps ss Hinv) as [Hl Hm].
  pose proof (in_range _ i Hp ltac:(by left)) as Hi.
  pose proof (set_busy_run w i true Hm Hl Hi) as Hset. eexists. split_and!.
  - cbn [section]. by rewrite (M_bind_run _ _ _ _ _ Hset).
  - eapply mark_step; try done. econstructor; [by apply (thread_phase ps t (Found i))|exact Hset].
  - done.
  - done.
  - done.
Qed.

Lemma release_step i out bs :
  ps !! t = Some (Holding i out) -> ss !! t = Some (SHolding bs) ->
  exists w', section buffer (Holding i out) w = Ok (Back out) w' /\
    server_inv mac w' A T bufs (<[t := Back out]> ps) (<[t := SBack bs]> ss) /\
    w_rx w' = w_rx w /\ w_ip w' = w_ip w /\ w_tx w' = w_tx w.
Proof.
  intros Hp Hs. destruct (queue_state mac w A T bufs ps ss Hinv) as [Hl Hm].
  pose proof (in_range _ i Hp ltac:(by right)) as Hi.
  pose proof (set_busy_run w i false Hm Hl Hi) as Hset. eexists. split_and!.
  - cbn [section]. by rewrite (M_bind_run _ _ _ _ _ Hset).
  - eapply mark_step; try done. econstructor; [by apply (thread_phase ps t (Holding i out))|exact Hset].
  - done.
  - done.
  - done.
Qed.

Lemma buffer_ptr p s :
  ps !! t = Some p -> ss !! t = Some s -> thread_ok A w buffer p s /\ buffer = Ptr (p_blk buffer) 0.
Proof.
  intros Hp Hs. pose proof (sv_thread _ _ _ _ _ _ _ Hinv _ _ _ _ Hbuf Hp Hs) as Hok. split; [done|].
  destruct Hok as [H0 _ _]. destruct buffer; cbn in *. by rewrite H0.
Qed.

(** A step in the buffer of the thread. *)
Lemma buffer_step p s err rx o e b' p' s' :
  ps !! t = Some p -> ss !! t = Some s -> phase_of p' = phase_of p ->
  length b' = 100%nat -> bytes_ok b' -> stage_ok p' s' b' ->
  server_inv mac (set_out o e (upd_mem (set_rx err rx w) (p_blk buffer) b')) A T bufs
    (<[t := p']> ps) (<[t := s']> ss).
Proof.
  intros Hp Hs Hph Hl Hb Hst.
  pose proof (moved_buffer mac w A T bufs ps ss t buffer p s Hinv Hbuf Hp Hs err rx o e b' p' s'
    Hl Hb Hst) as Hmv.
  eapply move_inv; try done. rewrite (phases_same ps t p) by done.
  by apply (threads_inv_world w); [apply Hinv|..].
Qed.

Lemma read_step i bs rx :
  ps !! t = Some (Waiting i) -> ss !! t = Some SWaiting -> w_rx w = RxFrame bs :: rx -> bytes_ok bs ->
  exists out w', section buffer (Waiting i) w = Ok (Holding i out) w' /\
    server_inv mac w' A T bufs (<[t := Holding i out]> ps) (<[t := SHolding bs]> ss) /\
    w_rx w' = rx /\ w_ip w' = w_ip w /\ w_tx w' = w_tx w.
Proof.
  intros Hp Hs Hrx Hbs. destruct (buffer_ptr _ _ Hp Hs) as [[H0 Ho (b & Hb & Hl & Hbb & _)] Hptr].
  pose proof (in_range _ i Hp ltac:(by right)) as Hi.
  destruct (received_ok bs b Hl Hbb Hbs) as [Hrl Hrb].
  pose proof (ni_fds _ _ (sv_net _ _ _ _ _ _ _ Hinv)) as Hfd.
  destruct (queue_state mac w A T bufs ps ss Hinv) as [Hq _].
  pose proof (tun_read_run w i (p_blk buffer) b bs rx ltac:(lia) Hb Hl Hrx) as Hread.
  rewrite <- Hptr in Hread. set (out := Z.min BUFLEN (Z.of_nat (length bs))) in Hread.
  set (w1 := upd_mem _ _ _) in Hread. exists out, w1. split_and!; try done.
  - cbn [section]. by rewrite (M_bind_run _ _ _ _ _ Hread).
  - change w1 with (set_out (w_stdout w1) (w_stderr w1) w1).
    eapply buffer_step; try done. split; [unfold out, BUFLEN; lia|]. by exists b.
Qed.

Lemma convert_step out bs :
  ps !! t = Some (Back out) -> ss !! t = Some (SBack bs) ->
  exists w', section buffer (Back out) w = Ok Typed w' /\
    server_inv mac w' A T bufs (<[t := Typed]> ps) (<[t := STyped bs]> ss) /\
    w_rx w' = w_rx w /\ w_ip w' = w_ip w /\ w_tx w' = w_tx w.
Proof.
  intros Hp Hs. destruct (buffer_ptr _ _ Hp Hs) as [[H0 Ho (b & Hb & Hl & Hbb & Hout & Hover)] Hptr].
  destruct (wp_run (eth_header_ntoh (Ptr (p_blk buffer) 0)) w
    (fun _ w' => w' = upd_mem w (p_blk buffer) (typed b))) as ([] & w1 & Hrun & ->).
  { eapply wp_eth_swap; [exact Hb|lia|done|done]. }
  rewrite <- Hptr in Hrun. set (w1 := upd_mem _ _ _) in Hrun. exists w1. split_and!; try done.
  - cbn [section]. rewrite (proj2 (Z.ltb_ge out 0)) by done.
    rewrite (M_bind_run (mret tt) _ w tt w eq_refl). by rewrite (M_bind_run _ _ _ _ _ Hrun).
  - replace w1 with (set_out (w_stdout w) (w_stderr w)
      (upd_mem (set_rx (w_errno w) (w_rx w) w) (p_blk buffer) (typed b))) by by destruct w.
    eapply buffer_step; try done; [rewrite length_typed; lia|by apply typed_bytes|]. by exists b.
Qed.

Lemma handle_step bs bss :
  ps !! t = Some Typed -> ss !! t = Some (STyped bs) ->
  harmless mac (le_store 4 (w_ip w)) T (bs :: bss) ->
  exists b0 w' A' T' out, length b0 = 100%nat /\ bytes_ok b0 /\
    react mac (le_store 4 (w_ip w)) T (be_load (slice 12 2 (received bs b0))) (received bs b0) =
      Continue T' out /\ harmless mac (le_store 4 (w_ip w)) T' bss /\
    section buffer Typed w = Ok Outside w' /\
    server_inv mac w' A' T' bufs (<[t := Outside]> ps) (<[t := SOutside]> ss) /\
    w_rx w' = w_rx w /\ w_ip w' = w_ip w /\ snd <$> w_tx w' = (snd <$> w_tx w) ++ out.
Proof.
  intros Hp Hs Hok. destruct (buffer_ptr _ _ Hp Hs) as [[H0 Ho (b & Hb & Hl & Hbb & r & Hover & ->)] Hptr].
  destruct Hover as (b0 & Hl0 & Hb0 & Hbs & ->). destruct (received_ok bs b0 Hl0 Hb0 Hbs) as [Hrl Hrb].
  destruct (Hok b0 Hl0 Hb0) as (T' & out & Hr & Hok').
  destruct (queue_free mac w A T bufs ps ss t Typed Hinv Hp eq_refl) as [fi Hfree].
  assert (Hrd : ready mac w A T (p_blk buffer) (typed (received bs b0))) by (split; try done; apply Hinv).
  pose proof (handle_frame_follows mac w A T fi _ _ Hrd Hfree) as Hf. rewrite <- Hptr in Hf.
  destruct (typed_fields (received bs b0) ltac:(lia)) as (Hty & _).
  rewrite Hty, react_typed in Hf by done.
  change (le_load (reverse ?x)) with (be_load x) in Hf. rewrite Hr in Hf.
  destruct Hf as (a & w' & Hrun & A' & b' & Hrd' & _ & Hst & Htx).
  exists b0, w', A', T', out. split_and!; try done.
  - cbn [section]. by rewrite (M_bind_run _ _ _ _ _ Hrun).
  - assert (Hmv : moved mac A w A' T' w' buffer Outside SOutside).
    { split; try apply Hrd'; [exact (s_ip _ _ _ _ Hst)| |].
      - intros l c Hlc Hol Hne.
        apply (packet_kept A (upd_mem w (p_blk buffer) b') A' w' l c); [|exact Hol|exact Hst].
        cbn. by rewrite lookup_insert_ne.
      - split; [done|apply Hrd'|]. exists b'. split_and!; by apply Hrd' || done. }
    eapply move_inv; try done. rewrite (phases_same ps t Typed) by done.
    apply (threads_inv_world w); [apply Hinv|exact (s_busy _ _ _ _ Hst)|].
    rewrite (ni_held _ _ (rd_net _ _ _ _ _ _ Hrd')). symmetry.
    apply (ni_held mac w), Hinv.
  - exact (proj1 (s_rx _ _ _ _ Hst)).
  - exact (s_ip _ _ _ _ Hst).
  - rewrite Htx, fmap_app, <- list_fmap_compose. f_equal. apply list_fmap_id.
Qed.

End Step.

(** ** Whole schedules *)

Lemma server_step_run {R} bufs t ps buffer p (k : list place -> M R) w p' w' :
  bufs !! t = Some buffer -> ps !! t = Some p -> section buffer p w = Ok p' w' ->
  (ps ← server_step bufs t ps; k ps) w = k (<[t := p']> ps) w'.
Proof.
  intros Hb Hp Hrun. unfold server_step. rewrite Hb, Hp, M_bind_assoc.
  by rewrite (M_bind_run _ _ _ _ _ Hrun).
Qed.

(** A thread is where its stage says. *)
Lemma stage_place mac w A T bufs ps ss t s :
  server_inv mac w A T bufs ps ss -> ss !! t = Some s ->
  exists buffer p b, bufs !! t = Some buffer /\ ps !! t = Some p /\ stage_ok p s b.
Proof.
  intros Hinv Hs. pose proof (sv_count _ _ _ _ _ _ _ Hinv) as (Hc1 & Hc2 & _).
  apply lookup_lt_Some in Hs as Hl.
  destruct (lookup_lt_is_Some_2 bufs t) as [buffer Hb]; [lia|].
  destruct (lookup_lt_is_Some_2 ps t) as [p Hp]; [lia|].
  destruct (sv_thread _ _ _ _ _ _ _ Hinv _ _ _ _ Hb Hp Hs) as [_ _ (b & _ & _ & _ & Hst)].
  by exists buffer, p, b.
Qed.

Lemma serve_all schedule bss mac w A T bufs ps ss hs left :
  server_inv mac w A T bufs ps ss -> plan schedule bss ss = Some (hs, left) ->
  w_rx w = RxFrame <$> bss -> Forall (fun bs => bytes_ok bs) bss ->
  harmless mac (le_store 4 (w_ip w)) T hs ->
  exists ps' ss' w' A' T' out, server_run bufs schedule ps w = Ok ps' w' /\
    server_inv mac w' A' T' bufs ps' ss' /\ serves mac (le_store 4 (w_ip w)) T hs T' out /\
    w_rx w' = RxFrame <$> left /\ snd <$> w_tx w' = (snd <$> w_tx w) ++ out.
Proof.
  revert bss w A T ps ss hs. induction schedule as [|t schedule IH];
    intros bss w A T ps ss hs Hinv Hplan Hrx Hbs Hok; cbn [plan] in Hplan.
  { simplify_eq. exists ps, ss, w, A, T, []. rewrite app_nil_r. split_and!; try done. constructor. }
  destruct (alone_at ss t); [|done]. destruct (ss !! t) as [s|] eqn:Hs; [|done].
  destruct (stage_place _ _ _ _ _ _ _ _ _ Hinv Hs) as (buffer & p & b & Hbuf & Hp & Hst).
  assert (Hgo : forall p' s' w1 bss1, section buffer p w = Ok p' w1 ->
    server_inv mac w1 A T bufs (<[t := p']> ps) (<[t := s']> ss) ->
    plan schedule bss1 (<[t := s']> ss) = Some (hs, left) -> w_rx w1 = RxFrame <$> bss1 ->
    Forall (fun bs => bytes_ok bs) bss1 -> w_ip w1 = w_ip w -> w_tx w1 = w_tx w ->
    exists ps' ss' w' A' T' out, server_run bufs (t :: schedule) ps w = Ok ps' w' /\
      server_inv mac w' A' T' bufs ps' ss' /\ serves mac (le_store 4 (w_ip w)) T hs T' out /\
      w_rx w' = RxFrame <$> left /\ snd <$> w_tx w' = (snd <$> w_tx w) ++ out).
  { intros p' s' w1 bss1 Hrun Hinv1 Hpl Hrx1 Hbs1 Hip Htx. cbn [server_run].
    rewrite (server_step_run _ _ _ _ _ _ _ _ _ Hbuf Hp Hrun). rewrite <- Hip, <- Htx.
    eapply IH; try done. by rewrite Hip. }
  destruct s as [| | |bs|bs|bs], p as [|i|i|i out|out|]; cbn in Hst; try done.
  - destruct (search_step _ _ _ _ _ _ _ _ _ Hinv Hbuf Hp Hs) as (i & Hrun & Hinv1). by eapply Hgo.
  - destruct (enter_step _ _ _ _ _ _ _ _ _ Hinv Hbuf i Hp Hs) as (w1 & Hrun & Hinv1 & Hrx1 & Hip & Htx).
    eapply Hgo; try done. by rewrite Hrx1.
  - destruct bss as [|bs bss]; [done|]. apply Forall_cons_iff in Hbs as [Hb Hbs].
    destruct (read_step _ _ _ _ _ _ _ _ _ Hinv Hbuf i bs _ Hp Hs Hrx Hb)
      as (out & w1 & Hrun & Hinv1 & Hrx1 & Hip & Htx). by eapply Hgo.
  - destruct (release_step _ _ _ _ _ _ _ _ _ Hinv Hbuf i out bs Hp Hs)
      as (w1 & Hrun & Hinv1 & Hrx1 & Hip & Htx). eapply Hgo; try done. by rewrite Hrx1.
  - destruct (convert_step _ _ _ _ _ _ _ _ _ Hinv Hbuf out bs Hp Hs)
      as (w1 & Hrun & Hinv1 & Hrx1 & Hip & Htx). eapply Hgo; try done. by rewrite Hrx1.
  - destruct (plan schedule bss _) as [[hs1 left1]|] eqn:Hpl; [|done]. cbn in Hplan. simplify_eq.
    destruct (handle_step _ _ _ _ _ _ _ _ _ Hinv Hbuf bs hs1 Hp Hs Hok)
      as (b0 & w1 & A1 & T1 & out1 & Hl0 & Hb0 & Hr & Hok1 & Hrun & Hinv1 & Hrx1 & Hip & Htx).
    destruct (IH bss w1 A1 T1 _ _ hs1 Hinv1 Hpl) as (ps' & ss' & w' & A' & T' & out & Hrun' & Hinv' & Hsv & Hrx' & Htx').
    { by rewrite Hrx1. } { done. } { by rewrite Hip. }
    exists ps', ss', w', A', T', (out1 ++ out). rewrite Hip in Hsv. split_and!; try done.
    + cbn [server_run]. by rewrite (server_step_run _ _ _ _ _ _ _ _ _ Hbuf Hp Hrun).
    + by econstructor.
    + by rewrite Htx', Htx, app_assoc.
Qed.

(** What [main] hands to the threads satisfies the invariant. *)
Lemma initialised_inv k ip rx bufs w :
  initialised k ip rx (Ok bufs w) -> 0 <= ip < 2 ^ 32 ->
  server_inv main_mac w ∅ ∅ bufs (replicate (length bufs) Outside) (replicate (length bufs) SOutside) /\
  w_ip w = ip /\ w_rx w = rx /\ w_tx w = [].
Proof.
  intros (ps' & w' & [= <- <-] & Hlen & Hnd & Hall & Hip & _ & Hbusy & Hrx & Htx) Hrange.
  split; [|done]. rewrite list.Forall_forall in Hall.
  destruct bufs as [|q bufs]; [done|]. destruct (Hall q ltac:(left)) as [_ Hrd].
  split; try apply Hrd; try done.
  - rewrite fmap_replicate. apply start_inv. split; cbn; [by rewrite Hbusy|].
    rewrite (ni_held _ _ (rd_net _ _ _ _ _ _ Hrd)). apply not_elem_of_nil.
  - rewrite !length_replicate. unfold THREADS, TUN_QUEUES in *. lia.
  - intros t buffer p s Hq%list_elem_of_lookup_2 [-> _]%lookup_replicate_1 [-> _]%lookup_replicate_1.
    destruct (Hall buffer Hq) as [H0 Hrdq].
    split; [done|apply Hrdq|]. exists (replicate 100 0). split_and!; by apply Hrdq || done.
Qed.

(** C3 The whole program, from the start of [main], whenever the kernel grants what [main]
    asks for: the ten threads interleave freely between the sections of their rounds,
    except that while a thread is between [eth_header_ntoh] and the end of [handle_frame]
    no other thread runs ([plan] admits the schedule; every [read] finds a frame).  When
    the frames, in the order [hs] in which they are handled, are harmless, no step is
    undefined, blocks or ends the process; the frames sent, in order, and the translation
    table are those that [react] composes over [hs]; the frames not read are left, and the
    state is ready for more. *)
Theorem main_serves k inet_pton ip junk schedule bss hs left :
  grants k inet_pton ip ->
  plan schedule bss (replicate (Z.to_nat THREADS) SOutside) = Some (hs, left) ->
  Forall (fun bs => bytes_ok bs) bss -> harmless main_mac (le_store 4 ip) ∅ hs ->
  exists bufs ps ss w' A' T' out,
    (bufs ← main_init k inet_pton;
     ps ← server_run bufs schedule (replicate (length bufs) Outside);
     mret (bufs, ps)) (static_world junk (replicate 10 0) (RxFrame <$> bss)) = Ok (bufs, ps) w' /\
    server_inv main_mac w' A' T' bufs ps ss /\ serves main_mac (le_store 4 ip) ∅ hs T' out /\
    w_rx w' = RxFrame <$> left /\ snd <$> w_tx w' = out.
Proof.
  intros Hg Hplan Hbs Hok.
  pose proof (main_init_run k inet_pton ip junk (RxFrame <$> bss) Hg) as Hinit.
  destruct (main_init k inet_pton _) as [bufs w| | | |] eqn:Hrun; try (by destruct Hinit as (?&?&?&_)).
  destruct (initialised_inv _ _ _ _ _ Hinit (g_range _ _ _ Hg)) as (Hinv & Hip & Hrx & Htx).
  assert (Hn : length bufs = Z.to_nat THREADS) by (destruct Hinit as (?&?&[= <- <-]&Hl&_); exact Hl).
  destruct (serve_all schedule bss main_mac w ∅ ∅ bufs _ _ hs left Hinv)
    as (ps & ss & w' & A' & T' & out & Hr & Hs).
  - by rewrite Hn.
  - done.
  - done.
  - by rewrite Hip.
  - rewrite Hip, Htx in Hs. exists bufs, ps, ss, w', A', T', out.
    by rewrite (M_bind_run _ _ _ _ _ Hrun), (M_bind_run _ _ _ _ _ Hr).
Qed.

(** ** Witness: two threads in one queue, whose rounds overlap *)

(** Both look for a queue before either marks it, thread 1 reads the request, thread 0 the
    ping; thread 1 handles its frame, then thread 0. *)
Definition overlapping : list nat := [0; 1; 0; 1; 1; 0; 0; 1; 1; 1; 0; 0; 5]%nat.

Lemma main_serves_witness :
  exists bufs ps ss w' A' T' out,
    (bufs ← main_init good_kernel (fun _ => Some 67108874);
     ps ← server_run bufs overlapping (replicate (length bufs) Outside);
     mret (bufs, ps)) (static_world 77 (replicate 10 0) (RxFrame <$> [request; ping; request])) =
      Ok (bufs, ps) w' /\
    server_inv main_mac w' A' T' bufs ps ss /\
    serves main_mac (le_store 4 67108874) ∅ [request; ping] T' out /\
    w_rx w' = [RxFrame request] /\ snd <$> w_tx w' = out.
Proof.
  apply (main_serves good_kernel (fun _ => Some 67108874) 67108874 77 overlapping
    [request; ping; request] [request; ping] [request] good_grants);
    [reflexivity| |apply request_then_ping].
  constructor; [exact request_bytes|constructor; [exact ping_bytes|]].
  constructor; [exact request_bytes|constructor].
Defined.

End Server.
