(* ===== verification/HashMapAccess.v ===== *)
(** * The hash map access by access (src/src/collections/hashmap.c)

    In protocols/arp.c a thread calls [hashmap_put] under [cache_mutex] while others call
    [hashmap_get] without it.  Here the struct and its arrays are shared memory and both
    functions are cut at their single accesses, in the order of the C statements: a reader
    is an automaton ([lookup_step]), the writer is the list of the stores of the function
    ([put_accesses]), as its own reads see nothing but its own stores.  Accesses are
    interleaved as in a sequentially consistent memory.

    [ensures G m s Q] says that the writer [m] returns with [Q] and that every single store
    on the way guarantees [G] to the readers. *)

From stdpp Require Import relations.
From S2P Require Import Prelude HashMap HashMapFacts.
Import HashMap HashMapFacts.

Module HashMapAccess.

(** ** Shared memory *)

Section Memory.
Context {K V : Type} {nullK : NullPtr K} {nullV : NullPtr V} (ops : KeyOps K).

(** [struct hashmap] and the arrays on the heap.  The number of a block is not used again
    after [free]: a pointer to it stays dangling. *)
Record shared := mk_shared {
  sh_blocks : gmap nat (list (hashmap_element K V));
  sh_next : nat;
  sh_array : nat;
  sh_capacity : Z;
  sh_size : Z
}.

Inductive access :=
| Calloc (b : nat) (n : Z)
| SetArray (b : nat)                         (* map->array = ... *)
| SetCapacity (z : Z)
| SetSize (z : Z)
| SetValue (b : nat) (index : Z) (v : V)     (* el->value = ..., el = &b[index] *)
| SetKey (b : nat) (index : Z) (k : K)
| SetUsed (b : nat) (index : Z)              (* el->used = 1 *)
| Free (b : nat).

Implicit Types (s : shared) (a : access) (b : nat) (el : hashmap_element K V).

Definition array_of b s : res (list (hashmap_element K V)) :=
  match sh_blocks s !! b with Some arr => Val arr | None => Fault Dangling end.

Definition read_element b (index : Z) s : res (hashmap_element K V) :=
  arr ← array_of b s; element_at arr index.

Definition write_element b (index : Z) (f : hashmap_element K V -> hashmap_element K V) s
    : res shared :=
  arr ← array_of b s;
  el ← element_at arr index;
  mret (mk_shared (<[b := <[Z.to_nat index := f el]> arr]> (sh_blocks s))
    (sh_next s) (sh_array s) (sh_capacity s) (sh_size s)).

Definition do_access a s : res shared :=
  match a with
  | Calloc b n => mret (mk_shared (<[b := replicate (Z.to_nat n) zero_element]> (sh_blocks s))
      (S b) (sh_array s) (sh_capacity s) (sh_size s))
  | SetArray b => mret (mk_shared (sh_blocks s) (sh_next s) b (sh_capacity s) (sh_size s))
  | SetCapacity z => mret (mk_shared (sh_blocks s) (sh_next s) (sh_array s) z (sh_size s))
  | SetSize z => mret (mk_shared (sh_blocks s) (sh_next s) (sh_array s) (sh_capacity s) z)
  | SetValue b index v => write_element b index (fun el => mk_element (used el) (key el) v) s
  | SetKey b index k => write_element b index (fun el => mk_element (used el) k (value el)) s
  | SetUsed b index => write_element b index (fun el => mk_element true (key el) (value el)) s
  | Free b =>
      match sh_blocks s !! b with
      | Some _ => mret (mk_shared (delete b (sh_blocks s)) (sh_next s) (sh_array s)
          (sh_capacity s) (sh_size s))
      | None => Fault BadFree
      end
  end.

(** The table that is in memory now. *)
Definition table s : res (hashmap K V) :=
  arr ← array_of (sh_array s) s; mret (mk_hashmap arr (sh_capacity s) (sh_size s)).

(** ** The reader: [hashmap_get_or_default]

    A stage names the next access; the one after [hashmap_indexof] reads [map->array] a
    second time. *)
Inductive stage :=
| Start                        (* [map->capacity], after the hash *)
| AtIndex (index : Z)          (* [map->array], in [hashmap_indexof] *)
| AtUsed (b : nat) (index : Z) (* [el->used], the condition of the loop *)
| AtKey (b : nat) (index : Z)  (* [el->key] and the call of [equals] *)
| AtNext (index : Z)           (* [map->capacity], for the next index *)
| Found (index : Z)            (* [map->array], after [hashmap_indexof] *)
| AtCheck (b : nat) (index : Z) (* [el->used] *)
| AtValue (b : nat) (index : Z) (* [el->value] *)
| Done (r : V).

Definition lookup_step (k : K) (def : V) (l : stage) s : res stage :=
  match l with
  | Start => h ← hash k; mret (AtIndex (Z.land h (sh_capacity s - 1)))
  | AtIndex index => mret (AtUsed (sh_array s) index)
  | AtUsed b index =>
      el ← read_element b index s; mret (if used el then AtKey b index else Found index)
  | AtKey b index =>
      el ← read_element b index s;
      eq ← equals k (key el);
      mret (if eq : bool then Found index else AtNext index)
  | AtNext index => mret (AtIndex (Z.land (index + 1) (sh_capacity s - 1)))
  | Found index => mret (AtCheck (sh_array s) index)
  | AtCheck b index =>
      el ← read_element b index s; mret (if used el then AtValue b index else Done def)
  | AtValue b index => el ← read_element b index s; mret (Done (value el))
  | Done r => mret (Done r)
  end.

Definition done (l : stage) : Prop := match l with Done _ => True | _ => False end.
#[export] Instance done_dec l : Decision (done l).
Proof. destruct l; apply _. Defined.

(** The reader alone, [fuel] accesses. *)
Fixpoint lookup_alone (fuel : nat) (k : K) (def : V) (l : stage) s : res stage :=
  match fuel with
  | O => mret l
  | S fuel => l ← lookup_step k def l s; lookup_alone fuel k def l s
  end.

(** ** The writer: [hashmap_put] and [hashmap_expand] *)

(** A computation that reads and writes memory and logs its stores. *)
Definition W (A : Type) : Type := shared -> res (A * list access * shared).

#[export] Instance W_ret : MRet W := fun A x s => Val (x, [], s).
#[export] Instance W_bind : MBind W := fun A B f m s =>
  match m s with
  | Val (x, log1, s1) =>
      match f x s1 with
      | Val (y, log2, s2) => Val (y, log1 ++ log2, s2)
      | Fault e => Fault e
      end
  | Fault e => Fault e
  end.

Definition read {A} (f : shared -> res A) : W A := fun s => x ← f s; mret (x, [], s).
Definition store (a : access) : W unit := fun s => s' ← do_access a s; mret (tt, [a], s').

(** The end of [hashmap_put], after the call to [hashmap_expand]. *)
Definition put_tail (k : K) (data : V) : W unit :=
  index ← read (fun s => map ← table s; hashmap_indexof ops map k);
  b ← read (fun s => mret (sh_array s));
  store (SetValue b index data);;
  el ← read (read_element b index);
  if used el then mret tt
  else
    store (SetKey b index k);;
    store (SetUsed b index);;
    z ← read (fun s => mret (sh_size s));
    store (SetSize (z + 1)).

(** The loop of [hashmap_expand], [put] being [hashmap_put]. *)
Fixpoint reinsert_tail (put : K -> V -> W unit) (old : nat) (indices : list nat) : W unit :=
  match indices with
  | [] => mret tt
  | i :: indices =>
      el ← read (read_element old (Z.of_nat i));
      (if used el then put (key el) (value el) else mret tt);;
      reinsert_tail put old indices
  end.

Definition expand_tail (put : K -> V -> W unit) : W unit :=
  capacity ← read (fun s => mret (sh_capacity s));
  array ← read (fun s => mret (sh_next s));
  store (Calloc array (capacity * 2));;
  old ← read (fun s => mret (sh_array s));
  store (SetArray array);;
  store (SetSize 0);;
  store (SetCapacity (2 * capacity));;
  reinsert_tail put old (seq 0 (Z.to_nat capacity));;
  store (Free old).

Fixpoint put_writes (depth : nat) (k : K) (data : V) : W unit :=
  load ← read (fun s => map ← table s; mret (hashmap_load_factor map));
  (if 70 <? load then
     match depth with
     | O => fun _ => Fault Diverges
     | S depth => expand_tail (put_writes depth)
     end
   else mret tt);;
  put_tail k data.

(** The stores of one [hashmap_put] from a memory that no other thread writes. *)
Definition put_accesses (k : K) (data : V) s : res (list access) :=
  r ← put_writes 1 k data s; mret r.1.2.

(** ** Many readers and the holder of the mutex *)

Record system := mk_system {
  s_shared : shared;
  s_log : list access;             (* what the [hashmap_put] under way has yet to store *)
  s_todo : list (K * V);           (* the calls of [hashmap_put] to come *)
  s_readers : list (K * stage)
}.

Inductive step (def : V) : system -> system -> Prop :=
| step_read s log todo rs t k l l' :
    rs !! t = Some (k, l) -> ~ done l -> lookup_step k def l s = Val l' ->
    step def (mk_system s log todo rs) (mk_system s log todo (<[t := (k, l')]> rs))
| step_write s a log todo rs s' :
    do_access a s = Val s' ->
    step def (mk_system s (a :: log) todo rs) (mk_system s' log todo rs)
| step_put s k v todo rs log :
    put_accesses k v s = Val log ->
    step def (mk_system s [] ((k, v) :: todo) rs) (mk_system s log todo rs).

Definition start s (todo : list (K * V)) (ks : list K) : system :=
  mk_system s [] todo ((fun k => (k, Start)) <$> ks).

(** One step, chosen by reader, or of the holder of the mutex; executable. *)
Definition move (def : V) (who : option nat) (sys : system) : option system :=
  let '(mk_system s log todo rs) := sys in
  match who with
  | Some t =>
      match rs !! t with
      | Some (k, l) =>
          if decide (done l) then None
          else match lookup_step k def l s with
               | Val l' => Some (mk_system s log todo (<[t := (k, l')]> rs))
               | Fault _ => None
               end
      | None => None
      end
  | None =>
      match log, todo with
      | a :: log, _ =>
          match do_access a s with Val s' => Some (mk_system s' log todo rs) | Fault _ => None end
      | [], (k, v) :: todo =>
          match put_accesses k v s with Val log => Some (mk_system s log todo rs) | Fault _ => None end
      | [], [] => None
      end
  end.

Fixpoint moves (def : V) (schedule : list (option nat)) (sys : system) : option system :=
  match schedule with
  | [] => Some sys
  | who :: schedule => sys ← move def who sys; moves def schedule sys
  end.

Lemma move_step def who sys sys' : move def who sys = Some sys' -> step def sys sys'.
Proof.
  destruct sys as [s log todo rs]. unfold move. destruct who as [t|].
  - destruct (rs !! t) as [[k l]|] eqn:Ht; [|done]. case_decide; [done|].
    destruct (lookup_step k def l s) eqn:Hrun; [|discriminate]. intros [= <-]. by eapply step_read.
  - destruct log as [|a log].
    + destruct todo as [|[k v] todo]; [done|]. destruct (put_accesses k v s) eqn:Hput; [|done].
      intros [= <-]. by apply step_put.
    + destruct (do_access a s) eqn:Ha; [|discriminate]. intros [= <-]. by apply step_write.
Qed.

Lemma moves_nsteps def schedule sys sys' :
  moves def schedule sys = Some sys' -> nsteps (step def) (length schedule) sys sys'.
Proof.
  revert sys. induction schedule as [|who schedule IH]; intros sys; cbn [moves];
    [intros [= ->]; constructor|].
  destruct (move def who sys) as [sys1|] eqn:Hm; [|done]. intros Hrun.
  eapply nsteps_l; [by eapply move_step|]. by apply IH.
Qed.

(** A memory with one table. *)
Definition in_memory (map : hashmap K V) : shared :=
  mk_shared {[0%nat := array map]} 1 0 (capacity map) (size_ map).

End Memory.

Arguments shared : clear implicits.
Arguments access : clear implicits.
Arguments stage : clear implicits.
Arguments system : clear implicits.
Arguments W : clear implicits.

End HashMapAccess.
