(* ===== verification/HashMapAccessFacts.v ===== *)
(** * Facts on the accesses of the hash map

    The logic of [ensures]; [stored s map]: the memory [s] holds the table [map] and
    nothing else writes it.  The stores of [hashmap_put] leave what [hashmap_put] of
    HashMap.v returns ([put_writes_spec]), whatever they guarantee to the readers on the
    way: [grows] in general, [keeps] when the table does not grow. *)

From stdpp Require Import relations.
From S2P Require Import Prelude HashMap HashMapFacts HashMapGrowth HashMapAccess.
Import HashMap HashMapFacts HashMapGrowth HashMapAccess.

Module HashMapAccessFacts.

(** ** What the writer guarantees *)

Section Guarantees.
Context {K V : Type} {nullK : NullPtr K} {nullV : NullPtr V}.
Implicit Types (s : shared K V) (a : access K V) (log : list (access K V)).

(** Every store of the log succeeds and is of the kind [G], from [s] to [s']. *)
Inductive trace (G : relation (shared K V)) : list (access K V) -> relation (shared K V) :=
| trace_nil s : trace G [] s s
| trace_cons a log s s1 s2 :
    do_access a s = Val s1 -> G s s1 -> trace G log s1 s2 -> trace G (a :: log) s s2.

Lemma trace_app G log1 log2 s s1 s2 :
  trace G log1 s s1 -> trace G log2 s1 s2 -> trace G (log1 ++ log2) s s2.
Proof. induction 1; [done|]. intros H2. econstructor; eauto. Qed.

Lemma trace_mono (G G' : relation (shared K V)) log s s' :
  (forall x y, G x y -> G' x y) -> trace G log s s' -> trace G' log s s'.
Proof. intros HG. induction 1; econstructor; eauto. Qed.

Definition ensures {A} (G : relation (shared K V)) (m : W K V A) s
    (Q : A -> shared K V -> Prop) : Prop :=
  exists x log s', m s = Val (x, log, s') /\ trace G log s s' /\ Q x s'.

Lemma ensures_ret {A} G (x : A) s (Q : A -> shared K V -> Prop) :
  Q x s -> ensures G (mret x) s Q.
Proof. intros HQ. exists x, [], s. split_and!; [done|constructor|done]. Qed.

Lemma ensures_bind {A B} G (m : W K V A) (f : A -> W K V B) s Q :
  ensures G m s (fun x s' => ensures G (f x) s' Q) -> ensures G (m ≫= f) s Q.
Proof.
  intros (x & log1 & s1 & Hm & H1 & y & log2 & s2 & Hf & H2 & HQ).
  exists y, (log1 ++ log2), s2. split_and!; [|by eapply trace_app|done].
  unfold mbind, W_bind. by rewrite Hm, Hf.
Qed.

Lemma ensures_read {A} G (f : shared K V -> res A) x s (Q : A -> shared K V -> Prop) :
  f s = Val x -> Q x s -> ensures G (read f) s Q.
Proof.
  intros Hf HQ. exists x, [], s. split_and!; [|constructor|done]. unfold read. by rewrite Hf.
Qed.

Lemma ensures_store (G : relation (shared K V)) a s s' (Q : unit -> shared K V -> Prop) :
  do_access a s = Val s' -> G s s' -> Q tt s' -> ensures G (store a) s Q.
Proof.
  intros Ha HG HQ. exists tt, [a], s'. split_and!; [|econstructor; [done|done|constructor]|done].
  unfold store. by rewrite Ha.
Qed.

Lemma ensures_mono {A} G (m : W K V A) s (Q Q' : A -> shared K V -> Prop) :
  ensures G m s Q -> (forall x s', Q x s' -> Q' x s') -> ensures G m s Q'.
Proof. intros (x & log & s' & Hm & Ht & HQ) HQQ. exists x, log, s'. auto. Qed.
End Guarantees.

(** One step of the code: a read whose value is known, or a store. *)
Ltac w_read := apply ensures_bind; eapply ensures_read; [try done|].
Ltac w_store := apply ensures_bind; eapply ensures_store.

(** ** The table in memory *)

Section Stored.
Context {K V : Type} {nullK : NullPtr K} {nullV : NullPtr V}.
Implicit Types (s : shared K V) (map : hashmap K V) (el : hashmap_element K V).

Record stored s map : Prop := {
  st_array : sh_blocks s !! sh_array s = Some (array map);
  st_capacity : sh_capacity s = capacity map;
  st_size : sh_size s = size_ map;
  st_next b arr : sh_blocks s !! b = Some arr -> (b < sh_next s)%nat
}.

Lemma stored_table s map : stored s map -> table s = Val map.
Proof.
  intros [Harr Hcap Hsize _]. unfold table, array_of. rewrite Harr. cbn.
  rewrite Hcap, Hsize. by destruct map.
Qed.

(** The memory [s] with the element [el] in slot [j] of its table. *)
Definition set_slot s (j : nat) el (arr : list (hashmap_element K V)) : shared K V :=
  mk_shared (<[sh_array s := <[j := el]> arr]> (sh_blocks s)) (sh_next s) (sh_array s)
    (sh_capacity s) (sh_size s).

Lemma read_slot s arr j el :
  sh_blocks s !! sh_array s = Some arr -> arr !! j = Some el ->
  read_element (sh_array s) (Z.of_nat j) s = Val el.
Proof.
  intros Harr Hj. unfold read_element, array_of. rewrite Harr. cbn.
  by rewrite (element_at_lookup _ _ _ Hj).
Qed.

Lemma write_slot s arr j el f :
  sh_blocks s !! sh_array s = Some arr -> arr !! j = Some el ->
  write_element (sh_array s) (Z.of_nat j) f s = Val (set_slot s j (f el) arr).
Proof.
  intros Harr Hj. unfold write_element, array_of. rewrite Harr. cbn.
  rewrite (element_at_lookup _ _ _ Hj). cbn. by rewrite Nat2Z.id.
Qed.

Lemma set_slot_slot s j el el' arr :
  set_slot (set_slot s j el arr) j el' (<[j := el]> arr) = set_slot s j el' arr.
Proof. unfold set_slot. cbn. by rewrite insert_insert_eq, list_insert_insert_eq. Qed.

Lemma stored_set_slot s map j el arr :
  stored s map -> arr = array map ->
  stored (set_slot s j el arr) (set_element map (Z.of_nat j) el).
Proof.
  intros [Harr Hcap Hsize Hnext] ->. split; cbn; [|done|done|].
  - by rewrite lookup_insert_eq, Nat2Z.id.
  - intros b arr [[<- _]|[_ Hb]]%lookup_insert_Some; by eapply Hnext.
Qed.

(** A change of the size in memory. *)
Definition set_size (z : Z) s : shared K V :=
  mk_shared (sh_blocks s) (sh_next s) (sh_array s) (sh_capacity s) z.

Lemma stored_set_size s map d :
  stored s map -> stored (set_size (sh_size s + d) s) (add_size map d).
Proof. intros [Harr Hcap Hsize Hnext]. split; cbn; [done|done|by rewrite Hsize|done]. Qed.
End Stored.

(** ** The guarantees *)

Section Writer.
Context {K V I : Type} {nullK : NullPtr K} {nullV : NullPtr V} `{Countable I}.
Context {ops : KeyOps K} {ident : K -> option I} {ihash : I -> Z}.
Context {laws : KeyLaws ops ident ihash}.
Implicit Types (s : shared K V) (map : hashmap K V) (M : gmap I (K * V)) (i : I) (k : K) (v : V).
Implicit Types (arr : list (hashmap_element K V)) (el : hashmap_element K V) (l : stage V).
Implicit Types (G : relation (shared K V)).

Abbreviation hm_inv := (HashMap.hm_inv ident ihash).

(** A used slot stays used by the same key. *)
Definition kept_element el el' : Prop := used el = true -> used el' = true /\ key el' = key el.

Definition kept arr arr' : Prop :=
  length arr' = length arr /\
  forall j el el', arr !! j = Some el -> arr' !! j = Some el' -> kept_element el el'.

Definition idents arr : Prop :=
  forall j el, arr !! j = Some el -> used el = true -> is_Some (ident (key el)).

(** What holds between any two stores. *)
Record sane s : Prop := {
  sn_capacity : exists n, 0 <= n /\ sh_capacity s = 2 ^ n;
  sn_array : exists arr, sh_blocks s !! sh_array s = Some arr /\ sh_capacity s <= Z.of_nat (length arr);
  sn_idents b arr : sh_blocks s !! b = Some arr -> idents arr;
  sn_next b arr : sh_blocks s !! b = Some arr -> (b < sh_next s)%nat
}.

Definition array_length s : nat :=
  match sh_blocks s !! sh_array s with Some arr => length arr | None => O end.

(** What any store guarantees: the array in use never gets shorter, a block that is still
    there keeps its keys. *)
Record grows s s' : Prop := {
  gw_sane : sane s';
  gw_length : (array_length s <= array_length s')%nat;
  gw_next : (sh_next s <= sh_next s')%nat;
  gw_blocks b arr' : sh_blocks s' !! b = Some arr' -> (b < sh_next s)%nat ->
    exists arr, sh_blocks s !! b = Some arr /\ kept arr arr'
}.

(** The table is well-formed but for the size, which is stored last. *)
Definition live s M : Prop :=
  exists arr, sh_blocks s !! sh_array s = Some arr /\
    hm_inv (mk_hashmap arr (sh_capacity s) (Z.of_nat (size M))) M.

(** What a store guarantees when the table does not grow. *)
Record keeps s s' : Prop := {
  kp_live : exists M, live s' M;
  kp_array : sh_array s' = sh_array s;
  kp_capacity : sh_capacity s' = sh_capacity s;
  kp_kept arr : sh_blocks s !! sh_array s = Some arr ->
    exists arr', sh_blocks s' !! sh_array s = Some arr' /\ kept arr arr'
}.

Lemma kept_refl arr : kept arr arr.
Proof. split; [done|]. intros j el el' Hj Hj'. rewrite Hj in Hj'. by injection Hj' as ->. Qed.

Lemma kept_insert arr j el el' :
  arr !! j = Some el -> kept_element el el' -> kept arr (<[j := el']> arr).
Proof.
  intros Hj Hk. split; [apply length_insert|]. intros x e e' Hx. apply lookup_lt_Some in Hx as Hlt.
  rewrite list_lookup_insert. case_decide as Hc; [intros [= <-]|].
  - destruct Hc as [<- _]. rewrite Hj in Hx. by injection Hx as <-.
  - rewrite Hx. by intros [= <-].
Qed.

Lemma idents_insert arr j el :
  idents arr -> (used el = true -> is_Some (ident (key el))) -> idents (<[j := el]> arr).
Proof.
  intros Ha He x e. rewrite list_lookup_insert. case_decide; [by intros [= <-]|apply Ha].
Qed.

Lemma grows_set_slot s arr j el el' :
  sane s -> sh_blocks s !! sh_array s = Some arr -> arr !! j = Some el ->
  kept_element el el' -> (used el' = true -> is_Some (ident (key el'))) ->
  grows s (set_slot s j el' arr).
Proof.
  intros [Hcap (arr0 & Harr0 & Hlen) Hid Hnext] Harr Hj Hk He.
  rewrite Harr in Harr0. injection Harr0 as <-. split.
  - split; cbn; [done| | |].
    + rewrite lookup_insert_eq. eexists. split; [done|]. by rewrite length_insert.
    + intros b a [[<- <-]|[_ Hb]]%lookup_insert_Some; [|by eapply Hid].
      apply idents_insert; [by eapply Hid|done].
    + intros b a [[<- _]|[_ Hb]]%lookup_insert_Some; by eapply Hnext.
  - unfold array_length. cbn. rewrite Harr, lookup_insert_eq, length_insert. done.
  - done.
  - cbn. intros b a [[<- <-]|[_ Hb]]%lookup_insert_Some _.
    + exists arr. split; [done|]. by eapply kept_insert.
    + exists a. split; [done|apply kept_refl].
Qed.

(** Stores into the struct. *)
Lemma grows_fields s s' arr arr' :
  sane s -> sh_blocks s' = sh_blocks s -> sh_next s' = sh_next s ->
  sh_blocks s !! sh_array s = Some arr -> sh_blocks s !! sh_array s' = Some arr' ->
  (length arr <= length arr')%nat -> (exists n, 0 <= n /\ sh_capacity s' = 2 ^ n) ->
  sh_capacity s' <= Z.of_nat (length arr') -> grows s s'.
Proof.
  intros [_ _ Hid Hnext] Hb Hn Harr Harr' Hle Hcap Hlen.
  split; [|unfold array_length; by rewrite Hb, Harr, Harr'|lia|].
  - split; rewrite ?Hb, ?Hn; eauto.
  - rewrite Hb. intros b a Ha _. exists a. split; [done|apply kept_refl].
Qed.

Lemma grows_calloc s n :
  sane s -> grows s (mk_shared (<[sh_next s := replicate n zero_element]> (sh_blocks s))
    (S (sh_next s)) (sh_array s) (sh_capacity s) (sh_size s)).
Proof.
  intros [Hcap (arr & Harr & Hlen) Hid Hnext]. pose proof (Hnext _ _ Harr) as Hlt.
  assert (Hcur : <[sh_next s := replicate n zero_element]> (sh_blocks s) !! sh_array s = Some arr)
    by (rewrite lookup_insert_ne; [done|lia]).
  split; [|unfold array_length; cbn; by rewrite Harr, Hcur|cbn; lia|]; cbn.
  - split; cbn; [done|eauto| |]; intros b a [[<- <-]|[_ Hb]]%lookup_insert_Some.
    + by intros j el [-> _]%lookup_replicate.
    + by eapply Hid.
    + lia.
    + pose proof (Hnext _ _ Hb). lia.
  - intros b a [[<- _]|[_ Hb]]%lookup_insert_Some Hbn; [lia|].
    exists a. split; [done|apply kept_refl].
Qed.

Lemma keeps_set_slot s arr j el el' M :
  sh_blocks s !! sh_array s = Some arr -> arr !! j = Some el -> kept_element el el' ->
  live (set_slot s j el' arr) M -> keeps s (set_slot s j el' arr).
Proof.
  intros Harr Hj Hk Hlive. split; [by exists M|done|done|]. cbn. intros a Ha.
  rewrite Harr in Ha. injection Ha as <-. rewrite lookup_insert_eq. eexists.
  split; [done|]. by eapply kept_insert.
Qed.

Lemma stored_sane s map M :
  stored s map -> hm_inv map M -> (forall b arr, sh_blocks s !! b = Some arr -> idents arr) -> sane s.
Proof.
  intros [Harr Hcap Hsize Hnext] Hinv Hid. destruct (inv_pow2 _ _ _ _ Hinv) as (n & Hn & Hpow).
  split; [exists n; split; [lia|congruence]| |done|done].
  exists (array map). split; [done|]. rewrite (inv_length _ _ _ _ Hinv). lia.
Qed.

Lemma stored_live s map M : stored s map -> hm_inv map M -> live s M.
Proof.
  intros [Harr Hcap Hsize Hnext] Hinv. exists (array map). split; [done|].
  rewrite Hcap, <- (inv_size _ _ _ _ Hinv). by destruct map.
Qed.

(** ** The end of [hashmap_put] *)

(** The stores of [put_tail], each to be shown of the kind [G]. *)
Lemma put_tail_ensures G s map k v j el :
  stored s map -> hashmap_indexof ops map k = Val (Z.of_nat j) -> array map !! j = Some el ->
  let at_slot el := set_slot s j el (array map) in
  G s (at_slot (mk_element (used el) (key el) v)) ->
  (used el = false ->
     G (at_slot (mk_element false (key el) v)) (at_slot (mk_element false k v)) /\
     G (at_slot (mk_element false k v)) (at_slot (mk_element true k v)) /\
     G (at_slot (mk_element true k v)) (set_size (sh_size s + 1) (at_slot (mk_element true k v)))) ->
  ensures G (put_tail ops k v) s (fun _ s' =>
    exists map', put_here ops map k v = Val map' /\ stored s' map' /\
      sh_array s' = sh_array s /\ sh_next s' = sh_next s /\
      forall b, b <> sh_array s -> sh_blocks s' !! b = sh_blocks s !! b).
Proof.
  intros Hs Hix Hj at_slot HG1 HG2. pose proof (st_array _ _ Hs) as Harr.
  assert (Hlt : (j < length (array map))%nat) by by apply lookup_lt_Some in Hj.
  assert (Hput : put_here ops map k v = Val
    (if used el then set_element map (Z.of_nat j) (mk_element true (key el) v)
     else add_size (set_element map (Z.of_nat j) (mk_element true k v)) 1)).
  { unfold put_here. rewrite Hix. cbn [mbind res_bind].
    rewrite (element_at_lookup _ _ _ Hj). cbn. by destruct (used el). }
  assert (Hcur : forall e, sh_blocks (at_slot e) !! sh_array s = Some (<[j := e]> (array map)))
    by (intros e; apply lookup_insert_eq).
  assert (Hslot : forall e, <[j := e]> (array map) !! j = Some e)
    by (intros e; by apply list_lookup_insert_eq).
  assert (Hother : forall e b, b <> sh_array s -> sh_blocks (at_slot e) !! b = sh_blocks s !! b)
    by (intros e b Hb; by apply lookup_insert_ne).
  assert (Hwrite : forall e f, write_element (sh_array s) (Z.of_nat j) f (at_slot e) =
    Val (at_slot (f e))).
  { intros e f. rewrite (write_slot (at_slot e) _ _ _ _ (Hcur e) (Hslot e)).
    unfold at_slot. by rewrite set_slot_slot. }
  unfold put_tail.
  w_read. { by rewrite (stored_table _ _ Hs). }
  w_read. w_store; [exact (write_slot _ _ _ _ _ Harr Hj)|exact HG1|].
  w_read. { exact (read_slot (at_slot _) _ _ _ (Hcur _) (Hslot _)). }
  rewrite Hput. cbn [used]. destruct (used el) eqn:Hu.
  - apply ensures_ret. eexists. split_and!; [done|by apply stored_set_slot|done|done|apply Hother].
  - destruct (HG2 eq_refl) as (H1 & H2 & H3).
    w_store; [apply Hwrite|exact H1|]. w_store; [apply Hwrite|exact H2|].
    w_read. eapply ensures_store; [done|exact H3|]. eexists.
    split_and!; [done| |done|done|apply Hother].
    apply (stored_set_size (at_slot _)). by apply stored_set_slot.
Qed.

Lemma trace_sane log s s' : trace grows log s s' -> sane s -> sane s'.
Proof. induction 1; [done|]. intros _. by apply IHtrace, gw_sane with s. Qed.

(** What the stores add up to. *)
Lemma ensures_trace {A} G (m : W K V A) s (Q : A -> shared K V -> Prop) (P : shared K V -> Prop) :
  ensures G m s Q -> (forall log s', trace G log s s' -> P s') ->
  ensures G m s (fun x s' => Q x s' /\ P s').
Proof.
  intros (x & log & s' & Hm & Ht & HQ) HP. exists x, log, s'. split_and!; [done|done|done|].
  by eapply HP.
Qed.

(** The memory after [put_tail]. *)
Definition after_put s map k v s' : Prop :=
  exists map', put_here ops map k v = Val map' /\ stored s' map' /\
    sh_array s' = sh_array s /\ sh_next s' = sh_next s /\
    forall b, b <> sh_array s -> sh_blocks s' !! b = sh_blocks s !! b.

Lemma put_tail_grows s map M k i v :
  stored s map -> hm_inv map M -> ident k = Some i -> sane s ->
  ensures grows (put_tail ops k v) s (fun _ s' => after_put s map k v s' /\ sane s').
Proof.
  intros Hs Hinv Hk Hsane. apply ensures_trace.
  2: { intros log s' Ht. by eapply trace_sane. }
  destruct (indexof_spec _ _ _ _ Hinv Hk) as (j & el & Hix & Hj & _ & _).
  pose proof (st_array _ _ Hs) as Harr. assert (Hlt := lookup_lt_Some _ _ _ Hj).
  assert (Hnext : forall e e', kept_element e e' -> (used e' = true -> is_Some (ident (key e'))) ->
    sane (set_slot s j e (array map)) ->
    grows (set_slot s j e (array map)) (set_slot s j e' (array map))).
  { intros e e' Hee He' He. rewrite <- (set_slot_slot s j e e').
    eapply (grows_set_slot (set_slot s j e (array map))); [done| | |exact Hee|done];
      [apply lookup_insert_eq|by apply list_lookup_insert_eq]. }
  assert (H1 : grows s (set_slot s j (mk_element (used el) (key el) v) (array map))).
  { eapply grows_set_slot; [done|done|exact Hj|by split|]. cbn. intros Hu.
    destruct (inv_sound _ _ _ _ Hinv _ _ Hj Hu) as (i' & Hi' & _). by eexists. }
  eapply put_tail_ensures; [done|done|done|done|]. intros Hu. rewrite Hu in H1.
  assert (H2 := Hnext (mk_element false (key el) v) (mk_element false k v) ltac:(done) ltac:(done)
    (gw_sane _ _ H1)).
  assert (H3 := Hnext (mk_element false k v) (mk_element true k v) ltac:(done) ltac:(by eexists)
    (gw_sane _ _ H2)).
  split_and!; [done|done|]. destruct (sn_array _ (gw_sane _ _ H3)) as (arr & Ha & Hlen).
  eapply grows_fields; [apply H3|done|done|exact Ha|exact Ha|done|apply H3|done].
Qed.

(** An unused slot holds nothing: its contents do not matter. *)
Lemma inv_unused map M j el el' :
  hm_inv map M -> array map !! j = Some el -> used el = false -> used el' = false ->
  hm_inv (set_element map (Z.of_nat j) el') M.
Proof.
  intros [Hpow Hlen Hsize Hcount Hroom Hsound Hcompl] Hj Hu Hu'.
  assert (Hlt := lookup_lt_Some _ _ _ Hj).
  assert (Hst : forall i x, stops ident (<[j := el']> (array map)) i x = stops ident (array map) i x).
  { intros i x. rewrite stops_insert by done. case_decide as Hx; [|done]. subst x.
    unfold stops. by rewrite Hj, Hu, Hu'. }
  split; cbn [array capacity size_ set_element]; rewrite ?Nat2Z.id, ?length_insert; try done.
  - pose proof (count_used_insert _ j _ el' Hj) as Hc. rewrite Hu, Hu' in Hc. lia.
  - intros x e Hx Hue. rewrite list_lookup_insert in Hx. case_decide; [injection Hx as <-; congruence|].
    destruct (Hsound _ _ Hx Hue) as (i & Hi & HM & Hp). exists i. split_and!; [done|done|].
    apply (path_ext map); [done| | |done]; cbn; rewrite Nat2Z.id; [done|]. intros y. by rewrite Hst.
  - intros i k v HM. destruct (Hcompl _ _ _ HM) as (Hk & x & Hx). split; [done|]. exists x.
    rewrite list_lookup_insert_ne; [done|]. intros <-. rewrite Hj in Hx. by simplify_eq.
Qed.

Lemma live_slot s map M map' j el :
  stored s map -> hm_inv map' M -> array map' = <[j := el]> (array map) ->
  capacity map' = capacity map -> live (set_slot s j el (array map)) M.
Proof.
  intros Hs Hinv Harr Hcap. eexists. split; [apply lookup_insert_eq|]. cbn.
  rewrite (st_capacity _ _ Hs), <- Hcap, <- Harr, <- (inv_size _ _ _ _ Hinv). by destruct map'.
Qed.

Lemma put_tail_keeps s map M k i v :
  stored s map -> hm_inv map M -> ident k = Some i -> size_ map + 1 < capacity map ->
  ensures keeps (put_tail ops k v) s (fun _ s' => after_put s map k v s').
Proof.
  intros Hs Hinv Hk Hroom.
  destruct (indexof_spec _ _ _ _ Hinv Hk) as (j & el & Hix & Hj & Hp & Hcase).
  pose proof (st_array _ _ Hs) as Harr. assert (Hlt := lookup_lt_Some _ _ _ Hj).
  assert (Hnext : forall e e' M', kept_element e e' -> live (set_slot s j e' (array map)) M' ->
    keeps (set_slot s j e (array map)) (set_slot s j e' (array map))).
  { intros e e' M' Hee Hlive. rewrite <- (set_slot_slot s j e e') in *.
    eapply (keeps_set_slot (set_slot s j e (array map))); [| |exact Hee|exact Hlive];
      [apply lookup_insert_eq|by apply list_lookup_insert_eq]. }
  assert (Hfree : forall e, used el = false -> used e = false ->
    live (set_slot s j e (array map)) M).
  { intros e Hu Hue. eapply live_slot; [done|by eapply inv_unused| |done]. cbn. by rewrite Nat2Z.id. }
  eapply put_tail_ensures; [done|done|done| |].
  - destruct (M !! i) as [[k' v']|] eqn:HM.
    + subst el. eapply keeps_set_slot; [done|exact Hj|by split|].
      eapply live_slot; [done|eapply inv_update; [done|exact Hj|]| |done].
      * by apply (inv_complete _ _ _ _ Hinv _ _ _ HM).
      * cbn. by rewrite Nat2Z.id.
    + eapply keeps_set_slot; [done|exact Hj|by split|]. rewrite Hcase. by apply Hfree.
  - intros Hu. destruct (M !! i) as [[k' v']|] eqn:HM; [by subst el|].
    assert (Hfill : live (set_slot s j (mk_element true k v) (array map)) (<[i := (k, v)]> M)).
    { eapply live_slot; [done|by eapply inv_insert|apply array_fill|done]. }
    split_and!; [by eapply Hnext, Hfree|by eapply Hnext, Hfill|].
    split; [by exists (<[i := (k, v)]> M)|done|done|]. intros arr Ha. exists arr.
    split; [done|apply kept_refl].
Qed.

(** ** [hashmap_put] *)

Lemma put_writes_light G depth s map k v (Q : unit -> shared K V -> Prop) :
  stored s map -> hashmap_load_factor map <= 70 -> ensures G (put_tail ops k v) s Q ->
  ensures G (put_writes ops depth k v) s Q.
Proof.
  intros Hs Hload HQ.
  assert (Hl : forall m, ensures G (load ← read (fun s => map ← table s; mret (hashmap_load_factor map));
    (if 70 <? load then m else mret tt);; put_tail ops k v) s Q).
  { intros m. w_read; [by rewrite (stored_table _ _ Hs)|].
    destruct (Z.ltb_spec 70 (hashmap_load_factor map)); [lia|].
    apply ensures_bind, ensures_ret, HQ. }
  destruct depth; apply Hl.
Qed.

(** The memory while [hashmap_expand] moves the array [old_map] out of block [old]. *)
Record moving s (old : nat) old_map (n : nat) (mid : hashmap K V) M : Prop := {
  mv_stored : stored s mid;
  mv_growing : growing ident ihash old_map (take n (array old_map)) (drop n (array old_map)) mid M;
  mv_old : sh_blocks s !! old = Some (array old_map);
  mv_ne : old <> sh_array s;
  mv_sane : sane s
}.

Lemma moving_round s old old_map M0 n mid M el :
  hm_inv old_map M0 -> moving s old old_map n mid M -> array old_map !! n = Some el ->
  ensures grows (if used el then put_writes ops 0 (key el) (value el) else mret tt) s
    (fun _ s' => sh_array s' = sh_array s /\
      exists mid' M', grow_one ops el mid = Val mid' /\ moving s' old old_map (S n) mid' M').
Proof.
  intros Hinv [Hs Hg Hold Hne Hsane] Hel. rewrite (drop_S _ _ _ Hel) in Hg.
  destruct (growing_step (ops := ops) _ _ _ _ _ _ _ Hinv Hg) as (mid' & M' & Hone & Hg').
  rewrite <- (take_S_r _ _ _ Hel) in Hg'.
  pose proof (growing_room _ _ _ _ _ _ Hinv Hg) as Hroom. pose proof (gr_inv _ _ _ _ _ _ _ Hg) as Hmid.
  destruct (used el) eqn:Hu.
  - destruct (growing_next _ _ _ _ _ _ _ Hinv Hg Hu) as (i & Hi & _).
    assert (Hlight : 2 * size_ mid <= capacity mid) by lia.
    eapply put_writes_light; [done|by eapply load_factor_half|].
    eapply ensures_mono; [by eapply put_tail_grows|].
    intros _ s' ((map' & Hput & Hs' & Harr & _ & Hother) & Hsane'). split; [done|].
    assert (map' = mid') as ->.
    { revert Hone. unfold grow_one. rewrite Hu, (put_depth_light _ _ M) by done. congruence. }
    exists mid', M'. split; [done|]. split; [done|done| |congruence|done]. by rewrite Hother.
  - apply ensures_ret. split; [done|]. exists mid', M'. split; [done|].
    assert (mid' = mid) as -> by (revert Hone; unfold grow_one; rewrite Hu; by intros [= ->]).
    by split.
Qed.

Lemma moving_rounds old old_map M0 m : hm_inv old_map M0 ->
  forall s n mid M, moving s old old_map n mid M -> (n + m)%nat = length (array old_map) ->
  ensures grows (reinsert_tail (put_writes ops 0) old (seq n m)) s
    (fun _ s' => sh_array s' = sh_array s /\
      exists mid' M', reinsert (put_depth ops 0) (drop n (array old_map)) mid = Val mid' /\
        moving s' old old_map (length (array old_map)) mid' M').
Proof.
  intros Hinv. induction m as [|m IH]; intros s n mid M Hmv Hlen; cbn [seq reinsert_tail].
  - apply ensures_ret. split; [done|]. exists mid, M. rewrite drop_ge by lia.
    split; [done|]. by replace (length (array old_map)) with n by lia.
  - destruct (lookup_lt_is_Some_2 (array old_map) n) as [el Hel]; [lia|].
    w_read. { unfold read_element, array_of. rewrite (mv_old _ _ _ _ _ _ Hmv). cbn.
      by rewrite (element_at_lookup _ _ _ Hel). }
    apply ensures_bind. eapply ensures_mono; [by eapply moving_round|].
    intros _ s1 (Ha1 & mid1 & M1 & Hone & Hmv1).
    eapply ensures_mono; [apply (IH _ (S n) _ _ Hmv1); lia|].
    intros _ s' (Ha' & mid' & M' & Hrun & Hmv'). split; [congruence|].
    exists mid', M'. split; [|done]. by rewrite (drop_S _ _ _ Hel), reinsert_cons, Hone.
Qed.

(** The first stores of [hashmap_expand]. *)
Lemma expand_begin s map M (Q : unit -> shared K V -> Prop) :
  stored s map -> hm_inv map M -> sane s ->
  (forall s', sh_array s' = sh_next s -> moving s' (sh_array s) map 0 (grow_start map) ∅ ->
     ensures grows (reinsert_tail (put_writes ops 0) (sh_array s) (seq 0 (length (array map)));;
       store (Free (sh_array s))) s' Q) ->
  ensures grows (expand_tail (put_writes ops 0)) s Q.
Proof.
  intros Hs Hinv Hsane HQ. pose proof Hs as [Harr Hcap Hsize _].
  pose proof (st_next _ _ Hs _ _ Harr) as Hlt. pose proof (inv_length _ _ _ _ Hinv) as Hlen.
  destruct (sn_capacity _ Hsane) as (e & He & Hpow). pose proof (inv_cap_pos _ _ Hinv).
  assert (Hdouble : exists n, 0 <= n /\ 2 * sh_capacity s = 2 ^ n)
    by (exists (e + 1); split; [lia|rewrite Z.pow_add_r; lia]).
  set (zeros := replicate (Z.to_nat (sh_capacity s * 2)) (zero_element (K := K) (V := V))).
  set (at_array b c z := mk_shared (<[sh_next s := zeros]> (sh_blocks s)) (S (sh_next s)) b c z).
  assert (Hnew : forall b c z, sh_blocks (at_array b c z) !! sh_next s = Some zeros)
    by (intros b c z; apply lookup_insert_eq).
  assert (Hold : forall b c z, sh_blocks (at_array b c z) !! sh_array s = Some (array map))
    by (intros b c z; cbn; rewrite lookup_insert_ne; [done|lia]).
  assert (Hzl : Z.of_nat (length zeros) = 2 * sh_capacity s)
    by (unfold zeros; rewrite length_replicate; lia).
  assert (H1 : grows s (at_array (sh_array s) (sh_capacity s) (sh_size s))) by by apply grows_calloc.
  assert (H2 : grows (at_array (sh_array s) (sh_capacity s) (sh_size s))
    (at_array (sh_next s) (sh_capacity s) (sh_size s)))
    by (eapply grows_fields; [apply H1|done|done|apply Hold|apply Hnew|lia|by exists e|cbn; lia]).
  assert (H3 : grows (at_array (sh_next s) (sh_capacity s) (sh_size s))
    (at_array (sh_next s) (sh_capacity s) 0))
    by (eapply grows_fields; [apply H2|done|done|apply Hnew|apply Hnew|lia|by exists e|cbn; lia]).
  assert (H4 : grows (at_array (sh_next s) (sh_capacity s) 0)
    (at_array (sh_next s) (2 * sh_capacity s) 0))
    by (eapply grows_fields; [apply H3|done|done|apply Hnew|apply Hnew|lia|done|cbn; lia]).
  unfold expand_tail. w_read. w_read. w_store; [done|exact H1|].
  cbn. w_read. w_store; [done|exact H2|]. cbn. w_store; [done|exact H3|]. cbn.
  w_store; [done|exact H4|].
  replace (Z.to_nat (sh_capacity s)) with (length (array map)) by lia.
  apply HQ; [done|]. split; [|rewrite take_0, drop_0; by eapply growing_start|apply Hold|cbn; lia|apply H4].
  split; [|cbn; by rewrite Hcap|done|apply (sn_next _ (gw_sane _ _ H4))].
  unfold grow_start. cbn. by rewrite lookup_insert_eq, <- Hcap.
Qed.

(** [free(old)] *)
Lemma free_old s old old_map M0 mid M :
  hm_inv old_map M0 -> moving s old old_map (length (array old_map)) mid M ->
  ensures grows (store (Free old)) s (fun _ s' =>
    sh_blocks s' = delete old (sh_blocks s) /\ sh_array s' = sh_array s /\ sh_next s' = sh_next s /\
    stored s' mid /\ sane s').
Proof.
  intros Hinv [[Harr Hcap Hsize Hnext] _ Hold Hne Hsane].
  destruct Hsane as [Hpow (arr & Ha & Hlen) Hid _]. set (s' := mk_shared (delete old (sh_blocks s))
    (sh_next s) (sh_array s) (sh_capacity s) (sh_size s)).
  assert (Hsane' : sane s').
  { split; cbn; [done| | |].
    - rewrite lookup_delete_ne by done. eauto.
    - intros b a [_ Hb]%lookup_delete_Some. by eapply Hid.
    - intros b a [_ Hb]%lookup_delete_Some. by eapply Hnext. }
  apply (ensures_store _ _ _ s'); [cbn; by rewrite Hold| |].
  - split; [done|unfold array_length; cbn; by rewrite lookup_delete_ne|done|]. cbn.
    intros b a [_ Hb]%lookup_delete_Some _. exists a. split; [done|apply kept_refl].
  - split_and!; [done|done|done| |done]. split; cbn; [by rewrite lookup_delete_ne|done|done|].
    intros b a [_ Hb]%lookup_delete_Some. by eapply Hnext.
Qed.

Lemma put_writes_spec s map M k i v :
  stored s map -> hm_inv map M -> ident k = Some i -> sane s ->
  ensures grows (put_writes ops 1 k v) s (fun _ s' =>
    exists map', hashmap_put ops map k v = Val map' /\ stored s' map' /\
      hm_inv map' (put_abs M i k v) /\ sane s' /\
      (70 < hashmap_load_factor map -> sh_blocks s' !! sh_array s = None)).
Proof.
  intros Hs Hinv Hk Hsane.
  destruct (put_spec (ops := ops) _ _ _ _ v Hinv Hk) as (map' & Hput & Hinv' & _).
  assert (Hput' := Hput). rewrite put_sections in Hput'.
  destruct (Z.ltb_spec 70 (hashmap_load_factor map)) as [Hload|Hload].
  - cbn [put_writes]. w_read; [by rewrite (stored_table _ _ Hs)|].
    destruct (Z.ltb_spec 70 (hashmap_load_factor map)); [|lia]. apply ensures_bind.
    eapply expand_begin; [done|done|done|]. intros s1 Ha1 Hmv1. apply ensures_bind.
    eapply ensures_mono; [exact (moving_rounds _ _ _ _ Hinv _ 0%nat _ _ Hmv1 eq_refl)|].
    intros _ s2 (Ha2 & mid & M2 & Hrun & Hmv2).
    eapply ensures_mono; [exact (free_old _ _ _ _ _ _ Hinv Hmv2)|].
    intros _ s3 (Hb3 & Ha3 & Hn3 & Hs3 & Hsane3).
    pose proof (mv_growing _ _ _ _ _ _ Hmv2) as Hg. rewrite drop_ge in Hg by done.
    destruct (growing_done _ _ _ _ _ Hinv Hg) as (Hmid & _ & _).
    eapply ensures_mono; [by eapply put_tail_grows|].
    intros _ s4 ((map4 & Hput4 & Hs4 & Ha4 & Hn4 & Hother) & Hsane4).
    rewrite drop_0 in Hrun. rewrite Hrun in Hput'. cbn [mbind res_bind] in Hput'.
    assert (map4 = map') as -> by congruence. exists map'. split_and!; [done|done|done|done|].
    intros _. rewrite Hother, Hb3; [apply lookup_delete_eq|].
    rewrite Ha3. apply (mv_ne _ _ _ _ _ _ Hmv2).
  - eapply put_writes_light; [done|done|]. eapply ensures_mono; [by eapply put_tail_grows|].
    intros _ s' ((map4 & Hput4 & Hs4 & _) & Hsane4). assert (map4 = map') as -> by congruence.
    exists map'. split_and!; [done|done|done|done|lia].
Qed.

(** Without growth. *)
Lemma put_writes_keeps s map M k i v :
  stored s map -> hm_inv map M -> ident k = Some i -> hashmap_load_factor map <= 70 ->
  ensures keeps (put_writes ops 1 k v) s (fun _ s' =>
    exists map', stored s' map' /\ hm_inv map' (put_abs M i k v) /\ capacity map' = capacity map).
Proof.
  intros Hs Hinv Hk Hload.
  destruct (put_spec (ops := ops) _ _ _ _ v Hinv Hk) as (map' & Hput & Hinv' & Hcap').
  rewrite put_sections in Hput. destruct (Z.ltb_spec 70 (hashmap_load_factor map)); [lia|].
  eapply put_writes_light; [done|done|].
  eapply ensures_mono; [eapply put_tail_keeps; [done|done|done|by eapply load_factor_room]|].
  intros _ s' (map4 & Hput4 & Hs4 & _). assert (map4 = map') as -> by congruence. by exists map'.
Qed.

(** The log of a call that does not grow the table is short. *)
Lemma put_tail_length k v s r : put_tail ops k v s = Val r -> (length r.1.2 <= 4)%nat.
Proof.
  unfold put_tail, read, store, mret, W_ret, mbind, W_bind, res_bind, res_ret.
  intros Hr. repeat (case_match; simplify_eq/=; try done; try lia).
Qed.

Lemma put_writes_length s map k v r :
  stored s map -> hashmap_load_factor map <= 70 -> put_writes ops 1 k v s = Val r ->
  (length r.1.2 <= 4)%nat.
Proof.
  intros Hs Hload. cbn [put_writes]. unfold mbind at 1, W_bind at 1, read at 1.
  rewrite (stored_table _ _ Hs). cbn [mbind res_bind mret res_ret].
  destruct (Z.ltb_spec 70 (hashmap_load_factor map)); [lia|].
  unfold mbind at 1, W_bind at 1, mret at 1, W_ret at 1.
  destruct (put_tail ops k v s) as [r'|] eqn:Hr; [|done].
  pose proof (put_tail_length _ _ _ _ Hr). destruct r' as [[? ?] ?]. by intros [= <-].
Qed.

Lemma in_memory_stored map M :
  hm_inv map M -> stored (in_memory map) map /\ sane (in_memory map).
Proof.
  intros Hinv. assert (Hs : stored (in_memory map) map).
  { split; cbn; [apply lookup_singleton_eq|done|done|]. intros b arr [<- _]%lookup_singleton_Some. lia. }
  split; [done|]. eapply stored_sane; [done|exact Hinv|].
  intros b arr Hb j el Hj Hu. cbn in Hb. apply lookup_singleton_Some in Hb as [<- <-].
  destruct (inv_sound _ _ _ _ Hinv _ _ Hj Hu) as (i & Hi & _). by exists i.
Qed.

End Writer.

End HashMapAccessFacts.
