(* ===== verification/HashMapAccessSpec.v ===== *)
(** * Lookups without the lock, access by access

    What the unlocked lookups of protocols/arp.c may rely on, and what not, at the
    granularity of single accesses.  While the table does not grow, a lookup of a stored key
    is atomic ([lookups_beside_puts]); in general it only reads blocks of the table, of which
    [hashmap_expand] may have freed some ([lookups_stay_in_blocks], [growth_frees_the_array]),
    or takes a slot number to an array in which it belongs to another key
    ([misdirected_lookup]). *)

From stdpp Require Import relations.
From S2P Require Import Prelude HashMap HashMapFacts HashMapGrowth HashMapAccess.
From S2P Require Import HashMapAccessFacts.
Import HashMap HashMapFacts HashMapGrowth HashMapAccess HashMapAccessFacts.

Module HashMapAccessSpec.

(** ** The accesses in a row are the functions *)

Section Alone.
Context {K V : Type} {nullK : NullPtr K} {nullV : NullPtr V} {ops : KeyOps K}.
Implicit Types (s : shared K V) (map : hashmap K V) (k : K) (l : stage V) (def r : V).

Lemma alone_more n m k def l l' s :
  lookup_alone ops n k def l s = Val l' ->
  lookup_alone ops (n + m) k def l s = lookup_alone ops m k def l' s.
Proof.
  revert l. induction n as [|n IH]; intros l; cbn; [by intros [= ->]|].
  destruct (lookup_step ops k def l s) as [l1|]; [apply IH|done].
Qed.

Lemma read_table s map z :
  stored s map -> read_element (sh_array s) z s = element_at (array map) z.
Proof. intros Hs. unfold read_element, array_of. by rewrite (st_array _ _ Hs). Qed.

(** The loop of [hashmap_indexof]. *)
Lemma alone_probe s map k def fuel z index :
  stored s map -> probe ops fuel map k z = Val index ->
  exists n, (n <= 4 * fuel)%nat /\ lookup_alone ops n k def (AtIndex z) s = Val (Found index).
Proof.
  intros Hs. revert z. induction fuel as [|fuel IH]; intros z; [done|]. cbn [probe].
  destruct (element_at (array map) z) as [el|] eqn:Hel; [|done]. cbn [mbind res_bind].
  destruct (used el) eqn:Hu.
  2: { intros [= <-]. exists 2%nat. split; [lia|]. cbn. rewrite (read_table _ _ _ Hs), Hel. cbn.
    by rewrite Hu. }
  destruct (equals k (key el)) as [[]|] eqn:Hq; [| |done]; cbn [mbind res_bind].
  - intros [= <-]. exists 3%nat. split; [lia|]. cbn. rewrite (read_table _ _ _ Hs), Hel. cbn.
    rewrite Hu. cbn. by rewrite (read_table _ _ _ Hs), Hel; cbn; rewrite Hq.
  - rewrite <- (st_capacity _ _ Hs). intros Hp. destruct (IH _ Hp) as (n & Hn & Hrun).
    exists (4 + n)%nat. split; [lia|]. rewrite <- Hrun. apply alone_more. cbn.
    rewrite (read_table _ _ _ Hs), Hel. cbn. rewrite Hu. cbn.
    rewrite (read_table _ _ _ Hs), Hel. cbn. by rewrite Hq.
Qed.

(** A reader that nobody disturbs returns what [hashmap_get_or_default] returns. *)
Lemma lookup_alone_correct s map k def r :
  stored s map -> hashmap_get_or_default ops map k def = Val r ->
  exists n, (n <= 4 * Z.to_nat (capacity map) + 4)%nat /\
    lookup_alone ops n k def Start s = Val (Done r).
Proof.
  intros Hs. unfold hashmap_get_or_default, hashmap_indexof.
  destruct (hash k) as [h|] eqn:Hh; [|done]. cbn [mbind res_bind].
  destruct (probe _ _ _ _ _) as [index|] eqn:Hp; [|done]. cbn [mbind res_bind].
  destruct (element_at (array map) index) as [el|] eqn:Hel; [|done]. cbn. intros [= <-].
  destruct (alone_probe _ _ _ def _ _ _ Hs Hp) as (n & Hn & Hrun).
  set (m := if used el then 3%nat else 2%nat). exists (1 + n + m)%nat.
  split; [subst m; destruct (used el); lia|].
  rewrite (alone_more _ _ _ _ _ (Found index)).
  - subst m. destruct (used el) eqn:Hu; cbn; rewrite ?(read_table _ _ _ Hs), Hel; cbn;
      rewrite Hu; cbn; by rewrite ?(read_table _ _ _ Hs), ?Hel.
  - cbn. rewrite Hh. cbn. by rewrite (st_capacity _ _ Hs).
Qed.

(** The end of a lookup: the element of the slot in the array of that moment. *)
Lemma finish_lookup s map k def index el :
  stored s map -> element_at (array map) index = Val el ->
  lookup_alone ops 3 k def (Found index) s = Val (Done (if used el then value el else def)).
Proof.
  intros Hs Hel. cbn. rewrite (read_table _ _ _ Hs), Hel. cbn.
  destruct (used el); cbn; [|done]. by rewrite (read_table _ _ _ Hs), Hel.
Qed.
End Alone.

(** ** Any interleaving *)

Section Interleaved.
Context {K V I : Type} {nullK : NullPtr K} {nullV : NullPtr V} `{Countable I}.
Context {ops : KeyOps K} {ident : K -> option I} {ihash : I -> Z}.
Context {laws : KeyLaws ops ident ihash}.
Implicit Types (s : shared K V) (map : hashmap K V) (M : gmap I (K * V)) (i : I) (k : K) (v : V).
Implicit Types (arr : list (hashmap_element K V)) (el : hashmap_element K V) (l : stage V).
Implicit Types (sys : system K V) (def r : V) (puts : list (K * V)) (ks : list K).

Abbreviation hm_inv := (HashMap.hm_inv ident ihash).
Abbreviation sane := (HashMapAccessFacts.sane (ident := ident)).
Abbreviation grows := (HashMapAccessFacts.grows (ident := ident)).
Abbreviation keeps := (HashMapAccessFacts.keeps (ident := ident) (ihash := ihash)).
Abbreviation live := (HashMapAccessFacts.live (ident := ident) (ihash := ihash)).

(** The block that the next access reads. *)
Definition stage_block l : option nat :=
  match l with
  | AtUsed b _ | AtKey b _ | AtCheck b _ | AtValue b _ => Some b
  | _ => None
  end.

Definition in_use s (index : Z) : Prop := 0 <= index < Z.of_nat (array_length s).

Definition points s (b : nat) (index : Z) : Prop :=
  in_use s index /\ (b < sh_next s)%nat /\
  forall arr, sh_blocks s !! b = Some arr -> index < Z.of_nat (length arr).

(** Where a reader can stand, with respect to memory. *)
Definition reader_ok s l : Prop :=
  match l with
  | Start | Done _ => True
  | AtIndex index | AtNext index | Found index => in_use s index
  | AtUsed b index | AtCheck b index | AtValue b index => points s b index
  | AtKey b index => points s b index /\
      forall arr el, sh_blocks s !! b = Some arr -> arr !! Z.to_nat index = Some el -> used el = true
  end.

Lemma in_use_grows s s' index : grows s s' -> in_use s index -> in_use s' index.
Proof. intros Hg [? ?]. pose proof (gw_length _ _ Hg). split; lia. Qed.

Lemma points_grows s s' b index : grows s s' -> points s b index -> points s' b index.
Proof.
  intros Hg (Hin & Hb & Hlen). pose proof (gw_next _ _ Hg).
  split_and!; [by eapply in_use_grows|lia|]. intros arr' Harr'.
  destruct (gw_blocks _ _ Hg _ _ Harr' Hb) as (arr & Harr & Hl & _).
  rewrite Hl. by apply Hlen.
Qed.

(** The stores of the writer leave the readers where they are. *)
Lemma reader_grows s s' l : grows s s' -> reader_ok s l -> reader_ok s' l.
Proof.
  intros Hg. destruct l; cbn; eauto using in_use_grows, points_grows. intros [Hp Hu].
  split; [by eapply points_grows|]. intros arr' el' Harr' Hel'. destruct Hp as (_ & Hb & _).
  destruct (gw_blocks _ _ Hg _ _ Harr' Hb) as (arr & Harr & Hlen & Hkept).
  destruct (lookup_lt_is_Some_2 arr (Z.to_nat index)) as [el Hel].
  { apply lookup_lt_Some in Hel'. lia. }
  by apply (Hkept _ _ _ Hel Hel'), (Hu _ _ Harr Hel).
Qed.

Lemma mask_in_use s z : sane s -> in_use s (Z.land z (sh_capacity s - 1)).
Proof.
  intros [(n & Hn & ->) (arr & Harr & Hlen) _ _]. unfold in_use, array_length. rewrite Harr.
  rewrite land_mask by done. pose proof (Z.mod_pos_bound z (2 ^ n)). lia.
Qed.

(** A read through a pointer into the table: the element, or the block is gone. *)
Lemma read_points s b index :
  points s b index ->
  (exists arr el, sh_blocks s !! b = Some arr /\ arr !! Z.to_nat index = Some el /\
     read_element b index s = Val el) \/
  (sh_blocks s !! b = None /\ read_element b index s = Fault Dangling).
Proof.
  intros ([Hpos _] & _ & Hlen). unfold read_element, array_of.
  destruct (sh_blocks s !! b) as [arr|]; [left|by right]. specialize (Hlen _ eq_refl).
  destruct (lookup_lt_is_Some_2 arr (Z.to_nat index)) as [el Hel]; [lia|].
  exists arr, el. split_and!; [done|done|]. cbn.
  unfold element_at. destruct (Z.ltb_spec index 0); [lia|]. by rewrite Hel.
Qed.

(** One access of a reader. *)
Lemma reader_step s k i def l :
  sane s -> ident k = Some i -> reader_ok s l ->
  (exists l', lookup_step ops k def l s = Val l' /\ reader_ok s l') \/
  (lookup_step ops k def l s = Fault Dangling /\
     exists b, stage_block l = Some b /\ sh_blocks s !! b = None).
Proof.
  intros Hsane Hk. destruct (sn_array _ Hsane) as (cur & Hcur & _).
  assert (Harr : forall index, in_use s index -> points s (sh_array s) index).
  { intros index Hin. split_and!; [done|by eapply sn_next|]. intros arr Ha.
    destruct Hin as [_ Hlt]. unfold array_length in Hlt. by rewrite Ha in Hlt. }
  destruct l as [|index|b index|b index|index|index|b index|b index|r]; cbn [reader_ok lookup_step stage_block].
  - intros _. left. rewrite (hash_ident _ _ Hk). eexists. split; [done|]. by apply mask_in_use.
  - intros Hin. left. eexists. split; [done|]. by apply Harr.
  - intros Hp. destruct (read_points _ _ _ Hp) as [(arr & el & Ha & Hel & ->)|[Hb ->]]; [left|right; eauto].
    cbn. destruct (used el) eqn:Hu; eexists; (split; [done|]); [|apply Hp].
    split; [done|]. intros arr' el' Ha' Hel'. congruence.
  - intros [Hp Hused]. destruct (read_points _ _ _ Hp) as [(arr & el & Ha & Hel & ->)|[Hb ->]]; [left|right; eauto].
    destruct (sn_idents _ Hsane _ _ Ha _ _ Hel (Hused _ _ Ha Hel)) as [i' Hi']. cbn.
    rewrite (equals_ident _ _ _ _ Hk Hi'). cbn. case_bool_decide; eexists; (split; [done|]); apply Hp.
  - intros _. left. eexists. split; [done|]. by apply mask_in_use.
  - intros Hin. left. eexists. split; [done|]. by apply Harr.
  - intros Hp. destruct (read_points _ _ _ Hp) as [(arr & el & _ & _ & ->)|[Hb ->]]; [left|right; eauto].
    cbn. destruct (used el); eexists; by split.
  - intros Hp. destruct (read_points _ _ _ Hp) as [(arr & el & _ & _ & ->)|[Hb ->]]; [left|right; eauto].
    cbn. eexists. by split.
  - intros _. left. eexists. by split.
Qed.

(** The calls of [hashmap_put] in a row. *)
Fixpoint put_all map puts : res (hashmap K V) :=
  match puts with
  | [] => mret map
  | (k, v) :: puts => map ← hashmap_put ops map k v; put_all map puts
  end.

Definition known puts : Prop := forall k v, (k, v) ∈ puts -> is_Some (ident k).

(** The system in any interleaving: the call under way ends in [map1], from where the calls to
    come reach the table [final]. *)
Record system_ok sys (final : res (hashmap K V)) : Prop := {
  so_sane : sane (s_shared sys);
  so_writer : exists s1 map1 M1, trace grows (s_log sys) (s_shared sys) s1 /\ stored s1 map1 /\
    hm_inv map1 M1 /\ sane s1 /\ put_all map1 (s_todo sys) = final;
  so_known : known (s_todo sys);
  so_readers t k l : s_readers sys !! t = Some (k, l) ->
    is_Some (ident k) /\ reader_ok (s_shared sys) l
}.

Lemma put_accesses_grows s map M k i v :
  stored s map -> hm_inv map M -> ident k = Some i -> sane s ->
  exists log s' map', put_accesses ops k v s = Val log /\ trace grows log s s' /\
    hashmap_put ops map k v = Val map' /\ stored s' map' /\ hm_inv map' (put_abs M i k v) /\
    sane s' /\ (70 < hashmap_load_factor map -> sh_blocks s' !! sh_array s = None).
Proof.
  intros Hs Hinv Hk Hsane.
  destruct (put_writes_spec _ _ _ _ _ v Hs Hinv Hk Hsane) as ([] & log & s' & Hm & Ht & HQ).
  destruct HQ as (map' & Hput & Hs' & Hinv' & Hsane' & Hold). exists log, s', map'.
  split_and!; [|done..]. unfold put_accesses. by rewrite Hm.
Qed.

Lemma system_step def sys sys' final :
  system_ok sys final -> step ops def sys sys' -> system_ok sys' final.
Proof.
  intros [Hsane (s1 & map1 & M1 & Ht & Hs1 & Hinv1 & Hsane1 & Hfin) Hknown Hrs] Hstep.
  destruct Hstep as [s log todo rs t k l l' Hrt Hl Hrun|s a log todo rs s' Ha|s k v todo rs log Hput];
    cbn [s_shared s_log s_todo s_readers] in *.
  - split; cbn; [done|exists s1, map1, M1; done|done|]. intros t' k' lt.
    rewrite list_lookup_insert. case_decide as Hc; [|apply Hrs].
    intros [= <- <-]. destruct (Hrs _ _ _ Hrt) as [[i Hi] Hok]. split; [by exists i|].
    destruct (reader_step s k i def l Hsane Hi Hok) as [(l2 & Hl2 & Hok2)|[Hf _]]; congruence.
  - inversion Ht as [|? ? ? s2 ? Ha' Hg Ht']; subst. rewrite Ha in Ha'. injection Ha' as <-.
    split; cbn; [apply Hg|exists s1, map1, M1; done|done|]. intros t k l Hl.
    destruct (Hrs _ _ _ Hl) as [Hk Hok]. split; [done|]. by eapply reader_grows.
  - inversion Ht; subst. destruct (Hknown k v ltac:(left)) as [i Hi].
    destruct (put_accesses_grows _ _ _ _ _ v Hs1 Hinv1 Hi Hsane)
      as (log' & s' & map' & Hput' & Ht' & Hmap' & Hs' & Hinv' & Hsane' & _).
    rewrite Hput in Hput'. injection Hput' as <-.
    split; cbn; [done| |intros k' v' Hin; eapply Hknown; by right|done].
    exists s', map', (put_abs M1 i k v). split_and!; [done|done|done|done|].
    change (put_all map' todo = (map ← hashmap_put ops map1 k v; put_all map todo)).
    by rewrite Hmap'.
Qed.

Lemma system_start s map M puts ks :
  stored s map -> hm_inv map M -> sane s -> known puts ->
  (forall k, k ∈ ks -> is_Some (ident k)) -> system_ok (start s puts ks) (put_all map puts).
Proof.
  intros Hs Hinv Hsane Hputs Hks. split; cbn; [done| |done|].
  - exists s, map, M. split_and!; [constructor|done|done|done|done].
  - intros t k l. rewrite list_lookup_fmap. intros (k' & Hk' & [= -> ->])%fmap_Some.
    split; [|done]. apply Hks. by eapply list_elem_of_lookup_2.
Qed.

Lemma system_reachable s map M puts ks def sys :
  stored s map -> hm_inv map M -> sane s -> known puts ->
  (forall k, k ∈ ks -> is_Some (ident k)) ->
  rtc (step ops def) (start s puts ks) sys -> system_ok sys (put_all map puts).
Proof.
  intros Hs Hinv Hsane Hputs Hks Hr. assert (H0 := system_start _ _ _ _ _ Hs Hinv Hsane Hputs Hks).
  induction Hr as [|x y z Hxy _ IH]; [done|]. apply IH. by eapply system_step.
Qed.

(** The writer is never stuck. *)
Lemma writer_step def sys final :
  system_ok sys final -> s_log sys <> [] \/ s_todo sys <> [] ->
  exists sys', step ops def sys sys' /\ s_readers sys' = s_readers sys.
Proof.
  destruct sys as [s log todo rs].
  intros [Hsane (s1 & map1 & M1 & Ht & Hs1 & Hinv1 & Hsane1 & Hfin) Hknown _] Hor;
    cbn [s_shared s_log s_todo s_readers] in *.
  destruct log as [|a log].
  - inversion Ht; subst. destruct todo as [|[k v] todo]; [by destruct Hor|].
    destruct (Hknown k v ltac:(left)) as [i Hi].
    destruct (put_accesses_grows _ _ _ _ _ v Hs1 Hinv1 Hi Hsane) as (log' & s' & map' & Hput & _).
    eexists. split; [by apply step_put|done].
  - inversion Ht; subst. eexists. split; [by apply step_write|done].
Qed.

(** C7 Lookups without the lock beside any calls of [hashmap_put], access by access, growth
    included: a lookup only ever reads inside the blocks of the table, so that its next access
    succeeds unless [hashmap_expand] has freed the block it stands in; the writer is never
    stuck, and when it is done the memory holds the table that its calls return in a row. *)
Theorem lookups_stay_in_blocks s map M puts ks def sys :
  stored s map -> hm_inv map M -> sane s -> known puts ->
  (forall k, k ∈ ks -> is_Some (ident k)) ->
  rtc (step ops def) (start s puts ks) sys ->
  (forall t k l, s_readers sys !! t = Some (k, l) ->
     (exists l', lookup_step ops k def l (s_shared sys) = Val l') \/
     (lookup_step ops k def l (s_shared sys) = Fault Dangling /\
        exists b, stage_block l = Some b /\ b <> sh_array (s_shared sys) /\
          sh_blocks (s_shared sys) !! b = None)) /\
  (s_log sys <> [] \/ s_todo sys <> [] ->
     exists sys', step ops def sys sys' /\ s_readers sys' = s_readers sys) /\
  (s_log sys = [] -> s_todo sys = [] ->
     exists map', put_all map puts = Val map' /\ stored (s_shared sys) map').
Proof.
  intros Hs Hinv Hsane Hputs Hks Hr.
  pose proof (system_reachable _ _ _ _ _ _ _ Hs Hinv Hsane Hputs Hks Hr) as Hok. split_and!.
  - intros t k l Hl. destruct (so_readers _ _ Hok _ _ _ Hl) as [[i Hi] Hl'].
    destruct (reader_step _ _ _ def _ (so_sane _ _ Hok) Hi Hl') as [(l' & ? & _)|(Hf & b & Hb & Hn)];
      [left; by exists l'|right]. split; [done|]. exists b. split_and!; [done| |done].
    intros ->. destruct (sn_array _ (so_sane _ _ Hok)) as (arr & ? & _). congruence.
  - by eapply writer_step.
  - intros Hlog Htodo. destruct (so_writer _ _ Hok) as (s1 & map1 & M1 & Ht & Hs1 & _ & _ & Hfin).
    rewrite Hlog in Ht. inversion Ht; subst. rewrite Htodo in Hfin. by exists map1.
Qed.

(** ** Without growth *)

Definition used_by i el : Prop := used el = true /\ ident (key el) = Some i.

(** The key is in the table, [d0] slots after the one of its hash, and other keys are in the
    slots before. *)
Definition home s i (d0 : nat) : Prop :=
  exists arr, sh_blocks s !! sh_array s = Some arr /\
    (exists el, arr !! slot (sh_capacity s) (ihash i) d0 = Some el /\ used_by i el) /\
    forall d, (d < d0)%nat -> exists el i',
      arr !! slot (sh_capacity s) (ihash i) d = Some el /\ used_by i' el /\ i' <> i.

Lemma used_by_kept i el el' : kept_element el el' -> used_by i el -> used_by i el'.
Proof. intros Hk [Hu Hi]. destruct (Hk Hu) as [Hu' Hkey]. split; [done|]. by rewrite Hkey. Qed.

Lemma home_keeps s s' i d0 : keeps s s' -> home s i d0 -> home s' i d0.
Proof.
  intros Hkeep (arr & Harr & (el & Hel & Hby) & Hbefore).
  destruct (kp_kept _ _ Hkeep _ Harr) as (arr' & Harr' & Hlen & Hkept).
  assert (Hslot : forall j e, arr !! j = Some e -> exists e', arr' !! j = Some e' /\ kept_element e e').
  { intros j e He. destruct (lookup_lt_is_Some_2 arr' j) as [e' He'];
      [rewrite Hlen; by eapply lookup_lt_Some|]. exists e'. split; [done|by eapply Hkept]. }
  exists arr'. rewrite (kp_array _ _ Hkeep), (kp_capacity _ _ Hkeep). split_and!; [done| |].
  - destruct (Hslot _ _ Hel) as (el' & Hel' & Hk). exists el'. split; [done|by eapply used_by_kept].
  - intros d Hd. destruct (Hbefore d Hd) as (e & i' & He & Hbe & Hne).
    destruct (Hslot _ _ He) as (e' & He' & Hk). exists e', i'.
    split_and!; [done|by eapply used_by_kept|done].
Qed.

Lemma home_exists s map M i kv :
  stored s map -> hm_inv map M -> M !! i = Some kv ->
  exists d0, home s i d0 /\ (d0 < Z.to_nat (capacity map))%nat.
Proof.
  intros Hs Hinv HM. destruct kv as [k v]. destruct (inv_complete _ _ _ _ Hinv _ _ _ HM) as (Hk & j & Hj).
  destruct (inv_sound _ _ _ _ Hinv _ _ Hj eq_refl) as (i' & Hi' & _ & d0 & -> & Hst & Hmin).
  cbn in Hi'. assert (i' = i) as -> by congruence. clear Hi'. pose proof (inv_cap_pos _ _ Hinv).
  exists d0. split.
  - exists (array map). rewrite (st_capacity _ _ Hs). split_and!; [apply Hs|by eexists|].
    intros d Hd. specialize (Hmin d Hd). unfold stops in Hmin.
    destruct (lookup_lt_is_Some_2 (array map) (slot (capacity map) (ihash i) d)) as [el Hel].
    { pose proof (slot_lt (capacity map) ltac:(lia) (ihash i) d).
      pose proof (inv_length _ _ _ _ Hinv). lia. }
    rewrite Hel in Hmin. apply orb_false_iff in Hmin as [Hu%negb_false_iff Hne%bool_decide_eq_false_1].
    destruct (inv_sound _ _ _ _ Hinv _ _ Hel Hu) as (i' & Hi' & _). exists el, i'.
    split_and!; [done|by split|congruence].
  - apply (first_slot_lt (capacity map) ltac:(lia) (ihash i) _ (stops ident (array map) i)); [|done].
    unfold stops. rewrite Hj. cbn. by rewrite bool_decide_eq_true_2.
Qed.

(** Where the lookup of such a key can stand, with [n] accesses left. *)
Definition at_stage s i (d0 : nat) l (n : nat) : Prop :=
  let index d := Z.of_nat (slot (sh_capacity s) (ihash i) d) in
  match l with
  | Start => n = (4 * d0 + 7)%nat
  | AtIndex z => exists d, (d <= d0)%nat /\ z = index d /\ n = (4 * (d0 - d) + 6)%nat
  | AtUsed b z => b = sh_array s /\ exists d, (d <= d0)%nat /\ z = index d /\ n = (4 * (d0 - d) + 5)%nat
  | AtKey b z => b = sh_array s /\ exists d, (d <= d0)%nat /\ z = index d /\ n = (4 * (d0 - d) + 4)%nat
  | AtNext z => exists d, (d < d0)%nat /\ z = index d /\ n = (4 * (d0 - d) + 3)%nat
  | Found z => z = index d0 /\ n = 3%nat
  | AtCheck b z => b = sh_array s /\ z = index d0 /\ n = 2%nat
  | AtValue b z => b = sh_array s /\ z = index d0 /\ n = 1%nat
  | Done _ => n = 0%nat
  end.

Lemma at_stage_keeps s s' i d0 l n : keeps s s' -> at_stage s i d0 l n -> at_stage s' i d0 l n.
Proof.
  intros Hkeep. unfold at_stage. by rewrite (kp_array _ _ Hkeep), (kp_capacity _ _ Hkeep).
Qed.

Lemma home_read s i d0 d :
  home s i d0 -> (d <= d0)%nat -> exists el i',
    read_element (sh_array s) (Z.of_nat (slot (sh_capacity s) (ihash i) d)) s = Val el /\
    used_by i' el /\ (i' = i <-> d = d0).
Proof.
  intros (arr & Harr & (el & Hel & Hby) & Hbefore) Hd.
  destruct (decide (d = d0)) as [->|Hne].
  - exists el, i. split_and!; [by apply (read_slot s arr)|done|done].
  - destruct (Hbefore d ltac:(lia)) as (e & i' & He & Hbe & Hi').
    exists e, i'. split_and!; [by apply (read_slot s arr)|done|by split].
Qed.

Lemma live_mask s M z : live s M -> Z.land z (sh_capacity s - 1) = z mod sh_capacity s /\ 0 < sh_capacity s.
Proof.
  intros (arr & _ & Hinv). split; [exact (inv_mask _ _ z Hinv)|].
  pose proof (inv_cap_pos _ _ Hinv). cbn in *. lia.
Qed.

(** One access of the lookup of a stored key. *)
Lemma stored_lookup_step s M k i d0 def l n :
  live s M -> ident k = Some i -> home s i d0 -> at_stage s i d0 l n -> ~ done l ->
  exists l' n', lookup_step ops k def l s = Val l' /\ at_stage s i d0 l' n' /\ n = S n'.
Proof.
  intros Hlive Hk Hhome Hat Hdone. destruct (live_mask _ _ 0 Hlive) as [_ Hcap].
  destruct l as [|z|b z|b z|z|z|b z|b z|r]; cbn [at_stage lookup_step] in *; [| | | | | | | |done].
  - subst n. rewrite (hash_ident _ _ Hk). eexists _, _. split_and!; [done| |done]. exists 0%nat.
    split_and!; [lia| |lia]. rewrite (proj1 (live_mask _ _ _ Hlive)), slot_of_nat by done. f_equal. lia.
  - destruct Hat as (d & Hd & -> & ->). eexists _, _. split_and!; [done|split; [done|by exists d]|lia].
  - destruct Hat as (-> & d & Hd & -> & ->).
    destruct (home_read _ _ _ _ Hhome Hd) as (el & i' & -> & (Hu & _) & _). cbn. rewrite Hu.
    eexists _, _. split_and!; [done|split; [done|by exists d]|lia].
  - destruct Hat as (-> & d & Hd & -> & ->).
    destruct (home_read _ _ _ _ Hhome Hd) as (el & i' & -> & (_ & Hi') & Heq). cbn.
    rewrite (equals_ident _ _ _ _ Hk Hi'). cbn. case_bool_decide as Hi.
    + assert (d = d0) as -> by (by apply Heq). eexists _, _. split_and!; [done|by split|lia].
    + assert (d <> d0) by (intros Hd'; by apply Hi; symmetry; apply Heq).
      eexists _, _. split_and!; [done|exists d; split_and!; [lia|done|done]|lia].
  - destruct Hat as (d & Hd & -> & ->). eexists _, _. split_and!; [done| |].
    + exists (S d). split_and!; [lia| |done]. by rewrite (proj1 (live_mask _ _ _ Hlive)), <- slot_succ.
    + lia.
  - destruct Hat as (-> & ->). eexists _, _. split_and!; [done|done|done].
  - destruct Hat as (-> & -> & ->).
    destruct (home_read _ _ _ d0 Hhome ltac:(lia)) as (el & i' & -> & (Hu & _) & _). cbn. rewrite Hu.
    eexists _, _. split_and!; [done|done|done].
  - destruct Hat as (-> & -> & ->).
    destruct (home_read _ _ _ d0 Hhome ltac:(lia)) as (el & i' & -> & _). cbn.
    eexists _, _. split_and!; [done|done|done].
Qed.

Lemma get_any_size arr cap z1 z2 k def :
  hashmap_get_or_default ops (mk_hashmap arr cap z1) k def =
  hashmap_get_or_default ops (mk_hashmap arr cap z2) k def.
Proof.
  assert (Hp : forall fuel index, probe ops fuel (mk_hashmap arr cap z1) k index =
    probe ops fuel (mk_hashmap arr cap z2) k index).
  { induction fuel as [|fuel IH]; intros index; [done|]. cbn. destruct (element_at arr index); [|done].
    cbn. destruct (used a); [|done]. destruct (equals k (key a)) as [[]|]; cbn; [done|apply IH|done]. }
  unfold hashmap_get_or_default, hashmap_indexof. cbn [capacity array].
  destruct (hash k); [|done]. cbn [mbind res_bind]. by rewrite Hp.
Qed.

(** Only the access to the value ends the lookup of a stored key, and at that moment a lookup
    in one piece returns the same. *)
Lemma stored_lookup_done s M k i d0 def l n r :
  live s M -> ident k = Some i -> home s i d0 -> at_stage s i d0 l n -> ~ done l ->
  lookup_step ops k def l s = Val (Done r) ->
  exists map, table s = Val map /\ hashmap_get_or_default ops map k def = Val r.
Proof.
  intros Hlive Hk Hhome Hat Hdone Hrun.
  destruct (stored_lookup_step _ _ _ _ _ def _ _ Hlive Hk Hhome Hat Hdone) as (l' & n' & Hrun' & Hat' & ->).
  rewrite Hrun in Hrun'. injection Hrun' as <-. cbn in Hat'. subst n'.
  destruct l as [|z|b z|b z|z|z|b z|b z|r0]; cbn [at_stage] in Hat; destr_all; try lia.
  subst b z. destruct Hhome as (arr & Harr & (el & Hel & Hu & Hi) & _).
  cbn [lookup_step] in Hrun. rewrite (read_slot s arr _ _ Harr Hel) in Hrun. injection Hrun as <-.
  destruct Hlive as (arr' & Harr' & Hinv). rewrite Harr in Harr'. injection Harr' as <-.
  destruct (inv_sound _ _ _ _ Hinv _ _ Hel Hu) as (i' & Hi' & HM & _).
  assert (i' = i) as -> by congruence. eexists. split.
  - unfold table, array_of. rewrite Harr. done.
  - rewrite (get_any_size _ _ _ (Z.of_nat (size M))), (proj1 (get_spec _ _ _ _ def Hinv Hk)).
    by rewrite HM.
Qed.

(** The system when the table does not grow; [ns] are the accesses that the readers have left. *)
Record quiet sys (ns : list nat) : Prop := {
  qu_live : exists M, live (s_shared sys) M;
  qu_writer : exists s1 map1 M1, trace keeps (s_log sys) (s_shared sys) s1 /\ stored s1 map1 /\
    hm_inv map1 M1 /\
    (Z.of_nat (size M1) + Z.of_nat (length (s_todo sys))) * 100 / capacity map1 <= 70;
  qu_known : known (s_todo sys);
  qu_log : (length (s_log sys) <= 4)%nat;
  qu_readers : Forall2 (fun kl n => exists i d0, ident kl.1 = Some i /\
    home (s_shared sys) i d0 /\ at_stage (s_shared sys) i d0 kl.2 n) (s_readers sys) ns
}.

Definition accesses_left sys (ns : list nat) : nat :=
  (5 * length (s_todo sys) + length (s_log sys) + sum_list ns)%nat.

Lemma put_accesses_keeps s map M k i v :
  stored s map -> hm_inv map M -> ident k = Some i -> hashmap_load_factor map <= 70 ->
  exists log s' map', put_accesses ops k v s = Val log /\ (length log <= 4)%nat /\
    trace keeps log s s' /\ stored s' map' /\ hm_inv map' (put_abs M i k v) /\
    capacity map' = capacity map.
Proof.
  intros Hs Hinv Hk Hload.
  destruct (put_writes_keeps _ _ _ _ _ v Hs Hinv Hk Hload) as ([] & log & s' & Hm & Ht & map' & HQ).
  exists log, s', map'. split_and!; [by unfold put_accesses; rewrite Hm| |done|apply HQ..].
  exact (put_writes_length _ _ _ _ _ Hs Hload Hm).
Qed.

Lemma quiet_readers_keeps s s' rs ns :
  keeps s s' ->
  Forall2 (fun kl n => exists i d0, ident kl.1 = Some i /\ home s i d0 /\ at_stage s i d0 kl.2 n) rs ns ->
  Forall2 (fun kl n => exists i d0, ident kl.1 = Some i /\ home s' i d0 /\ at_stage s' i d0 kl.2 n) rs ns.
Proof.
  intros Hkeep. apply Forall2_impl. intros [k l] n (i & d0 & Hi & Hh & Ha). exists i, d0.
  split_and!; [done|by eapply home_keeps|by eapply at_stage_keeps].
Qed.

Lemma quiet_step def sys sys' ns :
  quiet sys ns -> step ops def sys sys' ->
  exists ns', quiet sys' ns' /\ (accesses_left sys' ns' < accesses_left sys ns)%nat.
Proof.
  intros [[M Hlive] (s1 & map1 & M1 & Ht & Hs1 & Hinv1 & Hroom) Hknown Hlog Hrs] Hstep.
  unfold accesses_left.
  destruct Hstep as [s log todo rs t k l l' Hrt Hl Hrun|s a log todo rs s' Ha|s k v todo rs log Hput];
    cbn [s_shared s_log s_todo s_readers] in *.
  - destruct (Forall2_lookup_l _ _ _ _ _ Hrs Hrt) as (n & Hn & i & d0 & Hi & Hh & Hat). cbn in *.
    destruct (stored_lookup_step _ _ _ _ _ def _ _ Hlive Hi Hh Hat Hl) as (l2 & n' & Hrun' & Hat' & ->).
    rewrite Hrun in Hrun'. injection Hrun' as <-. exists (<[t := n']> ns). split.
    + split; cbn; [by exists M|by exists s1, map1, M1|done|done|].
      apply Forall2_insert; [done|]. by exists i, d0.
    + pose proof (sum_insert id ns t _ n' Hn). cbn in *. lia.
  - inversion Ht as [|? ? ? s2 ? Ha' Hg Ht']; subst. rewrite Ha in Ha'. injection Ha' as <-.
    exists ns. split; [|cbn; lia]. split; cbn.
    + apply Hg.
    + by exists s1, map1, M1.
    + done.
    + cbn in Hlog. lia.
    + by eapply quiet_readers_keeps.
  - inversion Ht; subst. destruct (Hknown k v ltac:(left)) as [i Hi].
    pose proof (inv_cap_pos _ _ Hinv1) as Hcap. cbn [length] in Hroom.
    assert (Hload : hashmap_load_factor map1 <= 70).
    { rewrite (load_factor_div _ _ Hinv1), (inv_size _ _ _ _ Hinv1).
      etrans; [|exact Hroom]. apply Z.div_le_mono; lia. }
    destruct (put_accesses_keeps _ _ _ _ _ v Hs1 Hinv1 Hi Hload)
      as (log' & s' & map' & Hput' & Hlen & Ht' & Hs' & Hinv' & Hcap').
    rewrite Hput in Hput'. injection Hput' as <-. exists ns. split; [|cbn in *; lia].
    split; cbn; [by exists M| |intros k' v' Hin; eapply Hknown; by right|done|done].
    exists s', map', (put_abs M1 i k v). split_and!; [done|done|done|].
    rewrite Hcap'. etrans; [|exact Hroom]. apply Z.div_le_mono; [lia|].
    assert (size (put_abs M1 i k v) <= S (size M1))%nat; [|lia].
    unfold put_abs. destruct (M1 !! i) eqn:HM;
      [rewrite map_size_insert_Some; [lia|by eexists]|rewrite map_size_insert_None by done; lia].
Qed.

Lemma quiet_nsteps def n sys sys' ns :
  nsteps (step ops def) n sys sys' -> quiet sys ns ->
  exists ns', quiet sys' ns' /\ (n + accesses_left sys' ns' <= accesses_left sys ns)%nat.
Proof.
  intros Hn. revert ns. induction Hn as [|n x y z Hxy _ IH]; intros ns Hq; [by exists ns|].
  destruct (quiet_step _ _ _ _ Hq Hxy) as (ns1 & Hq1 & Hlt).
  destruct (IH _ Hq1) as (ns2 & Hq2 & Hle). exists ns2. split; [done|lia].
Qed.

Lemma quiet_start s map M puts ks :
  stored s map -> hm_inv map M ->
  (Z.of_nat (size M) + Z.of_nat (length puts)) * 100 / capacity map <= 70 -> known puts ->
  (forall k, k ∈ ks -> exists i, ident k = Some i /\ is_Some (M !! i)) ->
  exists ns, quiet (start s puts ks) ns /\
    Z.of_nat (accesses_left (start s puts ks) ns) <=
      5 * Z.of_nat (length puts) + (4 * capacity map + 3) * Z.of_nat (length ks).
Proof.
  intros Hs Hinv Hroom Hputs Hks. pose proof (inv_cap_pos _ _ Hinv).
  assert (Hns : exists ns, Forall2 (fun kl n => exists i d0, ident kl.1 = Some i /\ home s i d0 /\
      at_stage s i d0 kl.2 n) ((fun k => (k, Start)) <$> ks) ns /\
    Z.of_nat (sum_list ns) <= (4 * capacity map + 3) * Z.of_nat (length ks)).
  { clear Hputs Hroom. induction ks as [|k ks IH]; [exists []; split; [constructor|cbn; lia]|].
    destruct IH as (ns & Hall & Hsum); [intros k' Hk'; apply Hks; by right|].
    destruct (Hks k ltac:(left)) as (i & Hi & kv & HM).
    destruct (home_exists _ _ _ _ _ Hs Hinv HM) as (d0 & Hhome & Hd0).
    exists ((4 * d0 + 7)%nat :: ns). split; [|cbn in *; lia].
    constructor; [|done]. by exists i, d0. }
  destruct Hns as (ns & Hall & Hsum). exists ns. split; [|unfold accesses_left; cbn; lia].
  split; cbn; [exists M; by eapply stored_live| |done|lia|done].
  exists s, map, M. split_and!; [constructor|done..].
Qed.

Lemma step_reader_inv def sys sys' t k l' :
  step ops def sys sys' -> s_readers sys' !! t = Some (k, l') ->
  s_readers sys !! t = Some (k, l') \/
  exists l, s_readers sys !! t = Some (k, l) /\ ~ done l /\
    lookup_step ops k def l (s_shared sys) = Val l'.
Proof.
  destruct 1 as [s log todo rs t' k' l l2 Hrt Hl Hrun|s a log todo rs s' Ha|s k' v todo rs log Hput];
    cbn; [|by left..].
  rewrite list_lookup_insert. case_decide as Hc; [|by left].
  destruct Hc as [-> _]. intros [= <- <-]. right. by exists l.
Qed.

(** The moment at which a lookup takes effect. *)
Lemma lookup_moment s puts ks def ns0 sys :
  quiet (start s puts ks) ns0 -> rtc (step ops def) (start s puts ks) sys ->
  forall t k r, s_readers sys !! t = Some (k, Done r) ->
    exists mid l map, rtc (step ops def) (start s puts ks) mid /\ rtc (step ops def) mid sys /\
      s_readers mid !! t = Some (k, l) /\ ~ done l /\
      table (s_shared mid) = Val map /\ hashmap_get_or_default ops map k def = Val r.
Proof.
  intros Hq0 Hr. pattern sys. eapply rtc_ind_r; [| |exact Hr].
  - intros t k r. cbn. rewrite list_lookup_fmap. by destruct (ks !! t).
  - intros y z Hxy Hyz IH t k r Ht.
    destruct (step_reader_inv _ _ _ _ _ _ Hyz Ht) as [Ht'|(l & Hl & Hdone & Hrun)].
    + destruct (IH _ _ _ Ht') as (mid & l & map' & H1 & H2 & H3). exists mid, l, map'.
      split_and!; [done|by eapply rtc_r|apply H3..].
    + destruct (proj1 (rtc_nsteps _ _) Hxy) as [m Hm].
      destruct (quiet_nsteps _ _ _ _ _ Hm Hq0) as (ns & Hq & _).
      destruct (qu_live _ _ Hq) as [M' Hlive].
      destruct (Forall2_lookup_l _ _ _ _ _ (qu_readers _ _ Hq) Hl) as (m' & _ & i & d0 & Hi & Hh & Ha).
      destruct (stored_lookup_done _ _ _ _ _ def _ _ _ Hlive Hi Hh Ha Hdone Hrun) as (map' & Htab & Hget).
      exists y, l, map'. split_and!; [done|by apply rtc_once|done|done|done|done].
Qed.

(** C6 Lookups of stored keys without the lock are atomic while the table does not grow.
    Beside calls of [hashmap_put] for which the table has room, in every interleaving of the
    single accesses: every access of every lookup succeeds, a lookup takes at most
    [4 * capacity + 3] of them (and a call of [hashmap_put] at most four stores), and it
    returns what a lookup in one piece returns at some moment between its start and its end. *)
Theorem lookups_beside_puts s map M puts ks def n sys :
  stored s map -> hm_inv map M ->
  (Z.of_nat (size M) + Z.of_nat (length puts)) * 100 / capacity map <= 70 -> known puts ->
  (forall k, k ∈ ks -> exists i, ident k = Some i /\ is_Some (M !! i)) ->
  nsteps (step ops def) n (start s puts ks) sys ->
  Z.of_nat n <= 5 * Z.of_nat (length puts) + (4 * capacity map + 3) * Z.of_nat (length ks) /\
  (forall t k l, s_readers sys !! t = Some (k, l) -> ~ done l ->
     exists l', lookup_step ops k def l (s_shared sys) = Val l') /\
  (forall t k r, s_readers sys !! t = Some (k, Done r) ->
     exists mid l map', rtc (step ops def) (start s puts ks) mid /\ rtc (step ops def) mid sys /\
       s_readers mid !! t = Some (k, l) /\ ~ done l /\
       table (s_shared mid) = Val map' /\ hashmap_get_or_default ops map' k def = Val r).
Proof.
  intros Hs Hinv Hroom Hputs Hks Hn.
  destruct (quiet_start _ _ _ _ _ Hs Hinv Hroom Hputs Hks) as (ns0 & Hq0 & Hle0).
  destruct (quiet_nsteps _ _ _ _ _ Hn Hq0) as (ns & Hq & Hle). split_and!; [lia| |].
  - intros t k l Hl Hdone. destruct (qu_live _ _ Hq) as [M' Hlive].
    destruct (Forall2_lookup_l _ _ _ _ _ (qu_readers _ _ Hq) Hl) as (m & _ & i & d0 & Hi & Hh & Ha).
    destruct (stored_lookup_step _ _ _ _ _ def _ _ Hlive Hi Hh Ha Hdone) as (l' & _ & Hrun & _).
    by exists l'.
  - intros t k r. eapply lookup_moment; [done|]. apply rtc_nsteps. by exists n.
Qed.

(** ** Growth *)

(** The end of [hashmap_expand] is a use after free for the lookups under way: from every
    table above a load of 70 per cent, the call of [hashmap_put] frees the array, and then the
    next access of every lookup that stands in it reads freed memory. *)
Theorem growth_frees_the_array s map M k v i :
  stored s map -> hm_inv map M -> sane s -> ident k = Some i ->
  70 < hashmap_load_factor map ->
  exists log s' map', put_accesses ops k v s = Val log /\ trace grows log s s' /\
    hashmap_put ops map k v = Val map' /\ stored s' map' /\
    forall k' def l, stage_block l = Some (sh_array s) ->
      lookup_step ops k' def l s' = Fault Dangling.
Proof.
  intros Hs Hinv Hsane Hk Hload.
  destruct (put_accesses_grows _ _ _ _ _ v Hs Hinv Hk Hsane)
    as (log & s' & map' & Hlog & Ht & Hput & Hs' & _ & _ & Hgone).
  exists log, s', map'. split_and!; [done|done|done|done|]. intros k' def l Hl.
  specialize (Hgone Hload).
  destruct l; simplify_eq/=; unfold read_element, array_of; by rewrite Hgone.
Qed.

(** A lookup that has found the slot of its key, but not yet read [map->array] the second
    time, looks into that slot of whatever array it finds: after a growth that has moved
    another key there, it returns the value of the other key. *)
Lemma misdirected_lookup s map M k v i k1 i1 j el1 map' el def :
  stored s map -> hm_inv map M -> sane s -> ident k = Some i ->
  ident k1 = Some i1 -> array map !! j = Some el1 -> used_by i1 el1 ->
  hashmap_put ops map k v = Val map' -> array map' !! j = Some el -> used el = true ->
  exists log s' n, put_accesses ops k v s = Val log /\ trace grows log s s' /\ stored s' map' /\
    lookup_alone ops n k1 def Start s = Val (Found (Z.of_nat j)) /\
    lookup_alone ops 3 k1 def (Found (Z.of_nat j)) s' = Val (Done (value el)).
Proof.
  intros Hs Hinv Hsane Hk Hk1 Hj [Hu1 Hi1] Hput Hnew Hu.
  destruct (put_accesses_grows _ _ _ _ _ v Hs Hinv Hk Hsane)
    as (log & s' & map2 & Hlog & Ht & Hput2 & Hs' & _).
  rewrite Hput in Hput2. injection Hput2 as <-.
  destruct (inv_sound _ _ _ _ Hinv _ _ Hj Hu1) as (i' & Hi' & _ & Hp).
  assert (i' = i1) as -> by congruence.
  pose proof (indexof_path _ _ _ _ _ Hinv Hk1 Hp) as Hix. unfold hashmap_indexof in Hix.
  destruct (hash k1) as [h|] eqn:Hh; [|done]. cbn [mbind res_bind] in Hix.
  destruct (alone_probe _ _ _ def _ _ _ Hs Hix) as (n & _ & Hrun).
  exists log, s', (1 + n)%nat. split_and!; [done|done|done| |].
  - rewrite <- Hrun. apply alone_more. cbn. rewrite Hh. cbn. by rewrite (st_capacity _ _ Hs).
  - rewrite (finish_lookup _ _ _ _ _ _ Hs' (element_at_lookup _ _ _ Hnew)). by rewrite Hu.
Qed.

(** A run of calls that are all known returns a well-formed table. *)
Lemma put_all_spec map M puts :
  hm_inv map M -> known puts -> exists map' M', put_all map puts = Val map' /\ hm_inv map' M'.
Proof.
  revert map M. induction puts as [|[k v] puts IH]; intros map M Hinv Hk; [by exists map, M|].
  destruct (Hk k v ltac:(left)) as [i Hi].
  destruct (put_spec (ops := ops) _ _ _ _ v Hinv Hi) as (map1 & Hput & Hinv1 & _).
  destruct (IH _ _ Hinv1) as (map' & M' & Hall & Hinv'); [intros k' v' Hin; eapply Hk; by right|].
  exists map', M'. split; [|done].
  change ((map ← hashmap_put ops map k v; put_all map puts) = Val map'). by rewrite Hput.
Qed.

End Interleaved.

(** ** Witnesses *)

(** The lookup of 21 beside the insertion of 53, which ends in the same chain. *)
Definition beside_schedule : list (option nat) :=
  [Some 0; None; Some 0; Some 0; None; Some 0; None; Some 0; Some 0; None; Some 0; Some 0; None;
   Some 0; Some 0; Some 0]%nat.

Definition beside_end : option (system Z Z) :=
  moves Z_ops (-1) beside_schedule (start (in_memory Z_three) [(53, 530)] [21]).

Lemma lookups_beside_puts_witness :
  exists sys mid l map', beside_end = Some sys /\ s_readers sys = [(21, Done 210)] /\
    rtc (step Z_ops (-1)) mid sys /\ s_readers mid !! 0%nat = Some (21, l) /\ ~ done l /\
    table (s_shared mid) = Val map' /\ hashmap_get_or_default Z_ops map' 21 (-1) = Val 210.
Proof.
  destruct beside_end as [sys|] eqn:Hend; [|vm_compute in Hend; discriminate].
  destruct (lookups_beside_puts (ops := Z_ops) (in_memory Z_three) Z_three _ [(53, 530)] [21] (-1)
    (length beside_schedule) sys
    (proj1 (in_memory_stored _ _ Z_three_inv)) Z_three_inv) as (_ & _ & Hdone).
  - vm_compute. discriminate.
  - intros k v _. by exists k.
  - intros k ->%list_elem_of_singleton. exists 21. split; [done|]. vm_compute. by eexists.
  - apply (moves_nsteps _ _ beside_schedule), Hend.
  - assert (Hrs : s_readers sys = [(21, Done 210)]).
    { revert Hend. unfold beside_end. vm_compute. by intros [= <-]. }
    destruct (Hdone 0%nat 21 210) as (mid & l & map' & _ & H2 & H3 & H4 & H5 & H6); [by rewrite Hrs|].
    exists sys, mid, l, map'. split_and!; [reflexivity|exact Hrs|exact H2|exact H3|exact H4|exact H5|exact H6].
Defined.

(** Twelve keys: the next call of [hashmap_put] enlarges the table. *)
Definition Z_twelve : hashmap Z Z :=
  match put_all (ops := Z_ops) Z_empty ((fun k => (Z.of_nat k, 0)) <$> seq 0 12) with
  | Val m => m
  | Fault _ => Z_empty
  end.

Lemma Z_twelve_inv : exists M, Z_inv Z_twelve M.
Proof.
  destruct (put_all_spec (ops := Z_ops) Z_empty ∅ ((fun k => (Z.of_nat k, 0)) <$> seq 0 12) Z_empty_inv)
    as (map & M & Hall & Hinv); [intros k v _; by exists k|].
  exists M. unfold Z_twelve. by rewrite Hall.
Qed.

Lemma Z_twelve_load : 70 < hashmap_load_factor Z_twelve.
Proof. vm_compute. reflexivity. Qed.

(** A lookup of 0 that stops before it reads [el->used], and the insertion of 100. *)
Definition growth_schedule : list (option nat) := Some 0%nat :: Some 0%nat :: replicate 58 None.

Definition growth_end : option (system Z Z) :=
  moves Z_ops (-1) growth_schedule (start (in_memory Z_twelve) [(100, 0)] [0]).

Lemma lookups_stay_in_blocks_witness :
  exists sys map', growth_end = Some sys /\ s_readers sys = [(0, AtUsed 0 0)] /\
    lookup_step Z_ops 0 (-1) (AtUsed 0 0) (s_shared sys) = Fault Dangling /\
    sh_array (s_shared sys) <> 0%nat /\
    put_all (ops := Z_ops) Z_twelve [(100, 0)] = Val map' /\ stored (s_shared sys) map'.
Proof.
  destruct Z_twelve_inv as [M Hinv]. destruct (in_memory_stored _ _ Hinv) as [Hs Hsane].
  destruct growth_end as [sys|] eqn:Hend; [|vm_compute in Hend; discriminate].
  assert (Hrun := Hend). unfold growth_end in Hend. apply moves_nsteps in Hend.
  destruct (lookups_stay_in_blocks (ops := Z_ops) (in_memory Z_twelve) Z_twelve M [(100, 0)] [0] (-1) sys
    Hs Hinv Hsane) as (Hread & _ & Hfin).
  - intros k v _. by exists k.
  - intros k _. by exists k.
  - apply rtc_nsteps. by eexists.
  - assert (Hsys : s_readers sys = [(0, AtUsed 0 0)] /\ s_log sys = [] /\ s_todo sys = [] /\
      sh_array (s_shared sys) = 1%nat /\ sh_blocks (s_shared sys) !! 0%nat = None).
    { revert Hrun. unfold growth_end. vm_compute. by intros [= <-]. }
    destruct Hsys as (Hrs & Hlog & Htodo & Harr & Hb).
    destruct (Hfin Hlog Htodo) as (map' & Hall & Hst). exists sys, map'.
    split_and!; [reflexivity|exact Hrs| |by rewrite Harr|exact Hall|exact Hst].
    destruct (Hread 0%nat 0 (AtUsed 0 0)) as [(l' & Hl')|[Hf _]]; [by rewrite Hrs| |exact Hf].
    exfalso. cbn in Hl'. unfold read_element, array_of in Hl'. by rewrite Hb in Hl'.
Defined.

Lemma growth_frees_the_array_witness :
  exists log s', put_accesses Z_ops 100 0 (in_memory Z_twelve) = Val log /\
    lookup_step Z_ops 7 (-1) (AtKey 0 7) s' = Fault Dangling /\
    exists map', hashmap_put Z_ops Z_twelve 100 0 = Val map' /\ stored s' map'.
Proof.
  destruct Z_twelve_inv as [M Hinv]. destruct (in_memory_stored _ _ Hinv) as [Hs Hsane].
  destruct (growth_frees_the_array (ops := Z_ops) (in_memory Z_twelve) Z_twelve M 100 0 100
    Hs Hinv Hsane eq_refl Z_twelve_load) as (log & s' & map' & Hlog & _ & Hput & Hs' & Hdang).
  exists log, s'. split_and!; [exact Hlog|by apply Hdang|exists map'; by split].
Defined.

End HashMapAccessSpec.
