(* ===== verification/ArpAccess.v ===== *)
(** * Lookups without the lock in the translation table (src/src/protocols/arp.c)

    [set_in_arp_cache] calls [hashmap_get] outside [cache_mutex] and copies the address of a
    sender into the cell it returns.  Beside the growth of the table that cell can be the one
    of another host ([growth_poisons_table]). *)

From stdpp Require Import relations.
From S2P Require Import Prelude Words HashMap HashMapFacts World Wp Tun NetInterface.
From S2P Require Import NetFacts Arp ArpFacts ArpSpec ArpThreads ArpThreadsFacts ArpThreadsSpec.
From S2P Require Import ArpRaces HashMapAccess HashMapAccessFacts HashMapAccessSpec.
Import HashMap HashMapFacts World Wp Tun Ethernet NetInterface NetFacts Arp ArpFacts.
Import ArpSpec ArpThreadsFacts ArpThreadsSpec ArpRaces HashMapAccess HashMapAccessFacts.
Import HashMapAccessSpec.

Module ArpAccess.

Implicit Types (w : world) (A : gmap Z cell) (l : loc) (c : cell) (s : shared vptr vptr).
Implicit Types (map : hashmap vptr vptr).

(** The table [map] with a new host: what [hashmap_put] leaves. *)
Lemma new_host_put w A map lk lv i mac :
  arp_inv w A -> w_cache w = CacheMap map -> A !! i = None ->
  w_mem w !! lk = Some (le_store 8 i) -> 0 <= i < 2 ^ 64 ->
  w_mem w !! lv = Some mac -> length mac = 6%nat ->
  ~ owned A w lk -> ~ owned A w lv -> lk <> lv ->
  exists map', hashmap_put (arp_ops (w_mem w)) map (Some (Ptr lk 0)) (Some (Ptr lv 0)) = Val map' /\
    hm_inv (ident_in (w_mem w)) id map' (entry <$> <[i := mk_cell lk lv mac]> A) /\
    arp_inv (set_cache (CacheMap map') w) (<[i := mk_cell lk lv mac]> A).
Proof.
  intros Hinv Hmap Hnew Hlk Hi Hlv Hlen Hok Hov Hne.
  destruct (ai_map _ _ Hinv) as (map0 & Hmap0 & Hm). rewrite Hmap in Hmap0. injection Hmap0 as <-.
  destruct (put_spec (ops := arp_ops (w_mem w)) _ _ _ _ (Some (Ptr lv 0)) Hm
    (ident_store _ _ _ Hlk Hi)) as (map' & Hput & Hm' & _).
  unfold put_abs in Hm'. rewrite lookup_fmap, Hnew in Hm'.
  assert (He : entry <$> <[i := mk_cell lk lv mac]> A =
    <[i := (Some (Ptr lk 0), Some (Ptr lv 0))]> (entry <$> A)) by by rewrite fmap_insert.
  exists map'. rewrite He. split_and!; [done|done|].
  apply (arp_inv_entry w A i map' lk (le_store 8 i) lv mac); try done.
  - by rewrite He.
  - rewrite le_load_store. by apply Z.mod_small.
  - intros Hr. apply Hok. by left.
  - intros Hr. apply Hov. by left.
  - intros k d Hk. split_and!; intros Heq.
    + apply Hok. right. exists k, d. auto.
    + apply Hov. right. exists k, d. auto.
    + exfalso. apply Hov. right. exists k, d. auto.
Qed.

(** The [memcpy] of [set_in_arp_cache], into the cell of a host of the table. *)
Lemma copy_to_cell w A i c src bs :
  arp_inv w A -> A !! i = Some c -> in_block w src 6 bs ->
  exists w', memcpy (Ptr (c_val c) 0) src 6 w = Ok tt w' /\
    arp_inv w' (<[i := with_mac c (bytes_at bs src 6)]> A).
Proof.
  intros Hinv Hi Hsrc. destruct (ai_val _ _ Hinv _ _ Hi) as (Hv & Hlen).
  assert (Hsl : length (bytes_at bs src 6) = 6%nat) by by erewrite length_bytes_at.
  destruct (wp_run (memcpy (Ptr (c_val c) 0) src 6) w
    (fun _ w' => w' = upd_mem w (c_val c) (bytes_at bs src 6))) as ([] & w' & Hrun & ->).
  - eapply wp_memcpy; [exact Hsrc|split_and!; [exact Hv|done|done|cbn; lia]|].
    cbn [p_blk p_off]. f_equal. apply splice_all. rewrite Hlen. exact Hsl.
  - exists (upd_mem w (c_val c) (bytes_at bs src 6)). split; [done|]. by apply arp_inv_set_mac.
Qed.

(** C18 The growth of the table can record the address of one host for another.  A thread adds
    a host to a loaded table; another one handles a frame from the known host [i1]: the
    [hashmap_get] of [set_in_arp_cache] has found the slot of [i1] when the [hashmap_put] of
    the first thread runs, and reads [map->array] again afterwards.  If the growth has moved
    the host [i2] to that slot, the cell it returns is that of [i2], and the [memcpy] leaves a
    well-formed table in which [i2] has the address of the sender and [i1] is as it was. *)
Theorem growth_poisons_table w A map s src bs lk lv i3 mac3 key1 i1 i2 j el1 c2 :
  arp_inv w A -> w_cache w = CacheMap map -> stored s map -> sane (ident := ident_in (w_mem w)) s ->
  A !! i3 = None -> w_mem w !! lk = Some (le_store 8 i3) -> 0 <= i3 < 2 ^ 64 ->
  w_mem w !! lv = Some mac3 -> length mac3 = 6%nat ->
  ~ owned A w lk -> ~ owned A w lv -> lk <> lv ->
  in_block w src 6 bs -> ident_in (w_mem w) key1 = Some i1 ->
  array map !! j = Some el1 -> used_by (ident := ident_in (w_mem w)) i1 el1 ->
  i2 <> i1 -> A !! i2 = Some c2 ->
  (forall map', hashmap_put (arp_ops (w_mem w)) map (Some (Ptr lk 0)) (Some (Ptr lv 0)) = Val map' ->
     exists el, array map' !! j = Some el /\ used_by (ident := ident_in (w_mem w)) i2 el) ->
  exists log s' n map' w',
    put_accesses (arp_ops (w_mem w)) (Some (Ptr lk 0)) (Some (Ptr lv 0)) s = Val log /\
    trace (grows (ident := ident_in (w_mem w))) log s s' /\ stored s' map' /\
    lookup_alone (arp_ops (w_mem w)) n key1 NULL Start s = Val (Found (Z.of_nat j)) /\
    lookup_alone (arp_ops (w_mem w)) 3 key1 NULL (Found (Z.of_nat j)) s' =
      Val (Done (Some (Ptr (c_val c2) 0))) /\
    memcpy (Ptr (c_val c2) 0) src 6 (set_cache (CacheMap map') w) = Ok tt w' /\
    arp_inv w' (<[i2 := with_mac c2 (bytes_at bs src 6)]> (<[i3 := mk_cell lk lv mac3]> A)).
Proof.
  intros Hinv Hmap Hs Hsane Hnew Hlk Hi3 Hlv Hlen Hok Hov Hne Hsrc Hk1 Hj Hby1 Hi12 Hi2 Hslot.
  destruct (ai_map _ _ Hinv) as (map0 & Hmap0 & Hm). rewrite Hmap in Hmap0. injection Hmap0 as <-.
  destruct (new_host_put w A map lk lv i3 mac3) as (map' & Hput & Hm' & Hinv'); try done.
  destruct (Hslot _ Hput) as (el & Hel & Hu & Hid).
  destruct (misdirected_lookup (ops := arp_ops (w_mem w)) s map _ _ (Some (Ptr lv 0)) _ key1 i1 j el1 map' el
    NULL Hs Hm Hsane (ident_store _ _ _ Hlk Hi3) Hk1 Hj Hby1 Hput Hel Hu)
    as (log & s' & n & Hlog & Ht & Hs' & Hstart & Hend).
  assert (Hi2' : <[i3 := mk_cell lk lv mac3]> A !! i2 = Some c2)
    by (rewrite lookup_insert_ne; [done|congruence]).
  assert (Hval : value el = Some (Ptr (c_val c2) 0)).
  { destruct (inv_sound _ _ _ _ Hm' _ _ Hel Hu) as (i & Hi & HM & _).
    assert (i = i2) as -> by congruence. rewrite lookup_fmap, Hi2' in HM. by injection HM as _ <-. }
  rewrite Hval in Hend.
  destruct (copy_to_cell (set_cache (CacheMap map') w) _ i2 c2 src bs Hinv' Hi2' Hsrc) as (w' & Hrun & Hw').
  exists log, s', n, map', w'. done.
Qed.

(** ** Witness *)

(** The hosts of 10.0.0.0/24; the program keeps addresses in network order. *)
Definition subnet (n : nat) : Z := Z.of_nat n * 2 ^ 24 + 10.

Lemma subnet_learned n :
  (n <= 100)%nat -> wp (crowd subnet n) request_world (fun _ w => exists A,
    net_inv [2; 0; 0; 0; 0; 1] w /\ arp_inv w A /\ steps ∅ request_world A w /\
    (forall m, (m <= 100)%nat -> is_Some (A !! to_key ARP_IPV4 (subnet m)) <-> (1 <= m <= n)%nat) /\
    size A = n /\
    forall i, is_Some (A !! i) -> exists m, (m <= 100)%nat /\ i = to_key ARP_IPV4 (subnet m)).
Proof. apply crowd_learned; unfold subnet; lia. Qed.

(** The slot 10 before and after the thirteenth host is added: 10.0.0.1, 10.0.0.7. *)
Definition slot_hosts (w : world) (lk lv : loc) : option (Z * Z * Z) :=
  match w_cache w with
  | CacheMap map =>
      match hashmap_put (arp_ops (w_mem w)) map (Some (Ptr lk 0)) (Some (Ptr lv 0)) with
      | Val map' =>
          el ← array map !! 10%nat; el' ← array map' !! 10%nat;
          if used el && used el' then
            i ← ident_in (w_mem w) (key el); i' ← ident_in (w_mem w) (key el');
            Some (hashmap_load_factor map, i, i')
          else None
      | Fault _ => None
      end
  | _ => None
  end.

Lemma subnet_slot_hosts w w1 lk lv :
  crowd subnet 12 request_world = Ok tt w ->
  ArpThreads.prepare_section (ArpThreads.Learn ARP_IPV4 (subnet 13) (Ptr 5 22)) (Ptr 5 22) w =
    Ok (ArpThreads.Storing (ArpThreads.mk_pending (Ptr lk 0) (Ptr lv 0) false)) w1 ->
  slot_hosts w1 lk lv = Some (75, to_key ARP_IPV4 (subnet 1), to_key ARP_IPV4 (subnet 7)).
Proof.
  intros Hw Hw1.
  assert (Hc : match crowd subnet 12 request_world with
    | Ok _ w =>
        match ArpThreads.prepare_section (ArpThreads.Learn ARP_IPV4 (subnet 13) (Ptr 5 22)) (Ptr 5 22) w with
        | Ok (ArpThreads.Storing p) w1 =>
            slot_hosts w1 (p_blk (ArpThreads.pd_key p)) (p_blk (ArpThreads.pd_data p))
        | _ => None
        end
    | _ => None
    end = Some (75, to_key ARP_IPV4 (subnet 1), to_key ARP_IPV4 (subnet 7))) by (vm_compute; reflexivity).
  rewrite Hw, Hw1 in Hc. exact Hc.
Qed.

Lemma slot_hosts_inv w map lk lv i i' load :
  w_cache w = CacheMap map -> slot_hosts w lk lv = Some (load, i, i') ->
  exists el1, array map !! 10%nat = Some el1 /\ used_by (ident := ident_in (w_mem w)) i el1 /\
    forall map', hashmap_put (arp_ops (w_mem w)) map (Some (Ptr lk 0)) (Some (Ptr lv 0)) = Val map' ->
      exists el, array map' !! 10%nat = Some el /\ used_by (ident := ident_in (w_mem w)) i' el.
Proof.
  intros Hmap. unfold slot_hosts. rewrite Hmap.
  destruct (hashmap_put _ _ _ _) as [map'|]; [|done].
  destruct (array map !! 10%nat) as [el|]; [|done]. cbn.
  destruct (array map' !! 10%nat) as [el'|] eqn:Hel'; [|done]. cbn.
  destruct (used el) eqn:Hu, (used el') eqn:Hu'; try done. cbn.
  destruct (ident_in (w_mem w) (key el)) eqn:Hi, (ident_in (w_mem w) (key el')) eqn:Hi'; try done.
  cbn. intros [= _ <- <-]. exists el. split_and!; [done|by split|].
  intros map2 [= <-]. exists el'. split; [done|by split].
Qed.

(** A frame from 10.0.0.1 while 10.0.0.13 is added: the address goes to 10.0.0.7. *)
Lemma growth_poisons_table_witness :
  exists w A A' w' c, crowd subnet 12 request_world = Ok tt w /\ arp_inv w A /\ arp_inv w' A' /\
    A' !! to_key ARP_IPV4 (subnet 7) = Some c /\ c_mac c = bytes_at request (Ptr 5 6) 6 /\
    A' !! to_key ARP_IPV4 (subnet 1) = A !! to_key ARP_IPV4 (subnet 1).
Proof.
  destruct (wp_run _ _ _ (subnet_learned 12 ltac:(lia))) as ([] & w & Hrun & A & Hnet & Hinv & Hs & Hk & _).
  pose proof (request_buffer _ _ Hs) as Hbuf.
  destruct (prepare_run w ARP_IPV4 (subnet 13) (Ptr 5 22) request Hbuf)
    as (lk & lv & Hlk & Hlv & Hne & Hprep).
  pose proof (subnet_slot_hosts _ _ _ _ Hrun Hprep) as Hslots. set (w1 := new_cells _ _ _ _ _) in *.
  assert (Hinv1 : arp_inv w1 A).
  { repeat apply arp_inv_upd; [done|by eapply fresh_not_arp|by eapply fresh_not_arp]. }
  destruct (ai_map _ _ Hinv1) as (map & Hmap & Hm).
  destruct (slot_hosts_inv _ _ _ _ _ _ _ Hmap Hslots) as (el1 & Hj & Hby & Hnew).
  destruct (proj2 (Hk 1%nat ltac:(lia)) ltac:(lia)) as [c1 Hc1].
  destruct (proj2 (Hk 7%nat ltac:(lia)) ltac:(lia)) as [c7 Hc7].
  assert (H13 : A !! to_key ARP_IPV4 (subnet 13) = None)
    by (apply eq_None_not_Some; rewrite (Hk 13%nat) by lia; lia).
  assert (Hfresh : forall l, w_mem w !! l = None -> ~ owned A w l).
  { intros l Hl [Hr|Ha]; [exact (fresh_not_reserved _ _ _ Hnet Hl Hr)|exact (fresh_not_arp _ _ _ Hinv Hl Ha)]. }
  destruct (ai_key _ _ Hinv1 _ _ Hc1) as (b1 & Hb1 & Hl1 & Hload1).
  destruct (in_memory_stored map _ Hm) as [Hst Hsane].
  assert (Hlk1 : w_mem w1 !! lk = Some (le_store 8 (to_key ARP_IPV4 (subnet 13)))).
  { unfold w1. by rewrite new_cells_lookup, decide_False, decide_True by congruence. }
  assert (Hlv1 : w_mem w1 !! lv = Some (bytes_at request (Ptr 5 22) 6)).
  { unfold w1. by rewrite new_cells_lookup, decide_True. }
  assert (Hsrc : in_block w1 (Ptr 5 6) 6 request).
  { destruct Hbuf as [Hb _]. cbn [p_blk] in Hb. repeat apply in_block_upd; [|cbn [p_blk]; congruence|cbn [p_blk]; congruence].
    assert (Hlen : length request = 100%nat) by (vm_compute; reflexivity).
    split_and!; cbn [p_blk p_off]; [exact Hb|lia|lia|rewrite Hlen; lia]. }
  destruct (growth_poisons_table w1 A map (in_memory map) (Ptr 5 6) request lk lv
    (to_key ARP_IPV4 (subnet 13)) (bytes_at request (Ptr 5 22) 6) (Some (Ptr (c_key c1) 0))
    (to_key ARP_IPV4 (subnet 1)) (to_key ARP_IPV4 (subnet 7)) 10 el1 c7 Hinv1 Hmap Hst Hsane H13 Hlk1
    (to_key_range _ _) Hlv1 (length_bytes_at _ _ _ _ Hbuf) (Hfresh _ Hlk) (Hfresh _ Hlv) Hne Hsrc) as
    (log & s' & n & map' & w' & _ & _ & _ & _ & _ & _ & Hw').
  { rewrite (ident_cell _ _ _ Hb1 Hl1). by rewrite Hload1. }
  { exact Hj. } { exact Hby. } { vm_compute. discriminate. } { exact Hc7. } { exact Hnew. }
  eexists w, A, _, w', _. split_and!; [exact Hrun|exact Hinv|exact Hw'|apply lookup_insert_eq|reflexivity|].
  rewrite !lookup_insert_ne by (vm_compute; discriminate). reflexivity.
Defined.

End ArpAccess.
