(* ===== verification/ArpCost.v ===== *)
(** * The cost of a lookup in the translation table (src/src/protocols/arp.c)

    The hash of arp.c is the key itself, and the key ends in the address in network order:
    the octets that the hosts of one network share are the low ones, which choose the slot.
    [one_chain_rounds] counts the rounds of [hashmap_indexof] when all keys have one home
    slot, [subnet_lookup_is_linear] applies it to the hosts of one network. *)

From S2P Require Import Prelude Words HashMap HashMapFacts HashMapIter World Wp Tun.
From S2P Require Import NetInterface NetFacts Arp ArpFacts ArpSpec ArpRaces ArpAccess.
Import HashMap HashMapFacts World Wp Tun NetInterface NetFacts Arp ArpFacts ArpSpec ArpRaces ArpAccess.

Module ArpCost.

Section Chain.
Context {K V I : Type} {nullK : NullPtr K} {nullV : NullPtr V} `{Countable I}.
Context {ops : KeyOps K} {ident : K -> option I} {ihash : I -> Z}.
Context {laws : KeyLaws ops ident ihash}.
Implicit Types (map : hashmap K V) (M : gmap I (K * V)) (i : I) (k : K).
Implicit Types (arr : list (hashmap_element K V)) (el : hashmap_element K V).

Abbreviation hm_inv := (HashMap.hm_inv ident ihash).

(** The identities in the first slots of a chain of used slots. *)
Lemma chain_idents map M h n :
  hm_inv map M ->
  (forall d, (d < n)%nat -> exists el, array map !! slot (capacity map) h d = Some el /\ used el = true) ->
  exists xs, length xs = n /\ forall d i, xs !! d = Some i ->
    exists el, array map !! slot (capacity map) h d = Some el /\ used el = true /\ ident (key el) = Some i.
Proof.
  intros Hinv. induction n as [|n IH]; intros Hused; [by exists []|].
  destruct IH as (xs & Hlen & His); [intros d Hd; apply Hused; lia|].
  destruct (Hused n ltac:(lia)) as (el & Hel & Hu).
  destruct (inv_sound _ _ _ _ Hinv _ _ Hel Hu) as (i & Hi & _).
  exists (xs ++ [i]). split; [rewrite length_app; cbn; lia|]. intros d i' [Hd|[Hge Hd]]%lookup_app_Some.
  - by apply His.
  - apply list_lookup_singleton_Some in Hd as [Hd <-]. exists el. by replace d with n by lia.
Qed.

(** A stored key with the home slot of [i] stands before the first free slot. *)
Lemma before_free map M i i' d k v el :
  hm_inv map M -> M !! i' = Some (k, v) -> ihash i' mod capacity map = ihash i mod capacity map ->
  array map !! slot (capacity map) (ihash i) d = Some el -> used el = false ->
  exists d2, (d2 < d)%nat /\
    array map !! slot (capacity map) (ihash i) d2 = Some (mk_element true k v).
Proof.
  intros Hinv HM Hhome Hel Hu. destruct (inv_complete _ _ _ _ Hinv _ _ _ HM) as (Hk & j & Hj).
  destruct (inv_sound _ _ _ _ Hinv _ _ Hj eq_refl) as (i2 & Hi2 & _ & d2 & -> & _ & Hmin).
  cbn in Hi2. assert (i2 = i') as -> by congruence.
  assert (Hsame : forall x, slot (capacity map) (ihash i') x = slot (capacity map) (ihash i) x).
  { intros x. unfold slot. by rewrite Zplus_mod, Hhome, <- Zplus_mod. }
  rewrite Hsame in Hj. exists d2. split; [|done].
  destruct (Nat.lt_trichotomy d2 d) as [?|[->|Hgt]];
    [done|rewrite Hel in Hj; by simplify_eq|].
  specialize (Hmin d Hgt). rewrite Hsame in Hmin. unfold stops in Hmin. by rewrite Hel, Hu in Hmin.
Qed.

(** When all keys have the home slot of the absent key [i], they fill the slots from there on
    without a gap, and the probe for [i] stops in the slot behind them. *)
Lemma one_chain_path map M i :
  hm_inv map M -> M !! i = None ->
  (forall i', is_Some (M !! i') -> ihash i' mod capacity map = ihash i mod capacity map) ->
  stops ident (array map) i (slot (capacity map) (ihash i) (size M)) = true /\
  forall d, (d < size M)%nat -> stops ident (array map) i (slot (capacity map) (ihash i) d) = false.
Proof.
  intros Hinv HM Hhome. pose proof (inv_cap_pos _ _ Hinv) as Hcap.
  destruct (path_exists _ _ i Hinv) as (j & d & -> & Hst & Hmin).
  assert (Hd : d = size M); [|by subst d].
  pose proof (first_slot_lt (capacity map) ltac:(lia) _ _ _ Hst Hmin) as Hdlt.
  assert (Hused : forall x, (x < d)%nat -> exists el,
    array map !! slot (capacity map) (ihash i) x = Some el /\ used el = true).
  { intros x Hx. specialize (Hmin x Hx). unfold stops in Hmin.
    destruct (lookup_lt_is_Some_2 (array map) (slot (capacity map) (ihash i) x)) as [el Hel].
    { pose proof (slot_lt (capacity map) ltac:(lia) (ihash i) x).
      pose proof (inv_length _ _ _ _ Hinv). lia. }
    rewrite Hel in Hmin. exists el. split; [done|].
    by apply orb_false_iff in Hmin as [?%negb_false_iff _]. }
  unfold stops in Hst. destruct (array map !! _) as [el|] eqn:Hel; [|done].
  assert (Hfree : used el = false).
  { destruct (used el) eqn:Hu; [|done]. cbn in Hst. apply bool_decide_eq_true_1 in Hst.
    destruct (inv_sound _ _ _ _ Hinv _ _ Hel Hu) as (i' & Hi' & HM' & _). congruence. }
  destruct (chain_idents map M (ihash i) d Hinv Hused) as (xs & Hlen & Hxs).
  rewrite <- Hlen, <- size_dom. rewrite <- (size_list_to_set (C := gset I) xs).
  - f_equal. apply set_eq. intros i'. rewrite elem_of_list_to_set, elem_of_dom. split.
    + intros (x & Hx)%list_elem_of_lookup. destruct (Hxs _ _ Hx) as (e & He & Hu & Hi').
      destruct (inv_sound _ _ _ _ Hinv _ _ He Hu) as (i2 & Hi2 & HM2 & _).
      assert (i2 = i') as -> by congruence. by eexists.
    + intros Hi'. specialize (Hhome _ Hi'). destruct Hi' as [[k v] HM'].
      destruct (before_free _ _ _ _ _ _ _ _ Hinv HM' Hhome Hel Hfree) as (x & Hx & Hex).
      destruct (lookup_lt_is_Some_2 xs x) as [i3 Hi3]; [lia|].
      destruct (Hxs _ _ Hi3) as (e & He & _ & Hie). rewrite Hex in He. injection He as <-.
      destruct (inv_complete _ _ _ _ Hinv _ _ _ HM') as (Hk & _). cbn in Hie.
      assert (i3 = i') as -> by congruence. by eapply list_elem_of_lookup_2.
  - apply NoDup_alt. intros x y i' Hx Hy.
    destruct (Hxs _ _ Hx) as (e1 & He1 & Hu1 & Hi1), (Hxs _ _ Hy) as (e2 & He2 & Hu2 & Hi2).
    apply lookup_lt_Some in Hx, Hy.
    eapply (slot_inj (capacity map) ltac:(lia) (ihash i)); [lia|lia|].
    by eapply (inv_distinct _ _ Hinv).
Qed.

(** With fewer rounds than the chain is long, and one more, the loop is not at its end. *)
Lemma probe_short map M k i d0 :
  hm_inv map M -> ident k = Some i ->
  (forall d, (d < d0)%nat -> stops ident (array map) i (slot (capacity map) (ihash i) d) = false) ->
  forall n d, (d + n <= d0)%nat ->
  probe ops n map k (Z.of_nat (slot (capacity map) (ihash i) d)) = Fault Diverges.
Proof.
  intros Hinv Hk Hmin. pose proof (inv_cap_pos _ _ Hinv).
  induction n as [|n IH]; intros d Hd; [done|]. cbn [probe].
  destruct (lookup_lt_is_Some_2 (array map) (slot (capacity map) (ihash i) d)) as [el Hel].
  { pose proof (slot_lt (capacity map) ltac:(lia) (ihash i) d).
    pose proof (inv_length _ _ _ _ Hinv). lia. }
  rewrite (element_at_lookup _ _ _ Hel). cbn [mbind res_bind].
  specialize (Hmin d ltac:(lia)) as Hs. unfold stops in Hs. rewrite Hel in Hs.
  apply orb_false_iff in Hs as [Hu%negb_false_iff Hne%bool_decide_eq_false_1]. rewrite Hu.
  destruct (inv_sound _ _ _ _ Hinv _ _ Hel Hu) as (i' & Hi' & _).
  rewrite (equals_ident _ _ _ _ Hk Hi'), bool_decide_eq_false_2 by congruence. cbn [mbind res_bind].
  rewrite (inv_mask _ _ _ Hinv), <- slot_succ by lia. apply IH. lia.
Qed.

(** The rounds of the loop of [hashmap_indexof] for an absent key. *)
Lemma one_chain_rounds map M k i :
  hm_inv map M -> ident k = Some i -> M !! i = None ->
  (forall i', is_Some (M !! i') -> ihash i' mod capacity map = ihash i mod capacity map) ->
  forall n, probe ops n map k (ihash i mod capacity map) =
    if decide (n <= size M)%nat then Fault Diverges
    else Val (Z.of_nat (slot (capacity map) (ihash i) (size M))).
Proof.
  intros Hinv Hk HM Hhome n. pose proof (inv_cap_pos _ _ Hinv).
  destruct (one_chain_path _ _ _ Hinv HM Hhome) as (Hst & Hmin).
  replace (ihash i mod capacity map) with (Z.of_nat (slot (capacity map) (ihash i) 0))
    by (rewrite slot_of_nat by lia; f_equal; lia).
  case_decide; [by eapply probe_short; eauto; lia|].
  by eapply probe_steps; eauto; lia.
Qed.
End Chain.

(** C36 All hosts of a network whose first three octets agree collide: with [n] of them in the
    table, and nothing else, the loop of [hashmap_indexof] for a further one makes [n + 1]
    rounds, one after the other through all of them, as long as the table has at most
    [2 ^ 24] slots. *)
Theorem subnet_lookup_is_linear w A (map : hashmap vptr vptr) key i :
  arp_inv w A -> w_cache w = CacheMap map -> capacity map <= 2 ^ 24 ->
  ident_in (w_mem w) key = Some i -> A !! i = None ->
  (forall i', is_Some (A !! i') -> i' mod 2 ^ 24 = i mod 2 ^ 24) ->
  forall n, probe (arp_ops (w_mem w)) n map key (i mod capacity map) =
    if decide (n <= size A)%nat then Fault Diverges
    else Val ((i + Z.of_nat (size A)) mod capacity map).
Proof.
  intros Hinv Hmap Hcap Hk Hnew Hnet n. destruct (ai_map _ _ Hinv) as (map0 & Hmap0 & Hm).
  rewrite Hmap in Hmap0. injection Hmap0 as <-. pose proof (inv_cap_pos _ _ Hm) as Hpos.
  destruct (inv_pow2 _ _ _ _ Hm) as (e & He & Hpow).
  assert (Hdiv : (capacity map | 2 ^ 24)).
  { rewrite Hpow in *. exists (2 ^ (24 - e)). assert (e <= 24) by (apply (Z.pow_le_mono_r_iff 2); lia).
    rewrite <- Z.pow_add_r by lia. f_equal. lia. }
  assert (Hmod : forall x, x mod capacity map = (x mod 2 ^ 24) mod capacity map).
  { intros x. rewrite Z.mod_mod_divide; done. }
  pose proof (one_chain_rounds (ops := arp_ops (w_mem w)) map (entry <$> A) key i Hm Hk) as Hr.
  cbn [id] in Hr. rewrite map_size_fmap, slot_of_nat in Hr by lia. apply Hr.
  - by rewrite lookup_fmap, Hnew.
  - intros i' Hi'. rewrite lookup_fmap, fmap_is_Some in Hi'.
    rewrite (Hmod i'), (Hmod i). unfold id. by rewrite (Hnet _ Hi').
Qed.

(** ** Witness *)

(** Twelve hosts of 10.0.0.0/24 in the table of 16 slots: the thirteenth is looked up in 13
    rounds. *)
Lemma subnet_lookup_is_linear_witness :
  exists w A (map : hashmap vptr vptr) key, crowd subnet 12 request_world = Ok tt w /\
    size A = 12%nat /\ arp_inv w A /\ w_cache w = CacheMap map /\
    probe (arp_ops (<[key := le_store 8 (to_key ARP_IPV4 (subnet 13))]> (w_mem w))) 12 map
      (Some (Ptr key 0)) (to_key ARP_IPV4 (subnet 13) mod capacity map) = Fault Diverges.
Proof.
  destruct (wp_run _ _ _ (subnet_learned 12 ltac:(lia)))
    as ([] & w & Hrun & A & Hnet & Hinv & Hs & Hk & Hsize & Hall).
  set (i := to_key ARP_IPV4 (subnet 13)). set (key := fresh (dom (w_mem w))).
  assert (Hfresh : w_mem w !! key = None) by apply not_elem_of_dom, is_fresh.
  set (w1 := upd_mem w key (le_store 8 i)).
  assert (Hinv1 : arp_inv w1 A) by (apply arp_inv_upd; [done|by eapply fresh_not_arp]).
  destruct (ai_map _ _ Hinv1) as (map & Hmap & Hm).
  assert (Hcap : match crowd subnet 12 request_world with
    | Ok _ w => match w_cache w with CacheMap map => capacity map | _ => 0 end
    | _ => 0 end = 16) by (vm_compute; reflexivity).
  rewrite Hrun in Hcap. change (w_cache w1) with (w_cache w) in Hmap. rewrite Hmap in Hcap.
  assert (Hmod : forall m, (m <= 100)%nat -> to_key ARP_IPV4 (subnet m) mod 2 ^ 24 = 10).
  { intros m Hm'. rewrite to_key_val by (unfold subnet, ARP_IPV4; lia). unfold subnet.
    apply (mod_of_eq _ _ _ (ARP_IPV4 * 2 ^ 8 + Z.of_nat m)); lia. }
  exists w, A, map, key. split_and!; [exact Hrun|exact Hsize|exact Hinv|exact Hmap|].
  pose proof (subnet_lookup_is_linear w1 A map (Some (Ptr key 0)) i Hinv1 Hmap) as Hr.
  rewrite Hsize in Hr. rewrite Hr; [done|rewrite Hcap; lia| | |].
  - apply ident_store; [apply lookup_insert_eq|apply to_key_range].
  - apply eq_None_not_Some. unfold i. rewrite (Hk 13%nat) by lia. lia.
  - intros i' (m & Hm' & ->)%Hall. unfold i. by rewrite !Hmod by lia.
Defined.

End ArpCost.
